(** * Agent workflow orchestrator: a shallow embedding of the CRM agent code

    The development follows the TypeScript sources of the course repository:

    - the state channels of the [StateGraph]s ([(a, b) => b ?? a]);
    - the retry helpers [withRetry] (Exercise 3 and Exercise 4 solutions) and
      the lecture's [calculateBackoff] and [CircuitBreaker];
    - the e-mail helper [sendEmail];
    - the routers and nodes of the Exercise 1-4 graphs;
    - the edge function handler [serve] and [runAgent] of the deployed
      agent;
    - the keyword classifier, the retried query, the nodes, the graph and
      [runAgent] of the resilient agent;
    - the intent classification node of Day 1.

    Conventions.  JavaScript objects used as records of named fields are
    finite maps from field names to values; a missing key reads as
    [undefined].  JavaScript numbers that count things are integers ([Z]);
    delays in milliseconds are rationals ([Q]), an exact idealisation of
    the floating point arithmetic of [Math.pow], [Math.min] and
    [Math.random].  Calls to [console.log] are diagnostics and are not
    modelled.  External services (the database, the text generation
    service, the mail service, the clock, the environment) are oracles. *)

From Stdlib Require Import ZArith QArith Qminmax Qpower Lia Lqa String Ascii List Bool.
From stdpp Require Import base option list gmap strings pretty.

Open Scope string_scope.
Open Scope Z_scope.

(** * The embedding *)

(** ** JavaScript values *)

Module Js.

(** [{ type: string; target?: string }] *)
Record Intent := mkIntent {
  intent_type : string;
  intent_target : option string
}.

(** [interface Lead] of the deployed agent. *)
Record Lead := mkLead {
  lead_id : string;
  company_name : string;
  contact_name : string;
  contact_email : string;
  lead_status : string;
  score : Z;
  estimated_value : option Z;
  notes : option string;
  created_at : string;
  updated_at : string;
  last_contacted_at : option string
}.

(** The values a [Partial<Lead>] carries. *)
Inductive scalar :=
| SNull
| SNum (n : Z)
| SStr (s : string).

Record EmailContent := mkEmailContent {
  email_to : string;
  email_subject : string;
  email_body : string
}.

(** ["update_lead" | "send_email"] *)
Inductive ActionType := update_lead | send_email.

(** [interface PendingAction]; [changes] keeps the insertion order of the
    object literal, as [Object.keys] sees it. *)
Record PendingAction := mkPendingAction {
  action_type : ActionType;
  leadId : string;
  leadName : string;
  changes : option (list (string * scalar));
  emailContent : option EmailContent
}.

(** The values held by the fields of an agent state. *)
Inductive value :=
| VUndefined
| VNull
| VBool (b : bool)
| VNum (n : Z)
| VStr (s : string)
| VIntent (i : Intent)
| VLead (l : Lead)
| VLeads (ls : list Lead)
| VPending (p : PendingAction).

(** An object literal: field name to value. *)
Abbreviation object := (gmap string value).

(** [o.k]: a missing property reads as [undefined]. *)
Definition get (o : object) (k : string) : value :=
  default VUndefined (o !! k).

(** [v === null || v === undefined] *)
Definition nullish (v : value) : bool :=
  match v with
  | VUndefined | VNull => true
  | _ => false
  end.

(** [b ?? a] (note the order of the arguments in the channel reducers). *)
Definition coalesce (a b : value) : value :=
  if nullish b then a else b.

(** JavaScript truthiness, as used by [if (v)], [!v] and [v || w]. *)
Definition truthy (v : value) : bool :=
  match v with
  | VUndefined | VNull => false
  | VBool b => b
  | VNum n => negb (Z.eqb n 0)
  | VStr s => negb (String.eqb s "")
  | VIntent _ | VLead _ | VLeads _ | VPending _ => true
  end.

(** [v === "literal"] *)
Definition is_str (v : value) (s : string) : bool :=
  match v with
  | VStr s' => String.eqb s' s
  | _ => false
  end.

(** [state.intent?.type] *)
Definition intent_type_of (v : value) : value :=
  match v with
  | VIntent i => VStr (intent_type i)
  | _ => VUndefined
  end.

(** [state.intent?.target] *)
Definition intent_target_of (v : value) : value :=
  match v with
  | VIntent i => match intent_target i with Some t => VStr t | None => VUndefined end
  | _ => VUndefined
  end.

End Js.

(** ** State channels and the merge of a node's partial update *)

Module Channels.
Import Js.

(** A channel's [value] function: [(current, update) => new]. *)
Definition reducer := value -> value -> value.

(** The [channels] table of a [StateGraph]: field name and reducer, in
    declaration order. *)
Definition table := list (string * reducer).

(** The merge the graph performs after a node returns [partial]: every
    declared channel whose key is present in [partial] is set to
    [reducer current update]; every other field is left as it is. *)
Definition merge (chs : table) (current partial : object) : object :=
  foldr (fun ch acc =>
           match partial !! ch.1 with
           | Some b => <[ch.1 := ch.2 (get current ch.1) b]> acc
           | None => acc
           end) current chs.

(** [channels] of the approval-gate graph (Exercise 2). *)
Definition approval_channels : table :=
  [ ("userMessage", coalesce); ("intent", coalesce); ("leads", coalesce);
    ("selectedLead", coalesce); ("pendingAction", coalesce);
    ("approvalStatus", coalesce); ("approvalReason", coalesce);
    ("response", coalesce); ("error", coalesce) ].

(** [channels] of the resilient graph (Exercise 3). *)
Definition resilient_channels : table :=
  [ ("userMessage", coalesce); ("intent", coalesce); ("leads", coalesce);
    ("pendingAction", coalesce); ("approvalStatus", coalesce);
    ("response", coalesce); ("error", coalesce); ("errorDetails", coalesce) ].

(** [channels] of the deployed agent (Exercise 4). *)
Definition agent_channels : table :=
  [ ("userMessage", coalesce); ("intent", coalesce); ("leads", coalesce);
    ("selectedLead", coalesce); ("pendingAction", coalesce);
    ("approvalStatus", coalesce); ("response", coalesce); ("error", coalesce) ].

(** [channels] of the fixed loop graph (Day 2, Exercise 1). *)
Definition loop_channels : table :=
  [ ("userMessage", coalesce); ("attempts", coalesce); ("maxAttempts", coalesce);
    ("response", coalesce); ("needsMoreInfo", coalesce);
    ("askedForClarification", coalesce); ("error", coalesce) ].

(** Every reducer of the table is [(a, b) => b ?? a]. *)
Definition all_coalesce (chs : table) : Prop :=
  Forall (fun ch => ch.2 = coalesce) chs.

Definition declared (chs : table) (k : string) : Prop :=
  k ∈ chs.*1.

End Channels.


(** ** Retry with exponential backoff *)

Module Retry.

(** The [Error] objects operations reject with: [message], and the HTTP
    status carried as [status] or [response.status]. *)
Record JsError := mkError {
  message : string;
  status : option Z;
  response_status : option Z
}.

(** What a [throw] statement can raise here: an [Error], or the
    uninitialised [lastError]. *)
Inductive Thrown :=
| Threw (e : JsError)
| ThrewUndefined.

(** [interface RetryOptions] *)
Record RetryOptions := mkRetryOptions {
  maxRetries : Z;
  baseDelayMs : Q;
  maxDelayMs : Q;
  shouldRetry : option (JsError -> bool)
}.

(** [Partial<RetryOptions>]; an explicit [shouldRetry: undefined] is [Some None]. *)
Record PartialRetryOptions := mkPartialRetryOptions {
  p_maxRetries : option Z;
  p_baseDelayMs : option Q;
  p_maxDelayMs : option Q;
  p_shouldRetry : option (option (JsError -> bool))
}.

Definition no_options : PartialRetryOptions :=
  {| p_maxRetries := None; p_baseDelayMs := None; p_maxDelayMs := None;
     p_shouldRetry := None |}.

(** [error?.status || error?.response?.status] *)
Definition status_of (e : JsError) : option Z :=
  match status e with
  | Some s => if Z.eqb s 0 then response_status e else Some s
  | None => response_status e
  end.

(** [defaultRetryOptions.shouldRetry]: client errors other than 429 are
    not retried. *)
Definition default_shouldRetry (e : JsError) : bool :=
  match status_of e with
  | Some s => if (400 <=? s) && (s <? 500) && negb (Z.eqb s 429) then false else true
  | None => true
  end.

Definition defaultRetryOptions : RetryOptions :=
  {| maxRetries := 3;
     baseDelayMs := 1000;
     maxDelayMs := 10000;
     shouldRetry := Some default_shouldRetry |}.

(** [{ ...defaultRetryOptions, ...options }] *)
Definition spread (d : RetryOptions) (o : PartialRetryOptions) : RetryOptions :=
  {| maxRetries := default (maxRetries d) (p_maxRetries o);
     baseDelayMs := default (baseDelayMs d) (p_baseDelayMs o);
     maxDelayMs := default (maxDelayMs d) (p_maxDelayMs o);
     shouldRetry := default (shouldRetry d) (p_shouldRetry o) |}.

(** [opts.shouldRetry?.(error) ?? true] *)
Definition retryable (opts : RetryOptions) (e : JsError) : bool :=
  match shouldRetry opts with
  | Some f => f e
  | None => true
  end.

(** [Math.min(opts.baseDelayMs * Math.pow(2, attempt - 1) * (1 + Math.random() * 0.1),
              opts.maxDelayMs)], with [sample] the value of [Math.random()]. *)
Definition backoff (opts : RetryOptions) (attempt : Z) (sample : Q) : Q :=
  Qmin (baseDelayMs opts * (2 ^ (attempt - 1)) * (1 + sample * (1 # 10)))
       (maxDelayMs opts).

(** One scheduled retry: the attempt that failed, the jitter sample drawn
    for it and the delay slept before the next attempt. *)
Record Wait := mkWait {
  wait_attempt : Z;
  wait_sample : Q;
  wait_delay : Q
}.

Section WithWorld.

(** The world the operation runs in, with its random source and timer. *)
Context {W T : Type}.
Variable random : W -> Q * W.
Variable sleep : Q -> W -> W.

(** [fn: () => Promise<T>]: resolves with a value or rejects with an error. *)
Definition Operation := W -> (T + JsError) * W.

(** A completed call of the retry helper: what it returned or threw, the
    outcome of every invocation of [fn] in order, the retries it
    scheduled, and the world it left. *)
Record Run := mkRun {
  outcome : T + Thrown;
  history : list (T + JsError);
  waits : list Wait;
  final : W
}.

Definition invocations (r : Run) : nat := length (history r).

Definition cons_attempt (o : T + JsError) (wt : Wait) (r : Run) : Run :=
  {| outcome := outcome r; history := o :: history r;
     waits := wt :: waits r; final := final r |}.

(** The [for (let attempt = 1; attempt <= opts.maxRetries; attempt++)] loop
    of the Exercise 3 helper; [None] only when [fuel] runs out. *)
Fixpoint retry_loop (fuel : nat) (fn : Operation) (opts : RetryOptions)
    (attempt : Z) (lastError : Thrown) (w : W) : option Run :=
  match fuel with
  | O => None
  | S fuel' =>
      if attempt <=? maxRetries opts then
        match fn w with
        | (inl v, w1) =>
            Some {| outcome := inl v; history := [inl v]; waits := []; final := w1 |}
        | (inr error, w1) =>
            let isLastAttempt := Z.eqb attempt (maxRetries opts) in
            let shouldRetry := retryable opts error in
            if isLastAttempt || negb shouldRetry then
              Some {| outcome := inr (Threw error); history := [inr error];
                      waits := []; final := w1 |}
            else
              let '(sample, w2) := random w1 in
              let delay := backoff opts attempt sample in
              cons_attempt (inr error) (mkWait attempt sample delay)
                <$> retry_loop fuel' fn opts (attempt + 1) (Threw error) (sleep delay w2)
        end
      else
        Some {| outcome := inr lastError; history := []; waits := []; final := w |}
  end.

(** [withRetry(fn, options)] of the Exercise 3 solution. *)
Definition withRetry (fn : Operation) (options : PartialRetryOptions) (w : W)
    : option Run :=
  let opts := spread defaultRetryOptions options in
  retry_loop (S (Z.to_nat (maxRetries opts))) fn opts 1 ThrewUndefined w.

(** The lecture's [calculateBackoff(attempt, baseDelay = 1000)]. *)
Definition calculateBackoff (attempt : Z) (baseDelay : option Q) (w : W) : Q * W :=
  let baseDelay := default (1000 : Q) baseDelay in
  let '(sample, w1) := random w in
  let jitter := (sample * (3 # 10))%Q in
  ((baseDelay * (2 ^ (attempt - 1)) * (1 + jitter))%Q, w1).

End WithWorld.

Arguments Run : clear implicits.
Arguments Operation : clear implicits.

(** *** The helper of the deployed agent (Exercise 4) *)

Module Simple.

Section WithWorld.

Context {W T : Type}.
Variable sleep : Q -> W -> W.

(** The loop of the Exercise 4 helper: no classifier, and a linear delay
    [1000 * attempt] after every failed attempt but the last; no jitter
    sample is drawn, and the recorded one is 0. *)
Fixpoint simple_loop (fuel : nat) (fn : Operation W T) (maxRetries : Z)
    (attempt : Z) (lastError : Thrown) (w : W) : option (Run W T) :=
  match fuel with
  | O => None
  | S fuel' =>
      if attempt <=? maxRetries then
        match fn w with
        | (inl v, w1) =>
            Some {| outcome := inl v; history := [inl v]; waits := []; final := w1 |}
        | (inr error, w1) =>
            if attempt <? maxRetries then
              let delay := inject_Z (1000 * attempt) in
              cons_attempt (inr error) (mkWait attempt 0 delay)
                <$> simple_loop fuel' fn maxRetries (attempt + 1) (Threw error)
                      (sleep delay w1)
            else
              (fun r => {| outcome := outcome r; history := inr error :: history r;
                           waits := waits r; final := final r |})
                <$> simple_loop fuel' fn maxRetries (attempt + 1) (Threw error) w1
        end
      else
        Some {| outcome := inr lastError; history := []; waits := []; final := w |}
  end.

(** [withRetry(fn, maxRetries = 3)] of the Exercise 4 solution. *)
Definition withRetry (fn : Operation W T) (maxRetries : option Z) (w : W)
    : option (Run W T) :=
  let maxRetries := default 3 maxRetries in
  simple_loop (S (Z.to_nat maxRetries)) fn maxRetries 1 ThrewUndefined w.

End WithWorld.

End Simple.

(** The delay formula as the specification words it:
    [min(max_delay, base_delay * 2^(n-1)) * (1 + random() * jitter_fraction)]. *)
Definition spec_delay (max_delay base_delay : Q) (n : Z) (sample jitter_fraction : Q) : Q :=
  (Qmin max_delay (base_delay * (2 ^ (n - 1))) * (1 + sample * jitter_fraction))%Q.

(** A world with nothing in it, for closed examples: [Math.random()]
    always returns [1/2] and timers do nothing. *)
Definition half (w : unit) : Q * unit := (1 # 2, w).
Definition no_sleep (d : Q) (w : unit) : unit := w.

(** An operation that rejects with the same HTTP error on every call. *)
Definition failing (code : Z) : Operation unit unit :=
  fun w => (inr (mkError "request failed" (Some code) None), w).

End Retry.

(** ** The lecture's circuit breaker *)

Module Breaker.
Import Retry.

(** The mutable fields of [class CircuitBreaker]; [lastFailure] holds the
    [getTime()] of the recorded [Date], or [None] for [null]. *)
Record CircuitBreaker := mkBreaker {
  failures : Z;
  lastFailure : option Z
}.

Definition threshold : Z := 5.
Definition resetTimeout : Z := 60000.

(** [new CircuitBreaker()] *)
Definition fresh : CircuitBreaker := {| failures := 0; lastFailure := None |}.

(** [new Error("Circuit breaker is open - service unavailable")] *)
Definition circuit_open : JsError :=
  mkError "Circuit breaker is open - service unavailable" None None.

Section WithClock.

Context {W T : Type}.
(** [Date.now()] and [new Date()] read the clock of the world. *)
Variable now : W -> Z * W.

(** [this.lastFailure?.getTime() || 0] *)
Definition lastFailureTime (cb : CircuitBreaker) : Z :=
  match lastFailure cb with
  | Some t => if Z.eqb t 0 then 0 else t
  | None => 0
  end.

Definition isOpen (cb : CircuitBreaker) (w : W) : bool * W :=
  if failures cb <? threshold then (false, w)
  else
    let '(t, w1) := now w in
    let timeSinceFailure := t - lastFailureTime cb in
    (timeSinceFailure <? resetTimeout, w1).

Definition recordFailure (cb : CircuitBreaker) (w : W) : CircuitBreaker * W :=
  let '(t, w1) := now w in
  ({| failures := failures cb + 1; lastFailure := Some t |}, w1).

Definition reset (cb : CircuitBreaker) : CircuitBreaker :=
  {| failures := 0; lastFailure := None |}.

(** One call of [execute]: what it returned or threw, the breaker it left,
    whether [fn] was invoked, and the world afterwards. *)
Record Call := mkCall {
  result : T + JsError;
  breaker : CircuitBreaker;
  invoked : bool;
  world : W
}.

Definition execute (cb : CircuitBreaker) (fn : Operation W T) (w : W) : Call :=
  let '(open, w0) := isOpen cb w in
  if open then
    {| result := inr circuit_open; breaker := cb; invoked := false; world := w0 |}
  else
    match fn w0 with
    | (inl v, w1) =>
        {| result := inl v; breaker := reset cb; invoked := true; world := w1 |}
    | (inr error, w1) =>
        let '(cb', w2) := recordFailure cb w1 in
        {| result := inr error; breaker := cb'; invoked := true; world := w2 |}
    end.

(** A sequence of calls through one breaker. *)
Fixpoint execute_all (cb : CircuitBreaker) (fns : list (Operation W T)) (w : W)
    : CircuitBreaker * W :=
  match fns with
  | [] => (cb, w)
  | fn :: rest =>
      let c := execute cb fn w in
      execute_all (breaker c) rest (world c)
  end.

End WithClock.

Arguments Call : clear implicits.

(** A breaker that has counted a failure remembers when it happened. *)
Definition consistent (cb : CircuitBreaker) : Prop :=
  0 <= failures cb /\ (0 < failures cb -> is_Some (lastFailure cb)).

(** A world that is just a clock, for closed examples: reading the time
    does not advance it, and every operation takes one millisecond. *)
Definition clock (t : Z) : Z * Z := (t, t).
Definition fails_after_1ms : Operation Z unit :=
  fun t => (inr (mkError "service unavailable" (Some 503) None), t + 1).
Definition succeeds_after_1ms : Operation Z unit :=
  fun t => (inl tt, t + 1).

End Breaker.

(** ** The outside world of the agent *)

Module Host.
Import Js Retry.

(** [.select("*")] queries on a table, with the filter and order applied. *)
Inductive Filter :=
| NoFilter
| Gt (column : string) (n : Z)
| Ilike (column : string) (pattern : string).

Record Query := mkQuery {
  q_table : string;
  q_filter : Filter;
  q_order : option (string * bool)
}.

(** A row inserted into [interactions]; [metadata] is [Some id] for
    [{ message_id: id }]. *)
Record Interaction := mkInteraction {
  i_lead_id : string;
  interaction_type : string;
  description : string;
  performed_by : string;
  required_approval : bool;
  approved : bool;
  metadata : option (option string)
}.

(** The body and headers of the [POST https://api.resend.com/emails]. *)
Record EmailRequest := mkEmailRequest {
  authorization : string;
  from : string;
  to : string;
  subject : string;
  text : string
}.

(** What the code did to the outside world, in order. *)
Inductive Effect :=
| LlmCall (prompt : string)
| DbSelect (q : Query)
| DbUpdate (table : string) (chg : list (string * scalar)) (id : string)
| DbInsert (table : string) (row : Interaction)
| HttpPost (url : string) (req : EmailRequest)
| Slept (ms : Q).

Inductive ContentBlock :=
| TextBlock (t : string)
| OtherBlock.

(** The reply of the database client: [{ data, error }], or a rejection. *)
Inductive DbReply (A : Type) :=
| DbReturned (data : option A) (error : option JsError)
| DbThrew (e : JsError).
Arguments DbReturned {A} data error.
Arguments DbThrew {A} e.

(** The [Response] of [fetch]: [ok], [status], [await text()] and the [id]
    property of [await json()] (which may reject). *)
Record Response := mkResponse {
  ok : bool;
  http_status : Z;
  body_text : string;
  json_id : option string + JsError
}.

(** The collaborators and the built-ins of the runtime.  The first
    argument of an oracle is the number of consultations made before it,
    so that replies may differ from call to call. *)
Record Host := mkHost {
  env : gmap string string;
  HIGH_VALUE_THRESHOLD : option Z;
  date_now : nat -> Z;
  date_iso : nat -> string;
  math_random : nat -> Q;
  messages_create : nat -> string -> list ContentBlock + JsError;
  db_select : nat -> Query -> DbReply (list Lead);
  db_update : nat -> string -> list (string * scalar) -> string -> DbReply unit;
  db_insert : nat -> string -> Interaction -> DbReply unit;
  fetch : nat -> string -> EmailRequest -> Response + JsError;
  toLowerCase : string -> string;
  JSON_parse : string -> value + JsError;
  JSON_stringify : list (string * scalar) -> string
}.

(** The consultations made so far and the effects performed so far. *)
Record World := mkWorld {
  tick : nat;
  trace : list Effect
}.

Definition start : World := {| tick := 0; trace := [] |}.

(** Computations of the agent: they read and change the world, and
    either return or throw. *)
Definition M (A : Type) : Type := World -> (A + Thrown) * World.

#[global] Instance M_ret : MRet M := fun A (a : A) w => (inl a, w).

#[global] Instance M_bind : MBind M := fun A B (f : A -> M B) (m : M A) w =>
  match m w with
  | (inl a, w1) => f a w1
  | (inr t, w1) => (inr t, w1)
  end.

Definition throw {A : Type} (t : Thrown) : M A := fun w => (inr t, w).

(** [try { body } catch (e) { handler }] *)
Definition try_catch {A : Type} (body : M A) (handler : Thrown -> M A) : M A :=
  fun w =>
    match body w with
    | (inl a, w1) => (inl a, w1)
    | (inr t, w1) => handler t w1
    end.

(** A [TypeError] raised by the runtime. *)
Definition TypeError (msg : string) : Thrown := Threw (mkError msg None None).

(** [e.message] in a catch block. *)
Definition message_of (t : Thrown) : M string :=
  match t with
  | Threw e => mret (message e)
  | ThrewUndefined =>
      throw (TypeError "Cannot read properties of undefined (reading 'message')")
  end.

(** One consultation of the outside world: the effect is recorded and the
    counter advances. *)
Definition consult (effects : list Effect) (w : World) : World :=
  {| tick := S (tick w); trace := trace w ++ effects |}.

Section WithHost.
Variable h : Host.

(** [Deno.env.get(name)] *)
Definition env_get (name : string) : option string := env h !! name.

(** [Date.now()] *)
Definition now : M Z := fun w => (inl (date_now h (tick w)), consult [] w).

(** [new Date().toISOString()] *)
Definition now_iso : M string := fun w => (inl (date_iso h (tick w)), consult [] w).

(** [Math.random()] and [setTimeout], as the retry helpers use them. *)
Definition random (w : World) : Q * World := (math_random h (tick w), consult [] w).
Definition sleep (ms : Q) (w : World) : World :=
  {| tick := tick w; trace := trace w ++ [Slept ms] |}.

(** [anthropic.messages.create({ ... content: prompt })] *)
Definition create_message (prompt : string) : Operation World (list ContentBlock) :=
  fun w => (messages_create h (tick w) prompt, consult [LlmCall prompt] w).

Definition db_reply {A : Type} (r : DbReply A) : (option A * option JsError) + Thrown :=
  match r with
  | DbReturned data error => inl (data, error)
  | DbThrew e => inr (Threw e)
  end.

(** [await supabase.from(table).select("*")...] *)
Definition select (q : Query) : M (option (list Lead) * option JsError) :=
  fun w => (db_reply (db_select h (tick w) q), consult [DbSelect q] w).

(** [await supabase.from(table).update(changes).eq("id", id)] *)
Definition update (table : string) (chg : list (string * scalar)) (id : string)
    : M (option unit * option JsError) :=
  fun w => (db_reply (db_update h (tick w) table chg id), consult [DbUpdate table chg id] w).

(** [await supabase.from(table).insert(row)] *)
Definition insert (table : string) (row : Interaction)
    : M (option unit * option JsError) :=
  fun w => (db_reply (db_insert h (tick w) table row), consult [DbInsert table row] w).

(** [await fetch(url, { method: "POST", ... })] *)
Definition post (url : string) (req : EmailRequest) : Operation World Response :=
  fun w => (fetch h (tick w) url req, consult [HttpPost url req] w).

End WithHost.

(** The result of a retry helper, back in the agent's computations.  The
    loops always settle (see [RetryFacts]); the second branch is never
    taken. *)
Definition settle {T : Type} (r : option (Run World T)) : M T :=
  fun w =>
    match r with
    | Some run => (outcome run, final run)
    | None => (inr ThrewUndefined, w)
    end.

(** A line feed and a double quote, for the template literals. *)
Definition nl : string := String (ascii_of_nat 10) EmptyString.
Definition dq : string := String (ascii_of_nat 34) EmptyString.

(** [s.includes(sub)] *)
Fixpoint includes (sub s : string) : bool :=
  if String.prefix sub s then true
  else match s with
       | EmptyString => false
       | String _ s' => includes sub s'
       end.

(** [`${v}`] for the values of a state. *)
Definition to_string (v : value) : string :=
  match v with
  | VUndefined => "undefined"
  | VNull => "null"
  | VBool true => "true"
  | VBool false => "false"
  | VNum n => pretty n
  | VStr s => s
  | VLeads ls => String.concat "," (List.map (fun _ => "[object Object]") ls)
  | VIntent _ | VLead _ | VPending _ => "[object Object]"
  end.

End Host.

(** ** Sending e-mail *)

Module Email.
Import Js Retry Host.

(** [interface EmailResult] *)
Record EmailResult := mkEmailResult {
  success : bool;
  messageId : option string;
  error : option string
}.

(** A string environment variable or literal in a boolean position:
    [undefined] and [""] are falsy. *)
Definition nonempty (o : option string) : option string :=
  match o with
  | Some s => if String.eqb s "" then None else Some s
  | None => None
  end.

Definition resend_url : string := "https://api.resend.com/emails".

(** A rejecting operation rejects the computation that awaits it. *)
Definition await {T : Type} (op : Operation World T) : M T :=
  fun w =>
    match op w with
    | (inl v, w1) => (inl v, w1)
    | (inr e, w1) => (inr (Threw e), w1)
    end.

Section WithHost.
Variable h : Host.

(** [sendEmail(to, subject, body)] of the deployed agent (Exercise 4). *)
Definition sendEmail (to subject body : string) : M EmailResult :=
  match nonempty (env_get h "RESEND_API_KEY") with
  | None =>
      t ← now h;
      mret {| success := true; messageId := Some ("mock-" ++ pretty t); error := None |}
  | Some apiKey =>
      try_catch
        (response ← await (post h resend_url
           {| authorization := "Bearer " ++ apiKey;
              from := default "onboarding@resend.dev" (nonempty (env_get h "EMAIL_FROM"));
              to := to; subject := subject; text := body |});
         if negb (ok response) then
           mret {| success := false; messageId := None;
                   error := Some (body_text response) |}
         else
           match json_id response with
           | inl id => mret {| success := true; messageId := id; error := None |}
           | inr e => throw (Threw e)
           end)
        (fun e =>
           msg ← message_of e;
           mret {| success := false; messageId := None; error := Some msg |})
  end.

End WithHost.

(** *** The resilient agent (Exercise 3) *)

Module Resilient.

Section WithHost.
Variable h : Host.

(** The operation the Exercise 3 helper retries: one [POST], which rejects
    when the reply is not [ok]. *)
Definition post_email (apiKey fromEmail : string) (params : EmailContent)
    : Operation World EmailResult :=
  fun w =>
    match post h resend_url
            {| authorization := "Bearer " ++ apiKey; from := fromEmail;
               to := email_to params; subject := email_subject params;
               text := email_body params |} w with
    | (inr e, w1) => (inr e, w1)
    | (inl response, w1) =>
        if negb (ok response) then
          (inr (mkError ("Resend error: " ++ body_text response)
                        (Some (http_status response)) None), w1)
        else
          match json_id response with
          | inl id => (inl {| success := true; messageId := id; error := None |}, w1)
          | inr e => (inr e, w1)
          end
    end.

(** [sendEmail(params)] of the resilient agent (Exercise 3). *)
Definition sendEmail (params : EmailContent) : M EmailResult :=
  let apiKey := env_get h "RESEND_API_KEY" in
  let fromEmail := default "onboarding@resend.dev" (nonempty (env_get h "EMAIL_FROM")) in
  match nonempty apiKey with
  | None =>
      t ← now h;
      mret {| success := true; messageId := Some ("mock-" ++ pretty t); error := None |}
  | Some apiKey =>
      fun w =>
        settle (withRetry (random h) sleep (post_email apiKey fromEmail params)
                  {| p_maxRetries := Some 2; p_baseDelayMs := Some (2000 : Q);
                     p_maxDelayMs := None; p_shouldRetry := None |} w) w
  end.

End WithHost.

End Resilient.

(** The requests sent to the mail service among some effects. *)
Definition posts (effects : list Effect) : list Effect :=
  List.filter (fun e => match e with HttpPost _ _ => true | _ => false end) effects.

End Email.

(** ** The graph engine *)

Module Engine.
Import Retry.

Inductive Target :=
| Goto (node : string)
| END.

(** Modelled from the spec: the states in which a run of the engine can
    stop (the engine is the LangGraph library, which is not part of the
    sources). *)
Inductive Status :=
| completed
| failed
| awaiting_approval.

(** Modelled from the spec: why a run is [failed] without the state
    carrying the error: the step budget was exceeded, the edge table names
    no destination, or a node's failure ended the run. *)
Inductive Failure :=
| StepBudgetExceededError
| UnknownNode (node : string)
| UnknownRoute (node : string)
| NodeFailed (node : string) (thrown : Thrown).

Section Generic.

Context {State Partial W : Type}.

(** The state container: how a partial update is merged, how a node's
    failure is attached to the state ([None] when the engine lets the
    failure end the run instead), whether the state carries an error, and
    whether an update proposes an action that must wait for approval. *)
Variable merge : State -> Partial -> State.
Variable attach_error : Thrown -> State -> option State.
Variable has_error : State -> bool.
Variable suspends : Partial -> bool.

(** A node: from the state to a partial update, or a failure. *)
Definition Node := State -> W -> (Partial + Thrown) * W.

(** [addEdge] and [addConditionalEdges]: a fixed destination, or a router
    and the mapping of its outputs. *)
Inductive Edge :=
| Fixed (t : Target)
| Conditional (router : State -> string) (mapping : gmap string Target).

Record Graph := mkGraph {
  nodes : gmap string Node;
  entry : string;
  edges : gmap string Edge
}.

(** One node execution: the node, the world and state it started from,
    what it returned, and the world it left. *)
Record Step := mkStep {
  step_node : string;
  step_state : State;
  step_before : W;
  step_result : Partial + Thrown;
  step_after : W
}.

Record Outcome := mkOutcome {
  status : Status;
  failure : option Failure;
  final_state : State;
  steps : list Step;
  world : W
}.

(** The number of node executions of a run. *)
Definition executed (o : Outcome) : nat := length (steps o).

Definition stop (s : Status) (f : option Failure) (st : State) (w : W) : Outcome :=
  {| status := s; failure := f; final_state := st; steps := []; world := w |}.

Definition after_step (s : Step) (o : Outcome) : Outcome :=
  {| status := status o; failure := failure o; final_state := final_state o;
     steps := s :: steps o; world := world o |}.

(** The destination the edge table gives after [node] in state [st]. *)
Definition next (g : Graph) (node : string) (st : State) : option Target :=
  match edges g !! node with
  | Some (Fixed t) => Some t
  | Some (Conditional router mapping) => mapping !! router st
  | None => None
  end.

(** Modelled from the spec: the run loop of the graph engine, which the
    sources take from the LangGraph library.  The loop executes the current
    node, merges the update into the state (a failure of the node is
    attached to the state instead and routed like any other state, unless
    the engine is set up to let it end the run), suspends when the update
    proposes an action needing approval, and otherwise asks the edge table
    for the next node; at the terminal marker the run is [failed] if the
    state carries an error and [completed] if not.  [remaining] is what is left of the
    step budget: when it is used up and another node is due, the run is
    [failed] with [StepBudgetExceededError]. *)
Fixpoint run_from (g : Graph) (remaining : nat) (node : string) (st : State) (w : W)
    : Outcome :=
  match remaining with
  | O => stop failed (Some StepBudgetExceededError) st w
  | S remaining' =>
      match nodes g !! node with
      | None => stop failed (Some (UnknownNode node)) st w
      | Some body =>
          let '(r, w1) := body st w in
          let route st1 :=
            match next g node st1 with
            | None => stop failed (Some (UnknownRoute node)) st1 w1
            | Some END =>
                stop (if has_error st1 then failed else completed) None st1 w1
            | Some (Goto node') => run_from g remaining' node' st1 w1
            end in
          after_step (mkStep node st w r w1)
            match r with
            | inl partial =>
                let st1 := merge st partial in
                if suspends partial then stop awaiting_approval None st1 w1
                else route st1
            | inr thrown =>
                match attach_error thrown st with
                | Some st1 => route st1
                | None => stop failed (Some (NodeFailed node thrown)) st w1
                end
            end
      end
  end.

(** Modelled from the spec: a run starts at the entry node with the whole
    step budget. *)
Definition run (g : Graph) (budget : nat) (st : State) (w : W) : Outcome :=
  run_from g budget (entry g) st w.

End Generic.

Arguments Graph : clear implicits.
Arguments Node : clear implicits.
Arguments Edge : clear implicits.
Arguments Step : clear implicits.
Arguments Outcome : clear implicits.

(** Modelled from the spec: the graph of Scenario D.  The router of [X]
    always returns [Y] and the router of [Y] always returns [X]; the nodes
    change nothing. *)
Definition ping_pong : Graph unit unit unit :=
  {| nodes := {[ "X" := (fun _ w => (inl tt, w)) : Node unit unit unit;
                 "Y" := (fun _ w => (inl tt, w)) : Node unit unit unit ]};
     entry := "X";
     edges := {[ "X" := Conditional (fun _ => "Y") {[ "Y" := Goto "Y" ]};
                 "Y" := Conditional (fun _ => "X") {[ "X" := Goto "X" ]} ]} |}.

End Engine.

(** ** The fixed loop graph (Day 2, Exercise 1) *)

Module Loop.
Import Retry Engine.

(** [interface AgentState] *)
Record AgentState := mkState {
  userMessage : string;
  attempts : Z;
  maxAttempts : Z;
  response : option string;
  needsMoreInfo : bool;
  askedForClarification : bool;
  error : option string
}.

(** [Partial<AgentState>]: [None] for an absent key; for the nullable
    fields [Some None] is a key present with the value [null]. *)
Record Update := mkUpdate {
  u_userMessage : option string;
  u_attempts : option Z;
  u_maxAttempts : option Z;
  u_response : option (option string);
  u_needsMoreInfo : option bool;
  u_askedForClarification : option bool;
  u_error : option (option string)
}.

Definition no_update : Update :=
  {| u_userMessage := None; u_attempts := None; u_maxAttempts := None;
     u_response := None; u_needsMoreInfo := None;
     u_askedForClarification := None; u_error := None |}.

(** [(a, b) => b ?? a] on a field that cannot be [null]. *)
Definition keep {A : Type} (a : A) (b : option A) : A := default a b.

(** [(a, b) => b ?? a] on a nullable field. *)
Definition keep_nullable {A : Type} (a : option A) (b : option (option A)) : option A :=
  match b with
  | Some (Some v) => Some v
  | Some None | None => a
  end.

(** The merge through the [channels] of the graph, field by field. *)
Definition merge (a : AgentState) (b : Update) : AgentState :=
  {| userMessage := keep (userMessage a) (u_userMessage b);
     attempts := keep (attempts a) (u_attempts b);
     maxAttempts := keep (maxAttempts a) (u_maxAttempts b);
     response := keep_nullable (response a) (u_response b);
     needsMoreInfo := keep (needsMoreInfo a) (u_needsMoreInfo b);
     askedForClarification := keep (askedForClarification a) (u_askedForClarification b);
     error := keep_nullable (error a) (u_error b) |}.

(** [if (s)] on a [string | null]. *)
Definition is_set (s : option string) : bool :=
  match s with
  | Some s => negb (String.eqb s "")
  | None => false
  end.

Section WithLength.

(** [s.length] *)
Variable js_length : string -> Z.

Definition analyzeRequest (state : AgentState) : Update :=
  if maxAttempts state <=? attempts state then
    {| u_userMessage := None; u_attempts := None; u_maxAttempts := None;
       u_response := Some (Some "I wasn't able to understand your request after several tries. Could you try rephrasing it differently?");
       u_needsMoreInfo := Some false;
       u_askedForClarification := None;
       u_error := Some (Some "Max attempts exceeded") |}
  else if askedForClarification state then
    {| u_userMessage := None; u_attempts := Some (attempts state + 1);
       u_maxAttempts := None;
       u_response := Some (Some ("I'll do my best with what you told me: "
                                 ++ Host.dq ++ userMessage state ++ Host.dq));
       u_needsMoreInfo := Some false;
       u_askedForClarification := None; u_error := None |}
  else if js_length (userMessage state) <? 20 then
    {| u_userMessage := None; u_attempts := Some (attempts state + 1);
       u_maxAttempts := None; u_response := None;
       u_needsMoreInfo := Some true;
       u_askedForClarification := None; u_error := None |}
  else
    {| u_userMessage := None; u_attempts := Some (attempts state + 1);
       u_maxAttempts := None;
       u_response := Some (Some ("Analyzed successfully: "
                                 ++ Host.dq ++ userMessage state ++ Host.dq));
       u_needsMoreInfo := Some false;
       u_askedForClarification := None; u_error := None |}.

Definition requestClarification (state : AgentState) : Update :=
  {| u_userMessage := None; u_attempts := None; u_maxAttempts := None;
     u_response := Some (Some "Could you provide more details? Your message seems a bit short.");
     u_needsMoreInfo := Some false;
     u_askedForClarification := Some true;
     u_error := None |}.

Definition routeAnalysis (state : AgentState) : string :=
  if is_set (response state) then "end"
  else if maxAttempts state <=? attempts state then "end"
  else if is_set (error state) then "end"
  else if needsMoreInfo state && negb (askedForClarification state)
       then "request_clarification"
  else "end".

(** The nodes of this graph use nothing of the outside world. *)
Definition pure (f : AgentState -> Update) : Node AgentState Update unit :=
  fun st w => (inl (f st), w).

(** The mapping given to [addConditionalEdges] with [routeAnalysis]. *)
Definition routeAnalysis_mapping : gmap string Target :=
  {[ "request_clarification" := Goto "request_clarification"; "end" := END ]}.

(** The graph: [analyze_request] is the entry point, [routeAnalysis]
    chooses after it, and [request_clarification] goes back to it. *)
Definition graph : Graph AgentState Update unit :=
  {| nodes := {[ "analyze_request" := pure analyzeRequest;
                 "request_clarification" := pure requestClarification ]};
     entry := "analyze_request";
     edges := {[ "analyze_request" := Conditional routeAnalysis routeAnalysis_mapping;
                 "request_clarification" := Fixed (Goto "analyze_request") ]} |}.

(** A failure of a node, attached to the state. *)
Definition attach_error (t : Thrown) (st : AgentState) : option AgentState :=
  Some {| userMessage := userMessage st; attempts := attempts st;
          maxAttempts := maxAttempts st; response := response st;
          needsMoreInfo := needsMoreInfo st;
          askedForClarification := askedForClarification st;
          error := Some (match t with
                         | Threw e => message e
                         | ThrewUndefined => "undefined"
                         end) |}.

(** [app.invoke(state)] under a step budget. *)
Definition invoke (budget : nat) (st : AgentState) : Outcome AgentState Update unit :=
  run merge attach_error (fun st => is_set (error st)) (fun _ => false)
      graph budget st tt.

End WithLength.

End Loop.

(** ** The buggy loop graph the exercise starts from *)

Module BuggyLoop.
Import Retry Engine.

(** [interface BuggyState] *)
Record BuggyState := mkState {
  userMessage : string;
  attempts : Z;
  response : option string;
  needsMoreInfo : bool
}.

Record Update := mkUpdate {
  u_userMessage : option string;
  u_attempts : option Z;
  u_response : option (option string);
  u_needsMoreInfo : option bool
}.

Definition merge (a : BuggyState) (b : Update) : BuggyState :=
  {| userMessage := Loop.keep (userMessage a) (u_userMessage b);
     attempts := Loop.keep (attempts a) (u_attempts b);
     response := Loop.keep_nullable (response a) (u_response b);
     needsMoreInfo := Loop.keep (needsMoreInfo a) (u_needsMoreInfo b) |}.

Section WithLength.
Variable js_length : string -> Z.

Definition analyzeRequest (state : BuggyState) : Update :=
  if js_length (userMessage state) <? 20 then
    {| u_userMessage := None; u_attempts := Some (attempts state + 1);
       u_response := None; u_needsMoreInfo := Some true |}
  else
    {| u_userMessage := None; u_attempts := None;
       u_response := Some (Some "Analyzed successfully!");
       u_needsMoreInfo := None |}.

Definition requestClarification (state : BuggyState) : Update :=
  {| u_userMessage := None; u_attempts := None;
     u_response := Some (Some "Could you provide more details?");
     u_needsMoreInfo := None |}.

Definition routeAnalysis (state : BuggyState) : string :=
  if needsMoreInfo state then "request_clarification" else "end".

Definition pure (f : BuggyState -> Update) : Node BuggyState Update unit :=
  fun st w => (inl (f st), w).

Definition graph : Graph BuggyState Update unit :=
  {| nodes := {[ "analyze_request" := pure analyzeRequest;
                 "request_clarification" := pure requestClarification ]};
     entry := "analyze_request";
     edges := {[ "analyze_request" :=
                   Conditional routeAnalysis
                     {[ "request_clarification" := Goto "request_clarification";
                        "end" := END ]};
                 "request_clarification" := Fixed (Goto "analyze_request") ]} |}.

(** [buggyApp.invoke(state)] under a step budget. *)
Definition invoke (budget : nat) (st : BuggyState) : Outcome BuggyState Update unit :=
  run merge (fun _ st => Some st) (fun _ => false) (fun _ => false)
      graph budget st tt.

End WithLength.

End BuggyLoop.

(** ** The deployed agent (Exercise 4) *)

Module Agent.
Import Js Retry Host Email Engine.

Section WithHost.
Variable h : Host.

(** [needsApproval(actionType, lead)]; a [HIGH_VALUE_THRESHOLD] that did
    not parse is [NaN], and no score exceeds it. *)
Definition needsApproval (actionType : string) (lead : option Lead) : bool :=
  if String.eqb actionType "send_email" then true
  else if String.eqb actionType "update_lead"
          && match lead, HIGH_VALUE_THRESHOLD h with
             | Some lead, Some threshold => threshold <? score lead
             | _, _ => false
             end
       then true
  else false.

(** The prompt of [understandRequest]. *)
Definition classify_prompt (userMessage : value) : string :=
  "Classify this CRM request:" ++ nl
  ++ "- " ++ dq ++ "lookup" ++ dq ++ ": show/find leads" ++ nl
  ++ "- " ++ dq ++ "update" ++ dq ++ ": change lead status" ++ nl
  ++ "- " ++ dq ++ "followup" ++ dq ++ ": send email" ++ nl
  ++ "- " ++ dq ++ "unknown" ++ dq ++ ": anything else" ++ nl
  ++ nl
  ++ "Message: " ++ dq ++ to_string userMessage ++ dq ++ nl
  ++ nl
  ++ "JSON only: {" ++ dq ++ "type" ++ dq ++ ":" ++ dq ++ "..." ++ dq ++ ","
  ++ dq ++ "target" ++ dq ++ ":" ++ dq ++ "company or null" ++ dq ++ "}".

(** The longest prefix of [s] that ends with a closing brace. *)
Fixpoint upto_last_brace (s : string) : option string :=
  match s with
  | EmptyString => None
  | String c s' =>
      match upto_last_brace s' with
      | Some r => Some (String c r)
      | None => if Ascii.eqb c "}" then Some (String c EmptyString) else None
      end
  end.

(** [text.match(/\{[\s\S]*\}/)]: from the first opening brace to the last
    closing brace after it. *)
Fixpoint match_object (text : string) : option string :=
  match text with
  | EmptyString => None
  | String c rest =>
      if Ascii.eqb c "{" then
        match upto_last_brace rest with
        | Some r => Some (String c r)
        | None => None
        end
      else match_object rest
  end.

Definition understandRequest (state : object) : M object :=
  try_catch
    (response ← (fun w =>
        settle (Simple.withRetry sleep
                  (create_message h (classify_prompt (get state "userMessage")))
                  None w) w);
     first ← match response with
              | block :: _ => mret block
              | [] => throw (TypeError "Cannot read properties of undefined (reading 'type')")
              end;
     let text := match first with
                 | TextBlock t => t
                 | OtherBlock => "{}"
                 end in
     intent ← match match_object text with
               | Some m =>
                   match JSON_parse h m with
                   | inl v => mret v
                   | inr e => throw (Threw e)
                   end
               | None => mret (VIntent {| intent_type := "unknown"; intent_target := None |})
               end;
     mret ({[ "intent" := intent ]} : object))
    (fun e =>
       msg ← message_of e;
       mret ({[ "error" := VStr msg;
                "response" := VStr "I had trouble understanding that. Please try again." ]}
             : object)).

(** [state.intent?.target?.toLowerCase() || ""] *)
Definition lookup_target (state : object) : string :=
  match intent_target_of (get state "intent") with
  | VStr t => toLowerCase h t
  | _ => ""
  end.

(** One line of the lead listing; [i] is the index in the array. *)
Definition lead_line (i : nat) (l : Lead) : string :=
  pretty (S i) ++ ". **" ++ company_name l ++ "** (" ++ contact_name l ++ ")" ++ nl
  ++ "   Score: " ++ pretty (score l) ++ " | Status: " ++ lead_status l.

Definition handleLookup (state : object) : M object :=
  try_catch
    (let target := lookup_target state in
     let filter :=
       if String.eqb target "hot" || String.eqb target "high value"
       then Gt "score" 80
       else if negb (String.eqb target "") && negb (String.eqb target "all")
       then Ilike "company_name" ("%" ++ target ++ "%")
       else NoFilter in
     reply ← select h {| q_table := "leads"; q_filter := filter;
                         q_order := Some ("score", false) |};
     match reply.2 with
     | Some error => throw (Threw error)
     | None =>
         match reply.1 with
         | None | Some [] =>
             mret ({[ "response" :=
                        VStr ("No leads found"
                              ++ (if String.eqb target "" then ""
                                  else " matching " ++ dq ++ target ++ dq)
                              ++ ".") ]} : object)
         | Some data =>
             let lines := imap lead_line data in
             mret ({[ "leads" := VLeads data;
                      "response" :=
                        VStr ("Found " ++ pretty (length data) ++ " lead(s):" ++ nl ++ nl
                              ++ String.concat (nl ++ nl) lines) ]} : object)
         end
     end)
    (fun e =>
       msg ← message_of e;
       mret ({[ "error" := VStr msg;
                "response" := VStr "Failed to fetch leads. Please try again." ]} : object)).

(** [state.userMessage.toLowerCase()] *)
Definition lower_message (state : object) : M string :=
  match get state "userMessage" with
  | VStr s => mret (toLowerCase h s)
  | VUndefined =>
      throw (TypeError "Cannot read properties of undefined (reading 'toLowerCase')")
  | VNull =>
      throw (TypeError "Cannot read properties of null (reading 'toLowerCase')")
  | _ => throw (TypeError "state.userMessage.toLowerCase is not a function")
  end.

(** The [changes] object [handleUpdate] builds from the message. *)
Definition status_change (msg : string) : option string :=
  if includes "won" msg then Some "won"
  else if includes "lost" msg then Some "lost"
  else if includes "qualified" msg then Some "qualified"
  else None.

(** [.ilike("company_name", `%${target}%`)] with no order. *)
Definition by_company (target : value) : Query :=
  {| q_table := "leads";
     q_filter := Ilike "company_name" ("%" ++ to_string target ++ "%");
     q_order := None |}.

Definition handleUpdate (state : object) : M object :=
  let target := intent_target_of (get state "intent") in
  if negb (truthy target) then
    mret ({[ "response" := VStr "Which lead would you like to update?" ]} : object)
  else
    try_catch
      (reply ← select h (by_company target);
       match reply.1 with
       | None | Some [] =>
           mret ({[ "response" :=
                      VStr ("Couldn't find " ++ dq ++ to_string target ++ dq ++ ".") ]}
                 : object)
       | Some (lead :: _) =>
           msg ← lower_message state;
           match status_change msg with
           | None =>
               mret ({[ "response" :=
                          VStr ("What would you like to change about "
                                ++ company_name lead ++ "?");
                        "selectedLead" := VLead lead ]} : object)
           | Some new_status =>
               let changes := [("status", SStr new_status)] in
               if needsApproval "update_lead" (Some lead) then
                 mret ({[ "selectedLead" := VLead lead;
                          "pendingAction" :=
                            VPending {| action_type := update_lead;
                                        leadId := lead_id lead;
                                        leadName := company_name lead;
                                        changes := Some changes;
                                        emailContent := None |};
                          "approvalStatus" := VStr "pending";
                          "response" :=
                            VStr ("⚠️ **Approval Required**" ++ nl ++ nl
                                  ++ "Update " ++ company_name lead
                                  ++ " (Score: " ++ pretty (score lead) ++ "):" ++ nl
                                  ++ "- status: " ++ lead_status lead ++ " → "
                                  ++ new_status ++ nl ++ nl
                                  ++ "This is a high-value lead.") ]} : object)
               else
                 _ ← update h "leads" changes (lead_id lead);
                 mret ({[ "response" :=
                            VStr ("✅ Updated " ++ company_name lead
                                  ++ "! New status: " ++ new_status) ]} : object)
           end
       end)
      (fun e =>
         msg ← message_of e;
         mret ({[ "error" := VStr msg;
                  "response" := VStr "Failed to update. Please try again." ]} : object)).

Definition handleFollowup (state : object) : M object :=
  let target := intent_target_of (get state "intent") in
  if negb (truthy target) then
    mret ({[ "response" := VStr "Who would you like to follow up with?" ]} : object)
  else
    try_catch
      (reply ← select h (by_company target);
       match reply.1 with
       | None | Some [] =>
           mret ({[ "response" :=
                      VStr ("Couldn't find " ++ dq ++ to_string target ++ dq ++ ".") ]}
                 : object)
       | Some (lead :: _) =>
           let content :=
             {| email_to := contact_email lead;
                email_subject := "Following up - " ++ company_name lead;
                email_body :=
                  "Hi " ++ contact_name lead ++ "," ++ nl ++ nl
                  ++ "I wanted to follow up on our conversation about "
                  ++ company_name lead ++ "." ++ nl ++ nl ++ "Best regards" |} in
           mret ({[ "selectedLead" := VLead lead;
                    "pendingAction" :=
                      VPending {| action_type := send_email;
                                  leadId := lead_id lead;
                                  leadName := company_name lead;
                                  changes := None;
                                  emailContent := Some content |};
                    "approvalStatus" := VStr "pending";
                    "response" :=
                      VStr ("📧 Ready to send to " ++ contact_name lead ++ ":" ++ nl ++ nl
                            ++ "**Subject:** " ++ email_subject content ++ nl ++ nl
                            ++ email_body content ++ nl ++ nl
                            ++ "⏳ Awaiting approval...") ]} : object)
       end)
      (fun e =>
         msg ← message_of e;
         mret ({[ "error" := VStr msg;
                  "response" := VStr "Failed to prepare email. Please try again." ]}
               : object)).

Definition handleOther (state : object) : M object :=
  mret ({[ "response" :=
             VStr ("Try:" ++ nl
                   ++ "• " ++ dq ++ "Show me leads" ++ dq ++ nl
                   ++ "• " ++ dq ++ "Mark TechCorp as won" ++ dq ++ nl
                   ++ "• " ++ dq ++ "Send follow-up to Sophie" ++ dq) ]} : object).

(** The approval gate: the decision comes from [AUTO_APPROVE]; without it
    the action stays pending. *)
Definition humanReview (state : object) : M object :=
  let auto := env_get h "AUTO_APPROVE" in
  if bool_decide (auto = Some "true") then
    mret ({[ "approvalStatus" := VStr "approved" ]} : object)
  else if bool_decide (auto = Some "false") then
    mret ({[ "approvalStatus" := VStr "rejected" ]} : object)
  else mret (∅ : object).

Definition executeApproved (state : object) : M object :=
  let pending := get state "pendingAction" in
  if negb (truthy pending) then
    mret ({[ "error" := VStr "No pending action" ]} : object)
  else
    match pending with
    | VPending {| action_type := update_lead; leadId := id; leadName := name;
                  changes := Some chg |} =>
        _ ← update h "leads" chg id;
        _ ← insert h "interactions"
              {| i_lead_id := id;
                 interaction_type := "status_change";
                 description := "Updated: " ++ JSON_stringify h chg;
                 performed_by := "agent";
                 required_approval := true;
                 approved := true;
                 metadata := None |};
        mret ({[ "response" := VStr ("✅ Updated " ++ name ++ "!");
                 "pendingAction" := VNull;
                 "approvalStatus" := VNull ]} : object)
    | VPending {| action_type := send_email; leadId := id;
                  emailContent := Some content |} =>
        result ← sendEmail h (email_to content) (email_subject content)
                   (email_body content);
        if negb (success result) then
          let error := match error result with
                       | Some e => VStr e
                       | None => VUndefined
                       end in
          mret ({[ "error" := error;
                   "response" := VStr ("❌ Failed: " ++ to_string error) ]} : object)
        else
          _ ← insert h "interactions"
                {| i_lead_id := id;
                   interaction_type := "email_sent";
                   description := "Sent: " ++ dq ++ email_subject content ++ dq;
                   performed_by := "agent";
                   required_approval := true;
                   approved := true;
                   metadata := Some (messageId result) |};
          stamp ← now_iso h;
          _ ← update h "leads" [("last_contacted_at", SStr stamp)] id;
          mret ({[ "response" := VStr "✅ Email sent!";
                   "pendingAction" := VNull;
                   "approvalStatus" := VNull ]} : object)
    | _ => mret ({[ "error" := VStr "Unknown action type" ]} : object)
    end.

Definition handleRejection (state : object) : M object :=
  mret ({[ "response" := VStr "❌ Action rejected.";
           "pendingAction" := VNull;
           "approvalStatus" := VNull ]} : object).

End WithHost.

(** *** Routing *)

Definition routeByIntent (state : object) : string :=
  if truthy (get state "error") then "end"
  else
    let type := intent_type_of (get state "intent") in
    if is_str type "lookup" then "handle_lookup"
    else if is_str type "update" then "handle_update"
    else if is_str type "followup" then "handle_followup"
    else "handle_other".

Definition routeAfterAction (state : object) : string :=
  if is_str (get state "approvalStatus") "pending" then "human_review"
  else "end".

Definition routeAfterReview (state : object) : string :=
  if is_str (get state "approvalStatus") "approved" then "execute_approved"
  else if is_str (get state "approvalStatus") "rejected" then "handle_rejection"
  else "end".

(** *** The graph *)

Definition routeByIntent_mapping : gmap string Target :=
  {[ "handle_lookup" := Goto "handle_lookup";
     "handle_update" := Goto "handle_update";
     "handle_followup" := Goto "handle_followup";
     "handle_other" := Goto "handle_other";
     "end" := END ]}.

Definition routeAfterAction_mapping : gmap string Target :=
  {[ "human_review" := Goto "human_review"; "end" := END ]}.

Definition routeAfterReview_mapping : gmap string Target :=
  {[ "execute_approved" := Goto "execute_approved";
     "handle_rejection" := Goto "handle_rejection";
     "end" := END ]}.

Definition workflow (h : Host) : Graph object object World :=
  {| nodes :=
       {[ "understand_request" := understandRequest h;
          "handle_lookup" := handleLookup h;
          "handle_update" := handleUpdate h;
          "handle_followup" := handleFollowup h;
          "handle_other" := handleOther;
          "human_review" := humanReview h;
          "execute_approved" := executeApproved h;
          "handle_rejection" := handleRejection ]};
     entry := "understand_request";
     edges :=
       {[ "understand_request" := Conditional routeByIntent routeByIntent_mapping;
          "handle_update" := Conditional routeAfterAction routeAfterAction_mapping;
          "handle_followup" := Conditional routeAfterAction routeAfterAction_mapping;
          "human_review" := Conditional routeAfterReview routeAfterReview_mapping;
          "handle_lookup" := Fixed END;
          "handle_other" := Fixed END;
          "execute_approved" := Fixed END;
          "handle_rejection" := Fixed END ]} |}.

Definition has_error (state : object) : bool := truthy (get state "error").

(** A pending update of a high-value lead, as [handleUpdate] proposes it. *)
Definition techcorp_won : PendingAction :=
  {| action_type := update_lead; leadId := "lead-1"; leadName := "TechCorp";
     changes := Some [("status", SStr "won")]; emailContent := None |}.

(** The state [runAgent] starts from. *)
Definition initial (message : string) : object :=
  {[ "userMessage" := VStr message;
     "intent" := VNull;
     "leads" := VLeads [];
     "selectedLead" := VNull;
     "pendingAction" := VNull;
     "approvalStatus" := VNull;
     "response" := VNull;
     "error" := VNull ]}.

(** [app.invoke(state)]: the compiled graph never suspends a run (the
    approval gate is the [human_review] node), and an exception of a node
    ends the run. *)
Definition invoke (h : Host) (budget : nat) (state : object) (w : World)
    : Outcome object object World :=
  run (Channels.merge Channels.agent_channels) (fun _ _ => None) has_error
      (fun _ => false) (workflow h) budget state w.

End Agent.

(** ** What a run does to the outside world, step by step *)

Module Gate.
Import Js Retry Host Engine.

Abbreviation Step := (Engine.Step object object World).

(** The effects a world has accumulated beyond those of an earlier one. *)
Definition grows_by (P : Effect -> Prop) (w w' : World) : Prop :=
  exists effects, trace w' = (trace w ++ effects)%list /\ Forall P effects.

(** The effects performed during a node execution. *)
Definition performed (s : Step) : list Effect :=
  drop (length (trace (step_before s))) (trace (step_after s)).

(** The message send and the record mutations. *)
Definition is_send (e : Effect) : bool :=
  match e with
  | HttpPost _ _ => true
  | _ => false
  end.

Definition is_mutation (e : Effect) : bool :=
  match e with
  | DbUpdate _ _ _ | DbInsert _ _ => true
  | _ => false
  end.

(** The approval gate recorded the decision "approved": the
    [human_review] node returned [{ approvalStatus: "approved" }]. *)
Definition approved_by_gate (p : Step) : Prop :=
  step_node p = "human_review"
  /\ step_result p = inl ({[ "approvalStatus" := VStr "approved" ]} : object).

(** The node returned an update that proposes no action: it sets neither
    [pendingAction] nor [approvalStatus]. *)
Definition proposes_nothing (s : Step) : Prop :=
  exists p : object,
    step_result s = inl p /\ p !! "pendingAction" = None
    /\ p !! "approvalStatus" = None.

(** Neither a send nor a mutation. *)
Definition harmless (e : Effect) : Prop := is_send e = false /\ is_mutation e = false.

(** One node execution, given the one before it (if any), respects the
    gate:
    - it starts in the world the previous one left, and only adds effects;
    - [execute_approved] runs only right after the gate recorded
      "approved", with the state saying so;
    - a message is sent only by [execute_approved];
    - a record is mutated only by [execute_approved], or by
      [handle_update] on the path that proposes no pending action. *)
Definition step_ok (prev : option Step) (s : Step) : Prop :=
  (forall p, prev = Some p -> step_before s = step_after p)
  /\ trace (step_after s) = (trace (step_before s) ++ performed s)%list
  /\ (step_node s = "execute_approved" ->
      exists p, prev = Some p /\ approved_by_gate p
                /\ get (step_state s) "approvalStatus" = VStr "approved")
  /\ (forall e, e ∈ performed s -> is_send e = true ->
                step_node s = "execute_approved")
  /\ (forall e, e ∈ performed s -> is_mutation e = true ->
                step_node s = "execute_approved"
                \/ (step_node s = "handle_update" /\ proposes_nothing s)).

(** Every step of a run respects the gate. *)
Fixpoint gated (prev : option Step) (ss : list Step) : Prop :=
  match ss with
  | [] => True
  | s :: rest => step_ok prev s /\ gated (Some s) rest
  end.

End Gate.

(** ** The routers of the other graphs *)

Module Routers.
Import Js Engine.

(** *** Day 1 starter agent *)

Module Starter.

Definition routeIntent (state : object) : string :=
  if truthy (get state "error") then "end"
  else
    let intentType := intent_type_of (get state "intent") in
    if is_str intentType "query" then "query_leads"
    else if is_str intentType "update" then "handle_update"
    else if is_str intentType "followup" then "handle_followup"
    else "end".

Definition routeIntent_mapping : gmap string Target :=
  {[ "query_leads" := Goto "query_leads";
     "handle_update" := Goto "handle_update";
     "handle_followup" := Goto "handle_followup";
     "end" := END ]}.

Definition routeAfterQuery (state : object) : string :=
  if truthy (get state "error") then "end" else "format_response".

Definition routeAfterQuery_mapping : gmap string Target :=
  {[ "format_response" := Goto "format_response"; "end" := END ]}.

End Starter.

(** *** Day 1, Exercises 3 and 4 *)

Module Day1.

Definition routeByIntent (state : object) : string :=
  let intentType := intent_type_of (get state "intent") in
  if is_str intentType "lookup" then "handle_lookup"
  else if is_str intentType "qualify" then "handle_qualify"
  else "handle_other".

Definition routeByIntent_mapping : gmap string Target :=
  {[ "handle_lookup" := Goto "handle_lookup";
     "handle_qualify" := Goto "handle_qualify";
     "handle_other" := Goto "handle_other" ]}.

End Day1.

(** *** The approval-gate graph (Day 2, Exercise 2) *)

Module Approval.

Definition routeByIntent (state : object) : string :=
  let type := intent_type_of (get state "intent") in
  if is_str type "lookup" then "handle_lookup"
  else if is_str type "update" then "handle_update"
  else "handle_other".

Definition routeByIntent_mapping : gmap string Target :=
  {[ "handle_lookup" := Goto "handle_lookup";
     "handle_update" := Goto "handle_update";
     "handle_other" := Goto "handle_other" ]}.

Definition routeAfterUpdate (state : object) : string :=
  if is_str (get state "approvalStatus") "pending" then "human_review"
  else "end".

Definition routeAfterUpdate_mapping : gmap string Target :=
  {[ "human_review" := Goto "human_review"; "end" := END ]}.

Definition routeAfterReview (state : object) : string :=
  if is_str (get state "approvalStatus") "approved" then "execute_approved_update"
  else if is_str (get state "approvalStatus") "rejected" then "handle_rejection"
  else "end".

Definition routeAfterReview_mapping : gmap string Target :=
  {[ "execute_approved_update" := Goto "execute_approved_update";
     "handle_rejection" := Goto "handle_rejection";
     "end" := END ]}.

End Approval.

(** *** The resilient graph (Day 2, Exercise 3) *)

Module Resilient.

Definition routeByIntent (state : object) : string :=
  if truthy (get state "error") then "error_recovery"
  else
    let type := intent_type_of (get state "intent") in
    if is_str type "lookup" then "handle_lookup"
    else if is_str type "followup" then "handle_followup"
    else "handle_other".

Definition routeByIntent_mapping : gmap string Target :=
  {[ "handle_lookup" := Goto "handle_lookup";
     "handle_followup" := Goto "handle_followup";
     "handle_other" := Goto "handle_other";
     "error_recovery" := Goto "error_recovery" ]}.

Definition routeAfterFollowup (state : object) : string :=
  if truthy (get state "error") then "error_recovery"
  else if is_str (get state "approvalStatus") "pending" then "human_review"
  else "end".

Definition routeAfterFollowup_mapping : gmap string Target :=
  {[ "human_review" := Goto "human_review";
     "error_recovery" := Goto "error_recovery";
     "end" := END ]}.

Definition routeAfterReview (state : object) : string :=
  if is_str (get state "approvalStatus") "approved" then "execute_email"
  else if is_str (get state "approvalStatus") "rejected" then "handle_rejection"
  else "end".

Definition routeAfterReview_mapping : gmap string Target :=
  {[ "execute_email" := Goto "execute_email";
     "handle_rejection" := Goto "handle_rejection";
     "end" := END ]}.

End Resilient.

(** A state with an error and a recognised intent. *)
Definition failed_lookup : object :=
  {[ "error" := VStr "Lead not found";
     "intent" := VIntent {| intent_type := "lookup"; intent_target := None |} ]}.

End Routers.

(** ** The edge function handler *)

Module Handler.
Import Js Retry Host.

(** The destructured body of the request: [{ message, action, actionId }]. *)
Record Body := mkBody {
  message : value;
  action : value;
  actionId : value
}.

(** A request: its method, and what [await req.json()] gives. *)
Record Request := mkRequest {
  method : string;
  json : Body + JsError
}.

Section WithAgent.

(** The response type of [runAgent], and [runAgent] itself. *)
Context {AgentResponse : Type}.
Variable runAgent : value -> M AgentResponse.

(** What a [Response] carries: a text, or the object given to
    [JSON.stringify]. *)
Inductive Payload :=
| Text (s : string)
| Decision (success : bool) (message : string)
| Failure (error : string)
| Answer (r : AgentResponse).

Record Response := mkResponse {
  http_status : Z;
  payload : Payload
}.

(** The handler given to [serve]. *)
Definition serve (req : Request) : M Response :=
  if String.eqb (method req) "OPTIONS" then
    mret {| http_status := 200; payload := Text "ok" |}
  else
    try_catch
      (body ← match json req with
               | inl b => mret b
               | inr e => throw (Threw e)
               end;
       if is_str (action body) "approve" || is_str (action body) "reject" then
         mret {| http_status := 200;
                 payload := Decision true
                              ("Action " ++ to_string (actionId body) ++ " "
                               ++ to_string (action body) ++ "ed.") |}
       else if negb (truthy (message body)) then
         mret {| http_status := 400; payload := Failure "Missing 'message'" |}
       else
         result ← runAgent (message body);
         mret {| http_status := 200; payload := Answer result |})
      (fun e => mret {| http_status := 500; payload := Failure "Internal error" |}).

(** A sequence of requests, served one after the other. *)
Fixpoint serve_all (reqs : list Request) (w : World) : list (Response + Thrown) * World :=
  match reqs with
  | [] => ([], w)
  | req :: rest =>
      let '(r, w1) := serve req w in
      let '(rs, w2) := serve_all rest w1 in
      (r :: rs, w2)
  end.

(** The request that records a decision on a pending action. *)
Definition decide (pending_id : string) (approve : bool) : Request :=
  {| method := "POST";
     json := inl {| message := VUndefined;
                    action := VStr (if approve then "approve" else "reject");
                    actionId := VStr pending_id |} |}.

(** The response accepts the decision. *)
Definition accepted (r : Response + Thrown) : Prop :=
  exists msg, r = inl {| http_status := 200; payload := Decision true msg |}.

End WithAgent.

Arguments Payload : clear implicits.
Arguments Response : clear implicits.

End Handler.

(** ** A host for closed examples *)

Module Demo.
Import Js Retry Host.

Definition techcorp : Lead :=
  {| lead_id := "lead-1"; company_name := "TechCorp"; contact_name := "Sophie";
     contact_email := "sophie@techcorp.example"; lead_status := "qualified";
     score := 92; estimated_value := Some 50000; notes := None;
     created_at := "2024-01-01T00:00:00.000Z";
     updated_at := "2024-01-01T00:00:00.000Z";
     last_contacted_at := None |}.

(** The text generation service answers with a follow-up intent for
    TechCorp, the database holds TechCorp alone, approvals are automatic,
    and no [RESEND_API_KEY] is configured. *)
Definition host : Host :=
  {| env := {[ "AUTO_APPROVE" := "true" ]};
     HIGH_VALUE_THRESHOLD := Some 80;
     date_now := fun _ => 1700000000000;
     date_iso := fun _ => "2023-11-14T22:13:20.000Z";
     math_random := fun _ => 0%Q;
     messages_create := fun _ _ => inl [TextBlock "{followup TechCorp}"];
     db_select := fun _ _ => DbReturned (Some [techcorp]) None;
     db_update := fun _ _ _ _ => DbReturned None None;
     db_insert := fun _ _ _ => DbReturned None None;
     fetch := fun _ _ _ => inr (mkError "network unreachable" None None);
     toLowerCase := fun s => s;
     JSON_parse := fun _ =>
       inl (VIntent {| intent_type := "followup"; intent_target := Some "TechCorp" |});
     JSON_stringify := fun _ => "{}" |}.

End Demo.

(** ** The runner of the deployed agent *)

Module Runner.
Import Js Retry Host Engine.

(** The string behind an action type. *)
Definition type_name (t : ActionType) : string :=
  match t with
  | update_lead => "update_lead"
  | send_email => "send_email"
  end.

(** [data.pendingApproval] *)
Record PendingApproval := mkPendingApproval {
  actionId : value;
  type : value;
  description : string
}.

(** [data] of an [AgentResponse]. *)
Record Data := mkData {
  leads : value;
  pendingApproval : option PendingApproval
}.

(** [interface AgentResponse]; [data] is absent from the response built
    in the [catch] block. *)
Record AgentResponse := mkAgentResponse {
  success : bool;
  message : value;
  data : option Data;
  error : value
}.

(** [v.leadId], [v.type] and [v.leadName] on a value of the state: of the
    values a state holds, pending actions have all three and intents have
    [type]. *)
Definition leadId_of (v : value) : value :=
  match v with
  | VPending p => VStr (leadId p)
  | _ => VUndefined
  end.

Definition type_of (v : value) : value :=
  match v with
  | VPending p => VStr (type_name (action_type p))
  | VIntent i => VStr (intent_type i)
  | _ => VUndefined
  end.

Definition leadName_of (v : value) : value :=
  match v with
  | VPending p => VStr (leadName p)
  | _ => VUndefined
  end.

(** [v?.length] in a boolean position: arrays and strings have a length. *)
Definition has_length (v : value) : bool :=
  match v with
  | VLeads ls => negb (Nat.eqb (length ls) 0)
  | VStr s => negb (String.eqb s "")
  | _ => false
  end.

(** The state [runAgent] starts from, for any value of [message]. *)
Definition initial (message : value) : object :=
  {[ "userMessage" := message;
     "intent" := VNull;
     "leads" := VLeads [];
     "selectedLead" := VNull;
     "pendingAction" := VNull;
     "approvalStatus" := VNull;
     "response" := VNull;
     "error" := VNull ]}.

Section WithHost.
Variable h : Host.

(** Modelled from the spec: the step budget of the engine, and the error
    the engine itself rejects with when a run fails for a reason other
    than the exception of a node. *)
Variable budget : nat.
Variable engine_error : Failure -> JsError.

(** Modelled from the spec: [await app.invoke(state)] gives the final
    state of a run that reached [END], and rejects with the exception of
    the node that failed or with the error of the engine. *)
Definition app_invoke (state : object) : M object :=
  fun w =>
    let o := Agent.invoke h budget state w in
    match failure o with
    | None => (inl (final_state o), world o)
    | Some (NodeFailed _ thrown) => (inr thrown, world o)
    | Some f => (inr (Threw (engine_error f)), world o)
    end.

(** [runAgent(message)] of the deployed agent. *)
Definition runAgent (message : value) : M AgentResponse :=
  try_catch
    (result ← app_invoke (initial message);
     let pending := get result "pendingAction" in
     mret {| success := negb (truthy (get result "error"));
             message := if truthy (get result "response") then get result "response"
                        else VStr "No response";
             data :=
               Some {| leads := if has_length (get result "leads")
                                then get result "leads" else VUndefined;
                       pendingApproval :=
                         if truthy pending then
                           Some {| actionId := leadId_of pending;
                                   type := type_of pending;
                                   description := to_string (type_of pending) ++ " for "
                                                  ++ to_string (leadName_of pending) |}
                         else None |};
             error := if truthy (get result "error") then get result "error"
                      else VUndefined |})
    (fun e =>
       msg ← message_of e;
       mret {| success := false; message := VStr "Agent failed"; data := None;
               error := VStr msg |}).

End WithHost.

End Runner.

(** ** Parts of the resilient agent (Exercise 3) *)

Module ResilientAgent.
Import Js Retry Host.

(** [formatUserError(error)] on a value of the state, as [errorRecovery]
    calls it with [state.error]: such a value has no [message] property,
    and the text that is classified is [String(error)]. *)
Definition formatUserError (error : value) : string :=
  let message := to_string error in
  if includes "timeout" message || includes "network" message
     || includes "ETIMEDOUT" message
  then "I'm having trouble connecting. Please try again in a moment."
  else if includes "not found" message || includes "404" message
          || includes "PGRST116" message
  then "I couldn't find what you're looking for."
  else if includes "permission" message || includes "401" message
          || includes "403" message
  then "I don't have permission to do that."
  else if includes "rate limit" message || includes "429" message
  then "I'm being rate limited. Please wait a moment and try again."
  else "Something went wrong. Please try rephrasing your request.".

(** [state.response?.includes(sub)]: [undefined] on [null] and
    [undefined], a search in a string, membership in an array, and a
    [TypeError] on the other values, which have no [includes]. *)
Definition response_includes (state : object) (sub : string) : M bool :=
  match get state "response" with
  | VNull | VUndefined => mret false
  | VStr s => mret (includes sub s)
  | VLeads _ => mret false
  | _ => throw (TypeError "state.response?.includes is not a function")
  end.

(** [state.response?.includes("❌") || state.response?.includes("trouble")] *)
Definition friendly_response (state : object) : M bool :=
  cross ← response_includes state "❌";
  if cross : bool then mret true else response_includes state "trouble".

Definition errorRecovery (state : object) : M object :=
  friendly ← friendly_response state;
  if friendly : bool then
    mret ({[ "error" := VNull; "errorDetails" := VNull ]} : object)
  else
    mret ({[ "response" :=
               VStr ("⚠️ " ++ formatUserError (get state "error") ++ nl ++ nl
                     ++ "Try:" ++ nl
                     ++ "- Rephrasing your request" ++ nl
                     ++ "- Asking about something else" ++ nl
                     ++ "- Waiting a moment and trying again");
             "error" := VNull;
             "errorDetails" := VNull;
             "pendingAction" := VNull;
             "approvalStatus" := VNull ]} : object).

(** The company names [extractCompanyName] knows. *)
Definition companies : list string :=
  ["techcorp"; "globalretail"; "megabank"; "startupxyz"; "localcafe"].

Section WithHost.
Variable h : Host.

(** [extractCompanyName(message)]: the first known company whose name
    occurs in the lower-cased message. *)
Definition extractCompanyName (message : string) : option string :=
  let lower := toLowerCase h message in
  List.find (fun company => includes company lower) companies.

(** The keyword classifier of the resilient agent. *)
Definition understandRequest (state : object) : M object :=
  match get state "userMessage" with
  | VStr userMessage =>
      let lower := toLowerCase h userMessage in
      if includes "follow" lower || includes "email" lower || includes "send" lower then
        mret ({[ "intent" := VIntent {| intent_type := "followup";
                                        intent_target := extractCompanyName userMessage |} ]}
              : object)
      else if includes "show" lower || includes "list" lower || includes "find" lower then
        mret ({[ "intent" := VIntent {| intent_type := "lookup";
                                        intent_target := extractCompanyName userMessage |} ]}
              : object)
      else
        mret ({[ "intent" := VIntent {| intent_type := "unknown";
                                        intent_target := None |} ]} : object)
  | VUndefined =>
      throw (TypeError "Cannot read properties of undefined (reading 'toLowerCase')")
  | VNull =>
      throw (TypeError "Cannot read properties of null (reading 'toLowerCase')")
  | _ => throw (TypeError "state.userMessage.toLowerCase is not a function")
  end.

(** [error.code] of the error objects the database client returns. *)
Variable code : JsError -> string.

(** The operation [queryLeadsWithRetry] retries: one query, ordered by
    score; an error the client returns is thrown as a new [Error] with the
    same message and the status 404 for the code [PGRST116] and 500 for
    any other; [data || []] is returned.  The filter is the one the
    callers build: none, or an [ilike] on a column. *)
Definition query_leads (filter : Filter) : Operation World (list Lead) :=
  fun w =>
    let q := {| q_table := "leads"; q_filter := filter;
                q_order := Some ("score", false) |} in
    let w1 := consult [DbSelect q] w in
    match db_select h (tick w) q with
    | DbThrew e => (inr e, w1)
    | DbReturned data (Some error) =>
        (inr (mkError (Retry.message error)
                      (Some (if String.eqb (code error) "PGRST116" then 404 else 500))
                      None), w1)
    | DbReturned data None => (inl (default [] data), w1)
    end.

(** [queryLeadsWithRetry(filter)] *)
Definition queryLeadsWithRetry (filter : Filter) : M (list Lead) :=
  fun w => settle (withRetry (random h) sleep (query_leads filter) no_options w) w.

End WithHost.

(** The queries among some effects. *)
Definition selects (effects : list Effect) : list Effect :=
  List.filter (fun e => match e with DbSelect _ => true | _ => false end) effects.

(** The texts [formatUserError] can return. *)
Definition user_errors : list string :=
  [ "I'm having trouble connecting. Please try again in a moment.";
    "I couldn't find what you're looking for.";
    "I don't have permission to do that.";
    "I'm being rate limited. Please wait a moment and try again.";
    "Something went wrong. Please try rephrasing your request." ].

(** The state [runAgent] of the resilient agent starts from. *)
Definition initial (message : string) : object :=
  {[ "userMessage" := VStr message;
     "intent" := VNull;
     "leads" := VLeads [];
     "pendingAction" := VNull;
     "approvalStatus" := VNull;
     "response" := VNull;
     "error" := VNull;
     "errorDetails" := VNull ]}.

End ResilientAgent.

(** ** The calls made through a circuit breaker *)

Module BreakerLog.
Import Retry Breaker.

Section WithClock.

Context {W T : Type}.
Variable now : W -> Z * W.

(** The calls of a sequence of operations through one breaker, in
    order. *)
Fixpoint execute_calls (cb : CircuitBreaker) (fns : list (Operation W T)) (w : W)
    : list (Call W T) :=
  match fns with
  | [] => []
  | fn :: rest =>
      let c := execute now cb fn w in
      c :: execute_calls (breaker c) rest (world c)
  end.

End WithClock.

(** The outcomes of the calls in which the operation was invoked. *)
Definition outcomes {W T : Type} (calls : list (Call W T)) : list (T + JsError) :=
  result <$> List.filter invoked calls.

End BreakerLog.

(** ** More closed examples *)

Module Examples.
Import Js Retry Host.


(** A host whose [HIGH_VALUE_THRESHOLD] did not parse as a number. *)
Definition nan_host : Host :=
  {| env := ∅;
     HIGH_VALUE_THRESHOLD := None;
     date_now := fun _ => 1700000000000;
     date_iso := fun _ => "2023-11-14T22:13:20.000Z";
     math_random := fun _ => 0%Q;
     messages_create := fun _ _ => inl [TextBlock "{}"];
     db_select := fun _ _ => DbReturned (Some [Demo.techcorp]) None;
     db_update := fun _ _ _ _ => DbReturned None None;
     db_insert := fun _ _ _ => DbReturned None None;
     fetch := fun _ _ _ => inr (mkError "network unreachable" None None);
     toLowerCase := fun s => s;
     JSON_parse := fun _ =>
       inl (VIntent {| intent_type := "update"; intent_target := Some "TechCorp" |});
     JSON_stringify := fun _ => "{}" |}.

(** The state [handle_update] sees for a request to mark TechCorp as won. *)
Definition mark_won : object :=
  {[ "userMessage" := VStr "mark techcorp as won";
     "intent" := VIntent {| intent_type := "update"; intent_target := Some "TechCorp" |} ]}.

(** A state of the resilient agent in which a node has failed without a
    response. *)
Definition timed_out : object :=
  <[ "error" := VStr "connection timeout" ]> (ResilientAgent.initial "Show me all leads").

(** A host whose database answers every query with the error for "no
    rows". *)
Definition no_rows_host : Host :=
  {| env := ∅;
     HIGH_VALUE_THRESHOLD := Some 80;
     date_now := fun _ => 1700000000000;
     date_iso := fun _ => "2023-11-14T22:13:20.000Z";
     math_random := fun _ => 0%Q;
     messages_create := fun _ _ => inl [TextBlock "{}"];
     db_select := fun _ _ => DbReturned None (Some (mkError "no rows" None None));
     db_update := fun _ _ _ _ => DbReturned None None;
     db_insert := fun _ _ _ => DbReturned None None;
     fetch := fun _ _ _ => inr (mkError "network unreachable" None None);
     toLowerCase := fun s => s;
     JSON_parse := fun _ => inl VNull;
     JSON_stringify := fun _ => "{}" |}.


End Examples.

(** ** What can be said of a run of the deployed graph *)

Module Runs.
Import Js Retry Host Engine.

(** The update sets a response that is not empty. *)
Definition responds (p : object) : Prop :=
  exists v, p !! "response" = Some v /\ truthy v = true.

(** The state holds a response that is not empty. *)
Definition has_response (st : object) : Prop :=
  truthy (get st "response") = true.

(** The state holds a pending action. *)
Definition is_pending (st : object) : Prop :=
  exists p, get st "pendingAction" = VPending p.

(** The place of a node on the paths of the graph: the entry node, the
    four handlers, the approval gate, and the two nodes after it. *)
Definition stage (node : string) : option nat :=
  if String.eqb node "understand_request" then Some 0%nat
  else if String.eqb node "handle_lookup" || String.eqb node "handle_update"
          || String.eqb node "handle_followup" || String.eqb node "handle_other"
  then Some 1%nat
  else if String.eqb node "human_review" then Some 2%nat
  else if String.eqb node "execute_approved" || String.eqb node "handle_rejection"
  then Some 3%nat
  else None.

(** The steps are at consecutive stages, starting at stage [d]. *)
Definition staged (d : nat) (ss : list Gate.Step) : Prop :=
  forall i s, ss !! i = Some s -> stage (step_node s) = Some (d + i)%nat.

(** The run went through the approval gate. *)
Definition reviewed (ss : list Gate.Step) : Prop :=
  "human_review" ∈ step_node <$> ss.

(** The effect is one that carries out the pending action [pa]: the
    request that sends its e-mail, an update of its lead with its changes
    or with the time of the contact, or the record of the interaction. *)
Definition carries_out (pa : PendingAction) (e : Effect) : Prop :=
  match e with
  | HttpPost url req =>
      action_type pa = send_email /\ url = Email.resend_url
      /\ exists c, emailContent pa = Some c
                   /\ to req = email_to c /\ subject req = email_subject c
                   /\ text req = email_body c
  | DbUpdate table chg id =>
      table = "leads" /\ id = leadId pa
      /\ ((action_type pa = update_lead /\ changes pa = Some chg)
          \/ (action_type pa = send_email
              /\ exists stamp, chg = [("last_contacted_at", SStr stamp)]))
  | DbInsert table row =>
      table = "interactions" /\ i_lead_id row = leadId pa
      /\ required_approval row = true /\ approved row = true
  | _ => False
  end.

(** A handler of the run proposed the action [pa]. *)
Definition proposed_in (ss : list Gate.Step) (pa : PendingAction) : Prop :=
  exists s p,
    s ∈ ss
    /\ (step_node s = "handle_update" \/ step_node s = "handle_followup")
    /\ step_result s = inl p
    /\ p !! "pendingAction" = Some (VPending pa).

(** The run reached [END], or ended with a rejection of the database
    client in [execute_approved]. *)
Definition fails_only_in_execute (o : Outcome object object World) : Prop :=
  failure o = None
  \/ exists e, failure o = Some (NodeFailed "execute_approved" (Threw e)).

(** The run ended as above, or was stopped by a step budget below [k]. *)
Definition ends_well (k budget : nat) (o : Outcome object object World) : Prop :=
  (failure o = Some StepBudgetExceededError /\ (budget < k)%nat)
  \/ fails_only_in_execute o.

End Runs.

(** ** The graph and the runner of the resilient agent (Exercise 3) *)

Module ResilientGraph.
Import Js Retry Host Email Engine ResilientAgent.

(** [{ node, error }], which [handleFollowup] files under [errorDetails]. *)
Record ErrorDetails := mkErrorDetails {
  details_node : string;
  details_error : Thrown
}.

(** [interface AgentState], and [Partial<AgentState>] for an update.
    [errorDetails] is the one field that can hold an object of a shape
    [value] has no constructor for.  When it does, the object is kept in
    [details], and what [fields] holds under ["errorDetails"] is out of
    date; otherwise [details] is [None] and [fields] holds the field like
    any other. *)
Record AgentState := mkAgentState {
  fields : object;
  details : option ErrorDetails
}.

(** A state or an update without an [errorDetails] object. *)
Definition of_fields (o : object) : AgentState :=
  {| fields := o; details := None |}.

(** The merge through the channels of the graph: [b ?? a] on every
    declared field.  For [errorDetails], an object in the update replaces
    what the state held, a [null] or [undefined] or no key at all leaves
    it, and any other value replaces it. *)
Definition merge (current partial : AgentState) : AgentState :=
  {| fields := Channels.merge Channels.resilient_channels (fields current) (fields partial);
     details :=
       match details partial with
       | Some d => Some d
       | None =>
           match fields partial !! "errorDetails" with
           | Some b => if nullish b then details current else None
           | None => details current
           end
       end |}.

(** [error instanceof Error ? error.message : "Unknown error"] in a
    [catch] block. *)
Definition caught_message (error : Thrown) : string :=
  match error with
  | Threw e => Retry.message e
  | ThrewUndefined => "Unknown error"
  end.

(** [`%${target}%`] as the pattern of an [ilike] on the company name. *)
Definition by_company (target : value) : Filter :=
  Ilike "company_name" ("%" ++ to_string target ++ "%").

(** One line of the lead listing; [i] is the index in the array. *)
Definition lead_line (i : nat) (l : Lead) : string :=
  pretty (S i) ++ ". **" ++ company_name l ++ "** - " ++ contact_name l
  ++ " (Score: " ++ pretty (score l) ++ ")".

(** The e-mail [handleFollowup] drafts for a lead. *)
Definition followup_email (lead : Lead) : EmailContent :=
  {| email_to := contact_email lead;
     email_subject := "Following up - " ++ company_name lead;
     email_body :=
       "Hi " ++ contact_name lead ++ "," ++ nl ++ nl
       ++ "I wanted to follow up on our recent conversation about "
       ++ company_name lead ++ "." ++ nl ++ nl
       ++ "Is there anything else I can help clarify or any questions you have?"
       ++ nl ++ nl ++ "Best regards" |}.

Section WithHost.
Variable h : Host.

(** [error.code] of the error objects the database client returns, and
    [error.name] of an [Error]. *)
Variable code : JsError -> string.
Variable name : JsError -> string.

(** [error?.message || String(error)] for what a [catch] block caught: the
    message of an [Error], or [String(error)] when the message is empty,
    which is then the name of the error; ["undefined"] for [undefined]. *)
Definition caught_text (error : Thrown) : string :=
  match error with
  | Threw e => if String.eqb (Retry.message e) "" then name e else Retry.message e
  | ThrewUndefined => "undefined"
  end.

(** [formatUserError(error)] in a [catch] block. *)
Definition formatCaught (error : Thrown) : string :=
  formatUserError (VStr (caught_text error)).

Definition handleLookup (state : object) : M object :=
  try_catch
    (let target := intent_target_of (get state "intent") in
     leads ← queryLeadsWithRetry h code
               (if truthy target then by_company target else NoFilter);
     match leads with
     | [] => mret ({[ "response" := VStr "No leads found." ]} : object)
     | _ =>
         mret ({[ "leads" := VLeads leads;
                  "response" :=
                    VStr ("Found " ++ pretty (length leads) ++ " lead(s):" ++ nl ++ nl
                          ++ String.concat nl (imap lead_line leads)) ]} : object)
     end)
    (fun error =>
       mret ({[ "error" := VStr (caught_message error);
                "response" := VStr (formatCaught error) ]} : object)).

Definition handleFollowup (state : AgentState) : M AgentState :=
  let target := intent_target_of (get (fields state) "intent") in
  if negb (truthy target) then
    mret (of_fields {[ "response" := VStr "Who would you like me to follow up with?" ]})
  else
    try_catch
      (leads ← queryLeadsWithRetry h code (by_company target);
       match leads with
       | [] =>
           mret (of_fields
                   {[ "response" :=
                        VStr ("I couldn't find anyone matching " ++ dq
                              ++ to_string target ++ dq ++ ".") ]})
       | lead :: _ =>
           let emailContent := followup_email lead in
           mret (of_fields
                   {[ "pendingAction" :=
                        VPending {| action_type := send_email;
                                    leadId := lead_id lead;
                                    leadName := company_name lead;
                                    changes := None;
                                    emailContent := Some emailContent |};
                      "approvalStatus" := VStr "pending";
                      "response" :=
                        VStr ("📧 Ready to send to " ++ contact_name lead
                              ++ " (" ++ contact_email lead ++ "):" ++ nl ++ nl
                              ++ "**Subject:** " ++ email_subject emailContent ++ nl ++ nl
                              ++ email_body emailContent ++ nl ++ nl
                              ++ "⏳ Awaiting approval...") ]})
       end)
      (fun error =>
         mret {| fields := {[ "error" := VStr (caught_message error);
                              "response" := VStr (formatCaught error) ]};
                 details := Some {| details_node := "handleFollowup";
                                    details_error := error |} |}).

(** Of the values a state can hold under [pendingAction], only a pending
    [send_email] with its [emailContent] passes the guard: the others are
    falsy, or have another [type], or have no [emailContent]. *)
Definition executeApprovedEmail (state : object) : M object :=
  match get state "pendingAction" with
  | VPending {| action_type := send_email; leadId := id;
                emailContent := Some content |} =>
      try_catch
        (result ← Resilient.sendEmail h content;
         if negb (success result) then
           let error := match Email.error result with
                        | Some e => VStr e
                        | None => VUndefined
                        end in
           mret ({[ "error" := error;
                    "response" := VStr ("❌ Failed to send email: " ++ to_string error) ]}
                 : object)
         else
           _ ← insert h "interactions"
                 {| i_lead_id := id;
                    interaction_type := "email_sent";
                    description := "Sent: " ++ dq ++ email_subject content ++ dq;
                    performed_by := "agent";
                    required_approval := true;
                    approved := true;
                    metadata := Some (messageId result) |};
           stamp ← now_iso h;
           _ ← update h "leads" [("last_contacted_at", SStr stamp)] id;
           mret ({[ "response" :=
                      VStr ("✅ Email sent to " ++ email_to content ++ "!" ++ nl ++ nl
                            ++ "Message ID: " ++ default "undefined" (messageId result));
                    "pendingAction" := VNull;
                    "approvalStatus" := VNull ]} : object))
        (fun error =>
           mret ({[ "error" := VStr (caught_message error);
                    "response" :=
                      VStr ("❌ Failed to send email. " ++ formatCaught error) ]}
                 : object))
  | _ => mret ({[ "error" := VStr "No valid pending email" ]} : object)
  end.

Definition handleOther (state : object) : M object :=
  mret ({[ "response" :=
             VStr ("Try: " ++ dq ++ "Show me leads" ++ dq ++ " or " ++ dq
                   ++ "Send follow-up to TechCorp" ++ dq) ]} : object).

Definition humanReview (state : object) : M object :=
  let autoApprove := env_get h "AUTO_APPROVE" in
  if bool_decide (autoApprove = Some "true") then
    mret ({[ "approvalStatus" := VStr "approved" ]} : object)
  else if bool_decide (autoApprove = Some "false") then
    mret ({[ "approvalStatus" := VStr "rejected" ]} : object)
  else mret (∅ : object).

Definition handleRejection (state : object) : M object :=
  mret ({[ "response" :=
             VStr "❌ Email not sent. Let me know if you'd like to do something else.";
           "pendingAction" := VNull;
           "approvalStatus" := VNull ]} : object).

(** A node that reads and returns plain fields only. *)
Definition plain (body : object -> M object) : Node AgentState AgentState World :=
  fun state => p ← body (fields state); mret (of_fields p).

(** The routers read plain fields. *)
Definition on_fields (router : object -> string) (state : AgentState) : string :=
  router (fields state).

Definition workflow : Graph AgentState AgentState World :=
  {| nodes :=
       {[ "understand_request" := plain (understandRequest h);
          "handle_lookup" := plain handleLookup;
          "handle_followup" := handleFollowup : Node AgentState AgentState World;
          "handle_other" := plain handleOther;
          "human_review" := plain humanReview;
          "execute_email" := plain executeApprovedEmail;
          "handle_rejection" := plain handleRejection;
          "error_recovery" := plain errorRecovery ]};
     entry := "understand_request";
     edges :=
       {[ "understand_request" :=
            Conditional (on_fields Routers.Resilient.routeByIntent)
                        Routers.Resilient.routeByIntent_mapping;
          "handle_followup" :=
            Conditional (on_fields Routers.Resilient.routeAfterFollowup)
                        Routers.Resilient.routeAfterFollowup_mapping;
          "human_review" :=
            Conditional (on_fields Routers.Resilient.routeAfterReview)
                        Routers.Resilient.routeAfterReview_mapping;
          "handle_lookup" := Fixed END;
          "handle_other" := Fixed END;
          "execute_email" := Fixed END;
          "handle_rejection" := Fixed END;
          "error_recovery" := Fixed END ]} |}.

Definition has_error (state : AgentState) : bool :=
  truthy (get (fields state) "error").

(** [app.invoke(state)]: the compiled graph never suspends a run, and an
    exception of a node ends the run. *)
Definition invoke (budget : nat) (state : AgentState) (w : World)
    : Outcome AgentState AgentState World :=
  run merge (fun _ _ => None) has_error (fun _ => false) workflow budget state w.

(** Modelled from the spec: the step budget of the engine, and the error
    the engine itself rejects with when a run fails for a reason other
    than the exception of a node. *)
Variable budget : nat.
Variable engine_error : Failure -> JsError.

(** Modelled from the spec: [await app.invoke(state)] gives the final
    state of a run that reached [END], and rejects with the exception of
    the node that failed or with the error of the engine. *)
Definition app_invoke (state : AgentState) : M AgentState :=
  fun w =>
    let o := invoke budget state w in
    match failure o with
    | None => (inl (final_state o), world o)
    | Some (NodeFailed _ thrown) => (inr thrown, world o)
    | Some f => (inr (Threw (engine_error f)), world o)
    end.

(** [{ success: boolean; message: string }] *)
Record Answer := mkAnswer {
  answer_success : bool;
  answer_message : value
}.

(** [runAgent(message)] of the resilient agent: no [catch] here. *)
Definition runAgent (message : string) : M Answer :=
  result ← app_invoke (of_fields (initial message));
  mret {| answer_success := negb (truthy (get (fields result) "error"));
          answer_message := if truthy (get (fields result) "response")
                            then get (fields result) "response"
                            else VStr "No response" |}.

End WithHost.

End ResilientGraph.

(** ** What can be said of a run of the resilient graph *)

Module ResilientPaths.
Import Js Retry Host Email Engine ResilientAgent ResilientGraph.

Abbreviation Step := (Engine.Step AgentState AgentState World).
Abbreviation Run := (Engine.Outcome AgentState AgentState World).

(** The nodes a run executed, in order. *)
Definition path (o : Run) : list string := step_node <$> steps o.

(** The walks through the graph from the entry node, and their beginnings
    (for the runs that are cut short). *)
Definition paths : list (list string) :=
  [ [];
    ["understand_request"];
    ["understand_request"; "handle_lookup"];
    ["understand_request"; "handle_other"];
    ["understand_request"; "error_recovery"];
    ["understand_request"; "handle_followup"];
    ["understand_request"; "handle_followup"; "error_recovery"];
    ["understand_request"; "handle_followup"; "human_review"];
    ["understand_request"; "handle_followup"; "human_review"; "execute_email"];
    ["understand_request"; "handle_followup"; "human_review"; "handle_rejection"] ].

(** A query or a pause: the effects that change nothing outside. *)
Definition quiet (e : Effect) : Prop :=
  match e with
  | DbSelect _ | Slept _ => True
  | _ => False
  end.

(** The effect is part of delivering the e-mail [content] for the lead
    [id]: the request to the mail service with that recipient, subject and
    text, the record of the interaction as approved, or the time stamp of
    the contact on the lead. *)
Definition delivers (id : string) (content : EmailContent) (e : Effect) : Prop :=
  match e with
  | HttpPost url req =>
      url = resend_url /\ to req = email_to content
      /\ subject req = email_subject content /\ text req = email_body content
  | DbInsert table row =>
      table = "interactions" /\ i_lead_id row = id
      /\ interaction_type row = "email_sent"
      /\ required_approval row = true /\ approved row = true
  | DbUpdate table chg row_id =>
      table = "leads" /\ row_id = id
      /\ exists stamp, chg = [("last_contacted_at", SStr stamp)]
  | _ => False
  end.

(** The effect is part of delivering the pending e-mail of the state. *)
Definition delivers_pending (st : AgentState) (e : Effect) : Prop :=
  exists pa content,
    get (fields st) "pendingAction" = VPending pa
    /\ emailContent pa = Some content
    /\ delivers (leadId pa) content e.

(** The search [handleFollowup] makes for a company. *)
Definition company_query (c : string) : Query :=
  {| q_table := "leads"; q_filter := by_company (VStr c);
     q_order := Some ("score", false) |}.

(** [lead] is the first row of a reply of the database to the search for
    the company [c]. *)
Definition first_match (h : Host) (c : string) (lead : Lead) : Prop :=
  exists tick rest,
    db_select h tick (company_query c) = DbReturned (Some (lead :: rest)) None.

(** The effect is part of the follow-up to the first match of the
    company [target]. *)
Definition follows_up (h : Host) (target : value) (e : Effect) : Prop :=
  exists c lead,
    target = VStr c /\ first_match h c lead
    /\ delivers (lead_id lead) (followup_email lead) e.

(** The world went from [w] to [w'] by effects that satisfy [P], at most
    two of them requests to the mail service. *)
Definition grows (P : Effect -> Prop) (w w' : World) : Prop :=
  exists effects,
    trace w' = (trace w ++ effects)%list
    /\ Forall P effects
    /\ (length (posts effects) <= 2)%nat.

(** The state holds a response that is a string and not empty. *)
Definition has_response (st : AgentState) : Prop :=
  exists s, get (fields st) "response" = VStr s /\ s <> "".

(** The update sets such a response. *)
Definition responds (p : AgentState) : Prop :=
  exists s, fields p !! "response" = Some (VStr s) /\ s <> "".

(** A node of the run returned an update with an [error] that is truthy. *)
Definition recorded_error (ss : list Step) : Prop :=
  exists s p v,
    s ∈ ss /\ step_result s = inl p
    /\ fields p !! "error" = Some v /\ truthy v = true.

(** The response [errorRecovery] builds around a text. *)
Definition advice (text : string) : string :=
  "⚠️ " ++ text ++ nl ++ nl ++ "Try:" ++ nl
  ++ "- Rephrasing your request" ++ nl
  ++ "- Asking about something else" ++ nl
  ++ "- Waiting a moment and trying again".

(** The update [handleFollowup] returns when it has drafted the e-mail
    for [lead]. *)
Definition drafted (lead : Lead) : AgentState :=
  of_fields
    {[ "pendingAction" :=
         VPending {| action_type := send_email;
                     leadId := lead_id lead;
                     leadName := company_name lead;
                     changes := None;
                     emailContent := Some (followup_email lead) |};
       "approvalStatus" := VStr "pending";
       "response" :=
         VStr ("📧 Ready to send to " ++ contact_name lead
               ++ " (" ++ contact_email lead ++ "):" ++ nl ++ nl
               ++ "**Subject:** " ++ email_subject (followup_email lead) ++ nl ++ nl
               ++ email_body (followup_email lead) ++ nl ++ nl
               ++ "⏳ Awaiting approval...") ]}.

(** The update [handleFollowup] returns when the search failed. *)
Definition failed_search (text : string) (error : Thrown) : AgentState :=
  {| fields := {[ "error" := VStr (caught_message error);
                  "response" := VStr text ]};
     details := Some {| details_node := "handleFollowup"; details_error := error |} |}.

(** The row [executeApprovedEmail] inserts into [interactions]. *)
Definition sent_record (id : string) (content : EmailContent) (messageId : option string)
    : Interaction :=
  {| i_lead_id := id;
     interaction_type := "email_sent";
     description := "Sent: " ++ dq ++ email_subject content ++ dq;
     performed_by := "agent";
     required_approval := true;
     approved := true;
     metadata := Some messageId |}.

(** The update [executeApprovedEmail] returns after its two requests to
    the database. *)
Definition reported_sent (content : EmailContent) (messageId : option string) : object :=
  {[ "response" :=
       VStr ("✅ Email sent to " ++ email_to content ++ "!" ++ nl ++ nl
             ++ "Message ID: " ++ default "undefined" messageId);
     "pendingAction" := VNull;
     "approvalStatus" := VNull ]}.

(** The update of its [catch] block. *)
Definition send_failed (text : string) (error : Thrown) : object :=
  {[ "error" := VStr (caught_message error);
     "response" := VStr ("❌ Failed to send email. " ++ text) ]}.

(** A host without a key for the mail service, whose database answers
    every insert and every update with an error in its reply. *)
Definition refusing_db_host : Host :=
  {| env := ∅;
     HIGH_VALUE_THRESHOLD := Some 80;
     date_now := fun _ => 1700000000000;
     date_iso := fun _ => "2023-11-14T22:13:20.000Z";
     math_random := fun _ => 0%Q;
     messages_create := fun _ _ => inl [TextBlock "{}"];
     db_select := fun _ _ => DbReturned (Some [Demo.techcorp]) None;
     db_update := fun _ _ _ _ =>
       DbReturned None (Some (mkError "permission denied" None None));
     db_insert := fun _ _ _ =>
       DbReturned None (Some (mkError "permission denied" None None));
     fetch := fun _ _ _ => inr (mkError "network unreachable" None None);
     toLowerCase := fun s => s;
     JSON_parse := fun _ => inl VNull;
     JSON_stringify := fun _ => "{}" |}.

(** Names for the errors of the examples. *)
Definition no_code (e : JsError) : string := "".
Definition plain_name (e : JsError) : string := "Error".

(** The follow-up to TechCorp, approved. *)
Definition approved_followup : object :=
  {[ "pendingAction" :=
       VPending {| action_type := send_email; leadId := "lead-1"; leadName := "TechCorp";
                   changes := None;
                   emailContent := Some (followup_email Demo.techcorp) |};
     "approvalStatus" := VStr "approved" ]}.

End ResilientPaths.

(** ** The first node (Day 1, Exercise 2): classifying the intent *)

Module FirstNode.
Import Js Retry Host Email.

(** What [JSON.parse] returns.  The properties of an object are listed
    with the one that counts first: a property is read at its first
    occurrence, and an assignment puts the new value in front.  An array
    is an object too, and can be given properties. *)
#[warnings="-register-all"] Inductive json :=
| JNull
| JBool (b : bool)
| JNum (x : Q)
| JStr (s : string)
| JArr (items : list json) (props : list (string * json))
| JObj (props : list (string * json)).

(** [interface AgentIntent] is a type annotation only: at run time the
    intent is whatever was parsed.  [Partial<AgentState>] as the node
    returns it: the intent, and the error in the [catch] branch. *)
Record Update := mkUpdate {
  intent : json;
  error : option string
}.

(** The property [k] among [props]. *)
Fixpoint prop (k : string) (props : list (string * json)) : option json :=
  match props with
  | [] => None
  | (k', v) :: rest => if String.eqb k' k then Some v else prop k rest
  end.

(** [v.type] where it can be read: [None] is [undefined]. *)
Definition type_of (v : json) : option json :=
  match v with
  | JObj props | JArr _ props => prop "type" props
  | _ => None
  end.

(** [intent.type] as the node reads it: a [TypeError] on [null]. *)
Definition read_type (v : json) : M (option json) :=
  match v with
  | JNull => throw (TypeError "Cannot read properties of null (reading 'type')")
  | _ => mret (type_of v)
  end.

(** [intent.type = "unknown"].  The file is an ES module, hence strict
    code: the assignment throws a [TypeError] on a primitive value. *)
Definition set_type_unknown (v : json) : M json :=
  match v with
  | JObj props => mret (JObj (("type", JStr "unknown") :: props))
  | JArr items props => mret (JArr items (("type", JStr "unknown") :: props))
  | JNull => throw (TypeError "Cannot set properties of null (setting 'type')")
  | JBool _ | JNum _ | JStr _ =>
      throw (TypeError "Cannot create property 'type' on a primitive value")
  end.

Definition validTypes : list string :=
  ["lookup"; "qualify"; "followup"; "update"; "unknown"].

(** [validTypes.includes(t)] *)
Definition is_valid (t : option json) : bool :=
  match t with
  | Some (JStr s) => bool_decide (s ∈ validTypes)
  | _ => false
  end.

(** The intent [extractJsonSafely] falls back to, and the one of the
    [catch] branch of the node. *)
Definition unparsed : json :=
  JObj [ ("type", JStr "unknown"); ("target", JNull);
         ("details", JStr "Could not parse LLM response");
         ("confidence", JStr "low") ].

Definition unclassified : json :=
  JObj [ ("type", JStr "unknown");
         ("details", JStr "Failed to classify intent");
         ("confidence", JStr "low") ].

(** The prompt of [understandRequest]: the lines of the template literal. *)
Definition classificationPrompt (userMessage : value) : string :=
  String.concat nl
    [ "You are a CRM assistant that classifies user requests.";
      "";
      "Classify the following message into exactly ONE category:";
      "";
      "CATEGORIES:";
      "- " ++ dq ++ "lookup" ++ dq ++ ": User wants to SEE or FIND lead information";
      "  Examples: " ++ dq ++ "show me leads" ++ dq ++ ", " ++ dq
      ++ "what's TechCorp's status" ++ dq ++ ", " ++ dq ++ "find hot leads" ++ dq ++ ", " ++ dq
      ++ "list all contacts" ++ dq;
      "  ";
      "- " ++ dq ++ "qualify" ++ dq ++ ": User wants to ANALYZE or SCORE a specific lead";
      "  Examples: " ++ dq ++ "qualify the TechCorp lead" ++ dq ++ ", " ++ dq
      ++ "analyze this prospect" ++ dq ++ ", " ++ dq ++ "score GlobalRetail" ++ dq;
      "  ";
      "- " ++ dq ++ "followup" ++ dq ++ ": User wants to SEND COMMUNICATION to a lead";
      "  Examples: " ++ dq ++ "send email to Sophie" ++ dq ++ ", " ++ dq
      ++ "follow up with TechCorp" ++ dq ++ ", " ++ dq ++ "reach out to the new leads" ++ dq;
      "  ";
      "- " ++ dq ++ "update" ++ dq ++ ": User wants to CHANGE lead data";
      "  Examples: " ++ dq ++ "mark as won" ++ dq ++ ", " ++ dq
      ++ "update status to qualified" ++ dq ++ ", " ++ dq ++ "add a note" ++ dq ++ ", " ++ dq
      ++ "change the score" ++ dq;
      "  ";
      "- " ++ dq ++ "unknown" ++ dq ++ ": Cannot determine intent OR it's unrelated to CRM";
      "  Examples: " ++ dq ++ "hello" ++ dq ++ ", " ++ dq ++ "what's the weather" ++ dq
      ++ ", " ++ dq ++ "tell me a joke" ++ dq;
      "";
      "User message: " ++ dq ++ to_string userMessage ++ dq;
      "";
      "Respond with ONLY valid JSON, no other text:";
      "{" ++ dq ++ "type" ++ dq ++ ": " ++ dq ++ "lookup|qualify|followup|update|unknown"
      ++ dq ++ ", " ++ dq ++ "target" ++ dq ++ ": " ++ dq
      ++ "company/person name if mentioned or null" ++ dq ++ ", " ++ dq ++ "details" ++ dq
      ++ ": " ++ dq ++ "any relevant additional info or null" ++ dq ++ ", " ++ dq
      ++ "confidence" ++ dq ++ ": " ++ dq ++ "high|medium|low" ++ dq ++ "}" ].

Section WithHost.
Variable h : Host.

(** [JSON.parse] on the replies of the service. *)
Variable JSON_parse : string -> json + JsError.

(** [extractJsonSafely(text)]: the whole text, or else what lies between
    the first opening brace and the last closing brace, or else the
    default. *)
Definition extractJsonSafely (text : string) : json :=
  match JSON_parse text with
  | inl v => v
  | inr _ =>
      match Agent.match_object text with
      | Some m =>
          match JSON_parse m with
          | inl v => v
          | inr _ => unparsed
          end
      | None => unparsed
      end
  end.

Definition understandRequest (state : object) : M Update :=
  let userMessage := get state "userMessage" in
  try_catch
    (response ← await (create_message h (classificationPrompt userMessage));
     first ← match response with
              | block :: _ => mret block
              | [] => throw (TypeError "Cannot read properties of undefined (reading 'type')")
              end;
     let responseText := match first with
                         | TextBlock t => t
                         | OtherBlock => ""
                         end in
     let intent := extractJsonSafely responseText in
     type ← read_type intent;
     intent ← (if is_valid type then mret intent else set_type_unknown intent);
     mret {| intent := intent; error := None |})
    (fun error =>
       mret {| intent := unclassified;
               error := Some ("Classification error: "
                              ++ match error with
                                 | Threw e => Retry.message e
                                 | ThrewUndefined => "unknown"
                                 end) |}).

End WithHost.

End FirstNode.
(** * Properties *)

Module JsFacts.
Import Js.

Lemma coalesce_nullish a b : nullish b = true -> coalesce a b = a.
Proof. unfold coalesce. now intros ->. Qed.

Lemma coalesce_value a b : nullish b = false -> coalesce a b = b.
Proof. unfold coalesce. now intros ->. Qed.

Lemma is_str_true v s : is_str v s = true <-> v = VStr s.
Proof.
  destruct v; simpl; try (split; [discriminate | congruence]).
  rewrite String.eqb_eq. split; congruence.
Qed.

End JsFacts.

(** ** The merge of partial updates *)

Module ChannelsFacts.
Import Js Channels.

Lemma get_insert (o : object) k k' v :
  get (<[k := v]> o) k' = if bool_decide (k = k') then v else get o k'.
Proof.
  unfold get. case_bool_decide as Hk.
  - subst. now rewrite lookup_insert_eq.
  - now rewrite lookup_insert_ne.
Qed.

(** What a field of the merged state holds, for a table whose reducers
    are all [(a, b) => b ?? a]. *)
Lemma merge_get chs (current partial : object) k :
  all_coalesce chs ->
  get (merge chs current partial) k =
  if bool_decide (k ∈ chs.*1) then
    match partial !! k with
    | Some b => coalesce (get current k) b
    | None => get current k
    end
  else get current k.
Proof.
  unfold all_coalesce.
  induction chs as [|[k' f] chs IH]; intros Hall.
  - case_bool_decide as Hk; [|reflexivity]. cbn in Hk. now apply elem_of_nil in Hk.
  - inversion Hall as [|? ? Hf Hall']; subst. cbn in Hf. subst f.
    specialize (IH Hall').
    change (merge (((k', coalesce) : string * reducer) :: chs) current partial)
      with (match partial !! k' with
            | Some b => <[k' := coalesce (get current k') b]> (merge chs current partial)
            | None => merge chs current partial
            end).
    rewrite fmap_cons. cbn [fst].
    destruct (decide (k' = k)) as [->|Hne].
    + rewrite (bool_decide_eq_true_2 (k ∈ k :: chs.*1)) by apply list_elem_of_here.
      destruct (partial !! k) as [b|] eqn:Hb.
      * rewrite get_insert, bool_decide_eq_true_2; reflexivity.
      * rewrite IH. now destruct (bool_decide _).
    + assert (Hiff : bool_decide (k ∈ k' :: chs.*1) = bool_decide (k ∈ chs.*1)).
      { apply bool_decide_ext. rewrite elem_of_cons.
        split; [intros [Heq|Hin]; [congruence|exact Hin]|auto]. }
      rewrite Hiff.
      destruct (partial !! k') as [b'|].
      * rewrite get_insert, bool_decide_eq_false_2 by exact Hne. exact IH.
      * exact IH.
Qed.

(** The part of the merge contract that holds: absent fields keep their
    value, and fields present with a value that is neither [null] nor
    [undefined] take it. *)
Lemma merge_keeps_and_overwrites chs (current partial : object) k :
  all_coalesce chs -> declared chs k ->
  match partial !! k with
  | None => get (merge chs current partial) k = get current k
  | Some b => nullish b = false -> get (merge chs current partial) k = b
  end.
Proof.
  intros Hall Hk. rewrite merge_get by exact Hall.
  rewrite bool_decide_eq_true_2 by exact Hk.
  destruct (partial !! k) as [b|]; [|reflexivity].
  intros Hb. now apply JsFacts.coalesce_value.
Qed.

(** A field present with the value [null] is not overwritten: the old
    value stays. *)
Lemma merge_null_keeps_current chs (current partial : object) k :
  all_coalesce chs -> partial !! k = Some VNull ->
  get (merge chs current partial) k = get current k.
Proof.
  intros Hall Hk. rewrite merge_get, Hk by exact Hall.
  now destruct (bool_decide _).
Qed.

(** C3 at the update of [handleRejection]: the node returns
    [pendingAction: null] and [approvalStatus: null] to clear the two
    fields, and the merge through the channels leaves both as they were,
    while the non-null [response] is taken. *)
Theorem merge_null_does_not_clear :
  let current : object :=
    <[ "pendingAction" := VPending Agent.techcorp_won ]>
      (<[ "approvalStatus" := VStr "rejected" ]> (Agent.initial "Mark TechCorp as won")) in
  let partial : object :=
    {[ "response" := VStr "❌ Action rejected.";
       "pendingAction" := VNull;
       "approvalStatus" := VNull ]} in
  Agent.handleRejection current Host.start = (inl partial, Host.start)
  /\ partial !! "pendingAction" = Some VNull
  /\ get (merge agent_channels current partial) "pendingAction"
     = VPending Agent.techcorp_won
  /\ get (merge agent_channels current partial) "approvalStatus" = VStr "rejected"
  /\ get (merge agent_channels current partial) "response"
     = VStr "❌ Action rejected.".
Proof.
  intros current partial.
  assert (Hall : all_coalesce agent_channels) by (repeat constructor).
  split; [reflexivity|]. split; [reflexivity|].
  split; [|split].
  - rewrite merge_null_keeps_current by (exact Hall || reflexivity). reflexivity.
  - rewrite merge_null_keeps_current by (exact Hall || reflexivity). reflexivity.
  - pose proof (merge_keeps_and_overwrites agent_channels current partial "response" Hall)
      as H.
    change (partial !! "response") with (Some (VStr "❌ Action rejected.")) in H.
    apply H; [|reflexivity].
    unfold declared. cbn.
    repeat first [apply list_elem_of_here | apply list_elem_of_further].
Qed.

End ChannelsFacts.

(** ** The retry helpers *)

Module RetryFacts.
Import Retry.

Section Loop.
Context {W T : Type}.
Variable random : W -> Q * W.
Variable sleep : Q -> W -> W.
Variable fn : Operation W T.
Variable opts : RetryOptions.

(** One unfolding of the loop body, with every branch of it as a case. *)
Ltac loop_cases IH :=
  simpl;
  destruct (_ <=? _) eqn:Hle;
  [ destruct (fn _) as [[v|error] w1] eqn:Hfn;
    [ | destruct (Z.eqb _ _ || negb _) eqn:Hstop;
        [ | destruct (random w1) as [sample w2] eqn:Hrnd ] ]
  | ].

Lemma retry_loop_enough fuel attempt lastError w :
  (Z.to_nat (maxRetries opts - attempt + 1) < fuel)%nat ->
  is_Some (retry_loop random sleep fuel fn opts attempt lastError w).
Proof.
  revert attempt lastError w.
  induction fuel as [|fuel IH]; intros attempt lastError w Hfuel; [lia|].
  loop_cases IH; try (eexists; reflexivity).
  apply Z.leb_le in Hle.
  destruct (IH (attempt + 1) (Threw error) (sleep (backoff opts attempt sample) w2))
    as [run Hrun]; [lia|].
  rewrite Hrun. eexists; reflexivity.
Qed.

Lemma retry_loop_invocations fuel attempt lastError w run :
  retry_loop random sleep fuel fn opts attempt lastError w = Some run ->
  (invocations run <= Z.to_nat (maxRetries opts - attempt + 1))%nat.
Proof.
  revert attempt lastError w run.
  induction fuel as [|fuel IH]; intros attempt lastError w run; [discriminate|].
  loop_cases IH; intros Hrun.
  - apply Z.leb_le in Hle. inversion Hrun; subst. unfold invocations; simpl. lia.
  - apply Z.leb_le in Hle. inversion Hrun; subst. unfold invocations; simpl. lia.
  - apply Z.leb_le in Hle.
    destruct (retry_loop _ _ fuel _ _ _ _ _) as [rest|] eqn:Hrest; [|discriminate].
    apply IH in Hrest. inversion Hrun; subst.
    unfold invocations in *; simpl. lia.
  - inversion Hrun; subst. unfold invocations; simpl. lia.
Qed.

Lemma retry_loop_delays fuel attempt lastError w run :
  retry_loop random sleep fuel fn opts attempt lastError w = Some run ->
  Forall (fun wt => (wait_delay wt <= maxDelayMs opts)%Q) (waits run).
Proof.
  revert attempt lastError w run.
  induction fuel as [|fuel IH]; intros attempt lastError w run; [discriminate|].
  loop_cases IH; intros Hrun; try (inversion Hrun; subst; constructor).
  destruct (retry_loop _ _ fuel _ _ _ _ _) as [rest|] eqn:Hrest; [|discriminate].
  apply IH in Hrest. inversion Hrun; subst. simpl.
  constructor; [|exact Hrest]. simpl. unfold backoff. apply Q.le_min_r.
Qed.

Lemma retry_loop_ran fuel attempt lastError w run :
  retry_loop random sleep fuel fn opts attempt lastError w = Some run ->
  attempt <= maxRetries opts ->
  (0 < invocations run)%nat.
Proof.
  destruct fuel as [|fuel]; [discriminate|].
  loop_cases IH; intros Hrun Hatt;
    try (destruct (retry_loop _ _ fuel _ _ _ _ _) as [rest|]; [|discriminate]);
    try (apply Z.leb_gt in Hle; lia);
    inversion Hrun; subst; unfold invocations; simpl; lia.
Qed.

Lemma retry_loop_waits_length fuel attempt lastError w run :
  retry_loop random sleep fuel fn opts attempt lastError w = Some run ->
  length (waits run) = pred (invocations run).
Proof.
  revert attempt lastError w run.
  induction fuel as [|fuel IH]; intros attempt lastError w run; [discriminate|].
  loop_cases IH; intros Hrun; try (inversion Hrun; subst; reflexivity).
  destruct (retry_loop _ _ fuel _ _ _ _ _) as [rest|] eqn:Hrest; [|discriminate].
  pose proof (IH _ _ _ _ Hrest) as Hlen.
  apply retry_loop_ran in Hrest.
  - inversion Hrun; subst. unfold invocations in *; simpl. lia.
  - apply Z.leb_le in Hle.
    apply orb_false_elim in Hstop as [Hne _]. apply Z.eqb_neq in Hne. lia.
Qed.

(** Each scheduled retry slept [backoff] of its own attempt number and
    sample, and the attempts are numbered consecutively. *)
Lemma retry_loop_waits fuel attempt lastError w run :
  retry_loop random sleep fuel fn opts attempt lastError w = Some run ->
  Forall (fun wt => wait_delay wt = backoff opts (wait_attempt wt) (wait_sample wt))
         (waits run)
  /\ wait_attempt <$> waits run = seqZ attempt (Z.of_nat (length (waits run))).
Proof.
  revert attempt lastError w run.
  induction fuel as [|fuel IH]; intros attempt lastError w run; [discriminate|].
  loop_cases IH; intros Hrun; try (inversion Hrun; subst; split; [constructor|reflexivity]).
  destruct (retry_loop _ _ fuel _ _ _ _ _) as [rest|] eqn:Hrest; [|discriminate].
  apply IH in Hrest as [Hall Hseq]. inversion Hrun; subst.
  unfold cons_attempt; cbn [waits]. split.
  - constructor; [reflexivity|exact Hall].
  - rewrite fmap_cons, Hseq. cbn [wait_attempt length].
    rewrite Nat2Z.inj_succ, (seqZ_cons attempt) by lia.
    f_equal. f_equal; lia.
Qed.

(** A failure that is terminal for the classifier, or that happens on
    attempt [maxRetries], is the last invocation, and its error is what
    the helper throws. *)
Lemma retry_loop_stops fuel attempt lastError w run i e :
  retry_loop random sleep fuel fn opts attempt lastError w = Some run ->
  history run !! i = Some (inr e) ->
  retryable opts e = false \/ attempt + Z.of_nat i = maxRetries opts ->
  invocations run = S i /\ outcome run = inr (Threw e).
Proof.
  revert attempt lastError w run i.
  induction fuel as [|fuel IH]; intros attempt lastError w run i; [discriminate|].
  loop_cases IH; intros Hrun Hi Hterm.
  - inversion Hrun; subst. destruct i; simpl in Hi; discriminate.
  - inversion Hrun; subst. destruct i as [|i]; [|destruct i; discriminate].
    simpl in Hi. inversion Hi; subst. split; reflexivity.
  - destruct (retry_loop _ _ fuel _ _ _ _ _) as [rest|] eqn:Hrest; [|discriminate].
    inversion Hrun; subst. unfold cons_attempt, invocations in *. cbn [history outcome] in *.
    apply orb_false_elim in Hstop as [Hne Hretry].
    apply Z.eqb_neq in Hne. apply negb_false_iff in Hretry.
    destruct i as [|i]; simpl in Hi.
    + inversion Hi; subst. destruct Hterm as [Hterm|Hterm]; [congruence|lia].
    + destruct (IH _ _ _ _ _ Hrest Hi) as [Hlen Hout]; [destruct Hterm; [left|right]; lia || assumption|].
      simpl. split; congruence.
  - inversion Hrun; subst. destruct i; discriminate.
Qed.

(** What the helper throws is the error of the last invocation, unless the
    loop body never ran. *)
Lemma retry_loop_thrown fuel attempt lastError w run thrown :
  retry_loop random sleep fuel fn opts attempt lastError w = Some run ->
  outcome run = inr thrown ->
  (history run = [] /\ thrown = lastError /\ maxRetries opts < attempt)
  \/ (exists e, thrown = Threw e /\ last (history run) = Some (inr e)
                /\ (retryable opts e = false
                    \/ attempt + Z.of_nat (invocations run) - 1 = maxRetries opts)).
Proof.
  revert attempt lastError w run.
  induction fuel as [|fuel IH]; intros attempt lastError w run; [discriminate|].
  loop_cases IH; intros Hrun Hout.
  - inversion Hrun; subst. discriminate.
  - inversion Hrun; subst. simpl in Hout. inversion Hout; subst.
    right. exists error. split; [reflexivity|]. split; [reflexivity|].
    apply orb_true_iff in Hstop as [Hlast|Hterm].
    + right. apply Z.eqb_eq in Hlast. unfold invocations; simpl. lia.
    + left. now apply negb_true_iff in Hterm.
  - destruct (retry_loop _ _ fuel _ _ _ _ _) as [rest|] eqn:Hrest; [|discriminate].
    inversion Hrun; subst. unfold cons_attempt, invocations in *. cbn [history outcome] in *.
    apply orb_false_elim in Hstop as [Hne Hretry]. apply Z.eqb_neq in Hne.
    apply Z.leb_le in Hle.
    pose proof (retry_loop_ran _ _ _ _ _ Hrest ltac:(lia)) as Hran.
    destruct (IH _ _ _ _ Hrest Hout) as [(Hnil & _)|(e & -> & Hlast & Hwhy)].
    + unfold invocations in Hran. rewrite Hnil in Hran. simpl in Hran. lia.
    + right. exists e. split; [reflexivity|]. split.
      * destruct (history rest) as [|o os] eqn:Hh; [discriminate|].
        rewrite <- Hlast. reflexivity.
      * destruct Hwhy as [Hwhy|Hwhy]; [left; exact Hwhy|right]. simpl length. lia.
  - inversion Hrun; subst. simpl in Hout. inversion Hout; subst.
    left. apply Z.leb_gt in Hle. auto.
Qed.

End Loop.

Section SimpleLoop.
Context {W T : Type}.
Variable sleep : Q -> W -> W.
Variable fn : Operation W T.
Variable maxRetries : Z.

Lemma simple_loop_enough fuel attempt lastError w :
  (Z.to_nat (maxRetries - attempt + 1) < fuel)%nat ->
  is_Some (Simple.simple_loop sleep fuel fn maxRetries attempt lastError w).
Proof.
  revert attempt lastError w.
  induction fuel as [|fuel IH]; intros attempt lastError w Hfuel; [lia|].
  simpl. destruct (_ <=? _) eqn:Hle; [|eexists; reflexivity].
  apply Z.leb_le in Hle.
  destruct (fn w) as [[v|error] w1]; [eexists; reflexivity|].
  destruct (_ <? _).
  - destruct (IH (attempt + 1) (Threw error) (sleep (inject_Z (1000 * attempt)) w1))
      as [run Hrun]; [lia|]. rewrite Hrun. eexists; reflexivity.
  - destruct (IH (attempt + 1) (Threw error) w1) as [run Hrun]; [lia|].
    rewrite Hrun. eexists; reflexivity.
Qed.

Lemma simple_loop_invocations fuel attempt lastError w run :
  Simple.simple_loop sleep fuel fn maxRetries attempt lastError w = Some run ->
  (invocations run <= Z.to_nat (maxRetries - attempt + 1))%nat.
Proof.
  revert attempt lastError w run.
  induction fuel as [|fuel IH]; intros attempt lastError w run; [discriminate|].
  simpl. destruct (_ <=? _) eqn:Hle.
  - apply Z.leb_le in Hle.
    destruct (fn w) as [[v|error] w1].
    + intros [= <-]. unfold invocations; simpl. lia.
    + destruct (_ <? _);
        (destruct (Simple.simple_loop _ fuel _ _ _ _ _) as [rest|] eqn:Hrest; [|discriminate]);
        apply IH in Hrest; intros [= <-]; unfold invocations in *; simpl; lia.
  - intros [= <-]. unfold invocations; simpl. lia.
Qed.

(** Whatever the operation and the timer preserve, the helper preserves. *)
Lemma simple_loop_invariant (R : W -> W -> Prop) :
  (forall w, R w w) ->
  (forall a b c, R a b -> R b c -> R a c) ->
  (forall w, R w (fn w).2) ->
  (forall d w, R w (sleep d w)) ->
  forall fuel attempt lastError w run,
    Simple.simple_loop sleep fuel fn maxRetries attempt lastError w = Some run ->
    R w (final run).
Proof.
  intros Hrefl Htrans Hfn Hsleep.
  induction fuel as [|fuel IH]; intros attempt lastError w run; [discriminate|].
  simpl. destruct (_ <=? _).
  - pose proof (Hfn w) as Hstep.
    destruct (fn w) as [[v|error] w1]; simpl in Hstep.
    + intros [= <-]. exact Hstep.
    + destruct (_ <? _);
        (destruct (Simple.simple_loop _ fuel _ _ _ _ _) as [rest|] eqn:Hrest; [|discriminate]);
        apply IH in Hrest; intros [= <-]; simpl; eauto.
  - intros [= <-]. apply Hrefl.
Qed.

End SimpleLoop.

(** C4: with [maxRetries = N] the helper settles after at most [N]
    invocations of the wrapped operation, it sleeps exactly once between
    two consecutive attempts, and no such delay exceeds [maxDelayMs].  The
    Exercise 4 helper, whose policy is the attempt bound alone, obeys the
    same bound on invocations. *)
Theorem withRetry_bounded {W T : Type} (random : W -> Q * W) (sleep : Q -> W -> W)
    (fn : Operation W T) (w : W) :
  (forall options : PartialRetryOptions,
      let opts := spread defaultRetryOptions options in
      exists run,
        withRetry random sleep fn options w = Some run
        /\ (invocations run <= Z.to_nat (maxRetries opts))%nat
        /\ length (waits run) = pred (invocations run)
        /\ Forall (fun wt => (wait_delay wt <= maxDelayMs opts)%Q) (waits run))
  /\ (forall maxRetries : option Z,
        exists run,
          Simple.withRetry sleep fn maxRetries w = Some run
          /\ (invocations run <= Z.to_nat (default 3%Z maxRetries))%nat).
Proof.
  split.
  - intros options opts. unfold withRetry. fold opts.
    destruct (retry_loop_enough random sleep fn opts
                (S (Z.to_nat (maxRetries opts))) 1 ThrewUndefined w) as [run Hrun]; [lia|].
    exists run. split; [exact Hrun|]. split; [|split].
    + apply retry_loop_invocations in Hrun.
      replace (maxRetries opts - 1 + 1) with (maxRetries opts) in Hrun by lia. exact Hrun.
    + eapply retry_loop_waits_length; exact Hrun.
    + eapply retry_loop_delays; exact Hrun.
  - intros maxRetries. unfold Simple.withRetry.
    destruct (simple_loop_enough sleep fn (default 3 maxRetries)
                (S (Z.to_nat (default 3 maxRetries))) 1 ThrewUndefined w) as [run Hrun]; [lia|].
    exists run. split; [exact Hrun|].
    apply simple_loop_invocations in Hrun.
    replace (default 3 maxRetries - 1 + 1) with (default 3 maxRetries) in Hrun by lia.
    exact Hrun.
Qed.

(** Below the cap the code and the specification's formula agree (with
    the jitter fraction 0.1). *)
Lemma backoff_below_cap (opts : RetryOptions) (attempt : Z) (sample : Q) :
  (0 <= baseDelayMs opts)%Q -> (0 <= sample)%Q ->
  (baseDelayMs opts * 2 ^ (attempt - 1) * (1 + sample * (1 # 10)) <= maxDelayMs opts)%Q ->
  (backoff opts attempt sample
   == spec_delay (maxDelayMs opts) (baseDelayMs opts) attempt sample (1 # 10))%Q.
Proof.
  intros Hbase Hsample Hcap. unfold backoff, spec_delay.
  assert (Hpow : (0 <= 2 ^ (attempt - 1))%Q) by (apply Qpower_0_le; lra).
  set (p := (2 ^ (attempt - 1))%Q) in *.
  assert (Hx : (0 <= baseDelayMs opts * p)%Q) by (apply Qmult_le_0_compat; assumption).
  set (x := (baseDelayMs opts * p)%Q) in *.
  assert (Hgrow : (x <= x * (1 + sample * (1 # 10)))%Q) by nra.
  rewrite Q.min_l by exact Hcap.
  rewrite (Q.min_r (maxDelayMs opts) x) by lra.
  reflexivity.
Qed.

(** C5, as the code has it: the delay slept after failed attempt [n] is
    [min(baseDelayMs * 2^(n-1) * (1 + random() * 0.1), maxDelayMs)]: the
    jitter fraction is the constant [0.1] and the cap is applied after the
    jitter; attempts are numbered from 1.  The lecture's
    [calculateBackoff] is [baseDelay * 2^(n-1) * (1 + random() * 0.3)],
    with no cap. *)
Theorem withRetry_backoff {W T : Type} (random : W -> Q * W) (sleep : Q -> W -> W)
    (fn : Operation W T) (options : PartialRetryOptions) (w : W) :
  (let opts := spread defaultRetryOptions options in
   exists run,
     withRetry random sleep fn options w = Some run
     /\ Forall (fun wt =>
                  wait_delay wt =
                  Qmin (baseDelayMs opts * 2 ^ (wait_attempt wt - 1)
                        * (1 + wait_sample wt * (1 # 10)))
                       (maxDelayMs opts)) (waits run)
     /\ wait_attempt <$> waits run = seqZ 1 (Z.of_nat (length (waits run))))
  /\ (forall (attempt : Z) (baseDelay : option Q),
        calculateBackoff random attempt baseDelay w =
        ((default (1000 : Q) baseDelay * 2 ^ (attempt - 1)
          * (1 + (random w).1 * (3 # 10)))%Q, (random w).2)).
Proof.
  split.
  - intros opts. unfold withRetry. fold opts.
    destruct (retry_loop_enough random sleep fn opts
                (S (Z.to_nat (maxRetries opts))) 1 ThrewUndefined w) as [run Hrun]; [lia|].
    exists run. split; [exact Hrun|].
    apply retry_loop_waits in Hrun. exact Hrun.
  - intros attempt baseDelay. unfold calculateBackoff.
    destruct (random w) as [sample w1]. reflexivity.
Qed.

(** C5 as stated fails: with [baseDelayMs = maxDelayMs = 1000] and a
    jitter sample of [1/2], the helper sleeps 1000 ms after the first
    failure, where the specification's formula gives 1050 ms. *)
Lemma withRetry_backoff_not_spec_formula :
  exists run wt,
    withRetry half no_sleep (failing 500)
      {| p_maxRetries := Some 2; p_baseDelayMs := Some (1000 : Q);
         p_maxDelayMs := Some (1000 : Q); p_shouldRetry := None |} tt = Some run
    /\ waits run = [wt]
    /\ wait_attempt wt = 1
    /\ ~ (wait_delay wt == spec_delay 1000 1000 1 (wait_sample wt) (1 # 10))%Q.
Proof.
  eexists. eexists. split; [vm_compute; reflexivity|].
  split; [reflexivity|]. split; [reflexivity|].
  vm_compute. discriminate.
Qed.

(** C6, as the code has it: a failure the classifier marks terminal, or
    the failure of attempt number [maxRetries], ends the call: the operation
    is not invoked again and the helper throws that very error object.
    Whatever the helper throws is the error of the last invocation, or the
    uninitialised [lastError] when [maxRetries < 1]; nothing is added to
    the error. *)
Theorem withRetry_rethrows {W T : Type} (random : W -> Q * W) (sleep : Q -> W -> W)
    (fn : Operation W T) (options : PartialRetryOptions) (w : W) :
  let opts := spread defaultRetryOptions options in
  exists run,
    withRetry random sleep fn options w = Some run
    /\ (forall i e,
          history run !! i = Some (inr e) ->
          retryable opts e = false \/ Z.of_nat (S i) = maxRetries opts ->
          invocations run = S i /\ outcome run = inr (Threw e))
    /\ (forall thrown,
          outcome run = inr thrown ->
          (thrown = ThrewUndefined /\ history run = [] /\ maxRetries opts < 1)
          \/ (exists e, thrown = Threw e /\ last (history run) = Some (inr e)
                        /\ (retryable opts e = false
                            \/ Z.of_nat (invocations run) = maxRetries opts))).
Proof.
  intros opts. unfold withRetry. fold opts.
  destruct (retry_loop_enough random sleep fn opts
              (S (Z.to_nat (maxRetries opts))) 1 ThrewUndefined w) as [run Hrun]; [lia|].
  exists run. split; [exact Hrun|]. split.
  - intros i e Hi Hterm.
    eapply retry_loop_stops; [exact Hrun|exact Hi|].
    destruct Hterm as [Hterm|Hterm]; [left; exact Hterm|right; lia].
  - intros thrown Hout.
    destruct (retry_loop_thrown _ _ _ _ _ _ _ _ _ _ Hrun Hout)
      as [(Hnil & -> & Hlt)|(e & -> & Hlast & Hwhy)].
    + left. auto.
    + right. exists e. split; [reflexivity|]. split; [exact Hlast|].
      destruct Hwhy as [Hwhy|Hwhy]; [left; exact Hwhy|right; lia].
Qed.

(** A 404 is terminal for the default classifier: one invocation, and the
    404 error itself is thrown. *)
Lemma withRetry_rethrows_witness :
  exists run,
    withRetry half no_sleep (failing 404) no_options tt = Some run
    /\ invocations run = 1%nat
    /\ outcome run = inr (Threw (mkError "request failed" (Some 404) None)).
Proof.
  destruct (withRetry_rethrows half no_sleep (failing 404) no_options tt)
    as (run & Hrun & Hstop & _).
  exists run. split; [exact Hrun|].
  apply (Hstop 0%nat (mkError "request failed" (Some 404) None)).
  - vm_compute in Hrun. injection Hrun as <-. reflexivity.
  - left. reflexivity.
Defined.

(** C6 as stated fails: the thrown error carries no attempt count.  The
    same error object is thrown after one attempt and after two, so no
    reading of the thrown value gives the number of attempts. *)
Lemma withRetry_error_not_annotated :
  ~ (exists attempts_of : Thrown -> nat,
        forall (options : PartialRetryOptions) (run : Run unit unit) (thrown : Thrown),
          withRetry half no_sleep (failing 500) options tt = Some run ->
          outcome run = inr thrown ->
          attempts_of thrown = invocations run).
Proof.
  intros [attempts_of H].
  pose proof (H {| p_maxRetries := Some 1; p_baseDelayMs := None;
                   p_maxDelayMs := None; p_shouldRetry := None |}
                _ _ eq_refl eq_refl) as H1.
  pose proof (H {| p_maxRetries := Some 2; p_baseDelayMs := None;
                   p_maxDelayMs := None; p_shouldRetry := None |}
                _ _ eq_refl eq_refl) as H2.
  vm_compute in H1, H2. congruence.
Qed.

End RetryFacts.

(** ** The circuit breaker *)

Module BreakerFacts.
Import Retry Breaker.

Section Clock.
Context {W T : Type}.
Variable now : W -> Z * W.

Lemma fresh_consistent : consistent fresh.
Proof. split; simpl; [lia|]. intros H; lia. Qed.

Lemma execute_consistent cb (fn : Operation W T) w :
  consistent cb -> consistent (breaker (execute now cb fn w)).
Proof.
  intros [Hge Hlast]. unfold execute, isOpen, recordFailure.
  destruct (failures cb <? threshold).
  - destruct (fn w) as [[v|e] w1]; simpl.
    + apply fresh_consistent.
    + destruct (now w1) as [t w2]; simpl. split; simpl; [lia|eauto].
  - destruct (now w) as [t w0]. destruct (_ <? resetTimeout); simpl.
    + split; assumption.
    + destruct (fn w0) as [[v|e] w1]; simpl.
      * apply fresh_consistent.
      * destruct (now w1) as [t' w2]; simpl. split; simpl; [lia|eauto].
Qed.

Lemma execute_all_consistent fns cb (w : W) cb' w' :
  consistent cb ->
  execute_all (T:=T) now cb fns w = (cb', w') ->
  consistent cb'.
Proof.
  revert cb w. induction fns as [|fn fns IH]; intros cb w Hcb; simpl.
  - intros [= <- <-]. exact Hcb.
  - apply IH. now apply execute_consistent.
Qed.

Lemma lastFailureTime_some cb t : lastFailure cb = Some t -> lastFailureTime cb = t.
Proof.
  unfold lastFailureTime. intros ->. destruct (Z.eqb_spec t 0); congruence.
Qed.

End Clock.

(** C7: after any sequence of calls, (1) a call that succeeds leaves the
    failure count at zero; and once the count has reached the threshold,
    (2) a call made before [resetTimeout] has passed since the last failure
    throws the circuit-open error without invoking the operation, while
    (3) a call made after it invokes the operation once: its success
    closes the breaker for good, its failure records a new failure time,
    from which the breaker is open again for a full [resetTimeout]. *)
Theorem breaker_trips_and_resets {W T : Type} (now : W -> Z * W)
    (fns : list (Operation W T)) (w0 : W) (cb : CircuitBreaker) (w : W)
    (fn : Operation W T) :
  execute_all now fresh fns w0 = (cb, w) ->
  let c := execute now cb fn w in
  (forall v, result c = inl v ->
             invoked c = true /\ failures (breaker c) = 0
             /\ forall w', (isOpen now (breaker c) w').1 = false)
  /\ (threshold <= failures cb ->
      exists t_last,
        lastFailure cb = Some t_last
        /\ ((now w).1 - t_last < resetTimeout ->
            invoked c = false /\ result c = inr circuit_open /\ breaker c = cb)
        /\ (resetTimeout <= (now w).1 - t_last ->
            invoked c = true
            /\ forall error w1,
                 fn (now w).2 = (inr error, w1) ->
                 result c = inr error
                 /\ failures (breaker c) = failures cb + 1
                 /\ lastFailure (breaker c) = Some (now w1).1
                 /\ forall w',
                      (now w').1 - (now w1).1 < resetTimeout ->
                      (isOpen now (breaker c) w').1 = true)).
Proof.
  intros Hreach c.
  pose proof (execute_all_consistent now fns fresh w0 cb w fresh_consistent Hreach)
    as [Hge Hlast].
  split.
  - subst c. unfold execute, isOpen.
    destruct (failures cb <? threshold) eqn:Hlt.
    + destruct (fn w) as [[v'|e] w1]; simpl.
      * intros v _. repeat split. 
      * destruct (recordFailure now cb w1). simpl. discriminate.
    + destruct (now w) as [t w1]. destruct (_ <? resetTimeout); simpl; [discriminate|].
      destruct (fn w1) as [[v'|e] w2]; simpl.
      * intros v _. repeat split.
      * destruct (recordFailure now cb w2). simpl. discriminate.
  - intros Hth. unfold threshold in Hth.
    destruct Hlast as [t_last Ht]; [lia|]. exists t_last. split; [exact Ht|].
    pose proof (lastFailureTime_some cb t_last Ht) as Htime.
    subst c. unfold execute, isOpen. rewrite Htime.
    destruct (Z.ltb_spec (failures cb) threshold) as [Hlt|_]; [unfold threshold in Hlt; lia|].
    destruct (now w) as [t w1]; simpl. split.
    + intros Hcool. destruct (Z.ltb_spec (t - t_last) resetTimeout); [|lia].
      repeat split.
    + intros Hcool. destruct (Z.ltb_spec (t - t_last) resetTimeout); [lia|].
      split.
      * destruct (fn w1) as [[v|e] w2]; [reflexivity|].
        unfold recordFailure. destruct (now w2). reflexivity.
      * intros error w2 Hfn. rewrite Hfn. unfold recordFailure.
        destruct (now w2) as [t2 w3] eqn:Hnow2. simpl.
        repeat split. intros w' Hw'.
        unfold lastFailureTime. simpl.
        destruct (Z.ltb_spec (failures cb + 1) threshold) as [Hlt|_];
          [unfold threshold in Hlt; lia|].
        destruct (now w') as [t' w'']. simpl in *.
        destruct (Z.eqb_spec t2 0); apply Z.ltb_lt; lia.
Qed.

(** Five failures one millisecond apart trip the breaker: the sixth call,
    made at once, is refused without invoking the operation. *)
Lemma breaker_trips_and_resets_witness :
  let c := execute clock {| failures := 5; lastFailure := Some 5 |}
             succeeds_after_1ms 5 in
  invoked c = false /\ result c = inr circuit_open.
Proof.
  pose proof (breaker_trips_and_resets clock
                (replicate 5 fails_after_1ms) 0
                {| failures := 5; lastFailure := Some 5 |} 5
                succeeds_after_1ms eq_refl) as [_ Htrip].
  destruct Htrip as (t_last & Ht & Hopen & _); [unfold threshold; simpl; lia|].
  injection Ht as <-.
  destruct Hopen as (Hinv & Hres & _); [unfold resetTimeout; simpl; lia|].
  split; assumption.
Defined.

End BreakerFacts.

(** ** The graph engine *)

Module EngineFacts.
Import Retry Engine.

Section Generic.
Context {State Partial W : Type}.
Variable merge : State -> Partial -> State.
Variable attach_error : Thrown -> State -> option State.
Variable has_error : State -> bool.
Variable suspends : Partial -> bool.

Lemma status_cases (s : Status) :
  s = completed \/ s = failed \/ s = awaiting_approval.
Proof. destruct s; auto. Qed.

(** A run never executes more nodes than what is left of the budget. *)
Lemma run_from_executed (g : Graph State Partial W) remaining node st w :
  (executed (run_from merge attach_error has_error suspends g remaining node st w)
   <= remaining)%nat.
Proof.
  revert node st w.
  induction remaining as [|remaining IH]; intros node st w; simpl.
  - unfold executed; simpl. lia.
  - destruct (nodes g !! node) as [body|]; [|unfold executed; simpl; lia].
    destruct (body st w) as [r w1].
    assert (Hroute : forall st1,
      (executed
         match next g node st1 with
         | None => stop failed (Some (UnknownRoute node)) st1 w1
         | Some END => stop (if has_error st1 then failed else completed) None st1 w1
         | Some (Goto node') =>
             run_from merge attach_error has_error suspends g remaining node' st1 w1
         end <= remaining)%nat).
    { intros st1. destruct (next g node st1) as [[node'|]|];
        [apply IH|unfold executed; simpl; lia|unfold executed; simpl; lia]. }
    unfold executed, after_step in *. cbn [steps length].
    destruct r as [partial|thrown].
    + destruct (suspends partial); [simpl; lia|].
      specialize (Hroute (merge st partial)). lia.
    + destruct (attach_error thrown st) as [st1|]; [|simpl; lia].
      specialize (Hroute st1). lia.
Qed.

(** Two nodes whose routers always send to each other use up any budget:
    every node execution is followed by another, so the run stops only
    when the budget is exhausted. *)
Lemma ping_pong_exhausts (g : Graph State Partial W) X Y bx by_ rx mx ry my :
  nodes g !! X = Some bx -> nodes g !! Y = Some by_ ->
  edges g !! X = Some (Conditional rx mx) ->
  edges g !! Y = Some (Conditional ry my) ->
  (forall st, mx !! rx st = Some (Goto Y)) ->
  (forall st, my !! ry st = Some (Goto X)) ->
  (forall p, suspends p = false) ->
  (forall t st, is_Some (attach_error t st)) ->
  forall remaining node st w,
    node = X \/ node = Y ->
    let o := run_from merge attach_error has_error suspends g remaining node st w in
    status o = failed /\ failure o = Some StepBudgetExceededError
    /\ executed o = remaining.
Proof.
  intros HX HY HeX HeY HrX HrY Hsusp Hattach.
  induction remaining as [|remaining IH]; intros node st w Hnode; cbn [run_from].
  - repeat split.
  - assert (Hnext : forall st1, exists node',
               next g node st1 = Some (Goto node') /\ (node' = X \/ node' = Y)).
    { intros st1. unfold next.
      destruct Hnode as [-> | ->]; [rewrite HeX, HrX|rewrite HeY, HrY]; eauto. }
    destruct (nodes g !! node) as [body|] eqn:Hbody.
    2: { exfalso.
         destruct Hnode as [-> | ->];
           [pose proof (eq_trans (eq_sym HX) Hbody)
           |pose proof (eq_trans (eq_sym HY) Hbody)]; discriminate. }
    destruct (body st w) as [r w1].
    destruct r as [partial|thrown].
    + rewrite Hsusp.
      destruct (Hnext (merge st partial)) as (node' & -> & Hnode').
      destruct (IH node' (merge st partial) w1 Hnode') as (Hs & Hf & He).
      unfold executed, after_step in *. cbn [status failure steps length].
      repeat split; [exact Hs|exact Hf|lia].
    + destruct (Hattach thrown st) as [st1 ->].
      destruct (Hnext st1) as (node' & -> & Hnode').
      destruct (IH node' st1 w1 Hnode') as (Hs & Hf & He).
      unfold executed, after_step in *. cbn [status failure steps length].
      repeat split; [exact Hs|exact Hf|lia].
Qed.

End Generic.

End EngineFacts.

(** ** The fixed loop graph *)

Module LoopFacts.
Import Retry Engine Loop.

Section WithLength.
Variable js_length : string -> Z.

Abbreviation run_loop := (run_from merge attach_error (fun st => is_set (error st))
                        (fun _ : Update => false) (graph js_length)).

Lemma routeAnalysis_cases st :
  routeAnalysis st = "end" \/ routeAnalysis st = "request_clarification".
Proof.
  unfold routeAnalysis.
  repeat match goal with |- context [if ?c then _ else _] => destruct c end; auto.
Qed.

(** After [analyze_request] the run ends or goes to [request_clarification],
    as [routeAnalysis] says. *)
Lemma analyze_step n st :
  let st1 := merge st (analyzeRequest js_length st) in
  let step := mkStep "analyze_request" st tt (inl (analyzeRequest js_length st)) tt in
  run_loop (S n) "analyze_request" st tt =
  after_step step
    (if String.eqb (routeAnalysis st1) "request_clarification"
     then run_loop n "request_clarification" st1 tt
     else stop (if is_set (error st1) then failed else completed) None st1 tt).
Proof.
  intros st1 step. cbn [run_from].
  change (nodes (graph js_length) !! "analyze_request")
    with (Some (pure (analyzeRequest js_length))).
  cbn [pure]. unfold next.
  change (edges (graph js_length) !! "analyze_request")
    with (Some (Conditional routeAnalysis routeAnalysis_mapping)).
  fold st1. fold step.
  destruct (routeAnalysis_cases st1) as [-> | ->]; reflexivity.
Qed.

Lemma clarify_step n st :
  let st1 := merge st (requestClarification st) in
  let step := mkStep "request_clarification" st tt (inl (requestClarification st)) tt in
  run_loop (S n) "request_clarification" st tt =
  after_step step (run_loop n "analyze_request" st1 tt).
Proof.
  intros st1 step. cbn [run_from].
  change (nodes (graph js_length) !! "request_clarification")
    with (Some (pure requestClarification)).
  cbn [pure]. unfold next.
  change (edges (graph js_length) !! "request_clarification")
    with (Some (Fixed (Goto "analyze_request") : Edge AgentState)).
  reflexivity.
Qed.

(** Once clarification has been asked for, the analysis produces a
    response and the router ends the run. *)
Lemma analyze_after_clarification st :
  askedForClarification st = true ->
  routeAnalysis (merge st (analyzeRequest js_length st)) = "end".
Proof.
  intros Hasked. unfold analyzeRequest. rewrite Hasked.
  destruct (maxAttempts st <=? attempts st); reflexivity.
Qed.

Lemma loop_within_three st budget :
  (3 <= budget)%nat ->
  let o := invoke js_length budget st in
  failure o = None /\ (executed o <= 3)%nat
  /\ (status o = completed \/ status o = failed).
Proof.
  intros Hb. destruct budget as [|[|[|b]]]; try lia. clear Hb.
  unfold invoke, run. cbn [entry graph].
  rewrite analyze_step.
  destruct (String.eqb _ "request_clarification") eqn:Hroute.
  - rewrite clarify_step, analyze_step.
    rewrite analyze_after_clarification by reflexivity.
    cbn [String.eqb Ascii.eqb Bool.eqb]. unfold executed. simpl.
    repeat split; [lia|]. 
    repeat match goal with |- context [if ?c then _ else _] => destruct c end; auto.
  - unfold executed; simpl. repeat split; [lia|].
    repeat match goal with |- context [if ?c then _ else _] => destruct c end; auto.
Qed.

End WithLength.
End LoopFacts.

(** ** The buggy loop graph *)

Module BuggyLoopFacts.
Import Retry Engine BuggyLoop.

Section WithLength.
Variable js_length : string -> Z.

Abbreviation run_buggy :=
  (run_from merge (fun _ st => Some st) (fun _ : BuggyState => false)
            (fun _ : Update => false) (graph js_length)).

(** On a short message the two nodes of the buggy graph call each other
    for ever: whatever the budget, the run uses all of it and ends
    [failed] with [StepBudgetExceededError]. *)
Lemma buggy_loop_exhausts n :
  forall node st,
    js_length (userMessage st) < 20 ->
    node = "analyze_request"
    \/ (node = "request_clarification" /\ needsMoreInfo st = true) ->
    let o := run_buggy n node st tt in
    status o = failed /\ failure o = Some StepBudgetExceededError
    /\ executed o = n.
Proof.
  induction n as [|n IH]; intros node st Hshort Hnode; [repeat split|].
  destruct Hnode as [-> | [-> Hmore]].
  - cbn [run_from].
    change (nodes (graph js_length) !! "analyze_request")
      with (Some (pure (analyzeRequest js_length))).
    cbn [pure]. unfold next.
    change (edges (graph js_length) !! "analyze_request")
      with (Some (Conditional routeAnalysis
                    ({[ "request_clarification" := Goto "request_clarification";
                        "end" := END ]} : gmap string Target))).
    assert (Hst : analyzeRequest js_length st =
                  {| u_userMessage := None; u_attempts := Some (attempts st + 1);
                     u_response := None; u_needsMoreInfo := Some true |}).
    { unfold analyzeRequest. destruct (Z.ltb_spec (js_length (userMessage st)) 20);
        [reflexivity|lia]. }
    rewrite Hst. unfold routeAnalysis. cbn [merge needsMoreInfo Loop.keep default].
    change (({[ "request_clarification" := Goto "request_clarification";
                "end" := END ]} : gmap string Target) !! "request_clarification")
      with (Some (Goto "request_clarification")).
    destruct (IH "request_clarification"
                {| userMessage := userMessage st; attempts := attempts st + 1;
                   response := response st; needsMoreInfo := true |})
      as (Hs & Hf & He); [exact Hshort|right; split; reflexivity|].
    unfold executed in *. cbn [after_step status failure steps length].
    repeat split; [exact Hs|exact Hf|f_equal; exact He].
  - cbn [run_from].
    change (nodes (graph js_length) !! "request_clarification")
      with (Some (pure requestClarification)).
    cbn [pure]. unfold next.
    change (edges (graph js_length) !! "request_clarification")
      with (Some (Fixed (Goto "analyze_request") : Edge BuggyState)).
    destruct (IH "analyze_request" (merge st (requestClarification st)))
      as (Hs & Hf & He); [exact Hshort|left; reflexivity|].
    unfold executed in *. cbn [after_step status failure steps length].
    repeat split; [exact Hs|exact Hf|f_equal; exact He].
Qed.

End WithLength.

(** The run of the exercise, on "Hi": under a budget of 25 it executes 25
    nodes and is stopped by the budget. *)
Example buggy_hi :
  let o := invoke (fun s => Z.of_nat (String.length s)) 25
             {| userMessage := "Hi"; attempts := 0; response := None;
                needsMoreInfo := false |} in
  status o = failed /\ failure o = Some StepBudgetExceededError
  /\ executed o = 25%nat.
Proof.
  apply (buggy_loop_exhausts (fun s => Z.of_nat (String.length s)) 25).
  - cbn. lia.
  - left. reflexivity.
Qed.

End BuggyLoopFacts.

(** ** Termination of runs *)

Module Termination.
Import Retry Engine.

(** C1: every run of the engine stops in [completed], [failed] or
    [awaiting_approval] after at most [budget] node executions.  Two nodes
    whose routers always return each other, under a budget of 5, end
    [failed] with [StepBudgetExceededError] after exactly 5 node
    executions.  The repository's fixed loop graph needs no more than 3
    node executions from any initial state, so a budget of 3 or more never
    trips on it. *)
Theorem run_terminates_within_budget :
  (forall (State Partial W : Type) (merge : State -> Partial -> State)
          (attach_error : Thrown -> State -> option State)
          (has_error : State -> bool) (suspends : Partial -> bool)
          (g : Graph State Partial W) (budget : nat) (st : State) (w : W),
      let o := run merge attach_error has_error suspends g budget st w in
      (status o = completed \/ status o = failed \/ status o = awaiting_approval)
      /\ (executed o <= budget)%nat)
  /\ (forall (State Partial W : Type) (merge : State -> Partial -> State)
            (attach_error : Thrown -> State -> option State)
            (has_error : State -> bool) (suspends : Partial -> bool)
            (g : Graph State Partial W) (X Y : string)
            (bx by_ : Node State Partial W) (rx ry : State -> string)
            (mx my : gmap string Target) (st : State) (w : W),
        entry g = X ->
        nodes g !! X = Some bx -> nodes g !! Y = Some by_ ->
        edges g !! X = Some (Conditional rx mx) ->
        edges g !! Y = Some (Conditional ry my) ->
        (forall st, mx !! rx st = Some (Goto Y)) ->
        (forall st, my !! ry st = Some (Goto X)) ->
        (forall p, suspends p = false) ->
        (forall t st, is_Some (attach_error t st)) ->
        let o := run merge attach_error has_error suspends g 5 st w in
        status o = failed /\ failure o = Some StepBudgetExceededError
        /\ executed o = 5%nat)
  /\ (forall (js_length : string -> Z) (st : Loop.AgentState) (budget : nat),
        (3 <= budget)%nat ->
        let o := Loop.invoke js_length budget st in
        failure o = None /\ (executed o <= 3)%nat
        /\ (status o = completed \/ status o = failed)).
Proof.
  split; [|split].
  - intros. split; [apply EngineFacts.status_cases|].
    apply EngineFacts.run_from_executed.
  - intros State Partial W merge attach_error has_error suspends g X Y bx by_
      rx ry mx my st w Hentry HX HY HeX HeY HrX HrY Hsusp Hattach.
    unfold run. rewrite Hentry.
    apply (EngineFacts.ping_pong_exhausts merge attach_error has_error suspends
             g X Y bx by_ rx mx ry my HX HY HeX HeY HrX HrY Hsusp Hattach
             5%nat X st w).
    left; reflexivity.
  - intros js_length st budget Hb. now apply LoopFacts.loop_within_three.
Qed.

(** Scenario D on the two-node graph, and the fixed loop graph on the
    short message of its first test case, under a budget of 3. *)
Lemma run_terminates_within_budget_witness :
  (let o := run (fun _ _ => tt) (fun _ _ => Some tt) (fun _ => false)
              (fun _ => false) ping_pong 5 tt tt in
   status o = failed /\ failure o = Some StepBudgetExceededError
   /\ executed o = 5%nat)
  /\ (let o := Loop.invoke (fun s => Z.of_nat (String.length s)) 3
                 {| Loop.userMessage := "Hi"; Loop.attempts := 0;
                    Loop.maxAttempts := 3; Loop.response := None;
                    Loop.needsMoreInfo := false;
                    Loop.askedForClarification := false;
                    Loop.error := None |} in
      failure o = None /\ (executed o <= 3)%nat
      /\ (status o = completed \/ status o = failed)).
Proof.
  destruct run_terminates_within_budget as (_ & Hpp & Hloop).
  split.
  - apply (Hpp unit unit unit (fun _ _ => tt) (fun _ _ => Some tt) (fun _ => false)
               (fun _ => false) ping_pong "X" "Y"
               (fun _ w => (inl tt, w)) (fun _ w => (inl tt, w))
               (fun _ => "Y") (fun _ => "X")
               {[ "Y" := Goto "Y" ]} {[ "X" := Goto "X" ]} tt tt);
      try (intros; reflexivity); eauto.
  - apply Hloop. lia.
Defined.

End Termination.

(** ** The approval gate in the deployed graph *)

Module GateFacts.
Import Js Retry Host Email Engine Agent Gate.

Lemma grows_by_refl P w : grows_by P w w.
Proof. exists []. split; [symmetry; apply app_nil_r|constructor]. Qed.

Lemma grows_by_trans P w1 w2 w3 :
  grows_by P w1 w2 -> grows_by P w2 w3 -> grows_by P w1 w3.
Proof.
  intros (e1 & H1 & F1) (e2 & H2 & F2). exists (e1 ++ e2)%list. split.
  - rewrite H2, H1. symmetry. apply app_assoc.
  - apply Forall_app; auto.
Qed.

Lemma grows_by_consult P e w : P e -> grows_by P w (consult [e] w).
Proof. intros He. exists [e]. split; [reflexivity|]. repeat constructor. exact He. Qed.

Lemma grows_by_read P w : grows_by P w (consult [] w).
Proof. exists []. split; [reflexivity|constructor]. Qed.

(** Unfolding of the monadic plumbing, and a case split on the innermost
    scrutinee left in the goal. *)
Ltac plumbing :=
  cbv beta iota zeta delta
    [mbind M_bind mret M_ret throw try_catch message_of select update insert
     now now_iso await post db_reply TypeError fst snd].

Ltac split_match :=
  match goal with
  | |- context [match ?x with _ => _ end] =>
      lazymatch x with
      | context [match _ with _ => _ end] => fail
      | _ => destruct x eqn:?
      end
  end.

Ltac grown :=
  lazymatch goal with
  | |- grows_by _ ?w ?w => apply grows_by_refl
  | H : grows_by ?P ?w ?w' |- grows_by ?P ?w ?w' => exact H
  | |- grows_by _ _ (consult [] ?w') =>
      apply (grows_by_trans _ _ w' _); [grown|apply grows_by_read]
  | |- grows_by _ _ (consult [_] ?w') =>
      apply (grows_by_trans _ _ w' _); [grown|apply grows_by_consult; repeat split]
  end.

Section WithHost.
Variable h : Host.

Lemma handleOther_quiet st w : (handleOther st w).2 = w.
Proof. reflexivity. Qed.

Lemma handleRejection_quiet st w : (handleRejection st w).2 = w.
Proof. reflexivity. Qed.

Lemma humanReview_cases st w :
  (humanReview h st w).2 = w
  /\ ((humanReview h st w).1 = inl ({[ "approvalStatus" := VStr "approved" ]} : object)
      \/ (humanReview h st w).1 = inl ({[ "approvalStatus" := VStr "rejected" ]} : object)
      \/ (humanReview h st w).1 = inl (∅ : object)).
Proof.
  unfold humanReview. repeat case_bool_decide; simpl; auto.
Qed.

Lemma handleLookup_harmless st w : grows_by harmless w (handleLookup h st w).2.
Proof.
  unfold handleLookup. plumbing.
  repeat (split_match; plumbing); cbn [snd]; grown.
Qed.

Lemma handleFollowup_harmless st w : grows_by harmless w (handleFollowup h st w).2.
Proof.
  unfold handleFollowup. plumbing.
  repeat (split_match; plumbing); cbn [snd]; grown.
Qed.

Lemma sendEmail_grows to subject body w :
  grows_by (fun _ => True) w (sendEmail h to subject body w).2.
Proof.
  unfold sendEmail. plumbing.
  repeat (split_match; plumbing); cbn [snd]; grown.
Qed.

Lemma executeApproved_grows st w :
  grows_by (fun _ => True) w (executeApproved h st w).2.
Proof.
  unfold executeApproved. plumbing.
  repeat (split_match; plumbing); cbn [snd]; try grown.
  all: match goal with
       | H : sendEmail _ ?a ?b ?c ?w0 = (_, ?w1) |- _ =>
           let Hs := fresh "Hs" in
           pose proof (sendEmail_grows a b c w0) as Hs;
           rewrite H in Hs; cbn [snd] in Hs
       end.
  all: grown.
Qed.

(** [handle_update] sends nothing; if it mutates a record, the update it
    returns proposes no action. *)
Lemma handleUpdate_direct st w :
  exists effects,
    trace (handleUpdate h st w).2 = (trace w ++ effects)%list
    /\ Forall (fun e => is_send e = false) effects
    /\ ((exists e, e ∈ effects /\ is_mutation e = true) ->
        exists p : object,
          (handleUpdate h st w).1 = inl p
          /\ p !! "pendingAction" = None /\ p !! "approvalStatus" = None).
Proof.
  unfold handleUpdate, lower_message. plumbing.
  repeat (split_match; plumbing); cbn [fst snd consult trace].
  all: try (exists []; split; [symmetry; apply app_nil_r|];
            split; [constructor|]; intros (x & Hx & _); now apply elem_of_nil in Hx).
  all: try (eexists [_]; split; [reflexivity|];
            split; [repeat constructor|];
            intros (x & Hx & Hm); apply list_elem_of_singleton in Hx; subst x;
            discriminate Hm).
  all: rewrite <- app_assoc; eexists [_; _]; split; [reflexivity|];
       split; [repeat constructor|]; intros _;
       eexists; split; [reflexivity|]; split; reflexivity.
Qed.

Lemma understandRequest_harmless st w :
  grows_by harmless w (understandRequest h st w).2.
Proof.
  unfold understandRequest. plumbing. unfold settle, Simple.withRetry.
  destruct (Simple.simple_loop _ _ _ _ _ _ w) as [run|] eqn:Hrun.
  - assert (Hgrow : grows_by harmless w (final run)).
    { eapply (RetryFacts.simple_loop_invariant sleep _ _ (grows_by harmless));
        [apply grows_by_refl|apply grows_by_trans| | |exact Hrun].
      - intros w0. unfold create_message. cbn [snd]. grown.
      - intros d w0. exists [Slept d]. split; [reflexivity|]. repeat constructor. }
    repeat (split_match; plumbing); cbn [snd]; grown.
  - cbn [snd]. grown.
Qed.

(** *** Steps of a run *)

Abbreviation run_agent :=
  (run_from (Channels.merge Channels.agent_channels) (fun _ _ => None) has_error
            (fun _ : object => false) (workflow h)).

Abbreviation merged st p := (Channels.merge Channels.agent_channels st p).

Lemma agent_step node body n st w :
  nodes (workflow h) !! node = Some body ->
  run_agent (S n) node st w =
  after_step (mkStep node st w (body st w).1 (body st w).2)
    match (body st w).1 with
    | inl partial =>
        match next (workflow h) node (merged st partial) with
        | None => stop failed (Some (UnknownRoute node)) (merged st partial) (body st w).2
        | Some END =>
            stop (if has_error (merged st partial) then failed else completed) None
                 (merged st partial) (body st w).2
        | Some (Goto node') => run_agent n node' (merged st partial) (body st w).2
        end
    | inr thrown => stop failed (Some (NodeFailed node thrown)) st (body st w).2
    end.
Proof.
  intros Hnode. cbn [run_from].
  destruct (nodes (workflow h) !! node) as [body'|] eqn:Hbody.
  - injection Hnode as <-.
    destruct (body' st w) as [[partial|thrown] w1]; reflexivity.
  - discriminate Hnode.
Qed.

Lemma performed_step node st w r w1 effects :
  trace w1 = (trace w ++ effects)%list ->
  performed (mkStep node st w r w1) = effects.
Proof.
  intros H. unfold performed. cbn [step_before step_after].
  rewrite H. apply drop_app_length.
Qed.

(** A step of a node other than [execute_approved] that neither sends nor
    mutates is in order. *)
Lemma step_ok_harmless prev node st w r w1 :
  (forall p, prev = Some p -> step_after p = w) ->
  node <> "execute_approved" ->
  grows_by harmless w w1 ->
  step_ok prev (mkStep node st w r w1).
Proof.
  intros Hprev Hnode (effects & Htrace & Hall).
  rewrite Forall_forall in Hall.
  unfold step_ok. rewrite (performed_step _ _ _ _ _ _ Htrace).
  cbn [step_before step_after step_node].
  split; [intros p Hp; symmetry; now apply Hprev|].
  split; [exact Htrace|].
  split; [intros Hn; contradiction|].
  split.
  - intros e He Hsend. destruct (Hall e He) as [Hs _]. congruence.
  - intros e He Hmut. destruct (Hall e He) as [_ Hm]. congruence.
Qed.

Lemma nodes_review : nodes (workflow h) !! "human_review" = Some (humanReview h).
Proof. reflexivity. Qed.
Lemma nodes_execute : nodes (workflow h) !! "execute_approved" = Some (executeApproved h).
Proof. reflexivity. Qed.
Lemma nodes_rejection : nodes (workflow h) !! "handle_rejection" = Some handleRejection.
Proof. reflexivity. Qed.
Lemma nodes_lookup : nodes (workflow h) !! "handle_lookup" = Some (handleLookup h).
Proof. reflexivity. Qed.
Lemma nodes_other : nodes (workflow h) !! "handle_other" = Some handleOther.
Proof. reflexivity. Qed.
Lemma nodes_update : nodes (workflow h) !! "handle_update" = Some (handleUpdate h).
Proof. reflexivity. Qed.
Lemma nodes_followup : nodes (workflow h) !! "handle_followup" = Some (handleFollowup h).
Proof. reflexivity. Qed.
Lemma nodes_understand :
  nodes (workflow h) !! "understand_request" = Some (understandRequest h).
Proof. reflexivity. Qed.

(** A node whose edge goes to [END] runs once. *)
Lemma gated_terminal node body prev n st w :
  nodes (workflow h) !! node = Some body ->
  next (workflow h) node = (fun _ => Some END) ->
  step_ok prev (mkStep node st w (body st w).1 (body st w).2) ->
  gated prev (steps (run_agent n node st w)).
Proof.
  intros Hnode Hnext Hok. destruct n as [|n]; [exact I|].
  rewrite (agent_step _ _ _ _ _ Hnode), Hnext.
  destruct (body st w).1 as [partial|thrown]; cbn; auto.
Qed.

Lemma get_merged st p k :
  k ∈ Channels.agent_channels.*1 ->
  get (merged st p) k =
  match p !! k with
  | Some b => coalesce (get st k) b
  | None => get st k
  end.
Proof.
  intros Hk. rewrite ChannelsFacts.merge_get by (repeat constructor).
  now rewrite bool_decide_eq_true_2.
Qed.

Lemma approvalStatus_declared : "approvalStatus" ∈ Channels.agent_channels.*1.
Proof. cbn. repeat first [apply list_elem_of_here | apply list_elem_of_further]. Qed.

Lemma gated_lookup prev n st w :
  (forall p, prev = Some p -> step_after p = w) ->
  gated prev (steps (run_agent n "handle_lookup" st w)).
Proof.
  intros Hprev. apply (gated_terminal _ _ _ _ _ _ nodes_lookup); [reflexivity|].
  apply step_ok_harmless; [exact Hprev|discriminate|apply handleLookup_harmless].
Qed.

Lemma gated_other prev n st w :
  (forall p, prev = Some p -> step_after p = w) ->
  gated prev (steps (run_agent n "handle_other" st w)).
Proof.
  intros Hprev. apply (gated_terminal _ _ _ _ _ _ nodes_other); [reflexivity|].
  apply step_ok_harmless; [exact Hprev|discriminate|apply grows_by_refl].
Qed.

Lemma gated_rejection prev n st w :
  (forall p, prev = Some p -> step_after p = w) ->
  gated prev (steps (run_agent n "handle_rejection" st w)).
Proof.
  intros Hprev. apply (gated_terminal _ _ _ _ _ _ nodes_rejection); [reflexivity|].
  apply step_ok_harmless; [exact Hprev|discriminate|apply grows_by_refl].
Qed.

Lemma gated_execute p n st w :
  approved_by_gate p -> step_after p = w ->
  get st "approvalStatus" = VStr "approved" ->
  gated (Some p) (steps (run_agent n "execute_approved" st w)).
Proof.
  intros Hgate Hafter Hstatus.
  apply (gated_terminal _ _ _ _ _ _ nodes_execute); [reflexivity|].
  destruct (executeApproved_grows st w) as (effects & Htrace & _).
  unfold step_ok. rewrite (performed_step _ _ _ _ _ _ Htrace).
  cbn [step_before step_after step_node step_state].
  split; [intros q [= <-]; now symmetry|].
  split; [exact Htrace|].
  split; [intros _; eauto|].
  split; auto.
Qed.

(** After the gate: to [execute_approved] only when the gate returned
    "approved". *)
Lemma gated_review prev n st w :
  (forall p, prev = Some p -> step_after p = w) ->
  get st "approvalStatus" = VStr "pending" ->
  gated prev (steps (run_agent n "human_review" st w)).
Proof.
  intros Hprev Hpending. destruct n as [|n]; [exact I|].
  rewrite (agent_step _ _ _ _ _ nodes_review).
  destruct (humanReview_cases st w) as [Hw Hr]. rewrite Hw.
  assert (Hok : forall r, step_ok prev (mkStep "human_review" st w r w)).
  { intros r. apply step_ok_harmless; [exact Hprev|discriminate|apply grows_by_refl]. }
  unfold next.
  change (edges (workflow h) !! "human_review")
    with (Some (Conditional routeAfterReview routeAfterReview_mapping)).
  destruct Hr as [Hr|[Hr|Hr]]; rewrite Hr; cbn [steps after_step gated];
    (split; [apply Hok|]).
  - assert (Hst : get (merged st {[ "approvalStatus" := VStr "approved" ]}) "approvalStatus"
                  = VStr "approved").
    { rewrite get_merged by apply approvalStatus_declared. reflexivity. }
    unfold routeAfterReview. rewrite Hst. cbn [is_str String.eqb Ascii.eqb Bool.eqb].
    change (routeAfterReview_mapping !! "execute_approved") with (Some (Goto "execute_approved")).
    apply gated_execute; [split; reflexivity|reflexivity|exact Hst].
  - assert (Hst : get (merged st {[ "approvalStatus" := VStr "rejected" ]}) "approvalStatus"
                  = VStr "rejected").
    { rewrite get_merged by apply approvalStatus_declared. reflexivity. }
    unfold routeAfterReview. rewrite Hst. cbn [is_str String.eqb Ascii.eqb Bool.eqb].
    change (routeAfterReview_mapping !! "handle_rejection") with (Some (Goto "handle_rejection")).
    apply gated_rejection. intros p [= <-]. reflexivity.
  - assert (Hst : get (merged st ∅) "approvalStatus" = VStr "pending").
    { rewrite get_merged by apply approvalStatus_declared. exact Hpending. }
    unfold routeAfterReview. rewrite Hst. cbn [is_str String.eqb Ascii.eqb Bool.eqb].
    change (routeAfterReview_mapping !! "end") with (Some END).
    exact I.
Qed.

(** After [handle_update] or [handle_followup]: to the gate when the
    merged state says "pending", to [END] otherwise. *)
Lemma gated_routeAfterAction_mapping node body prev n st w :
  nodes (workflow h) !! node = Some body ->
  edges (workflow h) !! node = Some (Conditional routeAfterAction routeAfterAction_mapping) ->
  step_ok prev (mkStep node st w (body st w).1 (body st w).2) ->
  gated prev (steps (run_agent n node st w)).
Proof.
  intros Hnode Hedge Hok. destruct n as [|n]; [exact I|].
  rewrite (agent_step _ _ _ _ _ Hnode).
  destruct (body st w).1 as [partial|thrown]; cbn [steps after_step gated stop];
    (split; [exact Hok|]); [|exact I].
  unfold next. rewrite Hedge. unfold routeAfterAction.
  destruct (is_str (get (merged st partial) "approvalStatus") "pending") eqn:Hpending.
  - change (routeAfterAction_mapping !! "human_review") with (Some (Goto "human_review")).
    apply gated_review; [intros p [= <-]; reflexivity|].
    now apply JsFacts.is_str_true.
  - change (routeAfterAction_mapping !! "end") with (Some END). exact I.
Qed.

Lemma gated_update prev n st w :
  (forall p, prev = Some p -> step_after p = w) ->
  gated prev (steps (run_agent n "handle_update" st w)).
Proof.
  intros Hprev.
  apply (gated_routeAfterAction_mapping _ _ _ _ _ _ nodes_update); [reflexivity|].
  destruct (handleUpdate_direct st w) as (effects & Htrace & Hsend & Hdirect).
  rewrite Forall_forall in Hsend.
  unfold step_ok. rewrite (performed_step _ _ _ _ _ _ Htrace).
  cbn [step_before step_after step_node step_state].
  split; [intros p Hp; symmetry; now apply Hprev|].
  split; [exact Htrace|].
  split; [discriminate|].
  split.
  - intros e He Hs. rewrite (Hsend e He) in Hs. discriminate.
  - intros e He Hm. right. split; [reflexivity|].
    unfold proposes_nothing. cbn [step_result]. eauto.
Qed.

Lemma gated_followup prev n st w :
  (forall p, prev = Some p -> step_after p = w) ->
  gated prev (steps (run_agent n "handle_followup" st w)).
Proof.
  intros Hprev.
  apply (gated_routeAfterAction_mapping _ _ _ _ _ _ nodes_followup); [reflexivity|].
  apply step_ok_harmless; [exact Hprev|discriminate|apply handleFollowup_harmless].
Qed.

Lemma routeByIntent_cases st :
  routeByIntent st = "end" \/ routeByIntent st = "handle_lookup"
  \/ routeByIntent st = "handle_update" \/ routeByIntent st = "handle_followup"
  \/ routeByIntent st = "handle_other".
Proof.
  unfold routeByIntent.
  repeat match goal with |- context [if ?c then _ else _] => destruct c end; auto.
Qed.

Lemma gated_understand n st w :
  gated None (steps (run_agent n "understand_request" st w)).
Proof.
  destruct n as [|n]; [exact I|].
  rewrite (agent_step _ _ _ _ _ nodes_understand).
  assert (Hok : step_ok None (mkStep "understand_request" st w
                                (understandRequest h st w).1 (understandRequest h st w).2)).
  { apply step_ok_harmless; [discriminate|discriminate|apply understandRequest_harmless]. }
  destruct (understandRequest h st w).1 as [partial|thrown];
    cbn [steps after_step gated stop]; (split; [exact Hok|]); [|exact I].
  unfold next.
  change (edges (workflow h) !! "understand_request")
    with (Some (Conditional routeByIntent routeByIntent_mapping)).
  destruct (routeByIntent_cases (merged st partial)) as [Hr|[Hr|[Hr|[Hr|Hr]]]];
    rewrite Hr.
  - exact I.
  - apply gated_lookup. intros p [= <-]. reflexivity.
  - apply gated_update. intros p [= <-]. reflexivity.
  - apply gated_followup. intros p [= <-]. reflexivity.
  - apply gated_other. intros p [= <-]. reflexivity.
Qed.

End WithHost.

(** C2: in every run of the deployed graph, from any initial state, under
    any step budget and whatever the outside world answers, every node
    execution respects the gate: [execute_approved] runs only directly
    after [human_review] returned [approvalStatus: "approved"] (the
    approved branch of [routeAfterReview]); no other node sends a message;
    and no other node mutates a record, except [handle_update] on the path
    where the lead needs no approval and no pending action is proposed. *)
Theorem workflow_respects_gate (h : Host) (budget : nat) (state : object) (w : World) :
  gated None (steps (invoke h budget state w)).
Proof.
  unfold invoke, run. cbn [entry workflow]. apply gated_understand.
Qed.

End GateFacts.

(** ** Sending e-mail without an API key *)

Module EmailFacts.
Import Js Retry Host Email Engine Agent Gate.

Lemma posts_app (a b : list Effect) : posts (a ++ b) = (posts a ++ posts b)%list.
Proof. unfold posts. apply List.filter_app. Qed.

(** C10: when [RESEND_API_KEY] is unset, both versions of [sendEmail]
    return [success: true] with the message id [mock-<Date.now()>] after
    reading the clock and nothing else, so no request is sent to the mail
    service; [executeApproved] on a pending e-mail then sends no request
    either, and whenever it returns, its update carries the response
    "Email sent!".  Such a run exists: the follow-up for TechCorp, approved
    by the gate, ends [completed] with that response and with no request
    to the mail service in its trace. *)
Theorem sendEmail_mock_without_key :
  (forall h : Host,
      env h !! "RESEND_API_KEY" = None ->
      (forall to subject body w,
          sendEmail h to subject body w =
          (inl {| success := true;
                  messageId := Some ("mock-" ++ pretty (date_now h (tick w)));
                  error := None |},
           {| tick := S (tick w); trace := trace w |}))
      /\ (forall params w,
            Resilient.sendEmail h params w =
            (inl {| success := true;
                    messageId := Some ("mock-" ++ pretty (date_now h (tick w)));
                    error := None |},
             {| tick := S (tick w); trace := trace w |}))
      /\ (forall state w p content,
            get state "pendingAction" = VPending p ->
            action_type p = send_email ->
            emailContent p = Some content ->
            posts (trace (executeApproved h state w).2) = posts (trace w)
            /\ forall update : object,
                 (executeApproved h state w).1 = inl update ->
                 update !! "response" = Some (VStr "✅ Email sent!")))
  /\ (env Demo.host !! "RESEND_API_KEY" = None
      /\ let o := invoke Demo.host 25 (initial "Send follow-up to TechCorp") start in
         status o = completed
         /\ get (final_state o) "response" = VStr "✅ Email sent!"
         /\ posts (trace (world o)) = []).
Proof.
  split.
  - intros h Hkey.
    assert (Hsend : forall to subject body w,
               sendEmail h to subject body w =
               (inl {| success := true;
                       messageId := Some ("mock-" ++ pretty (date_now h (tick w)));
                       error := None |},
                {| tick := S (tick w); trace := trace w |})).
    { intros to subject body w. unfold sendEmail, env_get. rewrite Hkey.
      cbn [nonempty]. unfold mbind, M_bind, now, consult, mret, M_ret.
      now rewrite app_nil_r. }
    split; [exact Hsend|]. split.
    + intros params w. unfold Resilient.sendEmail, env_get. rewrite Hkey.
      cbn [nonempty]. unfold mbind, M_bind, now, consult, mret, M_ret.
      now rewrite app_nil_r.
    + intros state w p content Hpending Htype Hcontent.
      unfold executeApproved. rewrite Hpending. cbn [truthy negb].
      destruct p as [type id name chg content']. cbn in Htype, Hcontent. subst.
      unfold mbind, M_bind. rewrite Hsend. cbn [success negb messageId].
      unfold insert, now_iso, update, mret, M_ret, db_reply, consult.
      cbn [tick trace].
      repeat match goal with
             | |- context [match ?x with _ => _ end] =>
                 lazymatch x with
                 | context [match _ with _ => _ end] => fail
                 | _ => destruct x eqn:?
                 end
             end; cbn [fst snd trace];
        (split; [rewrite ?posts_app; cbn; now rewrite ?app_nil_r
                |intros update [= <-] || intros update [=]; reflexivity]).
  - split; [reflexivity|]. vm_compute. repeat split.
Qed.

(** The demo host has no key: its [sendEmail] returns the mock id built
    from its clock. *)
Lemma sendEmail_mock_without_key_witness :
  sendEmail Demo.host "sophie@techcorp.example" "Following up - TechCorp" "Hi" start
  = (inl {| success := true; messageId := Some "mock-1700000000000"; error := None |},
     {| tick := 1; trace := [] |}).
Proof.
  destruct sendEmail_mock_without_key as [Hmock _].
  destruct (Hmock Demo.host eq_refl) as [Hsend _].
  exact (Hsend "sophie@techcorp.example" "Following up - TechCorp" "Hi" start).
Defined.

End EmailFacts.

(** ** The approval requests of the edge function *)

Module HandlerFacts.
Import Js Retry Host Handler.

Lemma serve_decide {AgentResponse : Type} (runAgent : value -> M AgentResponse)
    (id : string) (approve : bool) (w : World) :
  serve runAgent (decide id approve) w =
  (inl {| http_status := 200;
          payload := Decision true
                       ("Action " ++ id ++ " "
                        ++ (if approve then "approve" else "reject") ++ "ed.") |}, w).
Proof. destruct approve; reflexivity. Qed.

(** C8, as the code has it: the handler keeps no record of decisions.
    Every approve or reject request for an id, the first as well as any
    later one, is answered with status 200 and
    [{ success: true, message: "Action <id> <action>ed." }], and leaves the
    world as it was. *)
Theorem serve_accepts_every_decision {AgentResponse : Type}
    (runAgent : value -> M AgentResponse) (id : string) (decisions : list bool)
    (w : World) :
  serve_all runAgent (decide id <$> decisions) w =
  ((fun approve : bool =>
      inl {| http_status := 200;
             payload := Decision true
                          ("Action " ++ id ++ " "
                           ++ (if approve then "approve" else "reject") ++ "ed.") |})
     <$> decisions, w).
Proof.
  induction decisions as [|d ds IH]; [reflexivity|].
  rewrite !fmap_cons. cbn [serve_all]. rewrite serve_decide, IH. reflexivity.
Qed.

(** C8 as stated fails: a second decision on the same id is accepted like
    the first, not rejected as a conflict. *)
Lemma second_decision_accepted :
  exists r1 w1 r2 w2,
    serve (fun _ => mret tt) (decide "lead-1" true) start = (r1, w1)
    /\ serve (fun _ => mret tt) (decide "lead-1" false) w1 = (r2, w2)
    /\ accepted r1 /\ accepted r2.
Proof.
  do 4 eexists. split; [reflexivity|]. split; [reflexivity|].
  split; eexists; reflexivity.
Qed.

End HandlerFacts.

(** ** Routers *)

Module RoutersFacts.
Import Js Engine Routers.

Ltac route_cases :=
  repeat match goal with
         | |- context [if ?c then _ else _] => destruct c
         end;
  eexists; reflexivity.

(** A router that reads nothing of [state.error]: its result is the same
    whatever the field holds, and the same without the field. *)
Lemma lookup_beside_error (state : object) (v : value) (k : string) :
  k <> "error" ->
  get (<["error" := v]> state) k = get state k
  /\ get (delete "error" state) k = get state k.
Proof.
  intros Hk. unfold get. split.
  - rewrite lookup_insert_ne by congruence. reflexivity.
  - rewrite lookup_delete_ne by congruence. reflexivity.
Qed.

(** C9, as the code has it: every router returns, for every state, a key of
    the mapping of its conditional edges.  When [state.error] is truthy
    (neither [null] nor empty), the two routers of the resilient graph
    that read the field return "error_recovery" before looking at
    anything else, and the routers of the deployed agent and of the Day 1
    starter that read it return "end".  The seven other routers on
    objects do not read the field: their result is the same whatever
    value is put there, and the same when the field is removed.  In
    [routeAnalysis] the field comes after the response and the attempt
    count: a set error gives "end", and where a response is set or the
    attempts are used up the result is "end" whatever the error field
    holds; where none of the three holds, the clarification flags
    decide. *)
Theorem routers_total_and_error_first (state : object) (loop_state : Loop.AgentState) :
  (is_Some (Starter.routeIntent_mapping !! Starter.routeIntent state)
   /\ is_Some (Starter.routeAfterQuery_mapping !! Starter.routeAfterQuery state)
   /\ is_Some (Day1.routeByIntent_mapping !! Day1.routeByIntent state)
   /\ is_Some (Approval.routeByIntent_mapping !! Approval.routeByIntent state)
   /\ is_Some (Approval.routeAfterUpdate_mapping !! Approval.routeAfterUpdate state)
   /\ is_Some (Approval.routeAfterReview_mapping !! Approval.routeAfterReview state)
   /\ is_Some (Resilient.routeByIntent_mapping !! Resilient.routeByIntent state)
   /\ is_Some (Resilient.routeAfterFollowup_mapping !! Resilient.routeAfterFollowup state)
   /\ is_Some (Resilient.routeAfterReview_mapping !! Resilient.routeAfterReview state)
   /\ is_Some (Agent.routeByIntent_mapping !! Agent.routeByIntent state)
   /\ is_Some (Agent.routeAfterAction_mapping !! Agent.routeAfterAction state)
   /\ is_Some (Agent.routeAfterReview_mapping !! Agent.routeAfterReview state)
   /\ is_Some (Loop.routeAnalysis_mapping !! Loop.routeAnalysis loop_state))
  /\ (truthy (get state "error") = true ->
      Resilient.routeByIntent state = "error_recovery"
      /\ Resilient.routeAfterFollowup state = "error_recovery"
      /\ Agent.routeByIntent state = "end"
      /\ Starter.routeIntent state = "end"
      /\ Starter.routeAfterQuery state = "end")
  /\ (forall changed : object,
        (exists v, changed = <["error" := v]> state)
        \/ changed = delete "error" state ->
        Day1.routeByIntent changed = Day1.routeByIntent state
        /\ Approval.routeByIntent changed = Approval.routeByIntent state
        /\ Approval.routeAfterUpdate changed = Approval.routeAfterUpdate state
        /\ Approval.routeAfterReview changed = Approval.routeAfterReview state
        /\ Resilient.routeAfterReview changed = Resilient.routeAfterReview state
        /\ Agent.routeAfterAction changed = Agent.routeAfterAction state
        /\ Agent.routeAfterReview changed = Agent.routeAfterReview state)
  /\ ((Loop.is_set (Loop.error loop_state) = true ->
       Loop.routeAnalysis loop_state = "end")
      /\ (forall e : option string,
            Loop.is_set (Loop.response loop_state) = true
            \/ Loop.maxAttempts loop_state <= Loop.attempts loop_state ->
            Loop.routeAnalysis
              {| Loop.userMessage := Loop.userMessage loop_state;
                 Loop.attempts := Loop.attempts loop_state;
                 Loop.maxAttempts := Loop.maxAttempts loop_state;
                 Loop.response := Loop.response loop_state;
                 Loop.needsMoreInfo := Loop.needsMoreInfo loop_state;
                 Loop.askedForClarification := Loop.askedForClarification loop_state;
                 Loop.error := e |} = "end")
      /\ (Loop.is_set (Loop.response loop_state) = false ->
          Loop.attempts loop_state < Loop.maxAttempts loop_state ->
          Loop.is_set (Loop.error loop_state) = false ->
          Loop.routeAnalysis loop_state
          = if Loop.needsMoreInfo loop_state
               && negb (Loop.askedForClarification loop_state)
            then "request_clarification" else "end")).
Proof.
  split; [|split; [|split]].
  - unfold Starter.routeIntent, Starter.routeAfterQuery, Day1.routeByIntent,
      Approval.routeByIntent, Approval.routeAfterUpdate, Approval.routeAfterReview,
      Resilient.routeByIntent, Resilient.routeAfterFollowup,
      Resilient.routeAfterReview, Agent.routeByIntent, Agent.routeAfterAction,
      Agent.routeAfterReview, Loop.routeAnalysis.
    repeat split; route_cases.
  - intros Herror.
    unfold Resilient.routeByIntent, Resilient.routeAfterFollowup, Agent.routeByIntent,
      Starter.routeIntent, Starter.routeAfterQuery.
    rewrite Herror. repeat split.
  - intros st' Hst'.
    assert (Hget : forall k, k <> "error" -> get st' k = get state k).
    { intros k Hk. destruct Hst' as [[v ->] | ->].
      - now apply lookup_beside_error.
      - now apply (lookup_beside_error state VNull). }
    unfold Day1.routeByIntent, Approval.routeByIntent, Approval.routeAfterUpdate,
      Approval.routeAfterReview, Resilient.routeAfterReview, Agent.routeAfterAction,
      Agent.routeAfterReview.
    rewrite (Hget "intent"), (Hget "approvalStatus") by discriminate.
    repeat split.
  - unfold Loop.routeAnalysis. cbn [Loop.response Loop.attempts Loop.maxAttempts
      Loop.error Loop.needsMoreInfo Loop.askedForClarification].
    split; [|split].
    + intros Herror. rewrite Herror.
      destruct (Loop.is_set (Loop.response loop_state)); [reflexivity|].
      destruct (Loop.maxAttempts loop_state <=? Loop.attempts loop_state); reflexivity.
    + intros e [Hresponse|Hattempts].
      * now rewrite Hresponse.
      * apply Z.leb_le in Hattempts. rewrite Hattempts.
        destruct (Loop.is_set (Loop.response loop_state)); reflexivity.
    + intros Hresponse Hattempts Herror. rewrite Hresponse, Herror.
      apply Z.leb_gt in Hattempts. rewrite Hattempts. reflexivity.
Qed.

(** A state with an error and a lookup intent goes to the recovery node in
    the resilient graph. *)
Lemma routers_total_and_error_first_witness :
  Resilient.routeByIntent failed_lookup = "error_recovery"
  /\ Resilient.routeAfterFollowup failed_lookup = "error_recovery".
Proof.
  destruct (routers_total_and_error_first failed_lookup
              {| Loop.userMessage := "Hi"; Loop.attempts := 0; Loop.maxAttempts := 3;
                 Loop.response := None; Loop.needsMoreInfo := false;
                 Loop.askedForClarification := false; Loop.error := None |})
    as (_ & Herror & _).
  destruct (Herror eq_refl) as (H1 & H2 & _).
  split; assumption.
Defined.

(** C9 as stated fails: the router of the approval-gate graph never reads
    the error field; a state with an error set and a lookup intent is
    routed to [handle_lookup], as is done without the error. *)
Lemma routeByIntent_ignores_error :
  truthy (get failed_lookup "error") = true
  /\ Approval.routeByIntent failed_lookup = "handle_lookup"
  /\ Approval.routeByIntent (delete "error" failed_lookup) = "handle_lookup".
Proof. repeat split. Qed.

End RoutersFacts.

(** ** More on the retry helpers: what a settled call looks like *)

Module RetrySchedule.
Import Retry.

Section Loop.
Context {W T : Type}.
Variable random : W -> Q * W.
Variable sleep : Q -> W -> W.
Variable fn : Operation W T.
Variable opts : RetryOptions.

Ltac loop_cases :=
  simpl;
  destruct (_ <=? _) eqn:Hle;
  [ destruct (fn _) as [[v'|error] w1] eqn:Hfn;
    [ | destruct (Z.eqb _ _ || negb _) eqn:Hstop;
        [ | destruct (random w1) as [sample w2] eqn:Hrnd ] ]
  | ].

(** A call that returns has the returned value as its last invocation, and
    only retryable failures before it. *)
Lemma retry_loop_success fuel attempt lastError w run v :
  retry_loop random sleep fuel fn opts attempt lastError w = Some run ->
  outcome run = inl v ->
  exists errs,
    history run = ((inr <$> errs) ++ [inl v])%list
    /\ Forall (fun e => retryable opts e = true) errs
    /\ attempt + Z.of_nat (length errs) <= maxRetries opts.
Proof.
  revert attempt lastError w run.
  induction fuel as [|fuel IH]; intros attempt lastError w run; [discriminate|].
  loop_cases; intros Hrun Hout.
  - inversion Hrun; subst. simpl in Hout. inversion Hout; subst.
    exists []. apply Z.leb_le in Hle. repeat split; [constructor|simpl; lia].
  - inversion Hrun; subst. discriminate.
  - destruct (retry_loop _ _ fuel _ _ _ _ _) as [rest|] eqn:Hrest; [|discriminate].
    inversion Hrun; subst. cbn [cons_attempt outcome history] in *.
    destruct (IH _ _ _ _ Hrest Hout) as (errs & Hh & Hall & Hlen).
    apply orb_false_elim in Hstop as [_ Hretry]. apply negb_false_iff in Hretry.
    exists (error :: errs). rewrite Hh. split; [reflexivity|].
    split; [constructor; assumption|]. cbn [length]. lia.
  - inversion Hrun; subst. discriminate.
Qed.

(** An invocation that returns is the last one, and the call returns its
    value. *)
Lemma retry_loop_returns fuel attempt lastError w run i v :
  retry_loop random sleep fuel fn opts attempt lastError w = Some run ->
  history run !! i = Some (inl v) ->
  invocations run = S i /\ outcome run = inl v.
Proof.
  revert attempt lastError w run i.
  induction fuel as [|fuel IH]; intros attempt lastError w run i; [discriminate|].
  loop_cases; intros Hrun Hi.
  - inversion Hrun; subst. destruct i as [|i]; [|destruct i; discriminate].
    simpl in Hi. inversion Hi; subst. split; reflexivity.
  - inversion Hrun; subst. destruct i as [|i]; [discriminate|destruct i; discriminate].
  - destruct (retry_loop _ _ fuel _ _ _ _ _) as [rest|] eqn:Hrest; [|discriminate].
    inversion Hrun; subst. unfold invocations. cbn [cons_attempt outcome history] in *.
    destruct i as [|i]; [discriminate|]. simpl in Hi.
    destruct (IH _ _ _ _ _ Hrest Hi) as [Hlen Hout].
    unfold invocations in Hlen. simpl. split; congruence.
  - inversion Hrun; subst. destruct i; discriminate.
Qed.

(** When every invocation fails with a retryable error, all the attempts
    are used. *)
Lemma retry_loop_exhausts fuel attempt lastError w run :
  retry_loop random sleep fuel fn opts attempt lastError w = Some run ->
  attempt <= maxRetries opts ->
  (forall w', exists e w'', fn w' = (inr e, w'') /\ retryable opts e = true) ->
  exists errs e,
    history run = inr <$> errs
    /\ Z.of_nat (length errs) = maxRetries opts - attempt + 1
    /\ last errs = Some e
    /\ outcome run = inr (Threw e).
Proof.
  intros Hrun Hatt Hfail. revert attempt lastError w run Hrun Hatt.
  induction fuel as [|fuel IH]; intros attempt lastError w run; [discriminate|].
  loop_cases; intros Hrun Hatt.
  - destruct (Hfail w) as (e & w'' & Hw & _). congruence.
  - inversion Hrun; subst.
    destruct (Hfail w) as (e & w'' & Hw & Hretry).
    assert (e = error) by congruence. subst e. rewrite Hretry in Hstop.
    rewrite orb_false_r in Hstop. apply Z.eqb_eq in Hstop.
    exists [error], error. repeat split. simpl. lia.
  - destruct (retry_loop _ _ fuel _ _ _ _ _) as [rest|] eqn:Hrest; [|discriminate].
    inversion Hrun; subst. cbn [cons_attempt outcome history].
    apply orb_false_elim in Hstop as [Hne _]. apply Z.eqb_neq in Hne.
    destruct (IH _ _ _ _ Hrest) as (errs & e & Hh & Hlen & Hlast & Hout); [lia|].
    exists (error :: errs), e. rewrite Hh. split; [reflexivity|].
    split; [cbn [length]; lia|]. split; [|exact Hout].
    destruct errs as [|e' errs]; [simpl in Hlen; lia|]. exact Hlast.
  - apply Z.leb_gt in Hle. lia.
Qed.

(** Every recorded sample was drawn from the random source. *)
Lemma retry_loop_samples (P : Q -> Prop) fuel attempt lastError w run :
  (forall w', P (random w').1) ->
  retry_loop random sleep fuel fn opts attempt lastError w = Some run ->
  Forall (fun wt => P (wait_sample wt)) (waits run).
Proof.
  intros HP. revert attempt lastError w run.
  induction fuel as [|fuel IH]; intros attempt lastError w run; [discriminate|].
  loop_cases; intros Hrun; try (inversion Hrun; subst; constructor).
  destruct (retry_loop _ _ fuel _ _ _ _ _) as [rest|] eqn:Hrest; [|discriminate].
  apply IH in Hrest. inversion Hrun; subst. cbn [cons_attempt waits].
  constructor; [|exact Hrest]. cbn [wait_sample].
  pose proof (HP w1) as Hs. now rewrite Hrnd in Hs.
Qed.

End Loop.

Section SimpleLoop.
Context {W T : Type}.
Variable sleep : Q -> W -> W.
Variable fn : Operation W T.
Variable maxRetries : Z.

Ltac simple_cases :=
  simpl;
  destruct (_ <=? _) eqn:Hle;
  [ destruct (fn _) as [[v'|error] w1] eqn:Hfn;
    [ | destruct (_ <? _) eqn:Hlt ]
  | ].

(** The Exercise 4 helper sleeps [1000 * k] ms after failed attempt [k],
    for consecutive [k]. *)
Lemma simple_loop_waits fuel attempt lastError w run :
  Simple.simple_loop sleep fuel fn maxRetries attempt lastError w = Some run ->
  waits run =
  (fun k => mkWait k 0 (inject_Z (1000 * k))) <$> seqZ attempt (Z.of_nat (length (waits run))).
Proof.
  revert attempt lastError w run.
  induction fuel as [|fuel IH]; intros attempt lastError w run; [discriminate|].
  simple_cases; intros Hrun; try (inversion Hrun; subst; reflexivity).
  - destruct (Simple.simple_loop _ fuel _ _ _ _ _) as [rest|] eqn:Hrest; [|discriminate].
    apply IH in Hrest. inversion Hrun; subst. cbn [cons_attempt waits length].
    rewrite Nat2Z.inj_succ, (seqZ_cons attempt) by lia. rewrite fmap_cons.
    f_equal. rewrite Hrest at 1. f_equal. f_equal; lia.
  - destruct (Simple.simple_loop _ fuel _ _ _ _ _) as [rest|] eqn:Hrest; [|discriminate].
    inversion Hrun; subst. cbn [waits].
    (* the last attempt: the rest of the loop does not run its body *)
    apply Z.ltb_ge in Hlt. apply Z.leb_le in Hle.
    destruct fuel as [|fuel']; [discriminate|]. simpl in Hrest.
    destruct (Z.leb_spec (attempt + 1) maxRetries); [lia|].
    inversion Hrest; subst. reflexivity.
Qed.

(** What the Exercise 4 helper throws: the error of invocation number
    [maxRetries], after all attempts were used, with a sleep between any two
    of them. *)
Lemma simple_loop_thrown fuel attempt lastError w run thrown :
  Simple.simple_loop sleep fuel fn maxRetries attempt lastError w = Some run ->
  outcome run = inr thrown ->
  attempt <= maxRetries ->
  exists errs e,
    history run = inr <$> errs
    /\ Z.of_nat (length errs) = maxRetries - attempt + 1
    /\ last errs = Some e /\ thrown = Threw e
    /\ length (waits run) = pred (length errs).
Proof.
  revert attempt lastError w run.
  induction fuel as [|fuel IH]; intros attempt lastError w run; [discriminate|].
  simple_cases; intros Hrun Hout Hatt.
  - inversion Hrun; subst. discriminate.
  - destruct (Simple.simple_loop _ fuel _ _ _ _ _) as [rest|] eqn:Hrest; [|discriminate].
    inversion Hrun; subst. cbn [cons_attempt outcome history waits] in *.
    apply Z.ltb_lt in Hlt.
    destruct (IH _ _ _ _ Hrest Hout) as (errs & e & Hh & Hlen & Hlast & Hthrown & Hw); [lia|].
    exists (error :: errs), e. rewrite Hh. split; [reflexivity|].
    split; [cbn [length]; lia|].
    destruct errs as [|e' errs]; [simpl in Hlen; lia|].
    split; [exact Hlast|]. split; [exact Hthrown|]. simpl in *. lia.
  - destruct (Simple.simple_loop _ fuel _ _ _ _ _) as [rest|] eqn:Hrest; [|discriminate].
    inversion Hrun; subst. cbn [outcome history waits] in *.
    apply Z.ltb_ge in Hlt. apply Z.leb_le in Hle.
    destruct fuel as [|fuel']; [discriminate|]. simpl in Hrest.
    destruct (Z.leb_spec (attempt + 1) maxRetries); [lia|].
    inversion Hrest; subst. simpl in Hout. inversion Hout; subst.
    exists [error], error. repeat split. simpl. lia.
  - apply Z.leb_gt in Hle. lia.
Qed.

(** What the Exercise 4 helper returns: the value of the last invocation,
    after failures of any kind, each followed by a sleep. *)
Lemma simple_loop_success fuel attempt lastError w run v :
  Simple.simple_loop sleep fuel fn maxRetries attempt lastError w = Some run ->
  outcome run = inl v ->
  exists errs,
    history run = ((inr <$> errs) ++ [inl v])%list
    /\ attempt + Z.of_nat (length errs) <= maxRetries
    /\ length (waits run) = length errs.
Proof.
  revert attempt lastError w run.
  induction fuel as [|fuel IH]; intros attempt lastError w run; [discriminate|].
  simple_cases; intros Hrun Hout.
  - inversion Hrun; subst. simpl in Hout. inversion Hout; subst.
    exists []. apply Z.leb_le in Hle. repeat split. simpl. lia.
  - destruct (Simple.simple_loop _ fuel _ _ _ _ _) as [rest|] eqn:Hrest; [|discriminate].
    inversion Hrun; subst. cbn [cons_attempt outcome history waits] in *.
    destruct (IH _ _ _ _ Hrest Hout) as (errs & Hh & Hlen & Hw).
    exists (error :: errs). rewrite Hh. split; [reflexivity|].
    cbn [length]. split; [lia|]. now rewrite Hw.
  - destruct (Simple.simple_loop _ fuel _ _ _ _ _) as [rest|] eqn:Hrest; [|discriminate].
    inversion Hrun; subst. cbn [outcome history waits] in *.
    apply Z.ltb_ge in Hlt. apply Z.leb_le in Hle.
    destruct fuel as [|fuel']; [discriminate|]. simpl in Hrest.
    destruct (Z.leb_spec (attempt + 1) maxRetries); [lia|].
    inversion Hrest; subst. discriminate.
  - inversion Hrun; subst. discriminate.
Qed.

End SimpleLoop.

(** The delay before the jitter: [baseDelayMs * 2^(attempt - 1)]. *)
Lemma backoff_bounds (opts : RetryOptions) (attempt : Z) (sample : Q) :
  (0 <= baseDelayMs opts)%Q -> (0 <= sample)%Q -> (sample <= 1)%Q ->
  (Qmin (baseDelayMs opts * 2 ^ (attempt - 1)) (maxDelayMs opts)
   <= backoff opts attempt sample)%Q
  /\ (backoff opts attempt sample
      <= Qmin (baseDelayMs opts * 2 ^ (attempt - 1) * (11 # 10)) (maxDelayMs opts))%Q.
Proof.
  intros Hbase Hlo Hhi. unfold backoff.
  assert (Hpow : (0 <= 2 ^ (attempt - 1))%Q) by (apply Qpower_0_le; lra).
  set (p := (2 ^ (attempt - 1))%Q) in *.
  assert (Hx : (0 <= baseDelayMs opts * p)%Q) by (apply Qmult_le_0_compat; assumption).
  set (x := (baseDelayMs opts * p)%Q) in *.
  split; apply Q.min_le_compat_r; nra.
Qed.

(** The delay of the next attempt is never shorter, whatever the two
    jitter samples. *)
Lemma backoff_mono (opts : RetryOptions) (attempt : Z) (sample sample' : Q) :
  (0 <= baseDelayMs opts)%Q -> (0 <= sample)%Q -> (sample <= 1)%Q -> (0 <= sample')%Q ->
  (backoff opts attempt sample <= backoff opts (attempt + 1) sample')%Q.
Proof.
  intros Hbase Hlo Hhi Hlo'. unfold backoff.
  assert (Hpow : (0 <= 2 ^ (attempt - 1))%Q) by (apply Qpower_0_le; lra).
  assert (Hdouble : (2 ^ (attempt + 1 - 1) == 2 * 2 ^ (attempt - 1))%Q).
  { replace (attempt + 1 - 1) with (1 + (attempt - 1)) by lia.
    rewrite Qpower_plus by lra. reflexivity. }
  rewrite Hdouble.
  set (p := (2 ^ (attempt - 1))%Q) in *.
  assert (Hx : (0 <= baseDelayMs opts * p)%Q) by (apply Qmult_le_0_compat; assumption).
  apply Q.min_le_compat_r.
  set (b := baseDelayMs opts) in *. nra.
Qed.

(** X1: a call of either retry helper that returns gives the value of the
    last invocation of the operation.  Every invocation before it failed,
    there were fewer than [maxRetries] of them, and for the Exercise 3
    helper each of these failures was retryable for the classifier.
    Conversely an invocation that returns is the last one: the helper never
    calls the operation again after a success. *)
Theorem withRetry_returns_first_success {W T : Type} (random : W -> Q * W)
    (sleep : Q -> W -> W) (fn : Operation W T) (w : W) :
  (forall options : PartialRetryOptions,
      let opts := spread defaultRetryOptions options in
      exists run,
        withRetry random sleep fn options w = Some run
        /\ (forall v, outcome run = inl v ->
              exists errs,
                history run = ((inr <$> errs) ++ [inl v])%list
                /\ Forall (fun e => retryable opts e = true) errs
                /\ Z.of_nat (length errs) < maxRetries opts)
        /\ (forall i v, history run !! i = Some (inl v) ->
              invocations run = S i /\ outcome run = inl v))
  /\ (forall maxRetries : option Z,
        exists run,
          Simple.withRetry sleep fn maxRetries w = Some run
          /\ (forall v, outcome run = inl v ->
                exists errs,
                  history run = ((inr <$> errs) ++ [inl v])%list
                  /\ Z.of_nat (length errs) < default 3%Z maxRetries
                  /\ length (waits run) = length errs)).
Proof.
  split.
  - intros options opts. unfold withRetry. fold opts.
    destruct (RetryFacts.retry_loop_enough random sleep fn opts
                (S (Z.to_nat (maxRetries opts))) 1 ThrewUndefined w) as [run Hrun]; [lia|].
    exists run. split; [exact Hrun|]. split.
    + intros v Hout.
      destruct (retry_loop_success _ _ _ _ _ _ _ _ _ _ Hrun Hout) as (errs & Hh & Hall & Hlen).
      exists errs. repeat split; [exact Hh|exact Hall|lia].
    + intros i v Hi. eapply retry_loop_returns; eassumption.
  - intros maxRetries. unfold Simple.withRetry.
    destruct (RetryFacts.simple_loop_enough sleep fn (default 3 maxRetries)
                (S (Z.to_nat (default 3 maxRetries))) 1 ThrewUndefined w) as [run Hrun]; [lia|].
    exists run. split; [exact Hrun|].
    intros v Hout.
    destruct (simple_loop_success _ _ _ _ _ _ _ _ _ Hrun Hout) as (errs & Hh & Hlen & Hw).
    exists errs. repeat split; [exact Hh|lia|exact Hw].
Qed.

(** X2: when every invocation of the operation fails with an error the
    classifier calls retryable, the Exercise 3 helper uses all its
    attempts: the operation is invoked exactly [maxRetries] times, with
    [maxRetries - 1] sleeps, and the error thrown is that of the last
    invocation. *)
Theorem withRetry_uses_every_attempt {W T : Type} (random : W -> Q * W)
    (sleep : Q -> W -> W) (fn : Operation W T) (options : PartialRetryOptions) (w : W) :
  1 <= maxRetries (spread defaultRetryOptions options) ->
  (forall w', exists e w'',
      fn w' = (inr e, w'') /\ retryable (spread defaultRetryOptions options) e = true) ->
  exists run errs e,
    withRetry random sleep fn options w = Some run
    /\ history run = inr <$> errs
    /\ Z.of_nat (length errs) = maxRetries (spread defaultRetryOptions options)
    /\ last errs = Some e
    /\ outcome run = inr (Threw e)
    /\ Z.of_nat (length (waits run)) = maxRetries (spread defaultRetryOptions options) - 1.
Proof.
  intros Hmax Hfail. unfold withRetry.
  set (opts := spread defaultRetryOptions options) in *.
  destruct (RetryFacts.retry_loop_enough random sleep fn opts
              (S (Z.to_nat (maxRetries opts))) 1 ThrewUndefined w) as [run Hrun]; [lia|].
  destruct (retry_loop_exhausts _ _ _ _ _ _ _ _ _ Hrun Hmax Hfail)
    as (errs & e & Hh & Hlen & Hlast & Hout).
  exists run, errs, e. split; [exact Hrun|]. split; [exact Hh|].
  split; [lia|]. split; [exact Hlast|]. split; [exact Hout|].
  rewrite (RetryFacts.retry_loop_waits_length _ _ _ _ _ _ _ _ _ Hrun).
  unfold invocations. rewrite Hh, length_fmap. lia.
Qed.

(** An operation that always answers 500, under the default options: three
    invocations and two sleeps. *)
Lemma withRetry_uses_every_attempt_witness :
  exists run,
    withRetry half no_sleep (failing 500) no_options tt = Some run
    /\ invocations run = 3%nat /\ length (waits run) = 2%nat.
Proof.
  destruct (withRetry_uses_every_attempt half no_sleep (failing 500) no_options tt)
    as (run & errs & e & Hrun & Hh & Hlen & _ & _ & Hw).
  - vm_compute. discriminate.
  - intros []. eexists. eexists. split; reflexivity.
  - exists run. split; [exact Hrun|]. unfold invocations. rewrite Hh, length_fmap.
    change (maxRetries (spread defaultRetryOptions no_options)) with 3 in *.
    split; lia.
Defined.

(** X3: with [maxRetries] zero or negative neither helper invokes the
    operation: the loop body never runs, the world is left as it was, and
    what is thrown is the uninitialised [lastError], that is
    [undefined]. *)
Theorem withRetry_without_attempts {W T : Type} (random : W -> Q * W)
    (sleep : Q -> W -> W) (fn : Operation W T) (w : W) :
  (forall options : PartialRetryOptions,
      maxRetries (spread defaultRetryOptions options) <= 0 ->
      withRetry random sleep fn options w =
      Some {| outcome := inr ThrewUndefined; history := []; waits := []; final := w |})
  /\ (forall n : Z,
        n <= 0 ->
        Simple.withRetry sleep fn (Some n) w =
        Some {| outcome := inr ThrewUndefined; history := []; waits := []; final := w |}).
Proof.
  split.
  - intros options Hmax. unfold withRetry. cbn [retry_loop].
    destruct (Z.leb_spec 1 (maxRetries (spread defaultRetryOptions options))); [lia|].
    reflexivity.
  - intros n Hn. unfold Simple.withRetry.
    change (default 3 (Some n)) with n. cbn [Simple.simple_loop].
    destruct (Z.leb_spec 1 n); [lia|]. reflexivity.
Qed.

(** With [maxRetries: 0] an operation that would succeed is not called, and
    the helper throws [undefined]. *)
Lemma withRetry_without_attempts_witness :
  withRetry half no_sleep (fun w => (inl tt, w))
    {| p_maxRetries := Some 0; p_baseDelayMs := None; p_maxDelayMs := None;
       p_shouldRetry := None |} tt
  = Some {| outcome := inr ThrewUndefined; history := []; waits := []; final := tt |}.
Proof.
  destruct (withRetry_without_attempts half no_sleep (fun w : unit => (inl tt, w)) tt)
    as [Hzero _].
  apply Hzero. vm_compute. discriminate.
Defined.

(** X4: with a non-negative base delay and jitter samples in [0, 1] (the
    range of [Math.random()]), the delay slept after failed attempt [n]
    lies between the uncapped exponential value [baseDelayMs * 2^(n-1)] and
    1.1 times it, both cut off at [maxDelayMs]; and the delays of a call
    never decrease from one retry to the next, whatever the samples. *)
Theorem withRetry_delays_grow {W T : Type} (random : W -> Q * W)
    (sleep : Q -> W -> W) (fn : Operation W T) (options : PartialRetryOptions) (w : W) :
  (0 <= baseDelayMs (spread defaultRetryOptions options))%Q ->
  (forall w', (0 <= (random w').1)%Q /\ ((random w').1 <= 1)%Q) ->
  let opts := spread defaultRetryOptions options in
  exists run,
    withRetry random sleep fn options w = Some run
    /\ Forall (fun wt =>
                 (Qmin (baseDelayMs opts * 2 ^ (wait_attempt wt - 1)) (maxDelayMs opts)
                  <= wait_delay wt)%Q
                 /\ (wait_delay wt
                     <= Qmin (baseDelayMs opts * 2 ^ (wait_attempt wt - 1) * (11 # 10))
                             (maxDelayMs opts))%Q) (waits run)
    /\ (forall i a b,
          waits run !! i = Some a -> waits run !! S i = Some b ->
          (wait_delay a <= wait_delay b)%Q).
Proof.
  intros Hbase Hrandom opts. unfold withRetry. fold opts.
  destruct (RetryFacts.retry_loop_enough random sleep fn opts
              (S (Z.to_nat (maxRetries opts))) 1 ThrewUndefined w) as [run Hrun]; [lia|].
  exists run. split; [exact Hrun|].
  pose proof (retry_loop_samples random sleep fn opts
                (fun s => (0 <= s)%Q /\ (s <= 1)%Q) _ _ _ _ _ Hrandom Hrun) as Hsamples.
  destruct (RetryFacts.retry_loop_waits _ _ _ _ _ _ _ _ _ Hrun) as [Hdelay Hseq].
  rewrite Forall_forall in Hsamples, Hdelay.
  split.
  - apply Forall_forall. intros wt Hwt.
    rewrite (Hdelay wt Hwt). destruct (Hsamples wt Hwt) as [Hlo Hhi].
    now apply backoff_bounds.
  - intros i a b Ha Hb.
    assert (Hatt : forall j x, waits run !! j = Some x -> wait_attempt x = 1 + Z.of_nat j).
    { intros j x Hx.
      assert (Hj : (wait_attempt <$> waits run) !! j = Some (wait_attempt x))
        by (rewrite list_lookup_fmap, Hx; reflexivity).
      rewrite Hseq in Hj. apply lookup_seqZ in Hj as [Hj _]. exact Hj. }
    pose proof (list_elem_of_lookup_2 _ _ _ Ha) as Hina.
    pose proof (list_elem_of_lookup_2 _ _ _ Hb) as Hinb.
    rewrite (Hdelay a Hina), (Hdelay b Hinb), (Hatt _ _ Ha), (Hatt _ _ Hb).
    destruct (Hsamples a Hina) as [Hlo Hhi]. destruct (Hsamples b Hinb) as [Hlo' _].
    replace (1 + Z.of_nat (S i)) with (1 + Z.of_nat i + 1) by lia.
    now apply backoff_mono.
Qed.

(** The default options with samples of one half satisfy the conditions:
    persistent failures are retried after 1050 ms and then 2100 ms. *)
Lemma withRetry_delays_grow_witness :
  exists run,
    withRetry half no_sleep (failing 500) no_options tt = Some run
    /\ (forall i a b,
          waits run !! i = Some a -> waits run !! S i = Some b ->
          (wait_delay a <= wait_delay b)%Q).
Proof.
  destruct (withRetry_delays_grow half no_sleep (failing 500) no_options tt)
    as (run & Hrun & _ & Hsorted).
  - vm_compute. discriminate.
  - intros w'. split; vm_compute; discriminate.
  - exists run. split; [exact Hrun|exact Hsorted].
Defined.

(** X5: the Exercise 4 helper has no classifier: it throws only after the
    operation has failed [maxRetries] times (3 by default), whatever the
    errors were, and what it throws is the error of the last invocation.
    After failed attempt [k] other than the last it sleeps exactly
    [1000 * k] ms. *)
Theorem simple_withRetry_schedule {W T : Type} (sleep : Q -> W -> W)
    (fn : Operation W T) (maxRetries : option Z) (w : W) :
  exists run,
    Simple.withRetry sleep fn maxRetries w = Some run
    /\ waits run =
       (fun k => mkWait k 0 (inject_Z (1000 * k)))
         <$> seqZ 1 (Z.of_nat (length (waits run)))
    /\ (forall thrown,
          outcome run = inr thrown ->
          (default 3%Z maxRetries <= 0 /\ thrown = ThrewUndefined /\ history run = [])
          \/ (exists errs e,
                history run = inr <$> errs
                /\ Z.of_nat (length errs) = default 3%Z maxRetries
                /\ last errs = Some e /\ thrown = Threw e
                /\ length (waits run) = pred (length errs))).
Proof.
  unfold Simple.withRetry.
  destruct (RetryFacts.simple_loop_enough sleep fn (default 3 maxRetries)
              (S (Z.to_nat (default 3 maxRetries))) 1 ThrewUndefined w) as [run Hrun]; [lia|].
  exists run. split; [exact Hrun|]. split.
  - eapply simple_loop_waits; exact Hrun.
  - intros thrown Hout.
    destruct (Z.le_gt_cases 1 (default 3 maxRetries)) as [Hmax|Hmax].
    + right.
      destruct (simple_loop_thrown _ _ _ _ _ _ _ _ _ Hrun Hout Hmax)
        as (errs & e & Hh & Hlen & Hlast & Hthrown & Hw).
      exists errs, e. repeat split; [exact Hh|lia|exact Hlast|exact Hthrown|exact Hw].
    + left. cbn [Simple.simple_loop] in Hrun.
      destruct (Z.leb_spec 1 (default 3 maxRetries)); [lia|].
      inversion Hrun; subst. simpl in Hout. inversion Hout; subst.
      repeat split. lia.
Qed.

End RetrySchedule.

(** ** The requests [sendEmail] makes *)

Module EmailRequests.
Import Js Retry Host Email.

Section Loop.
Context {W T : Type}.
Variable random : W -> Q * W.
Variable sleep : Q -> W -> W.
Variable fn : Operation W T.
Variable opts : RetryOptions.

Ltac loop_cases :=
  simpl;
  destruct (_ <=? _) eqn:Hle;
  [ destruct (fn _) as [[v'|error] w1] eqn:Hfn;
    [ | destruct (Z.eqb _ _ || negb _) eqn:Hstop;
        [ | destruct (random w1) as [sample w2] eqn:Hrnd ] ]
  | ].

(** The first invocation is made in the world the helper was called in. *)
Lemma retry_loop_first fuel attempt lastError w run :
  retry_loop random sleep fuel fn opts attempt lastError w = Some run ->
  attempt <= maxRetries opts ->
  history run !! 0%nat = Some (fn w).1.
Proof.
  destruct fuel as [|fuel]; [discriminate|].
  loop_cases; intros Hrun Hatt;
    try (destruct (retry_loop _ _ fuel _ _ _ _ _) as [rest|]; [|discriminate]);
    try (apply Z.leb_gt in Hle; lia);
    inversion Hrun; subst; reflexivity.
Qed.

(** What the helper returns, the operation returned. *)
Lemma retry_loop_value fuel attempt lastError w run v :
  retry_loop random sleep fuel fn opts attempt lastError w = Some run ->
  outcome run = inl v ->
  exists w', (fn w').1 = inl v.
Proof.
  revert attempt lastError w run.
  induction fuel as [|fuel IH]; intros attempt lastError w run; [discriminate|].
  loop_cases; intros Hrun Hout.
  - inversion Hrun; subst. simpl in Hout. inversion Hout; subst.
    exists w. now rewrite Hfn.
  - inversion Hrun; subst. discriminate.
  - destruct (retry_loop _ _ fuel _ _ _ _ _) as [rest|] eqn:Hrest; [|discriminate].
    inversion Hrun; subst. eapply IH; eassumption.
  - inversion Hrun; subst. discriminate.
Qed.

(** Every recorded outcome is an outcome of the operation. *)
Lemma retry_loop_history fuel attempt lastError w run :
  retry_loop random sleep fuel fn opts attempt lastError w = Some run ->
  Forall (fun o => exists w', o = (fn w').1) (history run).
Proof.
  revert attempt lastError w run.
  induction fuel as [|fuel IH]; intros attempt lastError w run; [discriminate|].
  loop_cases; intros Hrun.
  - inversion Hrun; subst. repeat constructor. exists w. now rewrite Hfn.
  - inversion Hrun; subst. repeat constructor. exists w. now rewrite Hfn.
  - destruct (retry_loop _ _ fuel _ _ _ _ _) as [rest|] eqn:Hrest; [|discriminate].
    apply IH in Hrest. inversion Hrun; subst. cbn [cons_attempt history].
    constructor; [|exact Hrest]. exists w. now rewrite Hfn.
  - inversion Hrun; subst. constructor.
Qed.

(** A count that every invocation raises by one, and that drawing a sample
    and sleeping leave alone, is raised by the number of invocations. *)
Lemma retry_loop_counts (count : W -> nat) fuel attempt lastError w run :
  (forall w', count (fn w').2 = S (count w')) ->
  (forall w', count (random w').2 = count w') ->
  (forall d w', count (sleep d w') = count w') ->
  retry_loop random sleep fuel fn opts attempt lastError w = Some run ->
  count (final run) = (count w + invocations run)%nat.
Proof.
  intros Hfn' Hrandom Hsleep. revert attempt lastError w run.
  induction fuel as [|fuel IH]; intros attempt lastError w run; [discriminate|].
  loop_cases; intros Hrun.
  - inversion Hrun; subst. unfold invocations. simpl.
    pose proof (Hfn' w) as H. rewrite Hfn in H. simpl in H. lia.
  - inversion Hrun; subst. unfold invocations. simpl.
    pose proof (Hfn' w) as H. rewrite Hfn in H. simpl in H. lia.
  - destruct (retry_loop _ _ fuel _ _ _ _ _) as [rest|] eqn:Hrest; [|discriminate].
    apply IH in Hrest. inversion Hrun; subst.
    unfold invocations in *. cbn [cons_attempt final history length].
    rewrite Hrest, Hsleep.
    pose proof (Hrandom w1) as H1. rewrite Hrnd in H1. simpl in H1.
    pose proof (Hfn' w) as H2. rewrite Hfn in H2. simpl in H2. lia.
  - inversion Hrun; subst. unfold invocations. simpl. lia.
Qed.

(** A relation that the operation, the random source and the timer
    respect holds between the worlds before and after the call. *)
Lemma retry_loop_invariant (R : W -> W -> Prop) :
  (forall w, R w w) ->
  (forall a b c, R a b -> R b c -> R a c) ->
  (forall w, R w (fn w).2) ->
  (forall w, R w (random w).2) ->
  (forall d w, R w (sleep d w)) ->
  forall fuel attempt lastError w run,
    retry_loop random sleep fuel fn opts attempt lastError w = Some run ->
    R w (final run).
Proof.
  intros Hrefl Htrans Hfn' Hrandom Hsleep.
  induction fuel as [|fuel IH]; intros attempt lastError w run; [discriminate|].
  loop_cases; intros Hrun.
  - inversion Hrun; subst. simpl. pose proof (Hfn' w) as H. now rewrite Hfn in H.
  - inversion Hrun; subst. simpl. pose proof (Hfn' w) as H. now rewrite Hfn in H.
  - destruct (retry_loop _ _ fuel _ _ _ _ _) as [rest|] eqn:Hrest; [|discriminate].
    apply IH in Hrest. inversion Hrun; subst. cbn [cons_attempt final].
    pose proof (Hfn' w) as H1. rewrite Hfn in H1.
    pose proof (Hrandom w1) as H2. rewrite Hrnd in H2.
    eauto.
  - inversion Hrun; subst. apply Hrefl.
Qed.

End Loop.

Section WithHost.
Variable h : Host.

(** One invocation of the retried operation sends one request. *)
Lemma post_email_trace apiKey fromEmail params w :
  trace (Resilient.post_email h apiKey fromEmail params w).2 =
  (trace w ++ [HttpPost resend_url
                 {| authorization := "Bearer " ++ apiKey; from := fromEmail;
                    to := email_to params; subject := email_subject params;
                    text := email_body params |}])%list.
Proof.
  unfold Resilient.post_email, post.
  destruct (fetch h (tick w) _ _) as [response|e]; [|reflexivity].
  destruct (negb (ok response)); [reflexivity|].
  destruct (json_id response); reflexivity.
Qed.

(** The operation resolves only with [success: true]. *)
Lemma post_email_value apiKey fromEmail params w res :
  (Resilient.post_email h apiKey fromEmail params w).1 = inl res ->
  success res = true /\ error res = None.
Proof.
  unfold Resilient.post_email, post.
  destruct (fetch h (tick w) _ _) as [response|e]; [|discriminate].
  destruct (negb (ok response)); [discriminate|].
  destruct (json_id response); [|discriminate].
  intros [= <-]. split; reflexivity.
Qed.

End WithHost.

(** X6: [sendEmail] of the deployed agent never rejects, and every
    failure of the request comes back as a result with [success: false],
    the error text and no message id: a rejected [fetch] gives the message
    of the rejection, a reply that is not [ok] gives the text of its
    body, and a body that is not JSON gives the message of the parse
    error.  Only an [ok] reply with a JSON body gives [success: true],
    with the [id] of the body.  With an API key set it sends exactly one
    request per call, carrying the recipient, subject and body it was
    given; there is no retry.  Without a key it sends nothing and answers
    with a mock id. *)
Theorem sendEmail_never_rejects (h : Host) (to subject body : string) (w : World) :
  exists r effects,
    (sendEmail h to subject body w).1 = inl r
    /\ trace (sendEmail h to subject body w).2 = (trace w ++ effects)%list
    /\ match nonempty (env_get h "RESEND_API_KEY") with
       | None =>
           effects = []
           /\ r = {| success := true;
                     messageId := Some ("mock-" ++ pretty (date_now h (tick w)));
                     error := None |}
       | Some apiKey =>
           let req :=
             {| authorization := "Bearer " ++ apiKey;
                from := default "onboarding@resend.dev" (nonempty (env_get h "EMAIL_FROM"));
                to := to; subject := subject; text := body |} in
           effects = [HttpPost resend_url req]
           /\ r = match fetch h (tick w) resend_url req with
                  | inr rejection =>
                      {| success := false; messageId := None;
                         error := Some (Retry.message rejection) |}
                  | inl response =>
                      if ok response then
                        match json_id response with
                        | inl id => {| success := true; messageId := id; error := None |}
                        | inr not_json =>
                            {| success := false; messageId := None;
                               error := Some (Retry.message not_json) |}
                        end
                      else {| success := false; messageId := None;
                              error := Some (body_text response) |}
                  end
       end
    /\ (success r = false -> is_Some (error r) /\ messageId r = None)
    /\ (success r = true -> error r = None).
Proof.
  unfold sendEmail.
  destruct (nonempty (env_get h "RESEND_API_KEY")) as [apiKey|].
  - unfold try_catch, mbind, M_bind, await, post, mret, M_ret, throw, message_of.
    cbv zeta.
    destruct (fetch h (tick w) _ _) as [response|e]; cbn [fst snd].
    + destruct (ok response); cbn [negb fst snd].
      * destruct (json_id response) as [id|e]; cbn [fst snd].
        -- do 2 eexists. split; [reflexivity|]. split; [reflexivity|].
           split; [split; reflexivity|]. cbn. split; [discriminate|reflexivity].
        -- do 2 eexists. split; [reflexivity|]. split; [reflexivity|].
           split; [split; reflexivity|]. cbn. split; [eauto|discriminate].
      * do 2 eexists. split; [reflexivity|]. split; [reflexivity|].
        split; [split; reflexivity|]. cbn. split; [eauto|discriminate].
    + do 2 eexists. split; [reflexivity|]. split; [reflexivity|].
      split; [split; reflexivity|]. cbn. split; [eauto|discriminate].
  - unfold mbind, M_bind, now, mret, M_ret. cbn [fst snd].
    exists {| success := true; messageId := Some ("mock-" ++ pretty (date_now h (tick w)));
              error := None |}, [].
    split; [reflexivity|]. split; [reflexivity|]. split; [split; reflexivity|].
    cbn. split; [discriminate|reflexivity].
Qed.



End EmailRequests.

(** ** Runs of the deployed graph *)

Module AgentRuns.
Import Js Retry Host Email Engine Agent Gate Runs.
Import GateFacts.

Section WithHost.
Variable h : Host.

(** The text generation call settles: with three attempts the helper
    returns, or throws the error of the last attempt. *)
Lemma classify_settles prompt w :
  exists r w',
    settle (Simple.withRetry sleep (create_message h prompt) None w) w = (r, w')
    /\ match r with
       | inl _ => True
       | inr t => exists e, t = Threw e
       end.
Proof.
  unfold Simple.withRetry. cbn [default].
  destruct (RetryFacts.simple_loop_enough sleep (create_message h prompt) 3
              (S (Z.to_nat 3)) 1 ThrewUndefined w) as [run Hrun]; [cbn; lia|].
  change (default 3 None) with 3. rewrite Hrun. cbn [settle].
  exists (outcome run), (final run). split; [reflexivity|].
  destruct (outcome run) as [v|t] eqn:Hout; [exact I|].
  destruct (RetrySchedule.simple_loop_thrown _ _ _ _ _ _ _ _ _ Hrun Hout ltac:(lia))
    as (errs & e & _ & _ & _ & -> & _).
  eauto.
Qed.

(** [understand_request] always returns an update: the intent, or an
    error with the response that asks to try again. *)
Lemma understandRequest_returns st w :
  (exists v, (understandRequest h st w).1 = inl ({[ "intent" := v ]} : object))
  \/ (exists msg,
        (understandRequest h st w).1 =
        inl ({[ "error" := VStr msg;
                "response" := VStr "I had trouble understanding that. Please try again." ]}
             : object)).
Proof.
  unfold understandRequest. plumbing.
  destruct (classify_settles (classify_prompt (get st "userMessage")) w)
    as (r & w' & -> & Hr).
  destruct r as [response|t].
  - repeat (split_match; plumbing); cbn [fst]; eauto.
  - destruct Hr as [e ->]. cbn [fst]. eauto.
Qed.

Ltac returned :=
  cbn [fst]; eexists; split; [reflexivity|].

Lemma handleLookup_returns st w :
  exists p,
    (handleLookup h st w).1 = inl p /\ responds p
    /\ p !! "pendingAction" = None /\ p !! "approvalStatus" = None.
Proof.
  unfold handleLookup. plumbing.
  repeat (split_match; plumbing); returned;
    (split; [eexists; split; reflexivity|split; reflexivity]).
Qed.

Lemma handleOther_returns st w :
  exists p,
    (handleOther st w).1 = inl p /\ responds p
    /\ p !! "pendingAction" = None /\ p !! "approvalStatus" = None.
Proof.
  unfold handleOther. returned.
  split; [eexists; split; reflexivity|split; reflexivity].
Qed.

(** [handle_update] and [handle_followup] always return an update with a
    response; it proposes an action, pending, or does not mention one. *)
Lemma handleUpdate_returns st w :
  exists p,
    (handleUpdate h st w).1 = inl p /\ responds p
    /\ ((p !! "approvalStatus" = None /\ p !! "pendingAction" = None)
        \/ (p !! "approvalStatus" = Some (VStr "pending")
            /\ exists a, p !! "pendingAction" = Some (VPending a))).
Proof.
  unfold handleUpdate, lower_message. plumbing.
  repeat (split_match; plumbing); returned;
    (split; [eexists; split; reflexivity|]);
    first [left; split; reflexivity | right; split; [reflexivity|eexists; reflexivity]].
Qed.

Lemma handleFollowup_returns st w :
  exists p,
    (handleFollowup h st w).1 = inl p /\ responds p
    /\ ((p !! "approvalStatus" = None /\ p !! "pendingAction" = None)
        \/ (p !! "approvalStatus" = Some (VStr "pending")
            /\ exists a, p !! "pendingAction" = Some (VPending a))).
Proof.
  unfold handleFollowup. plumbing.
  repeat (split_match; plumbing); returned;
    (split; [eexists; split; reflexivity|]);
    first [left; split; reflexivity | right; split; [reflexivity|eexists; reflexivity]].
Qed.

Lemma handleRejection_returns st w :
  exists p,
    (handleRejection st w).1 = inl p /\ responds p
    /\ p !! "pendingAction" = Some VNull.
Proof.
  unfold handleRejection. returned.
  split; [eexists; split; reflexivity|reflexivity].
Qed.

(** [execute_approved] has no [catch]: it returns an update that leaves
    the pending action alone or sets it to [null], or it throws the error
    the database client rejected with. *)
Lemma executeApproved_cases st w :
  (exists p,
      (executeApproved h st w).1 = inl p
      /\ (p !! "response" = None \/ responds p)
      /\ (p !! "pendingAction" = None \/ p !! "pendingAction" = Some VNull))
  \/ (exists e, (executeApproved h st w).1 = inr (Threw e)).
Proof.
  unfold executeApproved, sendEmail. plumbing.
  repeat (split_match; plumbing); cbn [fst];
    first [ right; eexists; reflexivity
          | left; eexists; split; [reflexivity|];
            split;
            [ first [left; reflexivity | right; eexists; split; reflexivity]
            | first [left; reflexivity | right; reflexivity] ] ].
Qed.

Ltac carried_one :=
  first [ split; [reflexivity|]; split; [reflexivity|];
          first [ left; split; reflexivity
                | right; split; [reflexivity|eexists; reflexivity]
                | eexists; repeat split; reflexivity ]
        | repeat split; reflexivity ].

Ltac carried :=
  lazymatch goal with
  | |- Forall _ [] => constructor
  | |- Forall _ (_ :: _) => constructor; [unfold carries_out; cbn; carried_one|carried]
  end.

(** The effects of [execute_approved] carry out the pending action of the
    state. *)
Lemma executeApproved_effects st w :
  exists effects,
    trace (executeApproved h st w).2 = (trace w ++ effects)%list
    /\ (effects = []
        \/ exists pa, get st "pendingAction" = VPending pa
                      /\ Forall (carries_out pa) effects).
Proof.
  unfold executeApproved, sendEmail. plumbing.
  repeat (split_match; plumbing); cbn [fst snd consult trace tick];
    rewrite ?app_nil_r, <- ?app_assoc; cbn [app].
  all: try (exists []; split; [symmetry; apply app_nil_r|left; reflexivity]).
  all: eexists; (split; [reflexivity|]); right; eexists; (split; [reflexivity|]).
  all: carried.
Qed.

Abbreviation run_agent :=
  (run_from (Channels.merge Channels.agent_channels) (fun _ _ => None) has_error
            (fun _ : object => false) (workflow h)).

Abbreviation merged st p := (Channels.merge Channels.agent_channels st p).

(** *** The state after a merge *)

Lemma truthy_not_nullish v : truthy v = true -> nullish v = false.
Proof. destruct v; simpl; congruence. Qed.

Lemma response_declared : "response" ∈ Channels.agent_channels.*1.
Proof. cbn. repeat first [apply list_elem_of_here | apply list_elem_of_further]. Qed.

Lemma pendingAction_declared : "pendingAction" ∈ Channels.agent_channels.*1.
Proof. cbn. repeat first [apply list_elem_of_here | apply list_elem_of_further]. Qed.

Lemma error_declared : "error" ∈ Channels.agent_channels.*1.
Proof. cbn. repeat first [apply list_elem_of_here | apply list_elem_of_further]. Qed.

Lemma responds_merged st p : responds p -> has_response (merged st p).
Proof.
  intros (v & Hv & Htrue). unfold has_response.
  rewrite get_merged, Hv by apply response_declared.
  rewrite JsFacts.coalesce_value by now apply truthy_not_nullish. exact Htrue.
Qed.

Lemma has_response_merged st p :
  has_response st -> p !! "response" = None \/ responds p -> has_response (merged st p).
Proof.
  intros Hst [Hnone|Hp]; [|now apply responds_merged].
  unfold has_response. now rewrite get_merged, Hnone by apply response_declared.
Qed.

Lemma is_pending_merged st p :
  is_pending st ->
  p !! "pendingAction" = None \/ p !! "pendingAction" = Some VNull ->
  is_pending (merged st p).
Proof.
  intros [a Ha] Hp. exists a.
  rewrite get_merged by apply pendingAction_declared.
  destruct Hp as [-> | ->]; [exact Ha|]. exact Ha.
Qed.

Lemma proposed_merged st p a :
  p !! "pendingAction" = Some (VPending a) -> is_pending (merged st p).
Proof.
  intros Hp. exists a. now rewrite get_merged, Hp by apply pendingAction_declared.
Qed.

(** *** Stages *)

Lemma staged_nil d : staged d [].
Proof. intros i s Hi. destruct i; discriminate. Qed.

Lemma staged_cons d (s : Gate.Step) ss :
  stage (step_node s) = Some d -> staged (S d) ss -> staged d (s :: ss).
Proof.
  intros Hs Hss [|i] x Hx; simpl in Hx.
  - injection Hx as <-. now rewrite Nat.add_0_r.
  - rewrite (Hss i x Hx). f_equal. lia.
Qed.

Lemma staged_length d ss : (d <= 4)%nat -> staged d ss -> (d + length ss <= 4)%nat.
Proof.
  intros Hd Hss.
  destruct (le_lt_dec (d + length ss) 4) as [Hle|Hgt]; [exact Hle|exfalso].
  assert (Hi : (4 - d < length ss)%nat) by lia.
  destruct (lookup_lt_is_Some_2 ss (4 - d) Hi) as [s Hs].
  specialize (Hss _ _ Hs).
  unfold stage in Hss.
  repeat match type of Hss with
         | (if ?c then _ else _) = _ => destruct c
         end;
    try discriminate; injection Hss as Hss; lia.
Qed.

Lemma reviewed_cons (s : Gate.Step) ss :
  reviewed (s :: ss) -> step_node s = "human_review" \/ reviewed ss.
Proof. unfold reviewed. rewrite fmap_cons, elem_of_cons. intros [H|H]; auto. Qed.

Lemma not_reviewed_nil : ~ reviewed [].
Proof. unfold reviewed. cbn. apply not_elem_of_nil. Qed.

(** *** The runs from each node *)

Ltac out_of_budget :=
  cbn [run_from stop steps failure final_state];
  repeat split;
  first [ apply staged_nil | left; split; [reflexivity|lia] | intros; discriminate
        | intros ? ? Hr; now apply not_reviewed_nil in Hr
        | intros Hr; now apply not_reviewed_nil in Hr ].

Lemma run_execute n st w :
  let o := run_agent n "execute_approved" st w in
  staged 3 (steps o)
  /\ ends_well 1 n o
  /\ (has_response st -> failure o = None -> has_response (final_state o))
  /\ (is_pending st -> failure o = None -> is_pending (final_state o)).
Proof.
  destruct n as [|n]; [out_of_budget|].
  intros o. subst o. rewrite (agent_step h _ _ _ _ _ (nodes_execute h)).
  unfold next. change (edges (workflow h) !! "execute_approved")
    with (Some (Fixed END : Edge object)).
  destruct (executeApproved_cases st w) as [(p & -> & Hresp & Hpend)|(e & ->)];
    cbn [after_step stop steps failure final_state].
  - split; [apply staged_cons; [reflexivity|apply staged_nil]|].
    split; [right; now left|].
    split; [intros Hst _; now apply has_response_merged|].
    intros Hst _. now apply is_pending_merged.
  - split; [apply staged_cons; [reflexivity|apply staged_nil]|].
    split; [right; right; eauto|].
    split; intros _; discriminate.
Qed.

Lemma run_rejection n st w :
  let o := run_agent n "handle_rejection" st w in
  staged 3 (steps o)
  /\ ((failure o = Some StepBudgetExceededError /\ n = 0%nat) \/ failure o = None)
  /\ (failure o = None -> has_response (final_state o))
  /\ (is_pending st -> failure o = None -> is_pending (final_state o)).
Proof.
  destruct n as [|n]; [out_of_budget|].
  intros o. subst o. rewrite (agent_step h _ _ _ _ _ (nodes_rejection h)).
  unfold next. change (edges (workflow h) !! "handle_rejection")
    with (Some (Fixed END : Edge object)).
  destruct (handleRejection_returns st w) as (p & -> & Hresp & Hpend).
  cbn [after_step stop steps failure final_state].
  split; [apply staged_cons; [reflexivity|apply staged_nil]|].
  split; [now right|].
  split; [intros _; now apply responds_merged|].
  intros Hst _. apply is_pending_merged; auto.
Qed.

Lemma routeAfterReview_cases st :
  routeAfterReview st = "execute_approved" \/ routeAfterReview st = "handle_rejection"
  \/ routeAfterReview st = "end".
Proof.
  unfold routeAfterReview.
  repeat match goal with |- context [if ?c then _ else _] => destruct c end; auto.
Qed.

Lemma run_review n st w :
  let o := run_agent n "human_review" st w in
  staged 2 (steps o)
  /\ ends_well 2 n o
  /\ (has_response st -> failure o = None -> has_response (final_state o))
  /\ (is_pending st -> failure o = None -> is_pending (final_state o)).
Proof.
  destruct n as [|n]; [out_of_budget|].
  intros o. subst o. rewrite (agent_step h _ _ _ _ _ (nodes_review h)).
  destruct (humanReview_cases h st w) as [-> Hr].
  assert (Hp : exists p : object,
             (humanReview h st w).1 = inl p
             /\ p !! "response" = None /\ p !! "pendingAction" = None).
  { destruct Hr as [Hr|[Hr|Hr]]; rewrite Hr; eexists; repeat split; reflexivity. }
  destruct Hp as (p & -> & Hresp & Hpend). clear Hr.
  unfold next. change (edges (workflow h) !! "human_review")
    with (Some (Conditional routeAfterReview routeAfterReview_mapping)).
  assert (Hkeep : has_response st -> has_response (merged st p))
    by (intros Hst; apply has_response_merged; auto).
  assert (Hpending : is_pending st -> is_pending (merged st p))
    by (intros Hst; apply is_pending_merged; auto).
  destruct (routeAfterReview_cases (merged st p)) as [-> | [-> | ->]].
  - change (routeAfterReview_mapping !! "execute_approved")
      with (Some (Goto "execute_approved")).
    destruct (run_execute n (merged st p) w) as (Ha & Hb & Hc & Hd).
    cbn [after_step steps failure final_state].
    split; [apply staged_cons; [reflexivity|exact Ha]|].
    split; [destruct Hb as [[Hf Hn]|Hf]; [left; split; [exact Hf|lia]|right; exact Hf]|].
    split; auto.
  - change (routeAfterReview_mapping !! "handle_rejection")
      with (Some (Goto "handle_rejection")).
    destruct (run_rejection n (merged st p) w) as (Ha & Hb & Hc & Hd).
    cbn [after_step steps failure final_state].
    split; [apply staged_cons; [reflexivity|exact Ha]|].
    split; [destruct Hb as [[Hf Hn]|Hf]; [left; split; [exact Hf|lia]|right; now left]|].
    split; auto.
  - change (routeAfterReview_mapping !! "end") with (Some END).
    cbn [after_step stop steps failure final_state].
    split; [apply staged_cons; [reflexivity|apply staged_nil]|].
    split; [right; now left|]. split; auto.
Qed.

(** The two handlers that can propose an action. *)
Lemma run_action node body n st w :
  nodes (workflow h) !! node = Some body ->
  edges (workflow h) !! node = Some (Conditional routeAfterAction routeAfterAction_mapping) ->
  stage node = Some 1%nat ->
  (forall st w,
      exists p,
        (body st w).1 = inl p /\ responds p
        /\ ((p !! "approvalStatus" = None /\ p !! "pendingAction" = None)
            \/ (p !! "approvalStatus" = Some (VStr "pending")
                /\ exists a, p !! "pendingAction" = Some (VPending a)))) ->
  let o := run_agent n node st w in
  staged 1 (steps o)
  /\ ends_well 3 n o
  /\ (failure o = None -> has_response (final_state o))
  /\ (is_str (get st "approvalStatus") "pending" = false ->
      failure o = None -> reviewed (steps o) -> is_pending (final_state o)).
Proof.
  intros Hnode Hedge Hstage Hbody.
  destruct n as [|n]; [out_of_budget|].
  intros o. subst o. rewrite (agent_step h _ _ _ _ _ Hnode).
  destruct (Hbody st w) as (p & -> & Hresp & Hprop).
  unfold next. rewrite Hedge. unfold routeAfterAction.
  destruct (is_str (get (merged st p) "approvalStatus") "pending") eqn:Hroute.
  - change (routeAfterAction_mapping !! "human_review") with (Some (Goto "human_review")).
    destruct (run_review n (merged st p) (body st w).2) as (Ha & Hb & Hc & Hd).
    cbn [after_step steps failure final_state].
    split; [apply staged_cons; [exact Hstage|exact Ha]|].
    split; [destruct Hb as [[Hf Hn]|Hf]; [left; split; [exact Hf|lia]|right; exact Hf]|].
    split; [intros Hf; apply Hc; [now apply responds_merged|exact Hf]|].
    intros Hst Hf _. apply Hd; [|exact Hf].
    destruct Hprop as [[Hnone _]|[_ [a Ha']]]; [|now apply (proposed_merged _ _ a)].
    rewrite get_merged, Hnone in Hroute by apply approvalStatus_declared. congruence.
  - change (routeAfterAction_mapping !! "end") with (Some END).
    cbn [after_step stop steps failure final_state].
    split; [apply staged_cons; [exact Hstage|apply staged_nil]|].
    split; [right; now left|].
    split; [intros _; now apply responds_merged|].
    intros _ _ Hrev. apply reviewed_cons in Hrev as [Hrev|Hrev].
    + cbn [step_node] in Hrev. subst node. discriminate.
    + now apply not_reviewed_nil in Hrev.
Qed.

(** The two handlers that propose nothing. *)
Lemma run_answer node body n st w :
  nodes (workflow h) !! node = Some body ->
  edges (workflow h) !! node = Some (Fixed END) ->
  stage node = Some 1%nat -> node <> "human_review" ->
  (forall st w, exists p, (body st w).1 = inl p /\ responds p) ->
  let o := run_agent n node st w in
  staged 1 (steps o)
  /\ ((failure o = Some StepBudgetExceededError /\ n = 0%nat) \/ failure o = None)
  /\ (failure o = None -> has_response (final_state o))
  /\ ~ reviewed (steps o).
Proof.
  intros Hnode Hedge Hstage Hne Hbody.
  destruct n as [|n]; [out_of_budget|].
  intros o. subst o. rewrite (agent_step h _ _ _ _ _ Hnode).
  destruct (Hbody st w) as (p & -> & Hresp).
  unfold next. rewrite Hedge.
  cbn [after_step stop steps failure final_state].
  split; [apply staged_cons; [exact Hstage|apply staged_nil]|].
  split; [now right|].
  split; [intros _; now apply responds_merged|].
  intros Hrev. apply reviewed_cons in Hrev as [Hrev|Hrev]; [contradiction|].
  now apply not_reviewed_nil in Hrev.
Qed.

Lemma routeByIntent_end st : routeByIntent st = "end" -> truthy (get st "error") = true.
Proof.
  unfold routeByIntent. destruct (truthy (get st "error")); [reflexivity|].
  repeat match goal with |- context [if ?c then _ else _] => destruct c end; discriminate.
Qed.

Lemma run_understand n st w :
  let o := run_agent n "understand_request" st w in
  staged 0 (steps o)
  /\ ends_well 4 n o
  /\ (truthy (get st "error") = false -> failure o = None -> has_response (final_state o))
  /\ (is_str (get st "approvalStatus") "pending" = false ->
      failure o = None -> reviewed (steps o) -> is_pending (final_state o)).
Proof.
  destruct n as [|n]; [out_of_budget|].
  intros o. subst o. rewrite (agent_step h _ _ _ _ _ (nodes_understand h)).
  assert (Hp : exists p : object,
             (understandRequest h st w).1 = inl p
             /\ p !! "approvalStatus" = None
             /\ (responds p \/ p !! "error" = None)).
  { destruct (understandRequest_returns st w) as [[v ->]|[msg ->]];
      eexists; (split; [reflexivity|]); (split; [reflexivity|]).
    - right. reflexivity.
    - left. eexists. split; reflexivity. }
  destruct Hp as (p & -> & Hstatus & Hresp).
  set (w1 := (understandRequest h st w).2).
  set (st1 := merged st p).
  assert (Hst1 : get st1 "approvalStatus" = get st "approvalStatus")
    by (subst st1; now rewrite get_merged, Hstatus by apply approvalStatus_declared).
  unfold next. change (edges (workflow h) !! "understand_request")
    with (Some (Conditional routeByIntent routeByIntent_mapping)).
  destruct (routeByIntent_cases st1) as [Hr|[Hr|[Hr|[Hr|Hr]]]]; rewrite Hr.
  - change (routeByIntent_mapping !! "end") with (Some END).
    cbn [after_step stop steps failure final_state].
    split; [apply staged_cons; [reflexivity|apply staged_nil]|].
    split; [right; now left|].
    split.
    + intros Herr _. destruct Hresp as [Hresp|Hnone]; [now apply responds_merged|].
      apply routeByIntent_end in Hr. subst st1.
      rewrite get_merged, Hnone in Hr by apply error_declared. congruence.
    + intros _ _ Hrev. apply reviewed_cons in Hrev as [Hrev|Hrev]; [discriminate|].
      now apply not_reviewed_nil in Hrev.
  - change (routeByIntent_mapping !! "handle_lookup") with (Some (Goto "handle_lookup")).
    destruct (run_answer "handle_lookup" (handleLookup h) n st1 w1) as (Ha & Hb & Hc & Hd);
      [reflexivity|reflexivity|reflexivity|discriminate| |].
    { intros st' w'. destruct (handleLookup_returns st' w') as (q & Hq & Hrq & _). eauto. }
    cbn [after_step steps failure final_state].
    split; [apply staged_cons; [reflexivity|exact Ha]|].
    split; [destruct Hb as [[Hf Hn]|Hf]; [left; split; [exact Hf|lia]|right; now left]|].
    split; [intros _; exact Hc|].
    intros _ _ Hrev. apply reviewed_cons in Hrev as [Hrev|Hrev]; [discriminate|contradiction].
  - change (routeByIntent_mapping !! "handle_update") with (Some (Goto "handle_update")).
    destruct (run_action "handle_update" (handleUpdate h) n st1 w1) as (Ha & Hb & Hc & Hd);
      [reflexivity|reflexivity|reflexivity|apply handleUpdate_returns|].
    cbn [after_step steps failure final_state].
    split; [apply staged_cons; [reflexivity|exact Ha]|].
    split; [destruct Hb as [[Hf Hn]|Hf]; [left; split; [exact Hf|lia]|right; exact Hf]|].
    split; [intros _; exact Hc|].
    intros Hst Hf Hrev. apply Hd; [congruence|exact Hf|].
    apply reviewed_cons in Hrev as [Hrev|Hrev]; [discriminate|exact Hrev].
  - change (routeByIntent_mapping !! "handle_followup") with (Some (Goto "handle_followup")).
    destruct (run_action "handle_followup" (handleFollowup h) n st1 w1)
      as (Ha & Hb & Hc & Hd);
      [reflexivity|reflexivity|reflexivity|apply handleFollowup_returns|].
    cbn [after_step steps failure final_state].
    split; [apply staged_cons; [reflexivity|exact Ha]|].
    split; [destruct Hb as [[Hf Hn]|Hf]; [left; split; [exact Hf|lia]|right; exact Hf]|].
    split; [intros _; exact Hc|].
    intros Hst Hf Hrev. apply Hd; [congruence|exact Hf|].
    apply reviewed_cons in Hrev as [Hrev|Hrev]; [discriminate|exact Hrev].
  - change (routeByIntent_mapping !! "handle_other") with (Some (Goto "handle_other")).
    destruct (run_answer "handle_other" handleOther n st1 w1) as (Ha & Hb & Hc & Hd);
      [reflexivity|reflexivity|reflexivity|discriminate| |].
    { intros st' w'. destruct (handleOther_returns st' w') as (q & Hq & Hrq & _). eauto. }
    cbn [after_step steps failure final_state].
    split; [apply staged_cons; [reflexivity|exact Ha]|].
    split; [destruct Hb as [[Hf Hn]|Hf]; [left; split; [exact Hf|lia]|right; now left]|].
    split; [intros _; exact Hc|].
    intros _ _ Hrev. apply reviewed_cons in Hrev as [Hrev|Hrev]; [discriminate|contradiction].
Qed.

(** *** What [execute_approved] carries out in a run *)

Lemma carried_execute n st w pa :
  get st "pendingAction" = VPending pa ->
  forall s, s ∈ steps (run_agent n "execute_approved" st w) ->
            Forall (carries_out pa) (performed s).
Proof.
  intros Hpa. destruct n as [|n]; [intros s Hs; now apply elem_of_nil in Hs|].
  rewrite (agent_step h _ _ _ _ _ (nodes_execute h)).
  unfold next. change (edges (workflow h) !! "execute_approved")
    with (Some (Fixed END : Edge object)).
  destruct (executeApproved_effects st w) as (effects & Htrace & Heffects).
  assert (Hstep : Forall (carries_out pa)
                    (performed (mkStep "execute_approved" st w (executeApproved h st w).1
                                       (executeApproved h st w).2))).
  { rewrite (performed_step _ _ _ _ _ _ Htrace).
    destruct Heffects as [->|(pa' & Hpa' & Hall)]; [constructor|].
    assert (pa' = pa) by congruence. now subst pa'. }
  destruct (executeApproved h st w).1 as [p|t];
    cbn [after_step stop steps]; intros s Hs;
    apply list_elem_of_singleton in Hs; now subst s.
Qed.

Lemma carried_review n st w pa :
  get st "pendingAction" = VPending pa ->
  forall s, s ∈ steps (run_agent n "human_review" st w) ->
            step_node s = "execute_approved" ->
            Forall (carries_out pa) (performed s).
Proof.
  intros Hpa. destruct n as [|n]; [intros s Hs; now apply elem_of_nil in Hs|].
  rewrite (agent_step h _ _ _ _ _ (nodes_review h)).
  destruct (humanReview_cases h st w) as [-> Hr].
  assert (Hp : exists p : object,
             (humanReview h st w).1 = inl p /\ p !! "pendingAction" = None).
  { destruct Hr as [Hr|[Hr|Hr]]; rewrite Hr; eexists; split; reflexivity. }
  destruct Hp as (p & -> & Hpend). clear Hr.
  assert (Hpa' : get (merged st p) "pendingAction" = VPending pa)
    by (now rewrite get_merged, Hpend by apply pendingAction_declared).
  unfold next. change (edges (workflow h) !! "human_review")
    with (Some (Conditional routeAfterReview routeAfterReview_mapping)).
  destruct (routeAfterReview_cases (merged st p)) as [-> | [-> | ->]].
  - change (routeAfterReview_mapping !! "execute_approved")
      with (Some (Goto "execute_approved")).
    cbn [after_step steps]. intros s Hs Hnode.
    apply elem_of_cons in Hs as [->|Hs]; [discriminate|].
    eapply carried_execute; eassumption.
  - change (routeAfterReview_mapping !! "handle_rejection")
      with (Some (Goto "handle_rejection")).
    cbn [after_step steps]. intros s Hs Hnode.
    apply elem_of_cons in Hs as [->|Hs]; [discriminate|].
    exfalso. revert Hs Hnode. clear.
    destruct n as [|n]; [intros Hs; now apply elem_of_nil in Hs|].
    rewrite (agent_step h _ _ _ _ _ (nodes_rejection h)).
    unfold next. change (edges (workflow h) !! "handle_rejection")
      with (Some (Fixed END : Edge object)).
    cbn [handleRejection mret M_ret fst snd after_step stop steps].
    intros Hs Hnode. apply list_elem_of_singleton in Hs. subst s. discriminate.
  - change (routeAfterReview_mapping !! "end") with (Some END).
    cbn [after_step stop steps]. intros s Hs Hnode.
    apply list_elem_of_singleton in Hs. subst s. discriminate.
Qed.

Lemma carried_action node body n st w :
  nodes (workflow h) !! node = Some body ->
  edges (workflow h) !! node = Some (Conditional routeAfterAction routeAfterAction_mapping) ->
  node = "handle_update" \/ node = "handle_followup" ->
  (forall st w,
      exists p,
        (body st w).1 = inl p
        /\ ((p !! "approvalStatus" = None /\ p !! "pendingAction" = None)
            \/ (p !! "approvalStatus" = Some (VStr "pending")
                /\ exists a, p !! "pendingAction" = Some (VPending a)))) ->
  is_str (get st "approvalStatus") "pending" = false ->
  let ss := steps (run_agent n node st w) in
  forall s, s ∈ ss -> step_node s = "execute_approved" ->
            exists pa, proposed_in ss pa /\ Forall (carries_out pa) (performed s).
Proof.
  intros Hnode Hedge Hname Hbody Hst.
  destruct n as [|n]; [intros ss s Hs; now apply elem_of_nil in Hs|].
  rewrite (agent_step h _ _ _ _ _ Hnode).
  destruct (Hbody st w) as (p & Hp & Hprop). rewrite Hp.
  unfold next. rewrite Hedge. unfold routeAfterAction.
  destruct (is_str (get (merged st p) "approvalStatus") "pending") eqn:Hroute.
  - change (routeAfterAction_mapping !! "human_review") with (Some (Goto "human_review")).
    destruct Hprop as [[Hnone _]|[_ [pa Hpa]]].
    { rewrite get_merged, Hnone in Hroute by apply approvalStatus_declared. congruence. }
    cbn [after_step steps]. cbv zeta. intros s Hs Hexec.
    apply elem_of_cons in Hs as [->|Hs].
    { cbn [step_node] in Hexec. destruct Hname; subst node; discriminate. }
    exists pa. split.
    + eexists. exists p. split; [apply list_elem_of_here|].
      cbn [step_node step_result]. auto.
    + eapply carried_review; [|exact Hs|exact Hexec].
      now rewrite get_merged, Hpa by apply pendingAction_declared.
  - change (routeAfterAction_mapping !! "end") with (Some END).
    cbn [after_step stop steps]. cbv zeta. intros s Hs Hexec.
    apply list_elem_of_singleton in Hs. subst s.
    cbn [step_node] in Hexec. destruct Hname; subst node; discriminate.
Qed.

Lemma carried_answer node body n st w :
  nodes (workflow h) !! node = Some body ->
  edges (workflow h) !! node = Some (Fixed END) ->
  node <> "execute_approved" ->
  forall s, s ∈ steps (run_agent n node st w) -> step_node s <> "execute_approved".
Proof.
  intros Hnode Hedge Hne.
  destruct n as [|n]; [intros s Hs; now apply elem_of_nil in Hs|].
  rewrite (agent_step h _ _ _ _ _ Hnode). unfold next. rewrite Hedge.
  destruct (body st w).1 as [p|t]; cbn [after_step stop steps]; intros s Hs;
    apply list_elem_of_singleton in Hs; subst s; exact Hne.
Qed.

Lemma proposed_later (s0 : Gate.Step) ss pa : proposed_in ss pa -> proposed_in (s0 :: ss) pa.
Proof.
  intros (s & p & Hs & Hrest). exists s, p. split; [now apply list_elem_of_further|exact Hrest].
Qed.

Lemma carried_understand n st w :
  is_str (get st "approvalStatus") "pending" = false ->
  let ss := steps (run_agent n "understand_request" st w) in
  forall s, s ∈ ss -> step_node s = "execute_approved" ->
            exists pa, proposed_in ss pa /\ Forall (carries_out pa) (performed s).
Proof.
  intros Hst.
  destruct n as [|n]; [intros ss s Hs; now apply elem_of_nil in Hs|].
  rewrite (agent_step h _ _ _ _ _ (nodes_understand h)).
  assert (Hp : exists p : object,
             (understandRequest h st w).1 = inl p /\ p !! "approvalStatus" = None).
  { destruct (understandRequest_returns st w) as [[v ->]|[msg ->]];
      eexists; split; reflexivity. }
  destruct Hp as (p & -> & Hstatus).
  set (w1 := (understandRequest h st w).2).
  set (st1 := merged st p).
  assert (Hst1 : is_str (get st1 "approvalStatus") "pending" = false)
    by (subst st1; now rewrite get_merged, Hstatus by apply approvalStatus_declared).
  unfold next. change (edges (workflow h) !! "understand_request")
    with (Some (Conditional routeByIntent routeByIntent_mapping)).
  destruct (routeByIntent_cases st1) as [Hr|[Hr|[Hr|[Hr|Hr]]]]; rewrite Hr.
  - change (routeByIntent_mapping !! "end") with (Some END).
    cbn [after_step stop steps]. cbv zeta. intros s Hs Hexec.
    apply list_elem_of_singleton in Hs. subst s. discriminate.
  - change (routeByIntent_mapping !! "handle_lookup") with (Some (Goto "handle_lookup")).
    cbn [after_step steps]. cbv zeta. intros s Hs Hexec.
    apply elem_of_cons in Hs as [->|Hs]; [discriminate|]. exfalso.
    eapply (carried_answer "handle_lookup" (handleLookup h)); try eassumption;
      [reflexivity|reflexivity|discriminate].
  - change (routeByIntent_mapping !! "handle_update") with (Some (Goto "handle_update")).
    cbn [after_step steps]. cbv zeta. intros s Hs Hexec.
    apply elem_of_cons in Hs as [->|Hs]; [discriminate|].
    destruct (carried_action "handle_update" (handleUpdate h) n st1 w1) with (s := s)
      as (pa & Hprop & Hall); try assumption; try reflexivity; [now left| |].
    { intros st' w'. destruct (handleUpdate_returns st' w') as (q & Hq & _ & Hcases). eauto. }
    exists pa. split; [now apply proposed_later|exact Hall].
  - change (routeByIntent_mapping !! "handle_followup") with (Some (Goto "handle_followup")).
    cbn [after_step steps]. cbv zeta. intros s Hs Hexec.
    apply elem_of_cons in Hs as [->|Hs]; [discriminate|].
    destruct (carried_action "handle_followup" (handleFollowup h) n st1 w1) with (s := s)
      as (pa & Hprop & Hall); try assumption; try reflexivity; [now right| |].
    { intros st' w'. destruct (handleFollowup_returns st' w') as (q & Hq & _ & Hcases). eauto. }
    exists pa. split; [now apply proposed_later|exact Hall].
  - change (routeByIntent_mapping !! "handle_other") with (Some (Goto "handle_other")).
    cbn [after_step steps]. cbv zeta. intros s Hs Hexec.
    apply elem_of_cons in Hs as [->|Hs]; [discriminate|]. exfalso.
    eapply (carried_answer "handle_other" handleOther); try eassumption;
      [reflexivity|reflexivity|discriminate].
Qed.

(** The run [runAgent] awaits. *)
Lemma run_of_message budget (message : value) w :
  let o := invoke h budget (Runner.initial message) w in
  staged 0 (steps o)
  /\ ends_well 4 budget o
  /\ (failure o = None -> has_response (final_state o))
  /\ (failure o = None -> reviewed (steps o) -> is_pending (final_state o)).
Proof.
  unfold invoke, run. cbn [entry workflow].
  destruct (run_understand budget (Runner.initial message) w) as (Ha & Hb & Hc & Hd).
  split; [exact Ha|]. split; [exact Hb|]. split.
  - apply Hc. reflexivity.
  - apply Hd. reflexivity.
Qed.

(** [runAgent] returns in every case: what a run can fail with is an
    [Error] object, whose message the [catch] block reads. *)
Lemma runAgent_returns budget (engine_error : Failure -> JsError) (message : value) w :
  exists r,
    Runner.runAgent h budget engine_error message w
    = (inl r, world (invoke h budget (Runner.initial message) w)).
Proof.
  destruct (run_of_message budget message w) as (_ & Hends & _).
  unfold Runner.runAgent, Runner.app_invoke, try_catch, mbind, M_bind, mret, M_ret.
  destruct Hends as [[Hf _]|[Hf|[e Hf]]]; rewrite Hf; eexists; reflexivity.
Qed.

End WithHost.

(** X8: every run of the deployed graph goes through the stages of the
    graph in order: [understand_request], then at most one of the four
    handlers, then at most [human_review], then at most one of
    [execute_approved] and [handle_rejection].  So a run executes at most
    four nodes and no node twice, whatever the budget, the state and the
    answers of the outside world.  Under a budget of four or more the run
    reaches [END], unless the database client rejects in
    [execute_approved], the one node without a [catch]: no other node
    lets an exception escape. *)
Theorem workflow_runs_in_stages (h : Host) (budget : nat) (state : object) (w : World) :
  let o := invoke h budget state w in
  staged 0 (steps o)
  /\ (executed o <= 4)%nat
  /\ ((4 <= budget)%nat -> fails_only_in_execute o).
Proof.
  unfold invoke, run. cbn [entry workflow].
  destruct (run_understand h budget state w) as (Ha & Hb & _).
  split; [exact Ha|]. split.
  - apply (staged_length 0); [lia|exact Ha].
  - intros Hn. destruct Hb as [[_ Hlt]|Hb]; [lia|exact Hb].
Qed.

(** The follow-up for TechCorp on the demo host, under the budget 25. *)
Lemma workflow_runs_in_stages_witness :
  fails_only_in_execute
    (invoke Demo.host 25 (initial "Send follow-up to TechCorp") start).
Proof.
  destruct (workflow_runs_in_stages Demo.host 25 (initial "Send follow-up to TechCorp")
              start) as (_ & _ & Hends).
  apply Hends. lia.
Defined.

(** X9: [runAgent] of the deployed agent never rejects, and its answer
    always carries a message that is not empty.  When the run reached
    [END] the message is the response of the final state, so the fallback
    "No response" is never used, and [success] tells whether the state
    holds an error; when the run failed the answer is the one of the
    [catch] block, "Agent failed" without [data]. *)
Theorem runAgent_always_answers (h : Host) (budget : nat)
    (engine_error : Failure -> JsError) (message : value) (w : World) :
  let o := invoke h budget (Runner.initial message) w in
  exists r,
    Runner.runAgent h budget engine_error message w = (inl r, world o)
    /\ truthy (Runner.message r) = true
    /\ (failure o = None ->
        Runner.message r = get (final_state o) "response"
        /\ Runner.success r = negb (truthy (get (final_state o) "error"))
        /\ is_Some (Runner.data r))
    /\ (failure o <> None ->
        Runner.message r = VStr "Agent failed" /\ Runner.success r = false
        /\ Runner.data r = None).
Proof.
  intros o.
  destruct (run_of_message h budget message w) as (_ & Hends & Hresp & _).
  fold o in Hends, Hresp.
  unfold Runner.runAgent, Runner.app_invoke, try_catch, mbind, M_bind, mret, M_ret.
  fold o.
  destruct Hends as [[Hf _]|[Hf|[e Hf]]]; rewrite Hf.
  - eexists. split; [reflexivity|]. split; [reflexivity|].
    split; [discriminate|]. intros _. repeat split.
  - specialize (Hresp Hf). unfold has_response in Hresp.
    eexists. split; [reflexivity|]. cbn [Runner.message Runner.success Runner.data].
    rewrite Hresp. split; [exact Hresp|].
    split; [intros _; repeat split; eauto|]. intros Hne. contradiction.
  - eexists. split; [reflexivity|]. split; [reflexivity|].
    split; [discriminate|]. intros _. repeat split.
Qed.

(** X10: when a run went through the approval gate and reached [END], the
    answer of [runAgent] still announces the action as pending approval,
    whether the gate left it pending, rejected it, or approved it and
    [execute_approved] carried it out: the updates that set
    [pendingAction] to [null] do not clear the field. *)
Theorem handled_action_still_announced (h : Host) (budget : nat)
    (engine_error : Failure -> JsError) (message : value) (w : World) :
  let o := invoke h budget (Runner.initial message) w in
  failure o = None -> reviewed (steps o) ->
  exists r d p,
    (Runner.runAgent h budget engine_error message w).1 = inl r
    /\ get (final_state o) "pendingAction" = VPending p
    /\ Runner.data r = Some d
    /\ Runner.pendingApproval d =
       Some {| Runner.actionId := VStr (leadId p);
               Runner.type := VStr (Runner.type_name (action_type p));
               Runner.description :=
                 Runner.type_name (action_type p) ++ " for " ++ leadName p |}.
Proof.
  intros o Hf Hrev.
  destruct (run_of_message h budget message w) as (_ & _ & _ & Hpending).
  fold o in Hpending. destruct (Hpending Hf Hrev) as [p Hp].
  unfold Runner.runAgent, Runner.app_invoke, try_catch, mbind, M_bind, mret, M_ret.
  fold o. rewrite Hf. cbn [fst]. rewrite Hp.
  eexists. eexists. exists p. split; [reflexivity|]. split; [reflexivity|].
  split; reflexivity.
Qed.

(** The follow-up for TechCorp on the demo host is approved by the gate
    and carried out, and the answer still announces it. *)
Lemma handled_action_still_announced_witness :
  let o := invoke Demo.host 25 (Runner.initial (VStr "Send follow-up to TechCorp")) start in
  "execute_approved" ∈ step_node <$> steps o
  /\ exists r d,
       (Runner.runAgent Demo.host 25 (fun _ => mkError "engine" None None)
          (VStr "Send follow-up to TechCorp") start).1 = inl r
       /\ Runner.data r = Some d
       /\ Runner.pendingApproval d =
          Some {| Runner.actionId := VStr "lead-1";
                  Runner.type := VStr "send_email";
                  Runner.description := "send_email for TechCorp" |}.
Proof.
  intros o. split.
  - vm_compute. repeat first [apply list_elem_of_here | apply list_elem_of_further].
  - destruct (handled_action_still_announced Demo.host 25
                (fun _ => mkError "engine" None None)
                (VStr "Send follow-up to TechCorp") start)
      as (r & d & p & Hr & Hp & Hd & Hpa).
    + vm_compute. reflexivity.
    + vm_compute. repeat first [apply list_elem_of_here | apply list_elem_of_further].
    + exists r, d. split; [exact Hr|]. split; [exact Hd|].
      rewrite Hpa. vm_compute in Hp. injection Hp as <-. reflexivity.
Defined.

(** X11: in a run that does not start with an action already pending,
    whatever [execute_approved] does to the outside world carries out an
    action that [handle_update] or [handle_followup] proposed earlier in
    the same run: the e-mail it sends is the proposed one, to the
    proposed recipient, and the lead it updates is the proposed one.
    With the approval gate (the gate approved before [execute_approved]
    ran) this makes what is executed the action that was shown for
    approval. *)
Theorem executed_action_was_proposed (h : Host) (budget : nat) (state : object)
    (w : World) (s : Gate.Step) :
  is_str (get state "approvalStatus") "pending" = false ->
  s ∈ steps (invoke h budget state w) ->
  step_node s = "execute_approved" ->
  exists pa,
    proposed_in (steps (invoke h budget state w)) pa
    /\ Forall (carries_out pa) (performed s).
Proof.
  intros Hst. unfold invoke, run. cbn [entry workflow].
  now apply carried_understand.
Qed.

(** On the demo host the follow-up for TechCorp is proposed, approved and
    carried out. *)
Lemma executed_action_was_proposed_witness :
  let o := invoke Demo.host 25 (initial "Send follow-up to TechCorp") start in
  exists s pa,
    s ∈ steps o /\ step_node s = "execute_approved"
    /\ proposed_in (steps o) pa
    /\ Forall (carries_out pa) (performed s).
Proof.
  intros o.
  assert (Hin : "execute_approved" ∈ step_node <$> steps o).
  { vm_compute. repeat first [apply list_elem_of_here | apply list_elem_of_further]. }
  apply list_elem_of_fmap in Hin as (s & Hnode & Hs).
  destruct (executed_action_was_proposed Demo.host 25
              (initial "Send follow-up to TechCorp") start s) as (pa & Hpa & Hall).
  - reflexivity.
  - exact Hs.
  - symmetry. exact Hnode.
  - exists s, pa. repeat split; [exact Hs|symmetry; exact Hnode|exact Hpa|exact Hall].
Defined.

End AgentRuns.

(** ** The handler over the deployed agent *)

Module HandlerRuns.
Import Js Retry Host Engine Handler.

(** X12: the handler never rejects: it answers every request with status
    200, 400 or 500.  The status is 400 exactly when the body was read, the
    action is neither "approve" nor "reject", and the message is missing or
    empty; a 500 carries "Internal error" and nothing of the exception.
    Over [runAgent] of the deployed agent, which never rejects, a 500 can
    only come from a body that could not be read as JSON. *)
Theorem serve_always_responds :
  (forall (A : Type) (runAgent : value -> M A) (req : Request) (w : World),
      exists resp w',
        serve runAgent req w = (inl resp, w')
        /\ (Handler.http_status resp = 200 \/ Handler.http_status resp = 400
            \/ Handler.http_status resp = 500)
        /\ (Handler.http_status resp = 400 <->
            String.eqb (method req) "OPTIONS" = false
            /\ exists b,
                 json req = inl b
                 /\ is_str (action b) "approve" = false
                 /\ is_str (action b) "reject" = false
                 /\ truthy (message b) = false)
        /\ (Handler.http_status resp = 500 -> payload resp = Handler.Failure "Internal error"))
  /\ (forall (h : Host) (budget : nat) (engine_error : Engine.Failure -> JsError)
             (req : Request) (w : World) resp w',
        serve (Runner.runAgent h budget engine_error) req w = (inl resp, w') ->
        Handler.http_status resp = 500 ->
        exists e, json req = inr e).
Proof.
  split.
  - intros A runAgent req w. unfold serve.
    destruct (String.eqb (method req) "OPTIONS") eqn:Hmethod.
    { do 2 eexists. split; [reflexivity|]. cbn. split; [auto|].
      split; [|discriminate]. split; [discriminate|]. intros [H _]. discriminate. }
    unfold try_catch, mbind, M_bind, mret, M_ret, throw.
    destruct (json req) as [b|e] eqn:Hjson.
    2: { do 2 eexists. split; [reflexivity|]. cbn. split; [auto|].
         split; [|reflexivity]. split; [discriminate|].
         intros (_ & b & Hb & _). discriminate. }
    destruct (is_str (action b) "approve") eqn:Happrove.
    { cbn [orb]. do 2 eexists. split; [reflexivity|]. cbn. split; [auto|].
      split; [|discriminate]. split; [discriminate|].
      intros (_ & b' & [= <-] & Hb & _). congruence. }
    destruct (is_str (action b) "reject") eqn:Hreject.
    { cbn [orb]. do 2 eexists. split; [reflexivity|]. cbn. split; [auto|].
      split; [|discriminate]. split; [discriminate|].
      intros (_ & b' & [= <-] & _ & Hb & _). congruence. }
    cbn [orb]. destruct (truthy (message b)) eqn:Hmessage; cbn [negb].
    + destruct (runAgent (message b) w) as [[r|t] w1].
      * do 2 eexists. split; [reflexivity|]. cbn. split; [auto|].
        split; [|discriminate]. split; [discriminate|].
        intros (_ & b' & [= <-] & _ & _ & Hb). congruence.
      * do 2 eexists. split; [reflexivity|]. cbn. split; [auto|].
        split; [|reflexivity]. split; [discriminate|].
        intros (_ & b' & [= <-] & _ & _ & Hb). congruence.
    + do 2 eexists. split; [reflexivity|]. cbn. split; [auto|].
      split; [|discriminate]. split; [|reflexivity].
      intros _. split; [reflexivity|]. exists b. auto.
  - intros h budget engine_error req w resp w'. unfold serve.
    destruct (String.eqb (method req) "OPTIONS"); [intros [= <- _]; discriminate|].
    unfold try_catch, mbind, M_bind, mret, M_ret, throw.
    destruct (json req) as [b|e]; [|eauto].
    destruct (is_str (action b) "approve" || is_str (action b) "reject");
      [intros [= <- _]; discriminate|].
    destruct (negb (truthy (message b))); [intros [= <- _]; discriminate|].
    destruct (AgentRuns.runAgent_returns h budget engine_error (message b) w) as [r ->].
    intros [= <- _]. discriminate.
Qed.

End HandlerRuns.

(** ** Updates made without approval *)

Module DirectUpdates.
Import Js Retry Host Email Engine Agent.
Import GateFacts.

Lemma status_change_cases msg s :
  status_change msg = Some s -> s = "won" \/ s = "lost" \/ s = "qualified".
Proof.
  unfold status_change.
  repeat match goal with |- context [if ?c then _ else _] => destruct c end;
    intros [= <-]; auto.
Qed.

Lemma needsApproval_update h lead :
  needsApproval h "update_lead" (Some lead) = false ->
  match HIGH_VALUE_THRESHOLD h with
  | Some threshold => score lead <= threshold
  | None => True
  end.
Proof.
  unfold needsApproval. cbn [String.eqb Ascii.eqb Bool.eqb andb].
  destruct (HIGH_VALUE_THRESHOLD h) as [threshold|]; [|trivial].
  destruct (Z.ltb_spec threshold (score lead)); [discriminate|]. intros _. lia.
Qed.

(** X13: [handle_update] changes a lead without approval only when the
    lead it found does not need approval: the one [update] it can make is
    [status] set to "won", "lost" or "qualified" on the first lead the
    search returned, and then the score of that lead does not exceed
    [HIGH_VALUE_THRESHOLD].  When the threshold did not parse as a number
    the comparison is always false, and every status change the message
    asks for is made at once, whatever the score. *)
Theorem handleUpdate_direct_below_threshold (h : Host) (st : object) (w : World) :
  let target := intent_target_of (get st "intent") in
  exists effects,
    trace (handleUpdate h st w).2 = (trace w ++ effects)%list
    /\ (forall table chg id,
          DbUpdate table chg id ∈ effects ->
          exists lead rest err s,
            db_select h (tick w) (by_company target) = DbReturned (Some (lead :: rest)) err
            /\ table = "leads" /\ id = lead_id lead /\ chg = [("status", SStr s)]
            /\ (s = "won" \/ s = "lost" \/ s = "qualified")
            /\ match HIGH_VALUE_THRESHOLD h with
               | Some threshold => score lead <= threshold
               | None => True
               end)
    /\ (forall lead rest err m s,
          truthy target = true ->
          db_select h (tick w) (by_company target) = DbReturned (Some (lead :: rest)) err ->
          get st "userMessage" = VStr m ->
          status_change (toLowerCase h m) = Some s ->
          HIGH_VALUE_THRESHOLD h = None ->
          DbUpdate "leads" [("status", SStr s)] (lead_id lead) ∈ effects).
Proof.
  intros target. unfold handleUpdate. fold target.
  destruct (truthy target) eqn:Htarget; cbn [negb].
  2: { exists []. split; [symmetry; apply app_nil_r|].
    split; [intros ? ? ? Hin; now apply elem_of_nil in Hin|].
    intros; discriminate. }
  unfold try_catch, mbind, M_bind, select, db_reply.
  destruct (db_select h (tick w) (by_company target)) as [data err|e] eqn:Hselect.
  2: { exists [DbSelect (by_company target)]. cbn. split; [reflexivity|].
       split; [|intros; discriminate].
       intros ? ? ? Hin. apply list_elem_of_singleton in Hin. discriminate. }
  cbn [fst snd].
  assert (Honly : forall r : (object + Thrown) * World,
             trace r.2 = (trace w ++ [DbSelect (by_company target)])%list ->
             (forall lead rest err0 m s,
                 db_select h (tick w) (by_company target)
                 = DbReturned (Some (lead :: rest)) err0 ->
                 get st "userMessage" = VStr m ->
                 status_change (toLowerCase h m) = Some s ->
                 HIGH_VALUE_THRESHOLD h = None -> False) ->
             exists effects,
               trace r.2 = (trace w ++ effects)%list
               /\ (forall table chg id,
                     DbUpdate table chg id ∈ effects ->
                     exists lead rest err0 s,
                       DbReturned data err = DbReturned (Some (lead :: rest)) err0
                       /\ table = "leads" /\ id = lead_id lead
                       /\ chg = [("status", SStr s)]
                       /\ (s = "won" \/ s = "lost" \/ s = "qualified")
                       /\ match HIGH_VALUE_THRESHOLD h with
                          | Some threshold => score lead <= threshold
                          | None => True
                          end)
               /\ (forall lead rest err0 m s,
                     true = true ->
                     DbReturned data err = DbReturned (Some (lead :: rest)) err0 ->
                     get st "userMessage" = VStr m ->
                     status_change (toLowerCase h m) = Some s ->
                     HIGH_VALUE_THRESHOLD h = None ->
                     DbUpdate "leads" [("status", SStr s)] (lead_id lead) ∈ effects)).
  { intros r Hr Hno. exists [DbSelect (by_company target)]. split; [exact Hr|].
    split.
    - intros ? ? ? Hin. apply list_elem_of_singleton in Hin. discriminate.
    - intros lead rest err0 m s _ Heq Hm Hs Hnone. exfalso.
      rewrite Heq in Hselect. eauto. }
  destruct data as [[|lead rest]|].
  - apply Honly; [reflexivity|]. intros; congruence.
  - unfold lower_message.
    destruct (get st "userMessage") as [| | | |m| | | |] eqn:Hmessage;
      try (apply Honly; [reflexivity|]; intros; congruence).
    unfold mret, M_ret.
    destruct (status_change (toLowerCase h m)) as [s|] eqn:Hstatus.
    2: { apply Honly; [reflexivity|]. intros ? ? ? m' s' _ [= <-]. congruence. }
    destruct (needsApproval h "update_lead" (Some lead)) eqn:Hneeds.
    { apply Honly; [reflexivity|]. intros ? ? ? m' s' _ _ _ Hnone.
      unfold needsApproval in Hneeds. rewrite Hnone in Hneeds. discriminate. }
    exists [DbSelect (by_company target);
            DbUpdate "leads" [("status", SStr s)] (lead_id lead)].
    split.
    { unfold update, db_reply, message_of, mbind, M_bind, mret, M_ret.
      destruct (db_update h _ _ _ _); cbn; now rewrite <- app_assoc. }
    split.
    + intros table chg id Hin.
      apply elem_of_cons in Hin as [Hin|Hin]; [discriminate|].
      apply list_elem_of_singleton in Hin. injection Hin as -> -> ->.
      exists lead, rest, err, s. repeat split.
      * eapply status_change_cases; exact Hstatus.
      * now apply needsApproval_update.
    + intros lead' rest' err' m' s' _ [= <- <- <-] [= <-] Hs' _.
      assert (s' = s) by congruence. subst s'.
      apply list_elem_of_further, list_elem_of_here.
  - apply Honly; [reflexivity|]. intros; congruence.
Qed.
(** With a threshold that did not parse, TechCorp (score 92) is marked as
    won at once. *)
Lemma handleUpdate_direct_below_threshold_witness :
  exists effects,
    trace (handleUpdate Examples.nan_host Examples.mark_won start).2 = effects
    /\ DbUpdate "leads" [("status", SStr "won")] "lead-1" ∈ effects.
Proof.
  destruct (handleUpdate_direct_below_threshold Examples.nan_host Examples.mark_won start)
    as (effects & Htrace & _ & Hnan).
  exists effects. split; [exact Htrace|].
  apply (Hnan Demo.techcorp [] None "mark techcorp as won" "won"); reflexivity.
Defined.

End DirectUpdates.

(** ** More on the fixed loop graph *)

Module LoopRuns.
Import Retry Engine Loop.

Section WithLength.
Variable js_length : string -> Z.

Abbreviation run_loop := (run_from merge attach_error (fun st => is_set (error st))
                        (fun _ : Update => false) (graph js_length)).

(** What one analysis does to the counters. *)
Lemma analyze_counts st :
  let st1 := merge st (analyzeRequest js_length st) in
  attempts st <= attempts st1 <= Z.max (attempts st) (maxAttempts st)
  /\ maxAttempts st1 = maxAttempts st /\ userMessage st1 = userMessage st
  /\ askedForClarification st1 = askedForClarification st.
Proof.
  unfold analyzeRequest.
  destruct (Z.leb_spec (maxAttempts st) (attempts st)); [cbn; repeat split; lia|].
  destruct (askedForClarification st) eqn:Hasked; [cbn; repeat split; try lia; auto|].
  destruct (js_length (userMessage st) <? 20); cbn; repeat split; try lia; auto.
Qed.

Lemma clarify_counts st :
  let st1 := merge st (requestClarification st) in
  attempts st1 = attempts st /\ maxAttempts st1 = maxAttempts st
  /\ userMessage st1 = userMessage st /\ askedForClarification st1 = true.
Proof. cbn. repeat split. Qed.

(** The runs of the graph, for every budget: one analysis, or an analysis,
    the clarification and a second analysis. *)
Lemma loop_runs budget st :
  let o := invoke js_length budget st in
  let st1 := merge st (analyzeRequest js_length st) in
  let st2 := merge st1 (requestClarification st1) in
  let st3 := merge st2 (analyzeRequest js_length st2) in
  (step_node <$> steps o = [] /\ final_state o = st)
  \/ (step_node <$> steps o = ["analyze_request"] /\ final_state o = st1)
  \/ (step_node <$> steps o = ["analyze_request"; "request_clarification"]
      /\ final_state o = st2)
  \/ (step_node <$> steps o = ["analyze_request"; "request_clarification"; "analyze_request"]
      /\ final_state o = st3).
Proof.
  intros o st1 st2 st3. subst o. unfold invoke, run. cbn [entry graph].
  destruct budget as [|budget]; [left; split; reflexivity|].
  rewrite LoopFacts.analyze_step.
  destruct (String.eqb _ "request_clarification").
  2: { right; left. split; reflexivity. }
  destruct budget as [|budget]; [right; left; split; reflexivity|].
  rewrite LoopFacts.clarify_step.
  destruct budget as [|budget]; [right; right; left; split; reflexivity|].
  rewrite LoopFacts.analyze_step.
  rewrite LoopFacts.analyze_after_clarification by reflexivity.
  right; right; right. split; reflexivity.
Qed.

End WithLength.

(** X14: a run of the fixed loop graph, from any state and under any
    budget, never counts past the limit: the attempt counter only grows,
    and it ends no higher than the larger of its initial value and
    [maxAttempts]; [maxAttempts] and the message are never changed; and
    [request_clarification] is executed at most once. *)
Theorem loop_stays_within_attempts (js_length : string -> Z) (budget : nat)
    (st : AgentState) :
  let o := invoke js_length budget st in
  attempts st <= attempts (final_state o) <= Z.max (attempts st) (maxAttempts st)
  /\ maxAttempts (final_state o) = maxAttempts st
  /\ userMessage (final_state o) = userMessage st
  /\ (length (List.filter (String.eqb "request_clarification") (step_node <$> steps o))
      <= 1)%nat.
Proof.
  intros o.
  pose proof (loop_runs js_length budget st) as Hruns. cbv zeta in Hruns. fold o in Hruns.
  pose proof (analyze_counts js_length st) as H1. cbv zeta in H1.
  remember (merge st (analyzeRequest js_length st)) as st1 eqn:E1.
  pose proof (clarify_counts st1) as H2. cbv zeta in H2.
  remember (merge st1 (requestClarification st1)) as st2 eqn:E2.
  pose proof (analyze_counts js_length st2) as H3. cbv zeta in H3.
  remember (merge st2 (analyzeRequest js_length st2)) as st3 eqn:E3.
  destruct H1 as (Ha1 & Hm1 & Hu1 & _), H2 as (Ha2 & Hm2 & Hu2 & _),
    H3 as (Ha3 & Hm3 & Hu3 & _).
  destruct Hruns as [[Hs Hf]|[[Hs Hf]|[[Hs Hf]|[Hs Hf]]]];
    rewrite Hs, Hf; cbn [List.filter String.eqb Ascii.eqb Bool.eqb length];
    repeat split; try lia; try congruence.
Qed.

(** X15: what the fixed loop graph does with a fresh request (no response,
    no error, no clarification asked yet, attempts left) under a budget of
    three or more.  A message of 20 characters or more is analysed once.  A
    shorter one is analysed, clarification is requested once, and the
    second analysis answers with its best effort, which replaces the
    clarification question as the response; the run counts two attempts.
    When the first analysis uses the last attempt, the run of a short
    message ends after it with no response and no error.  In every case
    the run is [completed]. *)
Theorem loop_on_fresh_request (js_length : string -> Z) (budget : nat) (st : AgentState) :
  (3 <= budget)%nat ->
  response st = None -> error st = None -> askedForClarification st = false ->
  attempts st < maxAttempts st ->
  let o := invoke js_length budget st in
  status o = completed
  /\ error (final_state o) = None
  /\ if js_length (userMessage st) <? 20 then
       if attempts st + 1 <? maxAttempts st then
         step_node <$> steps o
         = ["analyze_request"; "request_clarification"; "analyze_request"]
         /\ response (final_state o)
            = Some ("I'll do my best with what you told me: "
                    ++ Host.dq ++ userMessage st ++ Host.dq)
         /\ attempts (final_state o) = attempts st + 2
         /\ askedForClarification (final_state o) = true
       else
         step_node <$> steps o = ["analyze_request"]
         /\ response (final_state o) = None
         /\ attempts (final_state o) = attempts st + 1
     else
       step_node <$> steps o = ["analyze_request"]
       /\ response (final_state o)
          = Some ("Analyzed successfully: " ++ Host.dq ++ userMessage st ++ Host.dq)
       /\ attempts (final_state o) = attempts st + 1.
Proof.
  intros Hb Hresp Herr Hasked Hatt o. subst o.
  destruct budget as [|[|[|n]]]; try lia. clear Hb.
  unfold invoke, run. cbn [entry graph].
  rewrite LoopFacts.analyze_step.
  assert (Hst1 : merge st (analyzeRequest js_length st) =
                 if js_length (userMessage st) <? 20 then
                   {| userMessage := userMessage st; attempts := attempts st + 1;
                      maxAttempts := maxAttempts st; response := None;
                      needsMoreInfo := true; askedForClarification := false;
                      error := None |}
                 else
                   {| userMessage := userMessage st; attempts := attempts st + 1;
                      maxAttempts := maxAttempts st;
                      response := Some ("Analyzed successfully: "
                                        ++ Host.dq ++ userMessage st ++ Host.dq);
                      needsMoreInfo := false; askedForClarification := false;
                      error := None |}).
  { unfold analyzeRequest.
    destruct (Z.leb_spec (maxAttempts st) (attempts st)); [lia|].
    rewrite Hasked.
    destruct (js_length (userMessage st) <? 20); unfold merge; cbn;
      rewrite ?Hresp, ?Herr, ?Hasked; reflexivity. }
  rewrite Hst1. clear Hst1.
  destruct (js_length (userMessage st) <? 20).
  - unfold routeAnalysis. cbn [is_set response maxAttempts attempts error
      needsMoreInfo askedForClarification andb negb].
    destruct (Z.leb_spec (maxAttempts st) (attempts st + 1)) as [Hlast|Hmore].
    + destruct (Z.ltb_spec (attempts st + 1) (maxAttempts st)); [lia|].
      cbn. repeat split.
    + destruct (Z.ltb_spec (attempts st + 1) (maxAttempts st)); [|lia].
      cbn [String.eqb Ascii.eqb Bool.eqb].
      rewrite LoopFacts.clarify_step, LoopFacts.analyze_step.
      rewrite LoopFacts.analyze_after_clarification by reflexivity.
      cbn [String.eqb Ascii.eqb Bool.eqb].
      unfold analyzeRequest. cbn [merge requestClarification keep keep_nullable default
        maxAttempts attempts askedForClarification userMessage u_userMessage u_attempts
        u_maxAttempts u_response u_needsMoreInfo u_askedForClarification u_error
        response error needsMoreInfo].
      destruct (Z.leb_spec (maxAttempts st) (attempts st + 1)); [lia|].
      cbn. repeat split. lia.
  - cbn. repeat split.
Qed.

(** The first test case of the exercise: "Hi" with three attempts. *)
Lemma loop_on_fresh_request_witness :
  let o := invoke (fun s => Z.of_nat (String.length s)) 25
             {| userMessage := "Hi"; attempts := 0; maxAttempts := 3; response := None;
                needsMoreInfo := false; askedForClarification := false;
                error := None |} in
  status o = completed
  /\ step_node <$> steps o
     = ["analyze_request"; "request_clarification"; "analyze_request"]
  /\ attempts (final_state o) = 2.
Proof.
  pose proof (loop_on_fresh_request (fun s => Z.of_nat (String.length s)) 25
                {| userMessage := "Hi"; attempts := 0; maxAttempts := 3; response := None;
                   needsMoreInfo := false; askedForClarification := false;
                   error := None |}) as H.
  destruct H as (Hstatus & _ & Hrest);
    [lia|reflexivity|reflexivity|reflexivity|reflexivity|].
  match type of Hrest with
  | if ?c then _ else _ => change c with true in Hrest
  end.
  cbv iota in Hrest.
  match type of Hrest with
  | if ?c then _ else _ => change c with true in Hrest
  end.
  cbv iota in Hrest.
  destruct Hrest as (Hnodes & _ & Hattempts & _).
  split; [exact Hstatus|]. split; [exact Hnodes|exact Hattempts].
Defined.

End LoopRuns.

(** ** More on the buggy loop graph *)

Module BuggyRuns.
Import Retry Engine BuggyLoop.

Section WithLength.
Variable js_length : string -> Z.

Abbreviation run_buggy :=
  (run_from merge (fun _ st => Some st) (fun _ : BuggyState => false)
            (fun _ : Update => false) (graph js_length)).

(** Once the flag is set, or on a short message, every node execution is
    followed by another. *)
Lemma buggy_run_exhausts n :
  forall node st,
    (node = "analyze_request"
     /\ (js_length (userMessage st) < 20 \/ needsMoreInfo st = true))
    \/ (node = "request_clarification" /\ needsMoreInfo st = true) ->
    let o := run_buggy n node st tt in
    status o = failed /\ failure o = Some StepBudgetExceededError
    /\ executed o = n.
Proof.
  induction n as [|n IH]; intros node st Hnode; [repeat split|].
  destruct Hnode as [[-> Hloop] | [-> Hmore]].
  - cbn [run_from].
    change (nodes (graph js_length) !! "analyze_request")
      with (Some (pure (analyzeRequest js_length))).
    cbn [pure]. unfold next.
    change (edges (graph js_length) !! "analyze_request")
      with (Some (Conditional routeAnalysis
                    ({[ "request_clarification" := Goto "request_clarification";
                        "end" := END ]} : gmap string Target))).
    assert (Hflag : needsMoreInfo (merge st (analyzeRequest js_length st)) = true).
    { unfold analyzeRequest.
      destruct (Z.ltb_spec (js_length (userMessage st)) 20); [reflexivity|].
      destruct Hloop as [Hshort|Hmore]; [lia|]. exact Hmore. }
    unfold routeAnalysis. rewrite Hflag.
    change (({[ "request_clarification" := Goto "request_clarification";
                "end" := END ]} : gmap string Target) !! "request_clarification")
      with (Some (Goto "request_clarification")).
    destruct (IH "request_clarification" (merge st (analyzeRequest js_length st)))
      as (Hs & Hf & He); [right; split; [reflexivity|exact Hflag]|].
    unfold executed in *. cbn [after_step status failure steps length].
    repeat split; [exact Hs|exact Hf|f_equal; exact He].
  - cbn [run_from].
    change (nodes (graph js_length) !! "request_clarification")
      with (Some (pure requestClarification)).
    cbn [pure]. unfold next.
    change (edges (graph js_length) !! "request_clarification")
      with (Some (Fixed (Goto "analyze_request") : Edge BuggyState)).
    destruct (IH "analyze_request" (merge st (requestClarification st)))
      as (Hs & Hf & He); [left; split; [reflexivity|right; exact Hmore]|].
    unfold executed in *. cbn [after_step status failure steps length].
    repeat split; [exact Hs|exact Hf|f_equal; exact He].
Qed.

End WithLength.

(** X16: the buggy graph of the exercise stops by itself only on a message
    of 20 characters or more with [needsMoreInfo] not set, after one
    analysis.  On a shorter message, or when [needsMoreInfo] is already
    set (no node ever resets it), the two nodes follow each other for
    ever: whatever the step budget, the run uses all of it and is stopped
    with [StepBudgetExceededError]. *)
Theorem buggy_graph_stops_only_on_long_messages (js_length : string -> Z)
    (budget : nat) (st : BuggyState) :
  let o := invoke js_length budget st in
  if (js_length (userMessage st) <? 20) || needsMoreInfo st then
    status o = failed /\ failure o = Some StepBudgetExceededError
    /\ executed o = budget
  else
    (1 <= budget)%nat ->
    status o = completed /\ executed o = 1%nat
    /\ response (final_state o) = Some "Analyzed successfully!".
Proof.
  intros o. subst o. unfold invoke, run. cbn [entry graph].
  destruct (Z.ltb_spec (js_length (userMessage st)) 20) as [Hshort|Hlong]; cbn [orb].
  - apply (buggy_run_exhausts js_length budget). left. split; [reflexivity|now left].
  - destruct (needsMoreInfo st) eqn:Hflag.
    + apply (buggy_run_exhausts js_length budget). left. split; [reflexivity|now right].
    + intros Hb. destruct budget as [|n]; [lia|].
      cbn [run_from].
      change (nodes (graph js_length) !! "analyze_request")
        with (Some (pure (analyzeRequest js_length))).
      cbn [pure]. unfold next.
      change (edges (graph js_length) !! "analyze_request")
        with (Some (Conditional routeAnalysis
                      ({[ "request_clarification" := Goto "request_clarification";
                          "end" := END ]} : gmap string Target))).
      unfold analyzeRequest.
      destruct (Z.ltb_spec (js_length (userMessage st)) 20); [lia|].
      unfold routeAnalysis. cbn [merge needsMoreInfo Loop.keep default u_needsMoreInfo].
      rewrite Hflag.
      change (({[ "request_clarification" := Goto "request_clarification";
                  "end" := END ]} : gmap string Target) !! "end") with (Some END).
      repeat split.
Qed.

End BuggyRuns.

(** ** What the circuit breaker counts *)

Module BreakerCounts.
Import Retry Breaker BreakerLog.

Section Clock.
Context {W T : Type}.
Variable now : W -> Z * W.

(** The outcomes of the invoked calls decide the count: failures add to
    it, and a success restarts it. *)
Lemma execute_all_counts (fns : list (Operation W T)) :
  forall cb w before errs,
    outcomes (execute_calls now cb fns w) = (before ++ (inr <$> errs))%list ->
    (before = [] ->
     failures (execute_all now cb fns w).1 = failures cb + Z.of_nat (length errs))
    /\ (forall before' v, before = (before' ++ [inl v])%list ->
        failures (execute_all now cb fns w).1 = Z.of_nat (length errs)).
Proof.
  induction fns as [|fn fns IH]; intros cb w before errs Hout.
  - cbn in Hout. symmetry in Hout. apply app_eq_nil in Hout as [-> Herrs].
    apply fmap_nil_inv in Herrs. subst errs. split.
    + intros _. cbn. lia.
    + intros before' v Hb. symmetry in Hb. apply app_eq_nil in Hb as [_ Hb]. discriminate.
  - cbn [execute_calls execute_all] in *.
    set (c := execute now cb fn w) in *.
    assert (Hc : (invoked c = false /\ breaker c = cb)
                 \/ (invoked c = true /\ exists v, result c = inl v /\ failures (breaker c) = 0)
                 \/ (invoked c = true /\ exists e, result c = inr e
                                                   /\ failures (breaker c) = failures cb + 1)).
    { subst c. unfold execute.
      destruct (isOpen now cb w) as [[|] w0]; [left; split; reflexivity|].
      destruct (fn w0) as [[v|e] w1].
      - right; left. split; [reflexivity|]. exists v. split; reflexivity.
      - right; right. unfold recordFailure. destruct (now w1) as [t w2].
        split; [reflexivity|]. exists e. split; reflexivity. }
    unfold outcomes in Hout. cbn [List.filter] in Hout.
    destruct Hc as [[Hinv Hcb]|[[Hinv (v & Hres & Hzero)]|[Hinv (e & Hres & Hplus)]]];
      rewrite Hinv in Hout.
    + rewrite Hcb in *. exact (IH cb (world c) before errs Hout).
    + rewrite fmap_cons, Hres in Hout.
      destruct before as [|b before2].
      { destruct errs; discriminate. }
      cbn in Hout. injection Hout as <- Hrest.
      destruct (IH (breaker c) (world c) before2 errs Hrest) as [IH1 IH2].
      split; [discriminate|].
      intros before' v' Hb.
      destruct before' as [|b' before'']; cbn in Hb.
      * injection Hb as _ ->. rewrite IH1 by reflexivity. lia.
      * injection Hb as _ ->. eapply IH2. reflexivity.
    + rewrite fmap_cons, Hres in Hout.
      destruct before as [|b before2].
      * destruct errs as [|e' errs']; [discriminate|].
        cbn in Hout. injection Hout as <- Hrest.
        destruct (IH (breaker c) (world c) [] errs' Hrest) as [IH1 _].
        split.
        -- intros _. rewrite IH1 by reflexivity. cbn [length]. lia.
        -- intros before' v' Hb. symmetry in Hb.
           apply app_eq_nil in Hb as [_ Hb]. discriminate.
      * cbn in Hout. injection Hout as <- Hrest.
        destruct (IH (breaker c) (world c) before2 errs Hrest) as [_ IH2].
        split; [discriminate|].
        intros before' v' Hb.
        destruct before' as [|b' before'']; cbn in Hb.
        -- discriminate.
        -- injection Hb as _ ->. eapply IH2. reflexivity.
Qed.

(** A call in which the operation was not invoked was refused. *)
Lemma execute_calls_refused (fns : list (Operation W T)) :
  forall cb w,
    Forall (fun c => invoked c = false -> result c = inr circuit_open)
           (execute_calls now cb fns w).
Proof.
  induction fns as [|fn fns IH]; intros cb w; cbn [execute_calls]; constructor.
  - unfold execute.
    destruct (isOpen now cb w) as [[|] w0]; [reflexivity|].
    destruct (fn w0) as [[v|e] w1]; [discriminate|].
    unfold recordFailure. destruct (now w1). discriminate.
  - apply IH.
Qed.

End Clock.

(** X17: the failure count of a circuit breaker is the number of
    consecutive failures of the operation since its last success (or since
    the breaker was created): when the outcomes of the invoked calls end
    with a run of failures that follows a success or starts the sequence,
    the count is the length of that run.  Calls the breaker refused are
    answered with the circuit-open error and do not count. *)
Theorem breaker_counts_consecutive_failures {W T : Type} (now : W -> Z * W)
    (fns : list (Operation W T)) (w : W) (before : list (T + JsError))
    (errs : list JsError) :
  outcomes (execute_calls now fresh fns w) = (before ++ (inr <$> errs))%list ->
  (before = [] \/ exists before' v, before = (before' ++ [inl v])%list) ->
  failures (execute_all now fresh fns w).1 = Z.of_nat (length errs)
  /\ Forall (fun c => invoked c = false -> result c = inr circuit_open)
            (execute_calls now fresh fns w).
Proof.
  intros Hout Hbefore. split; [|apply execute_calls_refused].
  destruct (execute_all_counts now fns fresh w before errs Hout) as [H1 H2].
  destruct Hbefore as [->|(before' & v & ->)].
  - rewrite H1 by reflexivity. reflexivity.
  - eapply H2. reflexivity.
Qed.

(** A failure, a success and two more failures: the count is two. *)
Lemma breaker_counts_consecutive_failures_witness :
  failures (execute_all clock fresh
              [fails_after_1ms; succeeds_after_1ms; fails_after_1ms; fails_after_1ms] 0).1
  = 2.
Proof.
  destruct (breaker_counts_consecutive_failures clock
              [fails_after_1ms; succeeds_after_1ms; fails_after_1ms; fails_after_1ms] 0
              [inr (mkError "service unavailable" (Some 503) None); inl tt]
              [mkError "service unavailable" (Some 503) None;
               mkError "service unavailable" (Some 503) None]) as [Hcount _].
  - reflexivity.
  - right. exists [inr (mkError "service unavailable" (Some 503) None)], tt. reflexivity.
  - exact Hcount.
Defined.

End BreakerCounts.

(** ** Parts of the resilient agent *)

Module ResilientFacts.
Import Js Retry Host Channels ResilientAgent.

Lemma resilient_get (st p : object) k :
  k ∈ resilient_channels.*1 ->
  get (merge resilient_channels st p) k =
  match p !! k with
  | Some b => coalesce (get st k) b
  | None => get st k
  end.
Proof.
  intros Hk. rewrite ChannelsFacts.merge_get by (repeat constructor).
  now rewrite bool_decide_eq_true_2.
Qed.

Ltac declared_key :=
  cbn; repeat first [apply list_elem_of_here | apply list_elem_of_further].

Lemma formatUserError_range error : formatUserError error ∈ user_errors.
Proof.
  unfold formatUserError, user_errors.
  repeat match goal with |- context [if ?c then _ else _] => destruct c end;
    repeat first [apply list_elem_of_here | apply list_elem_of_further].
Qed.

(** X18: the update of [error_recovery] clears nothing.  Merged through
    the channels of the resilient graph, it leaves [error],
    [errorDetails], [pendingAction] and [approvalStatus] as they were, so
    a run that reaches the node still ends with the error in its state.
    The node changes nothing outside, and the response afterwards is
    either the one a node had given, which mentions "❌" or "trouble", or
    the warning sign followed by one of the five texts of
    [formatUserError] and the advice. *)
Theorem errorRecovery_clears_nothing (state : object) (w : World) (p : object) :
  (errorRecovery state w).1 = inl p ->
  let st' := merge resilient_channels state p in
  (errorRecovery state w).2 = w
  /\ get st' "error" = get state "error"
  /\ get st' "errorDetails" = get state "errorDetails"
  /\ get st' "pendingAction" = get state "pendingAction"
  /\ get st' "approvalStatus" = get state "approvalStatus"
  /\ ((get st' "response" = get state "response"
       /\ exists s, get state "response" = VStr s
                    /\ (includes "❌" s = true \/ includes "trouble" s = true))
      \/ (exists text,
            text ∈ user_errors
            /\ get st' "response"
               = VStr ("⚠️ " ++ text ++ nl ++ nl ++ "Try:" ++ nl
                       ++ "- Rephrasing your request" ++ nl
                       ++ "- Asking about something else" ++ nl
                       ++ "- Waiting a moment and trying again"))).
Proof.
  intros Hp st'. subst st'.
  assert (Hcases :
    ((errorRecovery state w) = (inl ({[ "error" := VNull; "errorDetails" := VNull ]} : object), w)
     /\ exists s, get state "response" = VStr s
                  /\ (includes "❌" s = true \/ includes "trouble" s = true))
    \/ (errorRecovery state w) =
       (inl ({[ "response" :=
                  VStr ("⚠️ " ++ formatUserError (get state "error") ++ nl ++ nl
                        ++ "Try:" ++ nl
                        ++ "- Rephrasing your request" ++ nl
                        ++ "- Asking about something else" ++ nl
                        ++ "- Waiting a moment and trying again");
                "error" := VNull; "errorDetails" := VNull;
                "pendingAction" := VNull; "approvalStatus" := VNull ]} : object), w)).
  { revert Hp. unfold errorRecovery, friendly_response, response_includes.
    unfold mbind, M_bind, mret, M_ret, throw.
    destruct (get state "response") as [| | | |s| | | |] eqn:Hresponse;
      try discriminate; try (intros _; right; reflexivity).
    destruct (includes "❌" s) eqn:Hcross.
    - intros _. left. split; [reflexivity|]. exists s. auto.
    - destruct (includes "trouble" s) eqn:Htrouble.
      + intros _. left. split; [reflexivity|]. exists s. auto.
      + intros _. right. reflexivity. }
  destruct Hcases as [[Heq Hs]|Heq]; rewrite Heq in Hp |- *;
    cbn [fst snd] in *; injection Hp as <-.
  - split; [reflexivity|].
    rewrite !resilient_get by declared_key.
    repeat split. left. split; [reflexivity|exact Hs].
  - split; [reflexivity|].
    rewrite !resilient_get by declared_key.
    repeat split. right. eexists. split; [apply formatUserError_range|reflexivity].
Qed.

(** A timeout recorded without a response: after the recovery the error
    is still there. *)
Lemma errorRecovery_clears_nothing_witness :
  exists p,
    (errorRecovery Examples.timed_out start).1 = inl p
    /\ get (merge resilient_channels Examples.timed_out p) "error"
       = VStr "connection timeout".
Proof.
  eexists. split; [reflexivity|].
  match goal with
  | |- get (merge _ _ ?p) _ = _ =>
      destruct (errorRecovery_clears_nothing Examples.timed_out start p eq_refl)
        as (_ & Herror & _)
  end.
  rewrite Herror. reflexivity.
Defined.

Section WithHost.
Variable h : Host.

Lemma extractCompanyName_known message c :
  extractCompanyName h message = Some c ->
  c ∈ companies /\ includes c (toLowerCase h message) = true.
Proof.
  unfold extractCompanyName. intros Hfind.
  apply List.find_some in Hfind as [Hin Hc]. split; [|exact Hc].
  now apply list_elem_of_In.
Qed.

End WithHost.

(** X19: the keyword classifier of the resilient agent always returns an
    intent for a string message, without touching the outside world, and
    the router sends the run on by the keywords alone: "follow", "email"
    or "send" in the lower-cased message lead to [handle_followup], even
    when "show", "list" or "find" occur as well; otherwise these lead to
    [handle_lookup]; anything else goes to [handle_other].  A target, when
    there is one, is one of the five known company names and occurs in the
    lower-cased message.  From a state without an error the first hop is
    never [error_recovery]. *)
Theorem keyword_classifier_routes (h : Host) (st : object) (m : string) (w : World) :
  get st "userMessage" = VStr m ->
  truthy (get st "error") = false ->
  let lower := toLowerCase h m in
  exists intent,
    understandRequest h st w = (inl ({[ "intent" := VIntent intent ]} : object), w)
    /\ (forall c, intent_target intent = Some c ->
                  c ∈ companies /\ includes c lower = true)
    /\ Routers.Resilient.routeByIntent
         (merge resilient_channels st {[ "intent" := VIntent intent ]})
       = if includes "follow" lower || includes "email" lower || includes "send" lower
         then "handle_followup"
         else if includes "show" lower || includes "list" lower || includes "find" lower
         then "handle_lookup"
         else "handle_other".
Proof.
  intros Hm Herror lower. unfold understandRequest. rewrite Hm. fold lower.
  assert (Hroute : forall intent,
    Routers.Resilient.routeByIntent
      (merge resilient_channels st {[ "intent" := VIntent intent ]})
    = if is_str (VStr (intent_type intent)) "lookup" then "handle_lookup"
      else if is_str (VStr (intent_type intent)) "followup" then "handle_followup"
      else "handle_other").
  { intros intent. unfold Routers.Resilient.routeByIntent.
    rewrite !resilient_get by declared_key.
    change (({[ "intent" := VIntent intent ]} : object) !! "error") with (@None value).
    change (({[ "intent" := VIntent intent ]} : object) !! "intent")
      with (Some (VIntent intent)).
    cbv beta iota. rewrite Herror. reflexivity. }
  destruct (includes "follow" lower || includes "email" lower || includes "send" lower).
  - eexists. split; [reflexivity|]. split.
    + intros c Hc. now apply extractCompanyName_known.
    + rewrite Hroute. reflexivity.
  - destruct (includes "show" lower || includes "list" lower || includes "find" lower).
    + eexists. split; [reflexivity|]. split.
      * intros c Hc. now apply extractCompanyName_known.
      * rewrite Hroute. reflexivity.
    + eexists. split; [reflexivity|]. split.
      * intros c Hc. discriminate.
      * rewrite Hroute. reflexivity.
Qed.

(** "Send me the list for TechCorp" is a follow-up for techcorp. *)
Lemma keyword_classifier_routes_witness :
  exists intent,
    understandRequest Demo.host (initial "send me the list for techcorp") start
    = (inl ({[ "intent" := VIntent intent ]} : object), start)
    /\ Routers.Resilient.routeByIntent
         (merge resilient_channels (initial "send me the list for techcorp")
                {[ "intent" := VIntent intent ]})
       = "handle_followup".
Proof.
  destruct (keyword_classifier_routes Demo.host (initial "send me the list for techcorp")
              "send me the list for techcorp" start eq_refl eq_refl)
    as (intent & Hu & _ & Hr).
  exists intent. split; [exact Hu|]. rewrite Hr. reflexivity.
Defined.

Section Queries.
Variable h : Host.
Variable code : JsError -> string.
Variable filter : Filter.

Lemma query_leads_trace w :
  trace (query_leads h code filter w).2 =
  (trace w ++ [DbSelect {| q_table := "leads"; q_filter := filter;
                           q_order := Some ("score", false) |}])%list.
Proof.
  unfold query_leads.
  destruct (db_select h (tick w) _) as [data [error|]|e]; reflexivity.
Qed.

Lemma selects_app (a b : list Effect) : selects (a ++ b) = (selects a ++ selects b)%list.
Proof. unfold selects. apply List.filter_app. Qed.

End Queries.

(** X20: [queryLeadsWithRetry] makes between one and three queries, and
    besides them only sleeps between attempts.  An error of the database
    client with the code [PGRST116] is final: one query, and the error
    thrown carries the client's message and the status 404.  When the
    client keeps answering with errors of any other code, the query is
    made three times, and the error thrown has the status 500.  A reply
    without an error is returned at once, with [[]] for [null] data. *)
Theorem queryLeads_retries_all_but_not_found (h : Host) (code : JsError -> string)
    (filter : Filter) (w : World) :
  let q := {| q_table := "leads"; q_filter := filter;
              q_order := Some ("score", false) |} in
  let r := queryLeadsWithRetry h code filter w in
  exists effects,
    trace r.2 = (trace w ++ effects)%list
    /\ Forall (fun e => e = DbSelect q \/ exists d, e = Slept d) effects
    /\ (1 <= length (selects effects) <= 3)%nat
    /\ (forall data error,
          db_select h (tick w) q = DbReturned data (Some error) ->
          code error = "PGRST116" ->
          length (selects effects) = 1%nat
          /\ r.1 = inr (Threw (mkError (Retry.message error) (Some 404) None)))
    /\ ((forall n, exists data error,
            db_select h n q = DbReturned data (Some error) /\ code error <> "PGRST116") ->
        length (selects effects) = 3%nat
        /\ exists msg, r.1 = inr (Threw (mkError msg (Some 500) None)))
    /\ (forall data,
          db_select h (tick w) q = DbReturned data None ->
          effects = [DbSelect q] /\ r.1 = inl (default [] data)).
Proof.
  intros q r. subst r. unfold queryLeadsWithRetry.
  set (fn := query_leads h code filter).
  set (opts := spread defaultRetryOptions no_options).
  unfold withRetry. fold opts.
  destruct (RetryFacts.retry_loop_enough (random h) sleep fn opts
              (S (Z.to_nat (maxRetries opts))) 1 ThrewUndefined w) as [run Hrun]; [cbn; lia|].
  rewrite Hrun. cbn [settle fst snd].
  pose (R := fun a b : World =>
          exists effects,
            trace b = (trace a ++ effects)%list
            /\ Forall (fun e => e = DbSelect q \/ exists d, e = Slept d) effects).
  assert (HR : R w (final run)).
  { eapply (EmailRequests.retry_loop_invariant (random h) sleep fn opts R);
      [| | | | |exact Hrun].
    - intros a. exists []. split; [symmetry; apply app_nil_r|constructor].
    - intros a b c (e1 & H1 & F1) (e2 & H2 & F2). exists (e1 ++ e2)%list. split.
      + rewrite H2, H1. symmetry. apply app_assoc.
      + now apply Forall_app.
    - intros a. eexists. split; [apply query_leads_trace|].
      constructor; [left; reflexivity|constructor].
    - intros a. exists []. split; [reflexivity|constructor].
    - intros d a. exists [Slept d]. split; [reflexivity|].
      constructor; [right; eauto|constructor]. }
  destruct HR as (effects & Htrace & Hall).
  exists effects. split; [exact Htrace|]. split; [exact Hall|].
  assert (Hcount : length (selects (trace (final run)))
                   = (length (selects (trace w)) + invocations run)%nat).
  { apply (EmailRequests.retry_loop_counts (random h) sleep fn opts
             (fun a => length (selects (trace a)))
             (S (Z.to_nat (maxRetries opts))) 1 ThrewUndefined w run);
      [| | |exact Hrun].
    - intros a. subst fn. rewrite query_leads_trace, selects_app, length_app.
      cbn. lia.
    - intros a. cbn. now rewrite app_nil_r.
    - intros d a. cbn. rewrite selects_app, length_app. cbn. lia. }
  rewrite Htrace, selects_app, length_app in Hcount.
  assert (Hselects : length (selects effects) = invocations run) by lia.
  pose proof (RetryFacts.retry_loop_invocations _ _ _ _ _ _ _ _ _ Hrun) as Hmost.
  pose proof (RetryFacts.retry_loop_ran _ _ _ _ _ _ _ _ _ Hrun ltac:(cbn; lia)) as Hleast.
  change (Z.to_nat (maxRetries opts - 1 + 1)) with 3%nat in Hmost.
  split; [lia|].
  pose proof (EmailRequests.retry_loop_first _ _ _ _ _ _ _ _ _ Hrun ltac:(cbn; lia))
    as Hfirst.
  split; [|split].
  - intros data error Hselect Hcode.
    assert (Hfn : (fn w).1 = inr (mkError (Retry.message error) (Some 404) None)).
    { subst fn. unfold query_leads. fold q. rewrite Hselect, Hcode. reflexivity. }
    rewrite Hfn in Hfirst.
    destruct (RetryFacts.retry_loop_stops _ _ _ _ _ _ _ _ _ _ _ Hrun Hfirst) as [Hone Hout].
    { left. reflexivity. }
    split; [lia|exact Hout].
  - intros Hfail.
    destruct (RetrySchedule.retry_loop_exhausts (random h) sleep fn opts _ _ _ _ _ Hrun)
      as (errs & e & Hh & Hlen & Hlast & Hout); [cbn; lia| |].
    { intros w'. destruct (Hfail (tick w')) as (data & error & Hselect & Hcode).
      exists (mkError (Retry.message error) (Some 500) None), (consult [DbSelect q] w').
      split; [|reflexivity].
      subst fn. unfold query_leads. fold q. rewrite Hselect.
      destruct (String.eqb_spec (code error) "PGRST116"); [contradiction|reflexivity]. }
    split.
    + unfold invocations in Hselects. rewrite Hselects, Hh, length_fmap.
      change (maxRetries opts) with 3 in Hlen. lia.
    + rewrite Hout.
      (* the last error comes from an invocation, so its status is 500 *)
      assert (Hin : inr e ∈ history run).
      { rewrite Hh. apply list_elem_of_fmap_2.
        apply last_Some in Hlast as [l' ->]. apply elem_of_app. right.
        apply list_elem_of_here. }
      pose proof (EmailRequests.retry_loop_history _ _ _ _ _ _ _ _ _ Hrun) as Hstatus.
      rewrite Forall_forall in Hstatus.
      destruct (Hstatus _ Hin) as (w' & Hw').
      destruct (Hfail (tick w')) as (data & error & Hselect & Hcode).
      subst fn. unfold query_leads in Hw'. fold q in Hw'. rewrite Hselect in Hw'.
      destruct (String.eqb_spec (code error) "PGRST116"); [contradiction|].
      cbn in Hw'. injection Hw' as ->. eauto.
  - intros data Hselect.
    assert (Hfn : (fn w).1 = inl (default [] data)).
    { subst fn. unfold query_leads. fold q. rewrite Hselect. reflexivity. }
    rewrite Hfn in Hfirst.
    destruct (RetrySchedule.retry_loop_returns _ _ _ _ _ _ _ _ _ _ _ Hrun Hfirst)
      as [Hone Hout].
    split; [|exact Hout].
    rewrite Hone in Hselects.
    (* one invocation: one query and no sleep *)
    pose proof (RetryFacts.retry_loop_waits_length _ _ _ _ _ _ _ _ _ Hrun) as Hwaits.
    rewrite Hone in Hwaits. cbn in Hwaits.
    clear - Hrun Hone Htrace Hfn. 
    assert (Hfinal : final run = (fn w).2).
    { cbn [retry_loop] in Hrun. cbn in Hrun.
      destruct (fn w) as [[v|error] w1]; [|discriminate].
      injection Hrun as <-. reflexivity. }
    rewrite Hfinal in Htrace. subst fn. rewrite query_leads_trace in Htrace.
    apply app_inv_head in Htrace. now subst effects.
Qed.

(** A database that answers "no rows" with the code [PGRST116] is asked
    once. *)
Lemma queryLeads_retries_all_but_not_found_witness :
  let r := queryLeadsWithRetry Examples.no_rows_host (fun _ => "PGRST116") NoFilter start in
  r.1 = inr (Threw (mkError "no rows" (Some 404) None))
  /\ exists effects, trace r.2 = effects /\ length (selects effects) = 1%nat.
Proof.
  destruct (queryLeads_retries_all_but_not_found Examples.no_rows_host
              (fun _ => "PGRST116") NoFilter start)
    as (effects & Htrace & _ & _ & Hfinal & _).
  destruct (Hfinal None (mkError "no rows" None None) eq_refl eq_refl) as [Hone Hthrown].
  split; [exact Hthrown|]. exists effects. split; [exact Htrace|exact Hone].
Defined.

End ResilientFacts.

(** ** What [execute_approved] does *)

Module ExecuteFacts.
Import Js Retry Host Email Engine Agent Gate Runs.

(** X21: whatever [execute_approved] does to the outside world carries
    out the pending action of the state it was given: the one request it
    can send is the pending e-mail, to its recipient and with its subject
    and body; an update goes to the lead of the pending action, with its
    changes or with the time of the contact; the interaction recorded is
    for that lead and marked approved.  It reads no lead and calls no
    other service, and without a pending action it does nothing. *)
Theorem executeApproved_performs_pending (h : Host) (st : object) (w : World) :
  exists effects,
    trace (executeApproved h st w).2 = (trace w ++ effects)%list
    /\ (effects = []
        \/ exists pa, get st "pendingAction" = VPending pa
                      /\ Forall (carries_out pa) effects).
Proof. exact (AgentRuns.executeApproved_effects h st w). Qed.

End ExecuteFacts.

(** ** The calls of [understand_request] *)

Module UnderstandFacts.
Import Js Retry Host Email Engine Agent Gate Runs.
Import GateFacts.

(** X22: [understand_request] calls the text generation service once,
    twice after a failure, or three times after two, always with the same
    prompt, and sleeps one second after the first failure and two seconds
    after the second; it does nothing else to the outside world.  When all
    three calls fail it returns the message of the third error with the
    response that asks to try again. *)
Theorem understandRequest_calls (h : Host) (st : object) (w : World) :
  let prompt := classify_prompt (get st "userMessage") in
  exists effects,
    trace (understandRequest h st w).2 = (trace w ++ effects)%list
    /\ (effects = [LlmCall prompt]
        \/ effects = [LlmCall prompt; Slept 1000; LlmCall prompt]
        \/ effects = [LlmCall prompt; Slept 1000; LlmCall prompt; Slept 2000;
                      LlmCall prompt])
    /\ (forall e1 e2 e3,
          messages_create h (tick w) prompt = inr e1 ->
          messages_create h (S (tick w)) prompt = inr e2 ->
          messages_create h (S (S (tick w))) prompt = inr e3 ->
          (understandRequest h st w).1 =
          inl ({[ "error" := VStr (Retry.message e3);
                  "response" :=
                    VStr "I had trouble understanding that. Please try again." ]}
               : object)).
Proof.
  intros prompt. unfold understandRequest. fold prompt. plumbing.
  unfold settle, Simple.withRetry.
  change (S (Z.to_nat (default 3 None))) with 4%nat. change (default 3 None) with 3.
  cbn [Simple.simple_loop]. unfold create_message.
  change (1 <=? 3) with true. change (1 <? 3) with true.
  change (1 + 1 <=? 3) with true. change (1 + 1 <? 3) with true.
  change (1 + 1 + 1 <=? 3) with true. change (1 + 1 + 1 <? 3) with false.
  change (1 + 1 + 1 + 1 <=? 3) with false.
  change (inject_Z (1000 * 1)) with (1000 : Q).
  change (inject_Z (1000 * (1 + 1))) with (2000 : Q).
  cbv beta iota.
  cbn [tick sleep consult].
  destruct (messages_create h (tick w) prompt) as [v1|e1] eqn:H1.
  { cbv beta iota delta [fmap option_fmap option_map cons_attempt outcome final].
    repeat (split_match; plumbing); cbn [snd trace consult sleep tick];
      (eexists; split; [reflexivity|]; split; [left; reflexivity|intros; congruence]). }
  destruct (messages_create h (S (tick w)) prompt) as [v2|e2] eqn:H2.
  { cbv beta iota delta [fmap option_fmap option_map cons_attempt outcome final].
    repeat (split_match; plumbing); cbn [snd trace consult sleep tick];
      rewrite <- ?app_assoc; cbn [app];
      (eexists; split; [reflexivity|]; split; [right; left; reflexivity|intros; congruence]). }
  destruct (messages_create h (S (S (tick w))) prompt) as [v3|e3] eqn:H3.
  { cbv beta iota delta [fmap option_fmap option_map cons_attempt outcome final].
    repeat (split_match; plumbing); cbn [snd trace consult sleep tick];
      rewrite <- ?app_assoc; cbn [app];
      (eexists; split; [reflexivity|]; split; [right; right; reflexivity|intros; congruence]). }
  cbv beta iota delta [fmap option_fmap option_map cons_attempt outcome final].
  cbn [fst snd trace consult sleep tick]. rewrite <- ?app_assoc. cbn [app].
  eexists; split; [reflexivity|]; split; [right; right; reflexivity|].
  intros ? ? ? _ _ [= <-]. reflexivity.
Qed.

End UnderstandFacts.

(** ** Fields that are set stay set *)

Module FieldsFacts.
Import Js Retry Host Channels Engine.

Section Generic.
Context {State Partial W : Type}.
Variable merge : State -> Partial -> State.
Variable attach_error : Thrown -> State -> option State.
Variable has_error : State -> bool.
Variable suspends : Partial -> bool.

(** What every merge and every attached failure preserve holds of the
    final state of every run. *)
Lemma run_from_preserves (I : State -> Prop) (g : Graph State Partial W) :
  (forall st p, I st -> I (merge st p)) ->
  (forall t st st', attach_error t st = Some st' -> I st -> I st') ->
  forall remaining node st w,
    I st ->
    I (final_state (run_from merge attach_error has_error suspends g remaining node st w)).
Proof.
  intros Hmerge Hattach.
  induction remaining as [|remaining IH]; intros node st w Hst; [exact Hst|].
  cbn [run_from].
  destruct (nodes g !! node) as [body|]; [|exact Hst].
  destruct (body st w) as [r w1].
  assert (Hroute : forall st1, I st1 ->
    I (final_state
         match next g node st1 with
         | None => stop failed (Some (UnknownRoute node)) st1 w1
         | Some END => stop (if has_error st1 then failed else completed) None st1 w1
         | Some (Goto node') =>
             run_from merge attach_error has_error suspends g remaining node' st1 w1
         end)).
  { intros st1 Hst1. destruct (next g node st1) as [[node'|]|]; [now apply IH| |];
      exact Hst1. }
  cbn [after_step final_state].
  destruct r as [partial|thrown].
  - destruct (suspends partial); [now apply Hmerge|]. apply Hroute. now apply Hmerge.
  - destruct (attach_error thrown st) as [st1|] eqn:Hst1; [|exact Hst].
    apply Hroute. eapply Hattach; eassumption.
Qed.

End Generic.

Lemma merge_keeps_set chs (st p : object) k :
  all_coalesce chs -> nullish (get st k) = false ->
  nullish (get (merge chs st p) k) = false.
Proof.
  intros Hall Hset. rewrite ChannelsFacts.merge_get by exact Hall.
  destruct (bool_decide _); [|exact Hset].
  destruct (p !! k) as [b|]; [|exact Hset].
  unfold coalesce. destruct (nullish b) eqn:Hb; [exact Hset|exact Hb].
Qed.

(** X23: a merge through channels whose reducers are all [b ?? a] never
    clears a field: a field that holds a value other than [null] and
    [undefined] holds such a value after any update, and fields that are
    not declared as channels are not changed at all.  So, in every run of
    the deployed graph, whatever the nodes return, a field that is set in
    the initial state is set in the final state. *)
Theorem set_fields_stay_set :
  (forall (chs : table) (st p : object) (k : string),
      all_coalesce chs ->
      (nullish (get st k) = false -> nullish (get (merge chs st p) k) = false)
      /\ (k ∉ chs.*1 -> get (merge chs st p) k = get st k))
  /\ (forall (h : Host) (budget : nat) (st : object) (w : World) (k : string),
        nullish (get st k) = false ->
        nullish (get (final_state (Agent.invoke h budget st w)) k) = false).
Proof.
  split.
  - intros chs st p k Hall. split; [now apply merge_keeps_set|].
    intros Hk. rewrite ChannelsFacts.merge_get by exact Hall.
    now rewrite bool_decide_eq_false_2.
  - intros h budget st w k Hset. unfold Agent.invoke, run.
    apply (run_from_preserves _ _ _ _ (fun st => nullish (get st k) = false)).
    + intros st' p Hst'. apply merge_keeps_set; [repeat constructor|exact Hst'].
    + intros t st1 st2 [=].
    + exact Hset.
Qed.

(** The message of the request is still in the state after the follow-up
    for TechCorp. *)
Lemma set_fields_stay_set_witness :
  nullish (get (final_state (Agent.invoke Demo.host 25
                               (Agent.initial "Send follow-up to TechCorp") start))
               "userMessage") = false.
Proof.
  destruct set_fields_stay_set as [_ Hrun].
  apply Hrun. reflexivity.
Defined.

End FieldsFacts.

(** ** Runs of the resilient graph (Exercise 3) *)

Module ResilientRuns.
Import Js Retry Host Email Engine ResilientAgent ResilientGraph ResilientPaths.
Import GateFacts.

(** *** Strings and lists *)

Lemma user_errors_nonempty text : text ∈ user_errors -> text <> "".
Proof.
  unfold user_errors. intros H.
  repeat (apply elem_of_cons in H as [->|H]; [discriminate|]).
  now apply elem_of_nil in H.
Qed.

Lemma formatUserError_nonempty error : formatUserError error <> "".
Proof. apply user_errors_nonempty, ResilientFacts.formatUserError_range. Qed.

(** Of the five texts, the one about the connection is the only one
    [errorRecovery] takes for a response that a node has already made
    friendly. *)
Lemma user_errors_friendly text :
  text ∈ user_errors ->
  includes "❌" text = false
  /\ (includes "trouble" text = true ->
      text = "I'm having trouble connecting. Please try again in a moment.").
Proof.
  unfold user_errors. intros H.
  repeat (apply elem_of_cons in H as [->|H]; [split; [reflexivity|];
            first [reflexivity | intros Hc; vm_compute in Hc; discriminate]|]).
  now apply elem_of_nil in H.
Qed.

Lemma quiet_posts effects : Forall quiet effects -> posts effects = [].
Proof.
  induction 1 as [|e es He _ IH]; [reflexivity|].
  destruct e; try contradiction; exact IH.
Qed.

Lemma grows_quiet (P : Effect -> Prop) w w' :
  (forall e, quiet e -> P e) -> Gate.grows_by quiet w w' -> grows P w w'.
Proof.
  intros HP (effects & Htrace & Hall). exists effects.
  split; [exact Htrace|]. split.
  - eapply Forall_impl; [exact Hall|exact HP].
  - rewrite (quiet_posts _ Hall). cbn. lia.
Qed.

Lemma grows_after (P Q : Effect -> Prop) w w1 w2 :
  (forall e, quiet e -> Q e) -> (forall e, P e -> Q e) ->
  Gate.grows_by quiet w w1 -> grows P w1 w2 -> grows Q w w2.
Proof.
  intros HqQ HPQ (e1 & H1 & F1) (e2 & H2 & F2 & Hn).
  exists (e1 ++ e2)%list. split; [rewrite H2, H1; symmetry; apply app_assoc|].
  split.
  - apply Forall_app. split; eapply Forall_impl; eauto.
  - rewrite EmailFacts.posts_app, length_app, (quiet_posts _ F1). cbn. exact Hn.
Qed.

Lemma grows_same (P : Effect -> Prop) w : grows P w w.
Proof.
  exists []. split; [symmetry; apply app_nil_r|]. split; [constructor|cbn; lia].
Qed.

Lemma grows_impl (P Q : Effect -> Prop) w w' :
  (forall e, P e -> Q e) -> grows P w w' -> grows Q w w'.
Proof.
  intros HPQ (effects & Htrace & Hall & Hn). exists effects.
  split; [exact Htrace|]. split; [|exact Hn].
  eapply Forall_impl; [exact Hall|exact HPQ].
Qed.

(** *** The state after a merge *)

Lemma merged_get st p k :
  k ∈ Channels.resilient_channels.*1 ->
  get (fields (merge st p)) k =
  match fields p !! k with
  | Some b => coalesce (get (fields st) k) b
  | None => get (fields st) k
  end.
Proof. intros Hk. cbn [merge fields]. now apply ResilientFacts.resilient_get. Qed.

Ltac declared := cbn; repeat first [apply list_elem_of_here | apply list_elem_of_further].

Ltac in_list := repeat first [apply list_elem_of_here | apply list_elem_of_further].

Lemma merged_responds st p : responds p -> has_response (merge st p).
Proof.
  intros (s & Hs & Hne). exists s. split; [|exact Hne].
  rewrite merged_get, Hs by declared. reflexivity.
Qed.

Lemma merged_response st p :
  has_response st -> fields p !! "response" = None \/ responds p ->
  has_response (merge st p).
Proof.
  intros Hst [Hnone|Hp]; [|now apply merged_responds].
  destruct Hst as (s & Hs & Hne). exists s. split; [|exact Hne].
  now rewrite merged_get, Hnone by declared.
Qed.

(** A state without an error carries one after the merge exactly when the
    update sets one. *)
Lemma merged_error st p :
  truthy (get (fields st) "error") = false ->
  truthy (get (fields (merge st p)) "error") = true
  <-> exists v, fields p !! "error" = Some v /\ truthy v = true.
Proof.
  intros Hst. rewrite merged_get by declared.
  destruct (fields p !! "error") as [v|].
  - unfold coalesce. destruct (nullish v) eqn:Hn.
    + split; [congruence|]. intros (v' & [= <-] & Hv).
      destruct v; discriminate.
    + split; [eauto|]. now intros (v' & [= <-] & Hv).
  - split; [congruence|]. intros (v' & Hv & _). discriminate.
Qed.

Lemma recorded_error_cons (s : Step) ss :
  recorded_error (s :: ss)
  <-> (exists p v, step_result s = inl p /\ fields p !! "error" = Some v /\ truthy v = true)
      \/ recorded_error ss.
Proof.
  unfold recorded_error. split.
  - intros (s' & p & v & Hin & Hr & Hp & Hv).
    apply elem_of_cons in Hin as [->|Hin]; [left; eauto|right; eauto 8].
  - intros [(p & v & Hr & Hp & Hv)|(s' & p & v & Hin & Hr & Hp & Hv)].
    + exists s, p, v. repeat split; auto. apply list_elem_of_here.
    + exists s', p, v. repeat split; auto. now apply list_elem_of_further.
Qed.

Lemma recorded_error_nil : ~ recorded_error [].
Proof. intros (s & p & v & Hin & _). now apply elem_of_nil in Hin. Qed.

(** *** The routers *)

Lemma resilient_routeAfterReview_cases (st : object) :
  let r := Routers.Resilient.routeAfterReview st in
  (r = "execute_email" /\ is_str (get st "approvalStatus") "approved" = true)
  \/ (r = "handle_rejection" /\ is_str (get st "approvalStatus") "approved" = false)
  \/ (r = "end" /\ is_str (get st "approvalStatus") "approved" = false).
Proof.
  unfold Routers.Resilient.routeAfterReview.
  destruct (is_str (get st "approvalStatus") "approved"); [auto|].
  destruct (is_str (get st "approvalStatus") "rejected"); auto.
Qed.

Lemma routeAfterFollowup_cases (st : object) :
  let r := Routers.Resilient.routeAfterFollowup st in
  (r = "error_recovery" /\ truthy (get st "error") = true)
  \/ (r = "human_review" /\ truthy (get st "error") = false
      /\ is_str (get st "approvalStatus") "pending" = true)
  \/ (r = "end" /\ truthy (get st "error") = false
      /\ is_str (get st "approvalStatus") "pending" = false).
Proof.
  unfold Routers.Resilient.routeAfterFollowup.
  destruct (truthy (get st "error")); [auto|].
  destruct (is_str (get st "approvalStatus") "pending"); auto.
Qed.

Lemma resilient_routeByIntent_cases (st : object) :
  let r := Routers.Resilient.routeByIntent st in
  (r = "error_recovery" /\ truthy (get st "error") = true)
  \/ (truthy (get st "error") = false
      /\ (r = "handle_lookup"
          \/ (r = "handle_followup"
              /\ is_str (intent_type_of (get st "intent")) "followup" = true)
          \/ r = "handle_other")).
Proof.
  unfold Routers.Resilient.routeByIntent.
  destruct (truthy (get st "error")); [auto|]. right. split; [reflexivity|].
  destruct (is_str (intent_type_of (get st "intent")) "lookup"); [auto|].
  destruct (is_str (intent_type_of (get st "intent")) "followup"); auto.
Qed.

Section WithHost.
Variable h : Host.
Variable code : JsError -> string.
Variable name : JsError -> string.

(** *** The helpers *)

(** The retried search only queries and sleeps, and what it returns is
    the data of a reply of the database without an error. *)
Lemma queryLeads_settles filter w :
  let r := queryLeadsWithRetry h code filter w in
  Gate.grows_by quiet w r.2
  /\ (forall leads,
        r.1 = inl leads ->
        exists tick data,
          db_select h tick {| q_table := "leads"; q_filter := filter;
                              q_order := Some ("score", false) |}
          = DbReturned data None
          /\ leads = default [] data).
Proof.
  intros r. subst r. unfold queryLeadsWithRetry.
  set (fn := query_leads h code filter).
  set (opts := spread defaultRetryOptions no_options).
  unfold withRetry. fold opts.
  destruct (RetryFacts.retry_loop_enough (random h) sleep fn opts
              (S (Z.to_nat (maxRetries opts))) 1 ThrewUndefined w) as [run Hrun]; [cbn; lia|].
  rewrite Hrun. cbn [settle fst snd]. split.
  - eapply (EmailRequests.retry_loop_invariant (random h) sleep fn opts
              (Gate.grows_by quiet)); [| | | | |exact Hrun].
    + apply grows_by_refl.
    + apply grows_by_trans.
    + intros a. eexists. split; [apply ResilientFacts.query_leads_trace|].
      repeat constructor.
    + intros a. apply grows_by_read.
    + intros d a. exists [Slept d]. split; [reflexivity|]. repeat constructor.
  - intros leads Hout.
    destruct (EmailRequests.retry_loop_value _ _ _ _ _ _ _ _ _ _ Hrun Hout) as (w' & Hw').
    subst fn. unfold query_leads in Hw'.
    destruct (db_select h (tick w') _) as [data [error|]|e] eqn:Hreply;
      cbn [fst] in Hw'; try discriminate.
    injection Hw' as <-. eauto.
Qed.

(** The requests of [sendEmail] carry the e-mail it was given; there are
    at most two, and the call resolves only with [success: true]. *)
Lemma resilient_sendEmail_effects params w :
  let r := Resilient.sendEmail h params w in
  (exists effects,
      trace r.2 = (trace w ++ effects)%list
      /\ Forall (fun e => quiet e \/ forall id, delivers id params e) effects
      /\ (length (posts effects) <= 2)%nat)
  /\ (forall res, r.1 = inl res -> success res = true).
Proof.
  intros r. subst r. unfold Resilient.sendEmail.
  destruct (nonempty (env_get h "RESEND_API_KEY")) as [apiKey|] eqn:Hkey.
  - set (fromEmail := default "onboarding@resend.dev" (nonempty (env_get h "EMAIL_FROM"))).
    set (options := {| p_maxRetries := Some 2; p_baseDelayMs := Some (2000 : Q);
                       p_maxDelayMs := None; p_shouldRetry := None |}).
    set (fn := Resilient.post_email h apiKey fromEmail params).
    set (opts := spread defaultRetryOptions options).
    unfold withRetry. fold opts.
    destruct (RetryFacts.retry_loop_enough (random h) sleep fn opts
                (S (Z.to_nat (maxRetries opts))) 1 ThrewUndefined w) as [run Hrun];
      [cbn; lia|].
    rewrite Hrun. cbn [settle fst snd].
    pose (P := fun e => quiet e \/ forall id, delivers id params e).
    assert (HR : Gate.grows_by P w (final run)).
    { eapply (EmailRequests.retry_loop_invariant (random h) sleep fn opts
                (Gate.grows_by P)); [| | | | |exact Hrun].
      - apply grows_by_refl.
      - apply grows_by_trans.
      - intros a. eexists. split; [apply EmailRequests.post_email_trace|].
        constructor; [|constructor]. right. intros id. repeat split.
      - intros a. apply grows_by_read.
      - intros d a. exists [Slept d]. split; [reflexivity|].
        constructor; [left; exact I|constructor]. }
    destruct HR as (effects & Htrace & Hall).
    assert (Hcount : length (posts (trace (final run)))
                     = (length (posts (trace w)) + invocations run)%nat).
    { apply (EmailRequests.retry_loop_counts (random h) sleep fn opts
               (fun a => length (posts (trace a)))
               (S (Z.to_nat (maxRetries opts))) 1 ThrewUndefined w run);
        [| | |exact Hrun].
      - intros a. subst fn.
        rewrite EmailRequests.post_email_trace, EmailFacts.posts_app, length_app.
        cbn. lia.
      - intros a. cbn. now rewrite app_nil_r.
      - intros d a. cbn. rewrite EmailFacts.posts_app, length_app. cbn. lia. }
    rewrite Htrace, EmailFacts.posts_app, length_app in Hcount.
    pose proof (RetryFacts.retry_loop_invocations _ _ _ _ _ _ _ _ _ Hrun) as Hmost.
    change (Z.to_nat (maxRetries opts - 1 + 1)) with 2%nat in Hmost.
    split.
    + exists effects. split; [exact Htrace|]. split; [exact Hall|lia].
    + intros res Hres.
      destruct (EmailRequests.retry_loop_value _ _ _ _ _ _ _ _ _ _ Hrun Hres) as (w' & Hw').
      eapply EmailRequests.post_email_value; exact Hw'.
  - plumbing. cbn [fst snd]. split.
    + exists []. split; [reflexivity|]. split; [constructor|cbn; lia].
    + intros res [= <-]. reflexivity.
Qed.

Lemma grows_more (P : Effect -> Prop) w w1 e :
  grows P w w1 -> P e -> Gate.is_send e = false -> grows P w (consult [e] w1).
Proof.
  intros (effects & Htrace & Hall & Hn) He Hsend.
  exists (effects ++ [e])%list. split; [cbn; rewrite Htrace; symmetry; apply app_assoc|].
  split; [apply Forall_app; split; [exact Hall|repeat constructor; exact He]|].
  rewrite EmailFacts.posts_app, length_app.
  destruct e; try discriminate; cbn; lia.
Qed.

Lemma grows_read (P : Effect -> Prop) w w1 : grows P w w1 -> grows P w (consult [] w1).
Proof.
  intros (effects & Htrace & Hall & Hn). exists effects.
  split; [cbn; rewrite Htrace; apply app_nil_r|]. split; [exact Hall|exact Hn].
Qed.

(** *** The nodes *)

(** [understand_request] touches nothing: it returns the intent it read
    off a string message, and throws on any other message. *)
Lemma understandRequest_cases st w :
  (exists m i,
      get (fields st) "userMessage" = VStr m
      /\ plain (understandRequest h) st w
         = (inl (of_fields {[ "intent" := VIntent i ]}), w)
      /\ (intent_target i = None \/ intent_target i = extractCompanyName h m))
  \/ ((forall m, get (fields st) "userMessage" <> VStr m)
      /\ exists t, plain (understandRequest h) st w = (inr t, w)).
Proof.
  unfold plain, understandRequest. plumbing.
  destruct (get (fields st) "userMessage") as [| | | |m| | | |] eqn:Hm;
    try (right; split; [intros m'; discriminate|eexists; reflexivity]).
  left. exists m.
  destruct (includes "follow" _ || includes "email" _ || includes "send" _);
    [|destruct (includes "show" _ || includes "list" _ || includes "find" _)];
    eexists; (split; [reflexivity|]); (split; [reflexivity|]); cbn; auto.
Qed.

Lemma resilient_handleLookup_returns st w :
  let r := plain (handleLookup h code name) st w in
  Gate.grows_by quiet w r.2
  /\ exists p, r.1 = inl (of_fields p)
               /\ responds (of_fields p)
               /\ p !! "pendingAction" = None /\ p !! "approvalStatus" = None
               /\ p !! "errorDetails" = None.
Proof.
  intros r. subst r. unfold plain, handleLookup. plumbing.
  match goal with
  | |- context [queryLeadsWithRetry h code ?f w] =>
      destruct (queryLeads_settles f w) as [Hg _];
      destruct (queryLeadsWithRetry h code f w) as [[leads|t] w1]
  end; cbn [fst snd] in *.
  - destruct leads as [|lead leads]; (split; [exact Hg|]);
      eexists; (split; [reflexivity|]); repeat split; try reflexivity;
      eexists; (split; [reflexivity|]); discriminate.
  - split; [exact Hg|].
    eexists; (split; [reflexivity|]); repeat split; try reflexivity.
    eexists; (split; [reflexivity|]). apply formatUserError_nonempty.
Qed.

(** [handle_followup] only searches.  It drafts the e-mail for the first
    match of the company, or answers without proposing anything, or
    files the failure of the search. *)
Lemma handleFollowup_cases st w :
  let target := intent_target_of (get (fields st) "intent") in
  let r := handleFollowup h code name st w in
  Gate.grows_by quiet w r.2
  /\ ((exists c lead,
          target = VStr c /\ first_match h c lead /\ r.1 = inl (drafted lead))
      \/ (exists s, s <> "" /\ r.1 = inl (of_fields {[ "response" := VStr s ]}))
      \/ (exists t, r.1 = inl (failed_search (formatCaught name t) t))).
Proof.
  intros target r. subst r target. unfold handleFollowup.
  assert (Ht : (exists c, intent_target_of (get (fields st) "intent") = VStr c)
               \/ intent_target_of (get (fields st) "intent") = VUndefined).
  { unfold intent_target_of. destruct (get (fields st) "intent"); auto.
    destruct (intent_target _); eauto. }
  destruct Ht as [[c Hc]|Hc]; rewrite Hc.
  - destruct (truthy (VStr c)) eqn:Htarget; cbn [negb].
    + plumbing.
      destruct (queryLeads_settles (by_company (VStr c)) w) as [Hg Hv].
      destruct (queryLeadsWithRetry h code (by_company (VStr c)) w) as [[leads|t] w1];
        cbn [fst snd] in *.
      * destruct leads as [|lead leads]; cbn [fst snd]; (split; [exact Hg|]).
        -- right; left. eexists. split; [|reflexivity]. discriminate.
        -- left. exists c, lead. split; [reflexivity|]. split; [|reflexivity].
           destruct (Hv _ eq_refl) as (tick & data & Hreply & Hdata).
           destruct data as [rows|]; [|discriminate]. cbn in Hdata. subst rows.
           exists tick, leads. exact Hreply.
      * split; [exact Hg|]. right; right. exists t. reflexivity.
    + split; [apply grows_by_refl|]. right; left.
      eexists. split; [|reflexivity]. discriminate.
  - cbn [truthy negb]. split; [apply grows_by_refl|]. right; left.
    eexists. split; [|reflexivity]. discriminate.
Qed.

(** The gate touches nothing, and approves exactly when [AUTO_APPROVE] is
    ["true"]. *)
Lemma humanReview_decides st w :
  exists p,
    plain (humanReview h) st w = (inl (of_fields p), w)
    /\ ((env_get h "AUTO_APPROVE" = Some "true"
         /\ p = {[ "approvalStatus" := VStr "approved" ]})
        \/ (env_get h "AUTO_APPROVE" <> Some "true"
            /\ (p = {[ "approvalStatus" := VStr "rejected" ]} \/ p = ∅))).
Proof.
  unfold plain, humanReview. plumbing.
  case_bool_decide as Htrue; [|case_bool_decide as Hfalse];
    eexists; (split; [reflexivity|]); auto.
Qed.

(** [execute_email] never throws.  Whatever it does outside delivers the
    pending e-mail of the state, with at most two requests to the mail
    service. *)
Lemma executeApprovedEmail_cases st w :
  let r := plain (executeApprovedEmail h name) st w in
  grows (fun e => quiet e \/ delivers_pending st e) w r.2
  /\ exists p, r.1 = inl (of_fields p)
               /\ (p !! "response" = None \/ responds (of_fields p))
               /\ p !! "errorDetails" = None.
Proof.
  intros r. subst r. unfold plain, executeApprovedEmail.
  assert (Hno : forall A (x : A),
     grows (fun e => quiet e \/ delivers_pending st e) w
       ((p ← (mret ({[ "error" := VStr "No valid pending email" ]} : object) : M object);
         mret (of_fields p)) w).2
     /\ exists p, ((p ← (mret ({[ "error" := VStr "No valid pending email" ]} : object)
                           : M object);
                    mret (of_fields p)) w).1 = inl (of_fields p)
                  /\ (p !! "response" = None \/ responds (of_fields p))
                  /\ p !! "errorDetails" = None).
  { intros _ _. plumbing. split; [apply grows_same|].
    eexists. split; [reflexivity|]. split; [left|]; reflexivity. }
  destruct (get (fields st) "pendingAction") as [| | | | | | | |pa] eqn:Hpending;
    try exact (Hno _ tt).
  destruct pa as [type id leadName changes [content|]];
    destruct type; try exact (Hno _ tt).
  clear Hno. plumbing.
  destruct (resilient_sendEmail_effects content w) as [(effects & Htrace & Hall & Hn) Hok].
  assert (Hsent : grows (fun e => quiet e \/ delivers_pending st e) w
                    (Resilient.sendEmail h content w).2).
  { exists effects. split; [exact Htrace|]. split; [|exact Hn].
    eapply Forall_impl; [exact Hall|]. intros e [He|He]; [now left|right].
    eexists _, content. split; [exact Hpending|]. split; [reflexivity|]. apply He. }
  assert (Hinsert : forall w1 row,
            i_lead_id row = id -> interaction_type row = "email_sent" ->
            required_approval row = true -> approved row = true ->
            grows (fun e => quiet e \/ delivers_pending st e) w w1 ->
            grows (fun e => quiet e \/ delivers_pending st e) w
              (consult [DbInsert "interactions" row] w1)).
  { intros w1 row H1 H2 H3 H4 Hw1. apply grows_more; [exact Hw1| |reflexivity].
    right. eexists _, content. split; [exact Hpending|]. split; [reflexivity|].
    cbn. auto. }
  assert (Hupdate : forall w1 stamp,
            grows (fun e => quiet e \/ delivers_pending st e) w w1 ->
            grows (fun e => quiet e \/ delivers_pending st e) w
              (consult [DbUpdate "leads" [("last_contacted_at", SStr stamp)] id] w1)).
  { intros w1 stamp Hw1. apply grows_more; [exact Hw1| |reflexivity].
    right. eexists _, content. split; [exact Hpending|]. split; [reflexivity|].
    cbn. eauto. }
  destruct (Resilient.sendEmail h content w) as [[res|t] w1]; cbn [fst snd] in *.
  - rewrite (Hok res eq_refl). cbn [negb].
    repeat (split_match; plumbing); cbn [fst snd];
      (split; [auto using grows_read|]);
      eexists; (split; [reflexivity|]); (split; [|reflexivity]); right;
      eexists; (split; [reflexivity|]); discriminate.
  - split; [exact Hsent|].
    eexists; (split; [reflexivity|]); (split; [|reflexivity]); right.
    eexists; (split; [reflexivity|]); discriminate.
Qed.

Lemma resilient_handleOther_returns st w :
  exists p, plain handleOther st w = (inl (of_fields p), w)
            /\ responds (of_fields p) /\ p !! "errorDetails" = None.
Proof.
  eexists. split; [reflexivity|]. split; [|reflexivity].
  eexists. split; [reflexivity|]. discriminate.
Qed.

Lemma resilient_handleRejection_returns st w :
  exists p, plain handleRejection st w = (inl (of_fields p), w)
            /\ responds (of_fields p) /\ p !! "error" = None
            /\ p !! "errorDetails" = None.
Proof.
  eexists. split; [reflexivity|]. split; [|split; reflexivity].
  eexists. split; [reflexivity|]. discriminate.
Qed.

(** [error_recovery] touches nothing; on a state with a response it
    returns, keeping a response that mentions the cross or "trouble" and
    replacing any other by the advice. *)
Lemma errorRecovery_cases st w s :
  get (fields st) "response" = VStr s ->
  exists p,
    plain errorRecovery st w = (inl (of_fields p), w)
    /\ p !! "error" = Some VNull /\ p !! "errorDetails" = Some VNull
    /\ (p !! "pendingAction" = None \/ p !! "pendingAction" = Some VNull)
    /\ (p !! "approvalStatus" = None \/ p !! "approvalStatus" = Some VNull)
    /\ ((includes "❌" s || includes "trouble" s = true /\ p !! "response" = None)
        \/ (includes "❌" s || includes "trouble" s = false
            /\ p !! "response"
               = Some (VStr (advice (formatUserError (get (fields st) "error")))))).
Proof.
  intros Hs. unfold plain, errorRecovery, friendly_response, response_includes.
  rewrite Hs. plumbing.
  destruct (includes "❌" s); [|destruct (includes "trouble" s)]; cbn [orb];
    eexists; (split; [reflexivity|]); repeat split; auto.
Qed.

Lemma errorRecovery_quiet st w : (plain errorRecovery st w).2 = w.
Proof.
  unfold plain, errorRecovery, friendly_response, response_includes. plumbing.
  destruct (get (fields st) "response") as [| | | |s| | | |]; try reflexivity.
  destruct (includes "❌" s); [|destruct (includes "trouble" s)]; reflexivity.
Qed.

(** *** One step of a run *)

Abbreviation run_at :=
  (run_from merge (fun _ _ => None) has_error (fun _ : AgentState => false)
            (workflow h code name)).

Lemma graph_step node body n st w :
  nodes (workflow h code name) !! node = Some body ->
  run_at (S n) node st w =
  after_step (mkStep node st w (body st w).1 (body st w).2)
    match (body st w).1 with
    | inl partial =>
        match next (workflow h code name) node (merge st partial) with
        | None => stop failed (Some (UnknownRoute node)) (merge st partial) (body st w).2
        | Some END =>
            stop (if has_error (merge st partial) then failed else completed) None
                 (merge st partial) (body st w).2
        | Some (Goto node') => run_at n node' (merge st partial) (body st w).2
        end
    | inr thrown => stop failed (Some (NodeFailed node thrown)) st (body st w).2
    end.
Proof.
  intros Hnode. cbn [run_from].
  destruct (nodes (workflow h code name) !! node) as [body'|] eqn:Hbody.
  - injection Hnode as <-.
    destruct (body' st w) as [[partial|thrown] w1]; reflexivity.
  - discriminate Hnode.
Qed.

Lemma recorded_single node st w (p : AgentState) w1 :
  recorded_error [mkStep node st w (inl p) w1]
  <-> exists v, fields p !! "error" = Some v /\ truthy v = true.
Proof.
  rewrite recorded_error_cons. cbn [step_result]. split.
  - intros [(p' & v & [= <-] & Hp & Hv)|Hnil]; [eauto|].
    now apply recorded_error_nil in Hnil.
  - intros (v & Hp & Hv). left. eauto.
Qed.

Lemma recorded_skip node st w (p : AgentState) w1 ss :
  ~ (exists v, fields p !! "error" = Some v /\ truthy v = true) ->
  recorded_error (mkStep node st w (inl p) w1 :: ss) <-> recorded_error ss.
Proof.
  intros Hp. rewrite recorded_error_cons. cbn [step_result]. split; [|now right].
  intros [(p' & v & [= <-] & Hp' & Hv)|Hss]; [|exact Hss].
  exfalso. apply Hp. eauto.
Qed.

Lemma merged_no_error st p :
  truthy (get (fields st) "error") = false ->
  ~ (exists v, fields p !! "error" = Some v /\ truthy v = true) ->
  truthy (get (fields (merge st p)) "error") = false.
Proof.
  intros Hst Hp. destruct (truthy (get (fields (merge st p)) "error")) eqn:Ht; [|reflexivity].
  exfalso. apply Hp. now apply (merged_error st p Hst).
Qed.


(** *** The shape of the runs from each node *)

(** A node whose edge goes to [END], and that always returns a response
    without throwing. *)
Lemma shape_terminal node body n st w :
  nodes (workflow h code name) !! node = Some body ->
  edges (workflow h code name) !! node = Some (Fixed END) ->
  (forall st w, exists p, (body st w).1 = inl p
                          /\ (fields p !! "response" = None \/ responds p)) ->
  let o := run_at n node st w in
  path o ∈ [[]; [node]]
  /\ (failure o = None \/ (failure o = Some StepBudgetExceededError /\ n = 0%nat))
  /\ (has_response st -> has_response (final_state o))
  /\ ((forall st w, exists p, (body st w).1 = inl p /\ responds p) ->
      failure o = None -> has_response (final_state o))
  /\ (truthy (get (fields st) "error") = false ->
      truthy (get (fields (final_state o)) "error") = true <-> recorded_error (steps o)).
Proof.
  intros Hnode Hedge Hbody.
  destruct n as [|n].
  { cbn [run_from stop steps failure final_state world path fmap list_fmap].
    split; [in_list|]. split; [right; split; [reflexivity|lia]|].
    split; [tauto|]. split; [intros; discriminate|].
    intros Hst. rewrite Hst. split; [discriminate|].
    intros Hr. now apply recorded_error_nil in Hr. }
  intros o. subst o. rewrite (graph_step _ _ _ _ _ Hnode).
  destruct (Hbody st w) as (p & Hp & Hresp). rewrite Hp.
  unfold next. rewrite Hedge.
  cbn [after_step stop steps failure final_state path fmap list_fmap step_node].
  split; [in_list|]. split; [now left|].
  split; [intros Hst; now apply merged_response|].
  split.
  - intros Hall _. destruct (Hall st w) as (p' & Hp' & Hr').
    rewrite Hp in Hp'. injection Hp' as <-. now apply merged_responds.
  - intros Hst. rewrite recorded_single. now apply merged_error.
Qed.

Lemma at_execute :
  nodes (workflow h code name) !! "execute_email"
  = Some (plain (executeApprovedEmail h name)).
Proof. reflexivity. Qed.
Lemma at_rejection :
  nodes (workflow h code name) !! "handle_rejection" = Some (plain handleRejection).
Proof. reflexivity. Qed.
Lemma at_review :
  nodes (workflow h code name) !! "human_review" = Some (plain (humanReview h)).
Proof. reflexivity. Qed.
Lemma at_recovery :
  nodes (workflow h code name) !! "error_recovery" = Some (plain errorRecovery).
Proof. reflexivity. Qed.
Lemma at_followup :
  nodes (workflow h code name) !! "handle_followup" = Some (handleFollowup h code name).
Proof. reflexivity. Qed.
Lemma at_lookup :
  nodes (workflow h code name) !! "handle_lookup"
  = Some (plain (handleLookup h code name)).
Proof. reflexivity. Qed.
Lemma at_other :
  nodes (workflow h code name) !! "handle_other" = Some (plain handleOther).
Proof. reflexivity. Qed.
Lemma at_understand :
  nodes (workflow h code name) !! "understand_request"
  = Some (plain (understandRequest h)).
Proof. reflexivity. Qed.

Lemma errorRecovery_general st w :
  (exists p, plain errorRecovery st w = (inl (of_fields p), w)
             /\ p !! "error" = Some VNull)
  \/ exists t, plain errorRecovery st w = (inr t, w).
Proof.
  unfold plain, errorRecovery, friendly_response, response_includes. plumbing.
  destruct (get (fields st) "response") as [| | | |s| | | |];
    try (right; eexists; reflexivity);
    try (left; eexists; split; reflexivity).
  destruct (includes "❌" s); [|destruct (includes "trouble" s)];
    left; eexists; split; reflexivity.
Qed.

Lemma execute_contract st w :
  exists p, (plain (executeApprovedEmail h name) st w).1 = inl p
            /\ (fields p !! "response" = None \/ responds p).
Proof.
  destruct (executeApprovedEmail_cases st w) as (_ & p & Hp & Hresp & _). eauto.
Qed.

Lemma rejection_contract st w :
  exists p, (plain handleRejection st w).1 = inl p
            /\ (fields p !! "response" = None \/ responds p).
Proof.
  destruct (resilient_handleRejection_returns st w) as (p & Hp & Hresp & _).
  exists (of_fields p). rewrite Hp. auto.
Qed.

Lemma shape_review n st w :
  let o := run_at n "human_review" st w in
  path o ∈ [[]; ["human_review"]; ["human_review"; "execute_email"];
            ["human_review"; "handle_rejection"]]
  /\ (failure o = None \/ (failure o = Some StepBudgetExceededError /\ (n < 2)%nat))
  /\ (has_response st -> has_response (final_state o))
  /\ (truthy (get (fields st) "error") = false ->
      truthy (get (fields (final_state o)) "error") = true <-> recorded_error (steps o)).
Proof.
  destruct n as [|n].
  { cbn [run_from stop steps failure final_state world path fmap list_fmap].
    split; [in_list|]. split; [right; split; [reflexivity|lia]|].
    split; [tauto|]. intros Hst. rewrite Hst. split; [discriminate|].
    intros Hr. now apply recorded_error_nil in Hr. }
  intros o. subst o. rewrite (graph_step _ _ _ _ _ at_review).
  destruct (humanReview_decides st w) as (p & Hp & Hcases). rewrite Hp. cbn [fst snd].
  assert (Hresp : fields (of_fields p) !! "response" = None)
    by (destruct Hcases as [[_ ->]|[_ [->| ->]]]; reflexivity).
  assert (Herr : ~ (exists v, fields (of_fields p) !! "error" = Some v /\ truthy v = true)).
  { intros (v & Hv & _). destruct Hcases as [[_ ->]|[_ [->| ->]]]; discriminate. }
  clear Hcases Hp.
  set (st1 := merge st (of_fields p)).
  assert (Hkeep : has_response st -> has_response st1)
    by (intros Hst; apply merged_response; auto).
  assert (Hquiet : truthy (get (fields st) "error") = false ->
                   truthy (get (fields st1) "error") = false)
    by (intros Hst; now apply merged_no_error).
  unfold next. change (edges (workflow h code name) !! "human_review")
    with (Some (Conditional (on_fields Routers.Resilient.routeAfterReview)
                            Routers.Resilient.routeAfterReview_mapping
                : Edge AgentState)).
  unfold on_fields.
  destruct (resilient_routeAfterReview_cases (fields st1)) as [[-> _]|[[-> _]|[-> _]]].
  - change (Routers.Resilient.routeAfterReview_mapping !! "execute_email")
      with (Some (Goto "execute_email")).
    destruct (shape_terminal _ _ n st1 w at_execute eq_refl execute_contract)
      as (Ha & Hb & Hc & _ & Hd).
    cbn [after_step steps failure final_state path fmap list_fmap step_node].
    fold (path (run_at n "execute_email" st1 w)).
    split.
    { repeat (apply elem_of_cons in Ha as [->|Ha]); [in_list|in_list|].
      now apply elem_of_nil in Ha. }
    split; [destruct Hb as [Hb|[Hb ->]]; [now left|right; split; [exact Hb|lia]]|].
    split; [auto|].
    intros Hst. rewrite recorded_skip by exact Herr. auto.
  - change (Routers.Resilient.routeAfterReview_mapping !! "handle_rejection")
      with (Some (Goto "handle_rejection")).
    destruct (shape_terminal _ _ n st1 w at_rejection eq_refl rejection_contract)
      as (Ha & Hb & Hc & _ & Hd).
    cbn [after_step steps failure final_state path fmap list_fmap step_node].
    fold (path (run_at n "handle_rejection" st1 w)).
    split.
    { repeat (apply elem_of_cons in Ha as [->|Ha]); [in_list|in_list|].
      now apply elem_of_nil in Ha. }
    split; [destruct Hb as [Hb|[Hb ->]]; [now left|right; split; [exact Hb|lia]]|].
    split; [auto|].
    intros Hst. rewrite recorded_skip by exact Herr. auto.
  - change (Routers.Resilient.routeAfterReview_mapping !! "end") with (Some END).
    cbn [after_step stop steps failure final_state path fmap list_fmap step_node].
    split; [in_list|]. split; [now left|]. split; [exact Hkeep|].
    intros Hst. rewrite recorded_single. now apply merged_error.
Qed.

Lemma shape_recovery n st w :
  let o := run_at n "error_recovery" st w in
  path o ∈ [[]; ["error_recovery"]]
  /\ (failure o = None \/ (failure o = Some StepBudgetExceededError /\ n = 0%nat)
      \/ exists t, failure o = Some (NodeFailed "error_recovery" t))
  /\ (has_response st ->
      (failure o = None \/ (failure o = Some StepBudgetExceededError /\ n = 0%nat))
      /\ has_response (final_state o))
  /\ get (fields (final_state o)) "error" = get (fields st) "error"
  /\ ~ recorded_error (steps o).
Proof.
  destruct n as [|n].
  { cbn [run_from stop steps failure final_state world path fmap list_fmap].
    split; [in_list|]. split; [right; left; split; reflexivity|].
    split; [intros Hst; split; [right; split; reflexivity|exact Hst]|].
    split; [reflexivity|apply recorded_error_nil]. }
  intros o. subst o. rewrite (graph_step _ _ _ _ _ at_recovery).
  unfold next. change (edges (workflow h code name) !! "error_recovery")
    with (Some (Fixed END : Edge AgentState)).
  destruct (errorRecovery_general st w) as [(p & Hp & Herr)|(t & Ht)].
  - rewrite Hp. cbn [fst snd].
    cbn [after_step stop steps failure final_state path fmap list_fmap step_node].
    split; [in_list|]. split; [now left|].
    split.
    + intros (s & Hs & Hne). split; [now left|].
      destruct (errorRecovery_cases st w s Hs) as (p' & Hp' & _ & _ & _ & _ & Hresp).
      rewrite Hp in Hp'. injection Hp' as <-.
      destruct Hresp as [[_ Hr]|[_ Hr]].
      * apply merged_response; [exists s; auto|now left].
      * apply merged_responds. eexists. split; [exact Hr|]. discriminate.
    + split.
      * rewrite merged_get by declared. cbn [of_fields fields]. now rewrite Herr.
      * rewrite recorded_single. cbn [of_fields fields]. rewrite Herr.
        intros (v & [= <-] & Hv). discriminate.
  - rewrite Ht. cbn [fst snd].
    cbn [after_step stop steps failure final_state path fmap list_fmap step_node].
    split; [in_list|]. split; [right; right; eauto|].
    split.
    + intros (s & Hs & Hne).
      destruct (errorRecovery_cases st w s Hs) as (p' & Hp' & _).
      rewrite Ht in Hp'. discriminate.
    + split; [reflexivity|].
      rewrite recorded_error_cons. cbn [step_result].
      intros [(p & v & Hr & _)|Hr]; [discriminate|now apply recorded_error_nil in Hr].
Qed.

Lemma followup_responds st w :
  exists p, (handleFollowup h code name st w).1 = inl p /\ responds p.
Proof.
  destruct (handleFollowup_cases st w) as (_ & [(c & lead & _ & _ & Hr)|[(s & Hs & Hr)|(t & Hr)]]);
    rewrite Hr; eexists; (split; [reflexivity|]).
  - eexists. split; [reflexivity|]. discriminate.
  - exists s. split; [reflexivity|exact Hs].
  - eexists. split; [reflexivity|]. apply formatUserError_nonempty.
Qed.

Lemma shape_followup n st w :
  let o := run_at n "handle_followup" st w in
  path o ∈ [[]; ["handle_followup"]; ["handle_followup"; "error_recovery"];
            ["handle_followup"; "human_review"];
            ["handle_followup"; "human_review"; "execute_email"];
            ["handle_followup"; "human_review"; "handle_rejection"]]
  /\ (failure o = None \/ (failure o = Some StepBudgetExceededError /\ (n < 3)%nat))
  /\ ((0 < n)%nat -> has_response (final_state o))
  /\ (truthy (get (fields st) "error") = false ->
      truthy (get (fields (final_state o)) "error") = true <-> recorded_error (steps o)).
Proof.
  destruct n as [|n].
  { cbn [run_from stop steps failure final_state world path fmap list_fmap].
    split; [in_list|]. split; [right; split; [reflexivity|lia]|].
    split; [lia|]. intros Hst. rewrite Hst. split; [discriminate|].
    intros Hr. now apply recorded_error_nil in Hr. }
  intros o. subst o. rewrite (graph_step _ _ _ _ _ at_followup).
  destruct (followup_responds st w) as (p & Hp & Hresp). rewrite Hp.
  set (w1 := (handleFollowup h code name st w).2).
  set (st1 := merge st p).
  assert (Hst1 : has_response st1) by now apply merged_responds.
  unfold next. change (edges (workflow h code name) !! "handle_followup")
    with (Some (Conditional (on_fields Routers.Resilient.routeAfterFollowup)
                            Routers.Resilient.routeAfterFollowup_mapping
                : Edge AgentState)).
  unfold on_fields.
  destruct (routeAfterFollowup_cases (fields st1)) as [[-> He]|[[-> [He _]]|[-> [He _]]]].
  - change (Routers.Resilient.routeAfterFollowup_mapping !! "error_recovery")
      with (Some (Goto "error_recovery")).
    destruct (shape_recovery n st1 w1) as (Ha & _ & Hb & Hc & Hd).
    destruct (Hb Hst1) as [Hf Hr].
    cbn [after_step steps failure final_state path fmap list_fmap step_node].
    fold (path (run_at n "error_recovery" st1 w1)).
    split.
    { repeat (apply elem_of_cons in Ha as [->|Ha]); [in_list|in_list|].
      now apply elem_of_nil in Ha. }
    split; [destruct Hf as [Hf|[Hf ->]]; [now left|right; split; [exact Hf|lia]]|].
    split; [intros _; exact Hr|].
    intros Hst. rewrite Hc, He. split; [intros _|reflexivity].
    rewrite recorded_error_cons. left. cbn [step_result].
    destruct (proj1 (merged_error st p Hst) He) as (v & Hv & Htrue). eauto.
  - change (Routers.Resilient.routeAfterFollowup_mapping !! "human_review")
      with (Some (Goto "human_review")).
    destruct (shape_review n st1 w1) as (Ha & Hb & Hc & Hd).
    cbn [after_step steps failure final_state path fmap list_fmap step_node].
    fold (path (run_at n "human_review" st1 w1)).
    split.
    { repeat (apply elem_of_cons in Ha as [->|Ha]); [in_list|in_list|in_list|in_list|].
      now apply elem_of_nil in Ha. }
    split; [destruct Hb as [Hb|[Hb Hn]]; [now left|right; split; [exact Hb|lia]]|].
    split; [intros _; now apply Hc|].
    intros Hst. rewrite recorded_skip; [now apply Hd|].
    intros Hv. apply (merged_error st p Hst) in Hv. fold st1 in Hv. congruence.
  - change (Routers.Resilient.routeAfterFollowup_mapping !! "end") with (Some END).
    cbn [after_step stop steps failure final_state path fmap list_fmap step_node].
    split; [in_list|]. split; [now left|]. split; [intros _; exact Hst1|].
    intros Hst. rewrite recorded_single. now apply merged_error.
Qed.

Lemma lookup_contract st w :
  exists p, (plain (handleLookup h code name) st w).1 = inl p /\ responds p.
Proof.
  destruct (resilient_handleLookup_returns st w) as (_ & p & Hp & Hresp & _). eauto.
Qed.

Lemma other_contract st w :
  exists p, (plain handleOther st w).1 = inl p /\ responds p.
Proof.
  destruct (resilient_handleOther_returns st w) as (p & Hp & Hresp & _).
  exists (of_fields p). rewrite Hp. auto.
Qed.

Lemma weaken_contract (body : Node AgentState AgentState World) :
  (forall st w, exists p, (body st w).1 = inl p /\ responds p) ->
  forall st w, exists p, (body st w).1 = inl p
                         /\ (fields p !! "response" = None \/ responds p).
Proof. intros H st w. destruct (H st w) as (p & Hp & Hr). eauto. Qed.

Lemma shape_understand n st w :
  let o := run_at n "understand_request" st w in
  path o ∈ paths
  /\ (failure o = None
      \/ (failure o = Some StepBudgetExceededError /\ (n < 4)%nat)
      \/ (exists t, failure o = Some (NodeFailed "understand_request" t)
                    /\ forall m, get (fields st) "userMessage" <> VStr m)
      \/ (exists t, failure o = Some (NodeFailed "error_recovery" t)
                    /\ truthy (get (fields st) "error") = true))
  /\ (truthy (get (fields st) "error") = false ->
      failure o = None -> has_response (final_state o))
  /\ (truthy (get (fields st) "error") = false ->
      truthy (get (fields (final_state o)) "error") = true <-> recorded_error (steps o)).
Proof.
  destruct n as [|n].
  { cbn [run_from stop steps failure final_state world path fmap list_fmap].
    split; [unfold paths; in_list|]. split; [right; left; split; [reflexivity|lia]|].
    split; [intros; discriminate|]. intros Hst. rewrite Hst. split; [discriminate|].
    intros Hr. now apply recorded_error_nil in Hr. }
  intros o. subst o. unfold paths. rewrite (graph_step _ _ _ _ _ at_understand).
  destruct (understandRequest_cases st w) as [(m & i & Hm & Hp & _)|(Hm & t & Ht)].
  2:{ rewrite Ht. cbn [fst snd].
      cbn [after_step stop steps failure final_state path fmap list_fmap step_node].
      split; [in_list|]. split; [right; right; left; eauto|].
      split; [intros; discriminate|]. intros Hst. rewrite Hst. split; [discriminate|].
      rewrite recorded_error_cons. cbn [step_result].
      intros [(p & v & Hr & _)|Hr]; [discriminate|now apply recorded_error_nil in Hr]. }
  rewrite Hp. cbn [fst snd].
  set (p := of_fields {[ "intent" := VIntent i ]}).
  set (st1 := merge st p).
  assert (Herr1 : get (fields st1) "error" = get (fields st) "error")
    by (subst st1; now rewrite merged_get by declared).
  assert (Hskip : ~ (exists v, fields p !! "error" = Some v /\ truthy v = true))
    by (intros (v & Hv & _); discriminate).
  unfold next. change (edges (workflow h code name) !! "understand_request")
    with (Some (Conditional (on_fields Routers.Resilient.routeByIntent)
                            Routers.Resilient.routeByIntent_mapping
                : Edge AgentState)).
  unfold on_fields.
  destruct (resilient_routeByIntent_cases (fields st1))
    as [[-> He]|[He [-> |[[-> _]| ->]]]]; rewrite Herr1 in He.
  - change (Routers.Resilient.routeByIntent_mapping !! "error_recovery")
      with (Some (Goto "error_recovery")).
    destruct (shape_recovery n st1 w) as (Ha & Hb & _).
    cbn [after_step steps failure final_state path fmap list_fmap step_node].
    fold (path (run_at n "error_recovery" st1 w)).
    split.
    { repeat (apply elem_of_cons in Ha as [->|Ha]); [in_list|in_list|].
      now apply elem_of_nil in Ha. }
    split; [destruct Hb as [Hb|[[Hb ->]|[t Hb]]];
            [now left|right; left; split; [exact Hb|lia]|right; right; right; eauto]|].
    split; intros Hst; congruence.
  - change (Routers.Resilient.routeByIntent_mapping !! "handle_lookup")
      with (Some (Goto "handle_lookup")).
    destruct (shape_terminal _ _ n st1 w at_lookup eq_refl
                (weaken_contract _ lookup_contract)) as (Ha & Hb & _ & Hc & Hd).
    cbn [after_step steps failure final_state path fmap list_fmap step_node].
    fold (path (run_at n "handle_lookup" st1 w)).
    split.
    { repeat (apply elem_of_cons in Ha as [->|Ha]); [in_list|in_list|].
      now apply elem_of_nil in Ha. }
    split; [destruct Hb as [Hb|[Hb ->]]; [now left|right; left; split; [exact Hb|lia]]|].
    split; [intros _; apply Hc, lookup_contract|].
    intros Hst. rewrite recorded_skip by exact Hskip. apply Hd. congruence.
  - change (Routers.Resilient.routeByIntent_mapping !! "handle_followup")
      with (Some (Goto "handle_followup")).
    destruct (shape_followup n st1 w) as (Ha & Hb & Hc & Hd).
    cbn [after_step steps failure final_state path fmap list_fmap step_node].
    fold (path (run_at n "handle_followup" st1 w)).
    split.
    { repeat (apply elem_of_cons in Ha as [->|Ha]);
        [in_list|in_list|in_list|in_list|in_list|in_list|].
      now apply elem_of_nil in Ha. }
    split; [destruct Hb as [Hb|[Hb Hn]]; [now left|right; left; split; [exact Hb|lia]]|].
    split.
    + intros _ Hf. apply Hc. destruct n as [|n]; [discriminate Hf|lia].
    + intros Hst. rewrite recorded_skip by exact Hskip. apply Hd. congruence.
  - change (Routers.Resilient.routeByIntent_mapping !! "handle_other")
      with (Some (Goto "handle_other")).
    destruct (shape_terminal _ _ n st1 w at_other eq_refl
                (weaken_contract _ other_contract)) as (Ha & Hb & _ & Hc & Hd).
    cbn [after_step steps failure final_state path fmap list_fmap step_node].
    fold (path (run_at n "handle_other" st1 w)).
    split.
    { repeat (apply elem_of_cons in Ha as [->|Ha]); [in_list|in_list|].
      now apply elem_of_nil in Ha. }
    split; [destruct Hb as [Hb|[Hb ->]]; [now left|right; left; split; [exact Hb|lia]]|].
    split; [intros _; apply Hc, other_contract|].
    intros Hst. rewrite recorded_skip by exact Hskip. apply Hd. congruence.
Qed.

(** *** What the runs from each node do outside *)

Lemma effects_terminal node body n st w :
  nodes (workflow h code name) !! node = Some body ->
  edges (workflow h code name) !! node = Some (Fixed END) ->
  (forall st w, Gate.grows_by quiet w (body st w).2) ->
  Gate.grows_by quiet w (world (run_at n node st w)).
Proof.
  intros Hnode Hedge Hbody. destruct n as [|n]; [apply grows_by_refl|].
  rewrite (graph_step _ _ _ _ _ Hnode). unfold next. rewrite Hedge.
  destruct (body st w).1; cbn [after_step stop world]; apply Hbody.
Qed.

Lemma effects_recovery n st w : world (run_at n "error_recovery" st w) = w.
Proof.
  destruct n as [|n]; [reflexivity|].
  rewrite (graph_step _ _ _ _ _ at_recovery). unfold next.
  change (edges (workflow h code name) !! "error_recovery")
    with (Some (Fixed END : Edge AgentState)).
  destruct (plain errorRecovery st w).1; cbn [after_step stop world];
    apply errorRecovery_quiet.
Qed.

Lemma effects_rejection n st w : world (run_at n "handle_rejection" st w) = w.
Proof.
  destruct n as [|n]; [reflexivity|].
  rewrite (graph_step _ _ _ _ _ at_rejection). reflexivity.
Qed.

Lemma effects_execute n st w :
  grows (fun e => quiet e \/ delivers_pending st e) w
        (world (run_at n "execute_email" st w)).
Proof.
  destruct n as [|n]; [apply grows_same|].
  rewrite (graph_step _ _ _ _ _ at_execute). unfold next.
  change (edges (workflow h code name) !! "execute_email")
    with (Some (Fixed END : Edge AgentState)).
  destruct (executeApprovedEmail_cases st w) as (Hg & p & Hp & _).
  rewrite Hp. cbn [after_step stop world]. exact Hg.
Qed.

(** After the gate, a state that was not approved before is executed only
    when [AUTO_APPROVE] is ["true"]. *)
Lemma effects_review n st w :
  is_str (get (fields st) "approvalStatus") "approved" = false ->
  grows (fun e => quiet e
                  \/ (env_get h "AUTO_APPROVE" = Some "true" /\ delivers_pending st e))
        w (world (run_at n "human_review" st w)).
Proof.
  intros Hst. destruct n as [|n]; [apply grows_same|].
  rewrite (graph_step _ _ _ _ _ at_review).
  destruct (humanReview_decides st w) as (p & Hp & Hcases). rewrite Hp. cbn [fst snd].
  set (st1 := merge st (of_fields p)).
  assert (Hpending : get (fields st1) "pendingAction" = get (fields st) "pendingAction").
  { subst st1. rewrite merged_get by declared.
    destruct Hcases as [[_ ->]|[_ [->| ->]]]; reflexivity. }
  unfold next. change (edges (workflow h code name) !! "human_review")
    with (Some (Conditional (on_fields Routers.Resilient.routeAfterReview)
                            Routers.Resilient.routeAfterReview_mapping
                : Edge AgentState)).
  unfold on_fields.
  destruct (resilient_routeAfterReview_cases (fields st1)) as [[-> Hr]|[[-> _]|[-> _]]].
  - change (Routers.Resilient.routeAfterReview_mapping !! "execute_email")
      with (Some (Goto "execute_email")).
    cbn [after_step world].
    assert (Hauto : env_get h "AUTO_APPROVE" = Some "true").
    { destruct Hcases as [[Hauto _]|[_ Hp']]; [exact Hauto|exfalso].
      subst st1. rewrite merged_get in Hr by declared.
      destruct Hp' as [-> | ->].
      - change (is_str (VStr "rejected") "approved" = true) in Hr. discriminate.
      - change (is_str (get (fields st) "approvalStatus") "approved" = true) in Hr.
        congruence. }
    eapply grows_impl; [|apply effects_execute].
    intros e [He|(pa & content & Hpa & Hc & He)]; [now left|right].
    split; [exact Hauto|]. exists pa, content. rewrite <- Hpending. auto.
  - change (Routers.Resilient.routeAfterReview_mapping !! "handle_rejection")
      with (Some (Goto "handle_rejection")).
    cbv beta iota. cbn [after_step world]. rewrite effects_rejection. apply grows_same.
  - change (Routers.Resilient.routeAfterReview_mapping !! "end") with (Some END).
    cbn [after_step stop world]. apply grows_same.
Qed.

(** From [handle_followup] on, a run that did not start with an action
    awaiting approval only queries, unless [AUTO_APPROVE] is ["true"]: then
    it may deliver the follow-up to the first match of the company. *)
Lemma effects_followup n st w :
  is_str (get (fields st) "approvalStatus") "pending" = false ->
  grows (fun e => quiet e
                  \/ (env_get h "AUTO_APPROVE" = Some "true"
                      /\ follows_up h (intent_target_of (get (fields st) "intent")) e))
        w (world (run_at n "handle_followup" st w)).
Proof.
  intros Hst. destruct n as [|n]; [apply grows_same|].
  rewrite (graph_step _ _ _ _ _ at_followup).
  destruct (handleFollowup_cases st w) as (Hg & Hcases).
  set (w1 := (handleFollowup h code name st w).2) in *.
  assert (Hquiet : forall p,
            fields p !! "approvalStatus" = None ->
            grows (fun e => quiet e
                    \/ (env_get h "AUTO_APPROVE" = Some "true"
                        /\ follows_up h (intent_target_of (get (fields st) "intent")) e))
              w (world
                   match next (workflow h code name) "handle_followup" (merge st p) with
                   | Some (Goto node') => run_at n node' (merge st p) w1
                   | Some END =>
                       stop (if has_error (merge st p) then failed else completed)
                            None (merge st p) w1
                   | None =>
                       stop failed (Some (UnknownRoute "handle_followup")) (merge st p) w1
                   end)).
  { intros p Hp. apply grows_quiet; [now left|].
    unfold next. change (edges (workflow h code name) !! "handle_followup")
      with (Some (Conditional (on_fields Routers.Resilient.routeAfterFollowup)
                              Routers.Resilient.routeAfterFollowup_mapping
                  : Edge AgentState)).
    unfold on_fields.
    destruct (routeAfterFollowup_cases (fields (merge st p)))
      as [[-> _]|[[-> [_ Hr]]|[-> _]]].
    - change (Routers.Resilient.routeAfterFollowup_mapping !! "error_recovery")
        with (Some (Goto "error_recovery")).
      cbv beta iota. now rewrite effects_recovery.
    - rewrite merged_get, Hp in Hr by declared. congruence.
    - change (Routers.Resilient.routeAfterFollowup_mapping !! "end") with (Some END).
      exact Hg. }
  destruct Hcases as [(c & lead & Hc & Hmatch & Hr)|[(s & Hs & Hr)|(t & Hr)]];
    rewrite Hr; cbn [after_step world].
  - set (st1 := merge st (drafted lead)).
    unfold next. change (edges (workflow h code name) !! "handle_followup")
      with (Some (Conditional (on_fields Routers.Resilient.routeAfterFollowup)
                              Routers.Resilient.routeAfterFollowup_mapping
                  : Edge AgentState)).
    unfold on_fields.
    destruct (routeAfterFollowup_cases (fields st1)) as [[-> _]|[[-> _]|[-> _]]].
    + change (Routers.Resilient.routeAfterFollowup_mapping !! "error_recovery")
        with (Some (Goto "error_recovery")).
      cbv beta iota. rewrite effects_recovery. apply grows_quiet; [now left|exact Hg].
    + change (Routers.Resilient.routeAfterFollowup_mapping !! "human_review")
        with (Some (Goto "human_review")).
      cbv beta iota. eapply grows_after; [| |exact Hg|apply effects_review].
      * intros e He. now left.
      * intros e [He|[Hauto (pa & content & Hpa & Hcontent & He)]]; [now left|right].
        split; [exact Hauto|]. exists c, lead. split; [exact Hc|]. split; [exact Hmatch|].
        subst st1. rewrite merged_get in Hpa by declared. cbn in Hpa.
        injection Hpa as <-. cbn in Hcontent. injection Hcontent as <-. exact He.
      * subst st1. now rewrite merged_get by declared.
    + change (Routers.Resilient.routeAfterFollowup_mapping !! "end") with (Some END).
      cbn [stop world]. apply grows_quiet; [now left|exact Hg].
  - apply Hquiet. reflexivity.
  - apply Hquiet. reflexivity.
Qed.

Lemma effects_understand n st w m :
  get (fields st) "userMessage" = VStr m ->
  is_str (get (fields st) "approvalStatus") "pending" = false ->
  grows (fun e =>
           quiet e
           \/ (env_get h "AUTO_APPROVE" = Some "true"
               /\ exists c lead,
                    extractCompanyName h m = Some c /\ first_match h c lead
                    /\ delivers (lead_id lead) (followup_email lead) e))
        w (world (run_at n "understand_request" st w)).
Proof.
  intros Hm Hst. destruct n as [|n]; [apply grows_same|].
  rewrite (graph_step _ _ _ _ _ at_understand).
  destruct (understandRequest_cases st w) as [(m' & i & Hm' & Hp & Htarget)|(Hm' & _)];
    [|now destruct (Hm' m)].
  rewrite Hm in Hm'. injection Hm' as <-.
  rewrite Hp. cbn [fst snd after_step world].
  set (st1 := merge st (of_fields {[ "intent" := VIntent i ]})).
  unfold next. change (edges (workflow h code name) !! "understand_request")
    with (Some (Conditional (on_fields Routers.Resilient.routeByIntent)
                            Routers.Resilient.routeByIntent_mapping
                : Edge AgentState)).
  unfold on_fields.
  destruct (resilient_routeByIntent_cases (fields st1)) as [[-> _]|[_ [-> |[[-> _]| ->]]]].
  - change (Routers.Resilient.routeByIntent_mapping !! "error_recovery")
      with (Some (Goto "error_recovery")).
    cbv beta iota. rewrite effects_recovery. apply grows_same.
  - change (Routers.Resilient.routeByIntent_mapping !! "handle_lookup")
      with (Some (Goto "handle_lookup")).
    apply grows_quiet; [now left|].
    apply (effects_terminal _ _ _ _ _ at_lookup eq_refl).
    intros st' w'. apply resilient_handleLookup_returns.
  - change (Routers.Resilient.routeByIntent_mapping !! "handle_followup")
      with (Some (Goto "handle_followup")).
    eapply grows_impl; [|apply effects_followup].
    + intros e [He|[Hauto (c & lead & Hc & Hmatch & He)]]; [now left|right].
      split; [exact Hauto|]. exists c, lead. split; [|auto].
      subst st1. rewrite merged_get in Hc by declared.
      change (match intent_target i with Some t => VStr t | None => VUndefined end
              = VStr c) in Hc.
      destruct Htarget as [Ht|Ht]; rewrite Ht in Hc; [discriminate|].
      destruct (extractCompanyName h m); [|discriminate]. now injection Hc as ->.
    + subst st1. now rewrite merged_get by declared.
  - change (Routers.Resilient.routeByIntent_mapping !! "handle_other")
      with (Some (Goto "handle_other")).
    apply grows_quiet; [now left|].
    apply (effects_terminal _ _ _ _ _ at_other eq_refl).
    intros st' w'. apply grows_by_refl.
Qed.

(** *** The runs that reach [error_recovery] *)

Lemma formatCaught_message t :
  caught_message t <> "" ->
  formatCaught name t = formatUserError (VStr (caught_message t)).
Proof.
  destruct t as [e|]; cbn [caught_message]; intros Hne; unfold formatCaught, caught_text.
  - destruct (String.eqb_spec (Retry.message e) ""); [contradiction|reflexivity].
  - reflexivity.
Qed.

Lemma truthy_string msg : truthy (VStr msg) = true -> msg <> "".
Proof.
  cbn [truthy]. destruct (String.eqb_spec msg ""); [discriminate|auto].
Qed.

Ltac off_path Hin Ha :=
  repeat (apply elem_of_cons in Ha as [Ha|Ha]);
  try (now apply elem_of_nil in Ha);
  rewrite Ha in Hin;
  repeat (apply elem_of_cons in Hin as [Hin|Hin]; [discriminate|]);
  now apply elem_of_nil in Hin.

Lemma recovered_followup n st w :
  truthy (get (fields st) "error") = false ->
  let o := run_at n "handle_followup" st w in
  "error_recovery" ∈ path o ->
  exists t,
    let text := formatUserError (VStr (caught_message t)) in
    path o = ["handle_followup"; "error_recovery"]
    /\ failure o = None
    /\ caught_message t <> ""
    /\ (exists s, steps o !! 0%nat = Some s /\ step_result s = inl (failed_search text t))
    /\ get (fields (final_state o)) "error" = VStr (caught_message t)
    /\ details (final_state o)
       = Some {| details_node := "handleFollowup"; details_error := t |}
    /\ get (fields (final_state o)) "pendingAction" = get (fields st) "pendingAction"
    /\ get (fields (final_state o)) "approvalStatus" = get (fields st) "approvalStatus"
    /\ get (fields (final_state o)) "response"
       = VStr (if includes "trouble" text then text else advice text)
    /\ Gate.grows_by quiet w (world o).
Proof.
  intros Hst o Hin. subst o.
  destruct n as [|n]; [now apply elem_of_nil in Hin|].
  revert Hin. rewrite (graph_step _ _ _ _ _ at_followup).
  destruct (handleFollowup_cases st w) as (Hg & Hcases).
  set (w1 := (handleFollowup h code name st w).2) in *.
  assert (Hp : exists p, (handleFollowup h code name st w).1 = inl p
                 /\ (fields p !! "error" = None
                     \/ exists t, p = failed_search (formatCaught name t) t)).
  { destruct Hcases as [(c & lead & _ & _ & Hr)|[(s & _ & Hr)|(t & Hr)]];
      rewrite Hr; eexists; (split; [reflexivity|]); [left|left|right]; eauto; reflexivity. }
  clear Hcases. destruct Hp as (p & Hp & Hcases). rewrite Hp.
  set (st1 := merge st p).
  unfold next. change (edges (workflow h code name) !! "handle_followup")
    with (Some (Conditional (on_fields Routers.Resilient.routeAfterFollowup)
                            Routers.Resilient.routeAfterFollowup_mapping
                : Edge AgentState)).
  unfold on_fields.
  destruct (routeAfterFollowup_cases (fields st1)) as [[-> He]|[[-> _]|[-> _]]].
  - change (Routers.Resilient.routeAfterFollowup_mapping !! "error_recovery")
      with (Some (Goto "error_recovery")).
    cbv beta iota.
    destruct Hcases as [Hnone|(t & ->)].
    { subst st1. rewrite merged_get, Hnone in He by declared. congruence. }
    assert (Herror0 : get (fields st1) "error" = VStr (caught_message t))
      by (subst st1; now rewrite merged_get by declared).
    rewrite Herror0 in He. apply truthy_string in He. clear Herror0.
    subst st1. rewrite (formatCaught_message t He).
    set (text := formatUserError (VStr (caught_message t))).
    set (st1 := merge st (failed_search text t)).
    assert (Herror : get (fields st1) "error" = VStr (caught_message t))
      by (subst st1; now rewrite merged_get by declared).
    assert (Hresponse : get (fields st1) "response" = VStr text)
      by (subst st1; now rewrite merged_get by declared).
    destruct n as [|n].
    { cbn [run_from after_step stop steps path fmap list_fmap step_node].
      intros Hin. apply elem_of_cons in Hin as [Hin|Hin]; [discriminate|].
      now apply elem_of_nil in Hin. }
    rewrite (graph_step _ _ _ _ _ at_recovery).
    destruct (errorRecovery_cases st1 w1 text Hresponse)
      as (q & Hq & Hqe & Hqd & Hqp & Hqa & Hqr).
    rewrite Hq. cbn [fst snd]. unfold next.
    change (edges (workflow h code name) !! "error_recovery")
      with (Some (Fixed END : Edge AgentState)).
    cbn [after_step stop steps failure final_state world path fmap list_fmap
         step_node lookup list_lookup step_result].
    intros _. exists t. cbv zeta. fold text.
    split; [reflexivity|]. split; [reflexivity|]. split; [exact He|].
    split; [eexists; split; reflexivity|].
    split.
    { rewrite merged_get by declared. cbn [of_fields fields]. rewrite Hqe.
      exact Herror. }
    split.
    { unfold merge at 1. cbn [details of_fields fields]. rewrite Hqd. reflexivity. }
    split.
    { rewrite merged_get by declared. cbn [of_fields fields].
      assert (Hkeep : get (fields st1) "pendingAction" = get (fields st) "pendingAction")
        by (subst st1; now rewrite merged_get by declared).
      destruct Hqp as [-> | ->]; exact Hkeep. }
    split.
    { rewrite merged_get by declared. cbn [of_fields fields].
      assert (Hkeep : get (fields st1) "approvalStatus" = get (fields st) "approvalStatus")
        by (subst st1; now rewrite merged_get by declared).
      destruct Hqa as [-> | ->]; exact Hkeep. }
    split; [|exact Hg].
    rewrite merged_get by declared. cbn [of_fields fields].
    destruct (user_errors_friendly text (ResilientFacts.formatUserError_range _))
      as [Hcross _].
    rewrite Hcross in Hqr. cbn [orb] in Hqr.
    destruct Hqr as [[-> ->]|[-> ->]]; [exact Hresponse|].
    rewrite Herror. reflexivity.
  - change (Routers.Resilient.routeAfterFollowup_mapping !! "human_review")
      with (Some (Goto "human_review")).
    cbv beta iota.
    destruct (shape_review n st1 w1) as (Ha & _).
    cbn [after_step steps path fmap list_fmap step_node].
    fold (path (run_at n "human_review" st1 w1)).
    intros Hin. exfalso. off_path Hin Ha.
  - change (Routers.Resilient.routeAfterFollowup_mapping !! "end") with (Some END).
    cbn [after_step stop steps path fmap list_fmap step_node].
    intros Hin. exfalso.
    apply elem_of_cons in Hin as [Hin|Hin]; [discriminate|].
    now apply elem_of_nil in Hin.
Qed.

Lemma recovered_understand n st w :
  truthy (get (fields st) "error") = false ->
  let o := run_at n "understand_request" st w in
  "error_recovery" ∈ path o ->
  exists t,
    let text := formatUserError (VStr (caught_message t)) in
    path o = ["understand_request"; "handle_followup"; "error_recovery"]
    /\ failure o = None
    /\ caught_message t <> ""
    /\ (exists s, steps o !! 1%nat = Some s /\ step_result s = inl (failed_search text t))
    /\ get (fields (final_state o)) "error" = VStr (caught_message t)
    /\ details (final_state o)
       = Some {| details_node := "handleFollowup"; details_error := t |}
    /\ get (fields (final_state o)) "pendingAction" = get (fields st) "pendingAction"
    /\ get (fields (final_state o)) "approvalStatus" = get (fields st) "approvalStatus"
    /\ get (fields (final_state o)) "response"
       = VStr (if includes "trouble" text then text else advice text)
    /\ Gate.grows_by quiet w (world o).
Proof.
  intros Hst o Hin. subst o.
  destruct n as [|n]; [now apply elem_of_nil in Hin|].
  revert Hin. rewrite (graph_step _ _ _ _ _ at_understand).
  destruct (understandRequest_cases st w) as [(m & i & Hm & Hp & _)|(Hm & t & Ht)].
  2:{ rewrite Ht. cbn [fst snd after_step stop steps path fmap list_fmap step_node].
      intros Hin. exfalso.
      apply elem_of_cons in Hin as [Hin|Hin]; [discriminate|].
      now apply elem_of_nil in Hin. }
  rewrite Hp. cbn [fst snd].
  set (st1 := merge st (of_fields {[ "intent" := VIntent i ]})).
  assert (Herr1 : get (fields st1) "error" = get (fields st) "error")
    by (subst st1; now rewrite merged_get by declared).
  unfold next. change (edges (workflow h code name) !! "understand_request")
    with (Some (Conditional (on_fields Routers.Resilient.routeByIntent)
                            Routers.Resilient.routeByIntent_mapping
                : Edge AgentState)).
  unfold on_fields.
  destruct (resilient_routeByIntent_cases (fields st1))
    as [[-> He]|[He [-> |[[-> _]| ->]]]]; rewrite Herr1 in He; [congruence| | |].
  - change (Routers.Resilient.routeByIntent_mapping !! "handle_lookup")
      with (Some (Goto "handle_lookup")).
    cbv beta iota.
    destruct (shape_terminal _ _ n st1 w at_lookup eq_refl
                (weaken_contract _ lookup_contract)) as (Ha & _).
    cbn [after_step steps path fmap list_fmap step_node].
    fold (path (run_at n "handle_lookup" st1 w)).
    intros Hin. exfalso. off_path Hin Ha.
  - change (Routers.Resilient.routeByIntent_mapping !! "handle_followup")
      with (Some (Goto "handle_followup")).
    cbv beta iota.
    cbn [after_step steps failure final_state world path fmap list_fmap step_node].
    fold (path (run_at n "handle_followup" st1 w)).
    intros Hin. apply elem_of_cons in Hin as [Hin|Hin]; [discriminate|].
    destruct (recovered_followup n st1 w ltac:(congruence) Hin)
      as (t & Hpath & Hf & Hne & Hs & He' & Hd & Hpa & Has & Hr & Hg).
    exists t. cbv zeta.
    split; [unfold path in Hpath |- *; now rewrite Hpath|].
    split; [exact Hf|]. split; [exact Hne|].
    split; [exact Hs|]. split; [exact He'|]. split; [exact Hd|].
    split; [rewrite Hpa; subst st1; now rewrite merged_get by declared|].
    split; [rewrite Has; subst st1; now rewrite merged_get by declared|].
    split; [exact Hr|exact Hg].
  - change (Routers.Resilient.routeByIntent_mapping !! "handle_other")
      with (Some (Goto "handle_other")).
    cbv beta iota.
    destruct (shape_terminal _ _ n st1 w at_other eq_refl
                (weaken_contract _ other_contract)) as (Ha & _).
    cbn [after_step steps path fmap list_fmap step_node].
    fold (path (run_at n "handle_other" st1 w)).
    intros Hin. exfalso. off_path Hin Ha.
Qed.

End WithHost.

Lemma paths_short : Forall (fun p : list string => (length p <= 4)%nat /\ NoDup p) paths.
Proof.
  unfold paths.
  repeat (apply Forall_cons; split;
          [split; [cbn; lia|
                   repeat (apply NoDup_cons_2;
                           [intros H;
                            repeat (apply elem_of_cons in H as [H|H]; [discriminate|]);
                            now apply elem_of_nil in H|]);
                   apply NoDup_nil_2]|]).
  apply Forall_nil_2.
Qed.

Lemma initial_clean m :
  truthy (get (fields (of_fields (initial m))) "error") = false
  /\ is_str (get (fields (of_fields (initial m))) "approvalStatus") "pending" = false
  /\ get (fields (of_fields (initial m))) "userMessage" = VStr m
  /\ get (fields (of_fields (initial m))) "pendingAction" = VNull
  /\ get (fields (of_fields (initial m))) "approvalStatus" = VNull.
Proof. repeat split. Qed.

(** X24: every run of the resilient graph, from any state, under any step
    budget and whatever the outside world answers, follows one of the
    walks of the graph: [understand_request], then one handler or
    [error_recovery], then after [handle_followup] the gate or
    [error_recovery], then after the gate [execute_email] or
    [handle_rejection].  So a run executes at most four nodes, and no
    node twice.  A run ends at [END] unless the budget is below four, or
    [understand_request] throws on a message that is not a string, or
    [error_recovery] throws when it is entered from a state that already
    carried an error: no other node lets an exception escape, and every
    output of a router has a destination. *)
Theorem resilient_graph_paths (h : Host) (code name : JsError -> string) (budget : nat)
    (state : AgentState) (w : World) :
  let o := invoke h code name budget state w in
  path o ∈ paths
  /\ (executed o <= 4)%nat
  /\ NoDup (path o)
  /\ (failure o = None
      \/ (failure o = Some StepBudgetExceededError /\ (budget < 4)%nat)
      \/ (exists t, failure o = Some (NodeFailed "understand_request" t)
                    /\ forall m, get (fields state) "userMessage" <> VStr m)
      \/ (exists t, failure o = Some (NodeFailed "error_recovery" t)
                    /\ truthy (get (fields state) "error") = true)).
Proof.
  intros o. subst o. unfold invoke, run.
  change (entry (workflow h code name)) with "understand_request".
  destruct (shape_understand h code name budget state w) as (Hpath & Hfail & _).
  pose proof paths_short as Hshort. rewrite Forall_forall in Hshort.
  destruct (Hshort _ Hpath) as [Hlen Hdup].
  split; [exact Hpath|]. split; [|split; [exact Hdup|exact Hfail]].
  unfold executed. unfold path in Hlen. now rewrite length_fmap in Hlen.
Qed.

(** X25: what a run of the resilient agent on a message does outside.
    Besides queries and pauses, every effect is part of one follow-up: the
    request to the mail service with the drafted e-mail for the first row
    the database returned for the company named in the message, the
    record of that interaction, or the time stamp on that lead.  Such
    effects occur only when [AUTO_APPROVE] is ["true"]; otherwise the run
    only queries and sleeps.  At most two requests go to the mail service
    in a run. *)
Theorem resilient_mail_needs_approval (h : Host) (code name : JsError -> string)
    (budget : nat) (m : string) (w : World) :
  let o := invoke h code name budget (of_fields (initial m)) w in
  exists effects,
    trace (world o) = (trace w ++ effects)%list
    /\ (length (posts effects) <= 2)%nat
    /\ Forall (fun e =>
                 quiet e
                 \/ (env_get h "AUTO_APPROVE" = Some "true"
                     /\ exists c lead,
                          extractCompanyName h m = Some c /\ first_match h c lead
                          /\ delivers (lead_id lead) (followup_email lead) e)) effects
    /\ (env_get h "AUTO_APPROVE" <> Some "true" -> Forall quiet effects).
Proof.
  intros o. subst o. unfold invoke, run.
  change (entry (workflow h code name)) with "understand_request".
  destruct (initial_clean m) as (_ & Hstatus & Hm & _).
  destruct (effects_understand h code name budget _ w m Hm Hstatus)
    as (effects & Htrace & Hall & Hn).
  exists effects. split; [exact Htrace|]. split; [exact Hn|]. split; [exact Hall|].
  intros Hauto. eapply Forall_impl; [exact Hall|].
  intros e [He|[Ha _]]; [exact He|contradiction].
Qed.

(** X26: [runAgent] of the resilient agent, which has no [catch], does not
    reject under a step budget of four or more.  Its message is the
    response of the final state, which is never empty, so the fallback
    ["No response"] is never used; and it reports [success: false]
    exactly when a node of the run returned an error, also when
    [error_recovery] ran afterwards. *)
Theorem resilient_runAgent_answers (h : Host) (code name : JsError -> string)
    (budget : nat) (engine_error : Failure -> JsError) (m : string) (w : World) :
  (4 <= budget)%nat ->
  let o := invoke h code name budget (of_fields (initial m)) w in
  exists s,
    s <> ""
    /\ get (fields (final_state o)) "response" = VStr s
    /\ runAgent h code name budget engine_error m w
       = (inl {| answer_success := negb (truthy (get (fields (final_state o)) "error"));
                 answer_message := VStr s |}, world o)
    /\ (truthy (get (fields (final_state o)) "error") = true
        <-> recorded_error (steps o)).
Proof.
  intros Hbudget o. subst o. unfold runAgent, app_invoke, invoke, run.
  change (entry (workflow h code name)) with "understand_request". plumbing.
  destruct (initial_clean m) as (Herr & _ & Hm & _).
  destruct (shape_understand h code name budget (of_fields (initial m)) w)
    as (_ & Hfail & Hresp & Herror).
  cbv zeta in Hfail, Hresp, Herror.
  set (o := run_from _ _ _ _ _ _ _ _ _) in *.
  assert (Hnone : failure o = None).
  { destruct Hfail as [Hf|[[_ Hlt]|[(t & _ & Hno)|(t & _ & Hyes)]]];
      [exact Hf|lia|now destruct (Hno m)|congruence]. }
  destruct (Hresp Herr Hnone) as (s & Hs & Hne).
  exists s. split; [exact Hne|]. split; [exact Hs|]. split; [|apply Herror, Herr].
  rewrite Hnone, Hs. cbn [truthy].
  destruct (String.eqb_spec s ""); [contradiction|reflexivity].
Qed.

(** The agent answers a greeting with the hint of [handle_other]. *)
Lemma resilient_runAgent_answers_witness :
  let o := invoke Demo.host no_code plain_name 4 (of_fields (initial "Hello")) start in
  exists s,
    s <> ""
    /\ get (fields (final_state o)) "response" = VStr s
    /\ runAgent Demo.host no_code plain_name 4 (fun _ => mkError "" None None)
                "Hello" start
       = (inl {| answer_success := negb (truthy (get (fields (final_state o)) "error"));
                 answer_message := VStr s |}, world o)
    /\ (truthy (get (fields (final_state o)) "error") = true
        <-> recorded_error (steps o)).
Proof.
  apply (resilient_runAgent_answers Demo.host no_code plain_name 4
           (fun _ => mkError "" None None) "Hello" start).
  lia.
Defined.

(** X27: a run of the resilient agent on a message reaches
    [error_recovery] only after [handle_followup] has caught a failure of
    its search, with a message that is not empty: the failures of
    [handle_lookup] and [execute_email] never reach it.  The run then ends
    at [END] having only queried and slept.  The recovery clears nothing:
    the final state still holds the error and its details, no action is
    pending, and [runAgent] reports [success: false].  The response is the
    text of [formatUserError] for the message: as it is when it is the one
    about the connection, and wrapped in the advice otherwise. *)
Theorem resilient_recovery_keeps_error (h : Host) (code name : JsError -> string)
    (budget : nat) (engine_error : Failure -> JsError) (m : string) (w : World) :
  let o := invoke h code name budget (of_fields (initial m)) w in
  "error_recovery" ∈ path o ->
  exists t,
    let text := formatUserError (VStr (caught_message t)) in
    let response := if includes "trouble" text then text else advice text in
    path o = ["understand_request"; "handle_followup"; "error_recovery"]
    /\ caught_message t <> ""
    /\ (exists s, steps o !! 1%nat = Some s /\ step_result s = inl (failed_search text t))
    /\ get (fields (final_state o)) "error" = VStr (caught_message t)
    /\ details (final_state o)
       = Some {| details_node := "handleFollowup"; details_error := t |}
    /\ get (fields (final_state o)) "pendingAction" = VNull
    /\ get (fields (final_state o)) "approvalStatus" = VNull
    /\ Gate.grows_by quiet w (world o)
    /\ runAgent h code name budget engine_error m w
       = (inl {| answer_success := false; answer_message := VStr response |}, world o).
Proof.
  intros o Hin. subst o. revert Hin. unfold runAgent, app_invoke, invoke, run.
  change (entry (workflow h code name)) with "understand_request". plumbing.
  intros Hin.
  destruct (initial_clean m) as (Herr & _ & _ & Hpending & Hstatus).
  destruct (recovered_understand h code name budget (of_fields (initial m)) w Herr Hin)
    as (t & Hpath & Hf & Hne & Hs & He & Hd & Hpa & Has & Hr & Hg).
  clear Hin. set (o := run_from _ _ _ _ _ _ _ _ _) in *.
  exists t. cbv zeta.
  split; [exact Hpath|]. split; [exact Hne|]. split; [exact Hs|].
  split; [exact He|]. split; [exact Hd|].
  split; [now rewrite <- Hpending|]. split; [now rewrite <- Hstatus|].
  split; [exact Hg|].
  rewrite Hf, He, Hr.
  cbn [truthy].
  destruct (String.eqb_spec (caught_message t) ""); [contradiction|].
  cbn [negb].
  set (text := formatUserError (VStr (caught_message t))).
  assert (Htext : text <> "") by apply formatUserError_nonempty.
  destruct (includes "trouble" text).
  - destruct (String.eqb_spec text ""); [contradiction|reflexivity].
  - reflexivity.
Qed.

(** A database that answers every search with an error: the request for a
    follow-up ends in [error_recovery], and the agent reports the failure. *)
Lemma resilient_recovery_keeps_error_witness :
  exists response w',
    runAgent Examples.no_rows_host no_code plain_name 4 (fun _ => mkError "" None None)
             "send follow-up to techcorp" start
    = (inl {| answer_success := false; answer_message := VStr response |}, w').
Proof.
  destruct (resilient_recovery_keeps_error Examples.no_rows_host no_code plain_name 4
              (fun _ => mkError "" None None) "send follow-up to techcorp" start)
    as (t & _ & _ & _ & _ & _ & _ & _ & _ & Hrun).
  - assert (Hpath : path (invoke Examples.no_rows_host no_code plain_name 4
                            (of_fields (initial "send follow-up to techcorp")) start)
                    = ["understand_request"; "handle_followup"; "error_recovery"])
      by (vm_compute; reflexivity).
    rewrite Hpath. in_list.
  - eexists _, _. exact Hrun.
Defined.

(** X28: [execute_email] sends its requests to the database only after
    [sendEmail] has resolved, which without a key for the mail service is
    the simulated send.  When [sendEmail] throws, nothing is requested of
    the database: the update carries the message of the error and the
    response that the e-mail could not be sent.  When it resolves, the
    insert of the interaction is requested, with the message id, and then,
    unless the database client rejected that call, the time stamp on the
    lead.  The [error] fields of the two replies are not looked at: when
    the client does not reject, the node reports the e-mail as sent and
    returns no error, whatever errors the replies carry.  So an update
    without an error means that both requests were made, not that
    anything was written. *)
Theorem execute_email_requests_after_send (h : Host) (name : JsError -> string)
    (st : object) (w : World) (pa : PendingAction) (content : EmailContent) :
  get st "pendingAction" = VPending pa ->
  action_type pa = send_email ->
  emailContent pa = Some content ->
  let sent := Resilient.sendEmail h content w in
  let r := executeApprovedEmail h name st w in
  match sent.1 with
  | inr t => r = (inl (send_failed (formatCaught name t) t), sent.2)
  | inl res =>
      exists p writes,
        r.1 = inl p
        /\ trace r.2
           = (trace sent.2
              ++ DbInsert "interactions" (sent_record (leadId pa) content (messageId res))
                 :: writes)%list
        /\ (writes = []
            \/ exists stamp,
                 writes = [DbUpdate "leads" [("last_contacted_at", SStr stamp)] (leadId pa)])
        /\ (p !! "error" = None -> writes <> [])
        /\ (writes = [] ->
            exists e, p = send_failed (formatCaught name (Threw e)) (Threw e))
        /\ ((forall t table row, exists data reply_error,
                db_insert h t table row = DbReturned data reply_error) ->
            (forall t table chg id, exists data reply_error,
                db_update h t table chg id = DbReturned data reply_error) ->
            p = reported_sent content (messageId res) /\ writes <> [])
  end.
Proof.
  intros Hpending Htype Hcontent sent r. subst sent r.
  unfold executeApprovedEmail. rewrite Hpending.
  destruct pa as [type id leadName changes email]. cbn in Htype, Hcontent |- *.
  subst type email. plumbing.
  destruct (resilient_sendEmail_effects h content w) as [_ Hok].
  destruct (Resilient.sendEmail h content w) as [[res|t] w1]; cbn [fst snd] in *;
    [|reflexivity].
  rewrite (Hok res eq_refl). cbn [negb]. unfold sent_record.
  destruct (db_insert h (tick w1) _ _) as [d1 e1|e] eqn:Hinsert; cbn [db_reply].
  - destruct (db_update h _ _ _ _) as [d2 e2|e] eqn:Hupdate; cbn [db_reply fst snd];
      eexists _, [_]; (split; [reflexivity|]);
      (split; [cbn [trace consult]; rewrite <- !app_assoc; reflexivity|]);
      (split; [right; eexists; reflexivity|]);
      (split; [intros _; discriminate|]);
      (split; [intros Hnil; discriminate Hnil|]).
    + intros _ _. split; [reflexivity|discriminate].
    + intros _ Hnever. exfalso.
      match type of Hupdate with
      | db_update h ?t ?table ?chg ?i = _ =>
          destruct (Hnever t table chg i) as (d & re & Hre)
      end.
      congruence.
  - cbn [fst snd]. eexists _, []. split; [reflexivity|].
    split; [reflexivity|]. split; [now left|].
    split; [intros Hp; discriminate Hp|].
    split; [intros _; eexists; reflexivity|].
    intros Hnever _. exfalso.
    match type of Hinsert with
    | db_insert h ?t ?table ?row = _ =>
        destruct (Hnever t table row) as (d & re & Hre)
    end.
    congruence.
Qed.

(** Without a key for the mail service the send is simulated; the
    database answers both requests with "permission denied", and the node
    reports the e-mail as sent all the same. *)
Lemma execute_email_requests_after_send_witness :
  (executeApprovedEmail refusing_db_host plain_name approved_followup start).1
  = inl (reported_sent (followup_email Demo.techcorp) (Some "mock-1700000000000")).
Proof.
  pose proof (execute_email_requests_after_send refusing_db_host plain_name
                approved_followup start _ (followup_email Demo.techcorp)
                eq_refl eq_refl eq_refl) as H.
  hnf in H. destruct H as (p & writes & Hp & _ & _ & _ & _ & Hanswered).
  destruct Hanswered as [-> _].
  - intros t table row. do 2 eexists. reflexivity.
  - intros t table chg id. do 2 eexists. reflexivity.
  - exact Hp.
Defined.

End ResilientRuns.

(** ** The first node: whatever the service answers *)

Module FirstNodeFacts.
Import Js Retry Host Email FirstNode.
Import GateFacts.

Lemma valid_type (t : option json) :
  is_valid t = true -> exists s, t = Some (JStr s) /\ s ∈ validTypes.
Proof.
  destruct t as [[| | |s| |]|]; try discriminate. cbn [is_valid].
  intros Hs. exists s. split; [reflexivity|]. now apply bool_decide_eq_true_1 in Hs.
Qed.

Lemma unknown_valid : "unknown" ∈ validTypes.
Proof. unfold validTypes. repeat first [apply list_elem_of_here | apply list_elem_of_further]. Qed.

(** X29: the first node never rejects, calls the text generation service
    once, with the prompt built from the message, and does nothing else;
    and whatever the service answers, the intent it returns has one of
    the five valid types.  Case by case: when the service fails, or its
    answer has no content, or the answer parses to [null], a number, a
    string or a boolean, the [catch] branch returns the intent ["unknown"]
    with the error [Classification error: <message>] (for a failure of
    the service, the message of that failure).  When the answer parses to
    an object or an array, no error is returned, and the intent is the
    parsed value as it is if its type is valid, and with the type set to
    ["unknown"] if not.  When neither the text nor its part between
    braces parses, the intent is the default one, without an error. *)
Theorem understandRequest_always_classifies (h : Host)
    (JSON_parse : string -> json + JsError) (state : object) (w : World) :
  let prompt := classificationPrompt (get state "userMessage") in
  let caught := fun msg =>
    {| intent := unclassified; error := Some ("Classification error: " ++ msg) |} in
  exists u,
    understandRequest h JSON_parse state w = (inl u, consult [LlmCall prompt] w)
    /\ (exists t, type_of (intent u) = Some (JStr t) /\ t ∈ validTypes)
    /\ (error u = None
        \/ (intent u = unclassified
            /\ exists msg, error u = Some ("Classification error: " ++ msg)))
    /\ match messages_create h (tick w) prompt with
       | inr failure => u = caught (Retry.message failure)
       | inl [] => exists msg, u = caught msg
       | inl (block :: _) =>
           let text := match block with TextBlock t => t | OtherBlock => "" end in
           match extractJsonSafely JSON_parse text with
           | JObj props =>
               u = {| intent := if is_valid (prop "type" props) then JObj props
                                else JObj (("type", JStr "unknown") :: props);
                      error := None |}
           | JArr items props =>
               u = {| intent := if is_valid (prop "type" props) then JArr items props
                                else JArr items (("type", JStr "unknown") :: props);
                      error := None |}
           | JNull | JBool _ | JNum _ | JStr _ => exists msg, u = caught msg
           end
           /\ ((exists e, JSON_parse text = inr e) ->
               (forall m, Agent.match_object text = Some m -> exists e, JSON_parse m = inr e) ->
               u = {| intent := unparsed; error := None |})
       end.
Proof.
  intros prompt caught. subst caught.
  unfold understandRequest, await, create_message. plumbing. fold prompt.
  destruct (messages_create h (tick w) prompt) as [[|block blocks]|e]; cbn [fst snd].
  - eexists. split; [reflexivity|].
    split; [exists "unknown"; split; [reflexivity|apply unknown_valid]|].
    split; [right; split; [reflexivity|]; eexists; reflexivity|].
    eexists. reflexivity.
  - set (text := match block with TextBlock t => t | OtherBlock => "" end).
    assert (Hunparsed :
      (exists e, JSON_parse text = inr e) ->
      (forall m, Agent.match_object text = Some m -> exists e, JSON_parse m = inr e) ->
      extractJsonSafely JSON_parse text = unparsed).
    { intros [e He] Hpart. unfold extractJsonSafely. rewrite He.
      destruct (Agent.match_object text) as [m|]; [|reflexivity].
      destruct (Hpart m eq_refl) as [e' ->]. reflexivity. }
    unfold read_type.
    destruct (extractJsonSafely JSON_parse text) as [|b|x|s|items props|props] eqn:Hv;
      plumbing; cbn [type_of];
      try (eexists; split; [reflexivity|];
           split; [exists "unknown"; split; [reflexivity|apply unknown_valid]|];
           split; [right; split; [reflexivity|]; eexists; reflexivity|];
           split; [eexists; reflexivity|];
           intros He Hpart; specialize (Hunparsed He Hpart); discriminate Hunparsed).
    + destruct (is_valid (prop "type" props)) eqn:Hvalid; cbn [set_type_unknown]; plumbing;
        eexists; (split; [reflexivity|]); cbn [intent error type_of];
        (split; [|split; [now left|split; [reflexivity|]]]);
        try (now apply valid_type);
        try (exists "unknown"; split; [reflexivity|apply unknown_valid]);
        intros He Hpart; specialize (Hunparsed He Hpart); discriminate Hunparsed.
    + destruct (is_valid (prop "type" props)) eqn:Hvalid; cbn [set_type_unknown]; plumbing;
        eexists; (split; [reflexivity|]); cbn [intent error type_of];
        (split; [|split; [now left|split; [reflexivity|]]]);
        try (now apply valid_type);
        try (exists "unknown"; split; [reflexivity|apply unknown_valid]);
        intros He Hpart; specialize (Hunparsed He Hpart);
        injection Hunparsed as ->;
        first [reflexivity | vm_compute in Hvalid; discriminate Hvalid].
  - eexists. split; [reflexivity|].
    split; [exists "unknown"; split; [reflexivity|apply unknown_valid]|].
    split; [right; split; [reflexivity|]; eexists; reflexivity|].
    reflexivity.
Qed.

End FirstNodeFacts.
